(* ===== verification/_CoqProject ===== *)
-Q . S2P
Prelude.v
RustStr.v
Triple.v
Ast.v
Schema.v
CqlValue.v
Keys.v
Project.v
Kv.v
Pipeline.v
Storage.v
Rows.v
Scans.v
Catalog.v
Acked.v
System.v
Query.v
Tickets.v
Wire.v
Protocol.v
Server.v
Client.v
Frames.v
Select.v
Dml.v
Statements.v
Ddl.v
Mutate.v
Health.v
Session.v
Conn.v
World.v
Restart.v
Clients.v
Load.v
Direct.v
Entry.v
