(* ===== verification/Prelude.v ===== *)
(** * RhydaDB: a verified model of the database, its server and its clients

    RhydaDB (src/) is a single-node database that speaks the CQL binary protocol
    and keeps its data in several RocksDB instances ("engines").  This library
    models it in executable definitions, from the bytes of a connection down to
    the write batches of an engine, and proves what clients rely on.

    ** The program and its model

    A request travels server -> query engine -> storage -> write pipelines ->
    RocksDB, and values cross three codecs on the way (protocol, row, key).

    - [Prelude]: bytes, the result type [res] ([Ok], [Err], and [Panic] for a Rust
      panic), the state monad [st], w-bit integers and big-endian encodings as Z,
      byte order, tactics and the hint database [rhyda].
    - [Triple]: a small program logic for [st], with its own hint database.
    - [RustStr]: what the sources use of [str]: UTF-8 validation, [trim], decimal
      parsing and printing, quotes.  Unicode case mapping is the class
      [UnicodeCase].
    - [Ast]: the shape of the statements the parser crate returns.
    - [Schema] (src/src/schema.rs): [ColumnType], [TableDef], [norm_id],
      [ident_eq], [build_table_def].
    - [CqlValue] (src/src/cql_value.rs): [Value], [write_wire], [from_wire],
      [raw_bytes], [parse_literal].  Floats are bit patterns, [==] is IEEE
      equality ([value_eqb]).  Float, address and hex grammars: class [Literals].
    - [Keys] (src/src/storage.rs, the pure part): [encode_key], [decode_key],
      [fnv1a], [data_engine], [prefix_upper_bound], the row codec
      [encode_row_columns]/[decode_row_columns], the persisted engine count.
    - [Project] (src/src/query.rs): [project_decoded], [project_fast_point],
      [handle_entry].
    - [Kv]: RocksDB as the class [KV] of fallible calls; [KVLaws] is what its
      documentation promises of a working database (a map; write batches applied
      in order and atomically; iterators in byte order); [mem_kv] satisfies them,
      [full_disk_kv] is a database that refuses writes.
    - [Pipeline] (storage.rs, [spawn_writer], [batch_apply]): one engine with its
      channels, collector and committer thread as a labelled transition system
      ([pipe_step]); a oneshot channel is a ticket number, completed when its
      sender is dropped.
    - [Storage] (storage.rs, [impl Storage]): the state (engines, keyspace and
      table maps, statement cache, row cache) and every operation on it.
      serde_json is the class [Json] with the law [JsonLaws] (documents read back
      what was written).
    - [Rows], [Scans], [Catalog]: theorems on row operations, scans and range
      deletes, and the schema operations.  [Acked]: what holds of an acknowledged
      write while everybody else goes on ([others]).
    - [System] (storage.rs, [open] from the opened databases on, [seed_system]):
      the system keyspaces.
    - [Query] (src/src/query.rs): every statement and the entry points [execute],
      [execute_prepared], ...  [Select], [Dml], [Mutate] (UPDATE and DELETE),
      [Ddl] (schema statements) and [Statements] hold its theorems; [Tickets]
      shows that statements return only tickets that were issued.
    - [Wire]: the crate scylla-cql, which reads and writes the notations of the
      protocol, as the class [Wire]; [WireLaws] is what the protocol's
      specification says of them, and [cql_wire] satisfies it.
    - [Protocol] (src/src/protocol.rs): the frame header and every response body.
    - [Server] (src/src/server.rs): the state of a connection ([ConnShared]), the
      handlers of all opcodes ([handle_request]), the frame reader ([reader_step]),
      and the reader, the spawned requests and the writer of a connection as a
      labelled transition system ([conn_step]).
    - [Client] (src/src/bin/): the three benchmark programs: the two protocol
      clients ([Bench], [BenchAsync]) and the storage benchmark ([Honest]).
    - [Frames]: the specification's readers of results, and the theorems on
      response frames.  [Session]: theorems on the handlers, one client at a time.
      [Conn]: theorems on the transition system of one connection.  [Clients]: on
      what the programs send.
    - [World] (src/src/server.rs, [run]; server_monoio.rs, [per_core_listener]):
      the accept loops, all connections on one storage and the pipeline threads,
      as one transition system ([world_step]).
    - [Restart] (storage.rs, [open], [meta_write_opts], [Drop for Storage]): a data
      directory ([Node]: the marker file and the engine directories), the whole of
      start-up on it ([open_node]) with its error paths, the engine and write
      options, the WAL flush thread, shutting down, and the death of the process.
      What RocksDB leaves in a directory is the class [Durable], what its
      documentation promises of that [DurableLaws]; [disk_durable] satisfies them.
    - [Load] (src/src/bin/, [main]): the two network benchmarks as a whole: the
      set-up, and threads, barrier, counters, joining and report as a transition
      system over the interface [LoadClient].
    - [Direct] (src/src/bin/bench_honest.rs): the workers of the storage benchmark
      beside the pipeline threads.
    - [Health] (src/src/health.rs): the answer to an HTTP request, the accept loop.
    - [Entry] (src/src/main.rs, src/src/server_monoio.rs): [main] from the
      configuration to the running server, with the listeners and threads of either
      runtime; the monoio server, whose handlers are those of [Server] and whose
      writing loop is its own.

    Storage operations and statements are one step each, with one exception; the
    pipeline threads ([Rows.thread]) and other requests act between them.  The
    exception is [get_row], which holds no lock over its two accesses to the row
    cache: it is [cache_lookup], [row_fetch] and [row_fill], and in [Acked.others]
    - row writes, both kinds, TRUNCATE, schema operations, reads, threads - anything
    may happen between the last two.  A read can in this way put an old version of
    a row into the cache after a newer one was committed ([racing_read_stale],
    [cleared_cache_stale], [deleted_row_resurrected]), so the theorems on
    acknowledged writes say that no read does so to the row they are about
    ([no_stale] for the reads under way, [may_find] for later ones), and that nobody
    else writes the row or removes it with its table.  Schema lookups have the same
    race ([racing_lookup_stale] shows it) but are one step everywhere else, and so
    are the statements that change the schema: that a mirror row deleted by DROP is
    still queued when CREATE TABLE starts is covered ([recreated_table_unmirrored]),
    that it is committed in the middle of it is not.

    In the same way a request is one step up to its first wait (for its tickets,
    then for room in the response channel); between the steps of a connection the
    storage may become anything ([Conn]), which covers the other connections; in
    [World] it becomes what they and the threads make of it.  A write to a socket is
    a step of the writer that may be taken at any time or never: progress is stated
    for peers that take the bytes they are sent, and [program_answers] lets any
    others have stopped ([stalled]).  The client of the benchmarks, in turn, is given
    all the bytes its server will ever send and finds the end of the stream after
    them; a server that stays silent on an open connection is outside the model.

    ** What is proved

    - End to end: a client that prepares an INSERT and a SELECT and executes them
      by the ids it was given reads back its row from the bytes of the answer
      ([session_insert_select]), built from the same fact on statements
      ([insert_then_select]), from [prepare_then_execute] and [rows_reach_client].
      UPDATE and DELETE are followed to the SELECT in the same way
      ([update_then_select], [delete_then_select]).
    - The running program: when [main] comes to a server, its own steps come to an
      end, and only when every request on every live connection whose peer takes
      bytes is answered ([program_answers], on [every_request_answered]).
    - From run to run: when sockets, threads and files are granted, a node that was
      shut down, or in durable mode killed, is started again with its schema
      ([main_serves]); a clean restart keeps every row ([restart_keeps]); an
      acknowledged write survives any number of restarts and crashes in durable mode
      ([acked_row_survives]), down to the INSERT and SELECT of a client
      ([insert_survives]).  A crash may take the marker of the engine count, which is
      not synced; the start after it is then assumed to come to the count the node
      had ([starts_on]), and [lost_marker_misroutes] is the other case.  A start that
      fails does no harm ([failed_open_harmless]).
    - Connections, under every interleaving of the tasks: the accepted requests
      are those answered or lost to a panic and those in progress, each once
      ([one_answer_per_request]); every response carries the stream of a request
      ([responses_carry_stream]); once writes are committed a connection always
      has a step that brings it closer to having answered everything, and whatever
      it does lowers a measure that ends ([connection_progress]); the monoio writer sends
      exactly the responses, in order ([monoio_output]); a USE is applied before
      the next frame is read ([use_before_next_frame]).
    - Statements: what a scanning SELECT returns, and where it is cut short
      ([select_scan_rows], [hard_cap_truncates]); UPDATE
      without reading is read-modify-write ([upsert_is_update]); the two
      projection paths agree ([fast_point_equiv]); system keyspaces are
      read-only; the statement cache is transparent.
    - Concurrency: under every interleaving an engine is the sequential map with
      a prefix of the sent operations applied, and a completed ticket lies in that
      prefix ([pipeline_refines]); nothing accepted is lost at shutdown
      ([drain_commits]), waiting ends ([settle_completes]), batches are bounded;
      read-your-writes ([acked_put_read], [acked_delete_read]).
    - Schema: the catalog refines a pair of finite maps ([catalog_refines]), the
      schema statements refine a machine on them ([ddl_refines]), and a created
      table is described in system_schema at once ([created_table_described]).
    - Storage: scans return exactly the committed rows ([scan_rows_exact],
      [scan_partition_exact]), TRUNCATE empties exactly its table ([truncate_empties]),
      the first start seeds exactly the system tables ([open_seeds], [first_start]).
    - Codecs: wire values, rows, keys, types and literals round-trip; decoders are
      total and typed, with the exact inputs on which they panic.
    - Benchmarks: the set-up is in lock step with the server ([setup_lockstep]),
      the report is exact in every interleaving ([report_exact]), and the program
      returns exactly when all its connections can be set up or none can
      ([bench_returns_iff]); the storage benchmark counts what it did
      ([direct_counts]).
    - Clients: what the benchmark clients send is what the server reads
      ([client_request_read]), the two clients send the same bytes
      ([clients_agree]), the fill loop ends unless the pipeline depth is zero, and
      then never does ([fill_terminates]), the key generator is a permutation
      ([xorshift_permutes]).
    - Defects: a number of theorems exhibit behaviour the code does not intend (a
      cached row that survives its delete or a newer write, a dropped table that
      comes back, paging that never continues, a
      DROP/CREATE race in the schema mirror, failed commits that are acknowledged,
      aliases looked up as columns, a STARTUP that ends its reader, responses cut
      short by a partial write, prepared ids that come round again, an accept
      error that stops the server, a panic that takes a monoio thread with all its
      connections, a table in a keyspace that does not exist, a
      benchmark that waits for ever at its barrier, a first start that is cut short
      and never completed, rows hidden by a lost marker, schema changes lost with
      the process, a listener that fails in silence, ...).

    ** Bounds and fuel

    Loops over bytes carry fuel equal to the number of bytes, and each turn
    consumes at least one: [decode_key_exact] and [decode_row_typed] show the
    fuel never runs out (running out is [Panic]).  [drain] gets [work e], a
    measure every action decreases ([drain_commits]); the steps of a server
    decrease a lexicographic one, the input and requests of its connections and
    then the work of the threads ([World.own_step_cost]), and those of a benchmark
    whose time is over decrease [load_work].  [from_data_type] calls
    itself only with an empty definition, so two levels are enough, and two are
    what [read_option] reads.  Sums of [usize] panic on overflow, as with
    overflow checks on.  Lengths are cast to their width as the code casts them (u16 in keys,
    i32 in values), so the theorems state where they fit.  The fill loops of the
    clients get the number of rows as fuel: with a positive pipeline depth each
    turn fills at least one, with depth zero the program does not end and the
    model is [Panic] for every fuel.  The argument loops get the number of
    arguments, the lossy UTF-8 decoder the number of bytes.

    ** Not modelled

    What sockets, the file system and thread creation answer is an input of the
    model, not modelled itself; nor are the two runtimes, logging, clocks, histograms
    and printed throughput.  A panic ends the task it happens in, and with monoio the
    thread of the task ([loops_after]).  A collector or committer
    thread that cannot be started is a panic of [Storage::open] that is left out.
    Of RocksDB the library assumes [KVLaws] and [DurableLaws]; its options are
    passed on ([engine_options]) and only [create_if_missing] has a meaning.  What a
    crash leaves of writes without a WAL is left open, except that they may be lost.
    The parser (crate and vendored grammar) is a parameter of [Query].  The main
    program of the storage benchmark, which opens a storage and prints the two
    phases, is not composed. *)

From Stdlib Require Export ZArith Lia.
From Stdlib Require Export Strings.Byte.
From stdpp Require Export sorting relations.
From stdpp Require Export base tactics gmap strings option list.
From stdpp Require Import pretty countable.

#[global] Set Default Goal Selector "!".
#[global] Unset Program Cases.

(** ** Bytes *)

Abbreviation byte := Byte.byte.
(** [Vec<u8>] and [&[u8]]. *)
Abbreviation bytes := (list Byte.byte).
(** [String] and [&str]: the UTF-8 bytes of the text. *)
Abbreviation str := (list Byte.byte).

#[global] Instance byte_eq_dec : EqDecision byte := Byte.byte_eq_dec.

(** [b as u64], [b as i64]: the unsigned value of a byte. *)
Definition byte_to_Z (b : byte) : Z := Z.of_N (Byte.to_N b).

(** [z as u8]: truncation to the low eight bits. *)
Definition Z_to_byte (z : Z) : byte :=
  default Byte.x00 (Byte.of_N (Z.to_N (z mod 256))).

#[global] Program Instance byte_countable : Countable byte :=
  inj_countable' byte_to_Z Z_to_byte _.
Next Obligation. by intros []. Qed.

(** The bytes of a string literal of the source. *)
Definition bs (s : string) : bytes := String.list_byte_of_string s.
Arguments bs _%_string.

Lemma byte_to_Z_range (b : byte) : (0 <= byte_to_Z b < 256)%Z.
Proof. by destruct b. Qed.

Lemma Z_to_byte_to_Z (b : byte) : Z_to_byte (byte_to_Z b) = b.
Proof. by destruct b. Qed.

Lemma byte_to_Z_to_byte (z : Z) : byte_to_Z (Z_to_byte z) = (z mod 256)%Z.
Proof.
  assert (Hr : (0 <= z mod 256 < 256)%Z) by (apply Z.mod_pos_bound; lia).
  unfold byte_to_Z, Z_to_byte.
  destruct (Byte.of_N (Z.to_N (z mod 256))) as [b|] eqn:E.
  - apply Byte.to_of_N in E. change (Z.of_N (Byte.to_N b) = (z mod 256)%Z).
    rewrite E. lia.
  - apply Byte.of_N_None_iff in E. lia.
Qed.

Lemma byte_to_Z_inj (a b : byte) : byte_to_Z a = byte_to_Z b -> a = b.
Proof. intros H. by rewrite <-(Z_to_byte_to_Z a), H, Z_to_byte_to_Z. Qed.

(** ** Results, errors and panics *)

(** A Rust computation returns a value, returns an [Err], or panics (an index
    out of bounds, an [unwrap] or [expect] on a failure). *)
Inductive res (E A : Type) : Type :=
| Ok (a : A)
| Err (e : E)
| Panic.
Arguments Ok {_ _} _.
Arguments Err {_ _} _.
Arguments Panic {_ _}.

#[global] Instance res_ret E : MRet (res E) := fun A a => Ok a.
#[global] Instance res_bind E : MBind (res E) := fun A B f m =>
  match m with Ok a => f a | Err e => Err e | Panic => Panic end.
#[global] Instance res_fmap E : FMap (res E) := fun A B f m =>
  match m with Ok a => Ok (f a) | Err e => Err e | Panic => Panic end.

(** [Result::map_err]. *)
Definition map_err {E F A} (f : E -> F) (m : res E A) : res F A :=
  match m with Ok a => Ok a | Err e => Err (f e) | Panic => Panic end.

(** [Option::ok_or_else]. *)
Definition ok_or {E A} (o : option A) (e : E) : res E A :=
  match o with Some a => Ok a | None => Err e end.

(** [unwrap] / [expect] on an option. *)
Definition unwrap {E A} (o : option A) : res E A :=
  match o with Some a => Ok a | None => Panic end.

(** [Iterator::collect] into a [Result<Vec<_>>], and [for] loops that push one
    fallible value per element: left to right, stopping at the first failure. *)
Fixpoint map_res {E A B} (f : A -> res E B) (l : list A) : res E (list B) :=
  match l with
  | [] => Ok []
  | a :: l' => b ← f a; bl ← map_res f l'; Ok (b :: bl)
  end.

(** [for _ in 0..n { s = step(s)? }]: [n] steps, stopping at the first failure.
    Binary recursion, so that a count read from the wire is never unfolded to a
    unary number before the loop runs. *)
Fixpoint times_pos {E S} (p : positive) (step : S -> res E S) (s : S) : res E S :=
  match p with
  | xH => step s
  | xO q => s1 ← times_pos q step s; times_pos q step s1
  | xI q => s0 ← step s; s1 ← times_pos q step s0; times_pos q step s1
  end.
Definition times {E S} (n : Z) (step : S -> res E S) (s : S) : res E S :=
  match n with Zpos p => times_pos p step s | _ => Ok s end.
(** The same loop with a unary count. *)
Fixpoint rep {E S} (n : nat) (step : S -> res E S) (s : S) : res E S :=
  match n with O => Ok s | S m => s1 ← step s; rep m step s1 end.

Definition is_ok {E A} (m : res E A) : bool :=
  match m with Ok _ => true | _ => false end.

(** A stateful fallible computation.  The state survives an error or a panic:
    what was written before the early return stays written. *)
Definition st (S E A : Type) : Type := S -> S * res E A.
#[global] Instance st_ret S E : MRet (st S E) := fun A a s => (s, Ok a).
#[global] Instance st_bind S E : MBind (st S E) := fun A B f m s =>
  match m s with
  | (s', Ok a) => f a s'
  | (s', Err e) => (s', Err e)
  | (s', Panic) => (s', Panic)
  end.

#[global] Instance st_fmap S E : FMap (st S E) := fun A B f m s =>
  match m s with
  | (s', Ok a) => (s', Ok (f a))
  | (s', Err e) => (s', Err e)
  | (s', Panic) => (s', Panic)
  end.

(** A pure result, a read of the state, an update of the state. *)
Definition lift {S E A} (r : res E A) : st S E A := fun s => (s, r).
Definition gets {S E A} (f : S -> A) : st S E A := fun s => (s, Ok (f s)).
Definition modify {S E} (f : S -> S) : st S E unit := fun s => (f s, Ok ()).
Definition throw {S E A} (e : E) : st S E A := fun s => (s, Err e).
(** [Result::map_err] on a stateful computation. *)
Definition st_map_err {S E F A} (f : E -> F) (m : st S E A) : st S F A := fun s =>
  match m s with
  | (s', Ok a) => (s', Ok a)
  | (s', Err e) => (s', Err (f e))
  | (s', Panic) => (s', Panic)
  end.
(** [for x in l { step(x)?; }]. *)
Fixpoint for_each {S E A} (l : list A) (step : A -> st S E unit) : st S E unit :=
  match l with
  | [] => mret ()
  | a :: l' => step a;; for_each l' step
  end.
(** A loop that collects one value per element. *)
Fixpoint map_st {S E A B} (f : A -> st S E B) (l : list A) : st S E (list B) :=
  match l with
  | [] => mret []
  | a :: l' => b ← f a; bl ← map_st f l'; mret (b :: bl)
  end.

(** ** Machine integers *)

(** [z as uN]: the value modulo [2^w]. *)
Definition uwrap (w z : Z) : Z := (z mod 2 ^ w)%Z.
(** [z as iN]: two's complement. *)
Definition swrap (w z : Z) : Z := ((z + 2 ^ (w - 1)) mod 2 ^ w - 2 ^ (w - 1))%Z.

Definition in_u (w z : Z) : bool := (0 <=? z)%Z && (z <? 2 ^ w)%Z.
Definition in_i (w z : Z) : bool := (- 2 ^ (w - 1) <=? z)%Z && (z <? 2 ^ (w - 1))%Z.

(** [to_be_bytes] of an integer of [n] bytes: truncation is part of it, so it
    also stands for a cast followed by [to_be_bytes]. *)
Fixpoint be (n : nat) (z : Z) : bytes :=
  match n with
  | O => []
  | S n' => be n' (z / 256) ++ [Z_to_byte z]
  end.

(** [uN::from_be_bytes]. *)
Definition from_be (l : bytes) : Z :=
  foldl (fun acc b => (acc * 256 + byte_to_Z b)%Z) 0%Z l.

(** [iN::from_be_bytes], with the width given by the number of bytes. *)
Definition from_be_signed (l : bytes) : Z :=
  swrap (8 * Z.of_nat (length l)) (from_be l).

(** ** Slices *)

(** [&data[a..b]]. *)
Definition slice {E A} (data : list A) (a b : nat) : res E (list A) :=
  if (a <=? b) && (b <=? length data) then Ok (take (b - a) (drop a data)) else Panic.

(** [[data[off], ..., data[off + n - 1]]]: [n] indexed reads. *)
Definition read_at {E} (n : nat) (data : bytes) (off : nat) : res E bytes :=
  if off + n <=? length data then Ok (take n (drop off data)) else Panic.

(** [k.starts_with(p)]. *)
Definition starts_with (k p : bytes) : bool := bool_decide (p `prefix_of` k).

(** ** The order of keys *)

(** Lexicographic order of byte strings, unsigned bytes: the order of [Ord for
    Vec<u8>] and of RocksDB's default comparator. *)
Fixpoint bytes_ltb (a b : bytes) : bool :=
  match a, b with
  | _, [] => false
  | [], _ :: _ => true
  | x :: a', y :: b' =>
      (byte_to_Z x <? byte_to_Z y)%Z || ((byte_to_Z x =? byte_to_Z y)%Z && bytes_ltb a' b')
  end.
Definition bytes_leb (a b : bytes) : bool := negb (bytes_ltb b a).
Definition bytes_lt (a b : bytes) : Prop := bytes_ltb a b = true.
Definition bytes_le (a b : bytes) : Prop := bytes_leb a b = true.
#[global] Instance bytes_lt_dec : RelDecision bytes_lt.
Proof. intros a b. unfold bytes_lt. apply _. Defined.
#[global] Instance bytes_le_dec : RelDecision bytes_le.
Proof. intros a b. unfold bytes_le. apply _. Defined.

(** ** Automation *)

Create HintDb rhyda.
Create Rewrite HintDb rhyda.

(** Case analysis on the scrutinee of a match or on a boolean test, keeping
    the equation; then simplification of the result monad. *)
Ltac res_simpl := cbn [mbind mret fmap res_bind res_ret res_fmap map_err ok_or unwrap] in *.
Ltac case_step :=
  match goal with
  | |- context [match ?x with _ => _ end] =>
    lazymatch x with
    | context [match _ with _ => _ end] => fail
    | _ => destruct x eqn:?; res_simpl
    end
  end.
Ltac case_step_in H :=
  match type of H with
  | context [match ?x with _ => _ end] =>
    lazymatch x with
    | context [match _ with _ => _ end] => fail
    | _ => destruct x eqn:?; res_simpl; try discriminate H
    end
  end.
(** Evaluates a decidable closed goal. *)
Ltac by_compute := apply (bool_decide_unpack _); vm_compute; exact I.
(** Turns boolean tests into propositions [lia] understands. *)
Ltac reflect_bools :=
  repeat match goal with
  | H : (_ && _) = true |- _ => apply andb_true_iff in H as [? ?]
  | H : (_ || _) = false |- _ => apply orb_false_iff in H as [? ?]
  | H : negb _ = true |- _ => apply negb_true_iff in H
  | H : negb _ = false |- _ => apply negb_false_iff in H
  | H : (_ <? _)%Z = true |- _ => apply Z.ltb_lt in H
  | H : (_ <? _)%Z = false |- _ => apply Z.ltb_ge in H
  | H : (_ <=? _)%Z = true |- _ => apply Z.leb_le in H
  | H : (_ <=? _)%Z = false |- _ => apply Z.leb_gt in H
  | H : (_ =? _)%Z = true |- _ => apply Z.eqb_eq in H
  | H : (_ =? _)%Z = false |- _ => apply Z.eqb_neq in H
  | H : (_ <? _) = true |- _ => apply Nat.ltb_lt in H
  | H : (_ <? _) = false |- _ => apply Nat.ltb_ge in H
  | H : (_ <=? _) = true |- _ => apply Nat.leb_le in H
  | H : (_ <=? _) = false |- _ => apply Nat.leb_gt in H
  | H : (_ =? _) = true |- _ => apply Nat.eqb_eq in H
  | H : (_ =? _) = false |- _ => apply Nat.eqb_neq in H
  | H : bool_decide _ = true |- _ => apply bool_decide_eq_true in H
  | H : bool_decide _ = false |- _ => apply bool_decide_eq_false in H
  end.
(** Decides a boolean test of the goal by arithmetic. *)
Ltac decide_test b v :=
  let H := fresh in
  assert (H : b = v) by (first
    [ apply Z.ltb_lt; lia | apply Z.ltb_ge; lia | apply Z.leb_le; lia | apply Z.leb_gt; lia
    | apply Z.eqb_eq; lia | apply Z.eqb_neq; lia | apply Nat.ltb_lt; lia | apply Nat.ltb_ge; lia
    | apply Nat.leb_le; lia | apply Nat.leb_gt; lia | apply Nat.eqb_eq; lia
    | apply Nat.eqb_neq; lia ]);
  rewrite H; clear H.

(** ** Lemmas on the result monad *)

Lemma st_bind_Ok {S E A B} (m : st S E A) (f : A -> st S E B) s s' b :
  (m ≫= f) s = (s', Ok b) <-> exists s1 a, m s = (s1, Ok a) /\ f a s1 = (s', Ok b).
Proof.
  unfold mbind, st_bind. destruct (m s) as [s1 [a|e|]]; split.
  - intros Hf. by exists s1, a.
  - by intros (? & ? & [= <- <-] & Hf).
  - done.
  - by intros (? & ? & [=] & _).
  - done.
  - by intros (? & ? & [=] & _).
Qed.

Lemma st_bind_assoc {S E A B C} (m : st S E A) (f : A -> st S E B) (g : B -> st S E C) s :
  ((m ≫= f) ≫= g) s = (m ≫= fun a => f a ≫= g) s.
Proof. unfold mbind, st_bind. by destruct (m s) as [s1 [a|e|]]. Qed.
Lemma st_bind_eq {S E A B} (m : st S E A) (f : A -> st S E B) s s1 a :
  m s = (s1, Ok a) -> (m ≫= f) s = f a s1.
Proof. intros Hm. unfold mbind, st_bind. by rewrite Hm. Qed.

Lemma st_bind_Err {S E A B} (m : st S E A) (f : A -> st S E B) s s1 e :
  m s = (s1, Err e) -> (m ≫= f) s = (s1, Err e).
Proof. intros Hm. unfold mbind, st_bind. by rewrite Hm. Qed.

Lemma st_map_err_Ok {S E F A} (f : E -> F) (m : st S E A) s s' a :
  st_map_err f m s = (s', Ok a) <-> m s = (s', Ok a).
Proof. unfold st_map_err. destruct (m s) as [? [?|?|]]; split; intros [= <- <-] || intros [=]; done. Qed.

Lemma bind_Ok {E A B} (m : res E A) (f : A -> res E B) b :
  (m ≫= f) = Ok b <-> exists a, m = Ok a /\ f a = Ok b.
Proof. destruct m; res_simpl; split; try (intros (? & ? & ?)); naive_solver. Qed.

Lemma fmap_Ok {E A B} (m : res E A) (f : A -> B) b :
  f <$> m = Ok b <-> exists a, m = Ok a /\ b = f a.
Proof. destruct m; res_simpl; split; try (intros (? & ? & ?)); naive_solver. Qed.

Lemma map_err_Ok {E F A} (f : E -> F) (m : res E A) a :
  map_err f m = Ok a <-> m = Ok a.
Proof. destruct m; naive_solver. Qed.

Lemma ok_or_Ok {E A} (o : option A) (e : E) a : ok_or o e = Ok a <-> o = Some a.
Proof. destruct o; naive_solver. Qed.

Lemma map_res_Ok {E A B} (f : A -> res E B) l bl :
  map_res f l = Ok bl <-> Forall2 (fun a b => f a = Ok b) l bl.
Proof.
  revert bl. induction l as [|a l IH]; intros bl; cbn [map_res].
  - split; [intros [= <-]; constructor | by inversion 1].
  - rewrite bind_Ok. split.
    + intros (b & Hb & Hl). rewrite bind_Ok in Hl. destruct Hl as (bl' & Hl & [= <-]).
      constructor; [done|]. by apply IH.
    + inversion 1 as [|? b ? bl' Hb Hl]; subst. exists b. split; [done|].
      apply bind_Ok. exists bl'. split; [by apply IH | done].
Qed.

Lemma map_res_ext {E A B} (f g : A -> res E B) l :
  Forall (fun a => f a = g a) l -> map_res f l = map_res g l.
Proof. induction 1 as [|a l Ha Hl IH]; cbn; [done|]. by rewrite Ha, IH. Qed.

Lemma rep_add {E S} n m (step : S -> res E S) s :
  rep (n + m) step s = s1 ← rep n step s; rep m step s1.
Proof.
  revert s. induction n as [|n IH]; intros s; cbn [rep Nat.add]; [done|].
  destruct (step s); res_simpl; [apply IH|done|done].
Qed.

Lemma times_pos_rep {E S} p (step : S -> res E S) s :
  times_pos p step s = rep (Pos.to_nat p) step s.
Proof.
  revert s. induction p as [q IH|q IH|]; intros s; cbn [times_pos].
  - rewrite Pos2Nat.inj_xI. cbn [rep]. destruct (step s) as [s0| |]; res_simpl; [|done|done].
    rewrite IH. replace (2 * Pos.to_nat q) with (Pos.to_nat q + Pos.to_nat q) by lia.
    rewrite rep_add. destruct (rep _ _ _); res_simpl; [apply IH|done|done].
  - rewrite Pos2Nat.inj_xO, IH.
    replace (2 * Pos.to_nat q) with (Pos.to_nat q + Pos.to_nat q) by lia.
    rewrite rep_add. destruct (rep _ _ _); res_simpl; [apply IH|done|done].
  - rewrite Pos2Nat.inj_1. cbn [rep]. by destruct (step s).
Qed.

Lemma times_rep {E S} n (step : S -> res E S) s : times n step s = rep (Z.to_nat n) step s.
Proof. destruct n as [|p|p]; [done|apply times_pos_rep|done]. Qed.

(** An invariant of the step is one of the loop; a step that cannot panic
    makes a loop that cannot panic. *)
Lemma times_inv {E S} (P : S -> Prop) n (step : S -> res E S) s s' :
  P s -> (forall a b, P a -> step a = Ok b -> P b) -> times n step s = Ok s' -> P s'.
Proof.
  intros Hs Hstep. rewrite times_rep. revert s Hs.
  induction (Z.to_nat n) as [|m IH]; intros s Hs; cbn [rep]; [by intros [= <-]|].
  rewrite bind_Ok. intros (s1 & H1 & H2). eapply IH; [|done]. by eapply Hstep.
Qed.

Lemma times_no_panic {E S} (P : S -> Prop) n (step : S -> res E S) s :
  P s -> (forall a b, P a -> step a = Ok b -> P b) -> (forall a, P a -> step a <> Panic) ->
  times n step s <> Panic.
Proof.
  intros Hs Hstep Hno. rewrite times_rep. revert s Hs.
  induction (Z.to_nat n) as [|m IH]; intros s Hs; cbn [rep]; [done|].
  destruct (step s) as [s1|e|] eqn:E1; res_simpl; [|done|by apply Hno in E1].
  eapply IH, Hstep; done.
Qed.

Lemma forallb_Forall {A} (f : A -> bool) l :
  forallb f l = true <-> Forall (fun a => f a = true) l.
Proof.
  induction l as [|a l IH]; cbn; [by split|]. split.
  - intros [Ha Hl]%andb_true_iff. constructor; [done|by apply IH].
  - intros H. inversion H; subst. apply andb_true_iff. split; [done|by apply IH].
Qed.

Lemma Forall_conj {A} (P Q : A -> Prop) l :
  Forall P l -> Forall Q l -> Forall (fun a => P a /\ Q a) l.
Proof. induction 1; intros HQ; inversion HQ; subst; constructor; auto. Qed.

(** ** Sums over lists *)

Lemma sum_list_insert {A} (f : A -> nat) l j a b : l !! j = Some a ->
  sum_list_with f (<[j := b]> l) + f a = sum_list_with f l + f b.
Proof.
  revert j. induction l as [|u l IH]; intros [|j] Hj; [done|done|..].
  - injection Hj as ->. cbn. lia.
  - specialize (IH j Hj). change (<[S j := b]> (u :: l)) with (u :: <[j := b]> l).
    cbn [sum_list_with]. lia.
Qed.
Lemma sum_list_delete {A} (f : A -> nat) l j a : l !! j = Some a ->
  sum_list_with f (base.delete j l) + f a = sum_list_with f l.
Proof.
  revert j. induction l as [|u l IH]; intros [|j] Hj; [done|done|..].
  - injection Hj as ->. cbn. lia.
  - specialize (IH j Hj). change (base.delete (S j) (u :: l)) with (u :: base.delete j l).
    cbn [sum_list_with]. lia.
Qed.
Lemma sum_list_bound {A} (f : A -> nat) n l : (forall a, f a <= n) -> sum_list_with f l <= n * length l.
Proof. intros Hf. induction l as [|a l IH]; cbn; [lia|]. specialize (Hf a). lia. Qed.

(** Replacing an element of a list that is flattened. *)
Lemma bind_insert {A B} (f : A -> list B) l j a a' : l !! j = Some a ->
  exists rest, (l ≫= f) ≡ₚ f a ++ rest /\ (<[j := a']> l ≫= f) ≡ₚ f a' ++ rest.
Proof.
  intros Hj. exists ((take j l ≫= f) ++ (drop (S j) l ≫= f)). split.
  - rewrite <-(take_drop_middle _ _ _ Hj) at 1. rewrite bind_app, bind_cons. by rewrite Permutation_app_swap_app.
  - rewrite insert_take_drop by (by eapply lookup_lt_Some). rewrite bind_app, bind_cons.
    by rewrite Permutation_app_swap_app.
Qed.

(** ** Lemmas on machine integers *)

Lemma length_be n z : length (be n z) = n.
Proof. revert z. induction n; intros z; cbn; [done|]. rewrite length_app, IHn. cbn. lia. Qed.
#[export] Hint Rewrite length_be : rhyda.

Lemma from_be_snoc l b : from_be (l ++ [b]) = (from_be l * 256 + byte_to_Z b)%Z.
Proof. unfold from_be. by rewrite foldl_app. Qed.

Lemma from_be_range l : (0 <= from_be l < 256 ^ Z.of_nat (length l))%Z.
Proof.
  induction l as [|b l IH] using rev_ind; [cbn; lia|].
  rewrite from_be_snoc, length_app. cbn [length].
  replace (Z.of_nat (length l + 1)) with (Z.of_nat (length l) + 1)%Z by lia.
  rewrite Z.pow_add_r by lia. pose proof (byte_to_Z_range b). nia.
Qed.

Lemma from_be_be n z : from_be (be n z) = (z mod 256 ^ Z.of_nat n)%Z.
Proof.
  revert z. induction n as [|n IH]; intros z; cbn [be].
  - cbn. by rewrite Z.mod_1_r.
  - rewrite from_be_snoc, IH, byte_to_Z_to_byte.
    replace (Z.of_nat (S n)) with (1 + Z.of_nat n)%Z by lia.
    rewrite Z.pow_add_r by lia. change (256 ^ 1)%Z with 256%Z.
    rewrite Z.rem_mul_r by (try apply Z.pow_pos_nonneg; lia). lia.
Qed.

Lemma be_from_be l n : n = length l -> be n (from_be l) = l.
Proof.
  intros ->. induction l as [|b l IH] using rev_ind; [done|].
  rewrite length_app, Nat.add_1_r, from_be_snoc. cbn [be].
  pose proof (byte_to_Z_range b) as Hb.
  rewrite Z.div_add_l, (Z.div_small (byte_to_Z b)), Z.add_0_r, IH by lia.
  do 2 f_equal. apply byte_to_Z_inj.
  rewrite byte_to_Z_to_byte, Z.add_comm, Z.mod_add by lia. apply Z.mod_small. lia.
Qed.

Lemma pow256 n : (256 ^ Z.of_nat n = 2 ^ (8 * Z.of_nat n))%Z.
Proof. rewrite Z.pow_mul_r by lia. done. Qed.

Lemma in_u_spec w z : in_u w z = true <-> (0 <= z < 2 ^ w)%Z.
Proof. unfold in_u. rewrite andb_true_iff, Z.leb_le, Z.ltb_lt. done. Qed.

Lemma in_i_spec w z : in_i w z = true <-> (- 2 ^ (w - 1) <= z < 2 ^ (w - 1))%Z.
Proof. unfold in_i. rewrite andb_true_iff, Z.leb_le, Z.ltb_lt. done. Qed.

Lemma pow_half w : (0 < w)%Z -> (2 ^ w = 2 ^ (w - 1) * 2)%Z.
Proof.
  intros Hw. replace w with ((w - 1) + 1)%Z at 1 by lia. rewrite Z.pow_add_r by lia. lia.
Qed.

Lemma swrap_range w z : (0 < w)%Z -> in_i w (swrap w z) = true.
Proof.
  intros Hw. apply in_i_spec. unfold swrap. pose proof (pow_half w Hw).
  assert (0 < 2 ^ (w - 1))%Z by (apply Z.pow_pos_nonneg; lia).
  pose proof (Z.mod_pos_bound (z + 2 ^ (w - 1)) (2 ^ w)). lia.
Qed.

Lemma swrap_id w z : (0 < w)%Z -> in_i w z = true -> swrap w z = z.
Proof.
  intros Hw Hz%in_i_spec. unfold swrap. pose proof (pow_half w Hw).
  rewrite Z.mod_small by lia. lia.
Qed.

Lemma swrap_mod w z : (0 < w)%Z -> swrap w (z mod 2 ^ w) = swrap w z.
Proof.
  intros Hw. unfold swrap. by rewrite Z.add_mod_idemp_l by (apply Z.pow_nonzero; lia).
Qed.

(** Unsigned round trip of [to_be_bytes]/[from_be_bytes]. *)
Lemma from_be_be_u n z : in_u (8 * Z.of_nat n) z = true -> from_be (be n z) = z.
Proof. intros Hz%in_u_spec. rewrite from_be_be, pow256. by apply Z.mod_small. Qed.

(** Signed round trip. *)
Lemma from_be_be_i n z :
  0 < n -> in_i (8 * Z.of_nat n) z = true -> from_be_signed (be n z) = z.
Proof.
  intros Hn Hz. unfold from_be_signed.
  rewrite length_be, from_be_be, pow256, swrap_mod by lia. apply swrap_id; [lia|done].
Qed.

Lemma from_be_signed_range l : 0 < length l ->
  in_i (8 * Z.of_nat (length l)) (from_be_signed l) = true.
Proof. intros Hl. apply swrap_range. lia. Qed.

Lemma be_from_be_signed l n : n = length l -> 0 < n -> be n (from_be_signed l) = l.
Proof.
  intros -> Hl. rewrite <-(be_from_be l (length l)) at 3 by done.
  assert (Hm : from_be (be (length l) (from_be_signed l)) = from_be (be (length l) (from_be l))).
  { rewrite !from_be_be, pow256. unfold from_be_signed, swrap.
    rewrite Zminus_mod_idemp_l. f_equal. lia. }
  apply (f_equal (be (length l))) in Hm.
  by rewrite !be_from_be in Hm by (by rewrite length_be).
Qed.

(** A byte length below [2^31] survives [as i32]. *)
Lemma from_be_len32 n : (Z.of_nat n < 2 ^ 31)%Z -> from_be_signed (be 4 (Z.of_nat n)) = Z.of_nat n.
Proof. intros H. apply from_be_be_i; [lia|]. apply in_i_spec. cbn. lia. Qed.

(** ** Lemmas on the order of keys *)

Lemma bytes_ltb_irrefl a : bytes_ltb a a = false.
Proof. induction a as [|x a IH]; cbn; [done|]. by rewrite Z.ltb_irrefl, IH, andb_false_r. Qed.

Lemma bytes_ltb_trans a b c :
  bytes_ltb a b = true -> bytes_ltb b c = true -> bytes_ltb a c = true.
Proof.
  revert b c. induction a as [|x a IH]; intros [|y b] [|z c]; cbn; try done.
  rewrite !orb_true_iff, !andb_true_iff, !Z.ltb_lt, !Z.eqb_eq.
  intros [?|[? ?]] [?|[? ?]]; try (left; lia). right. split; [lia|]. eauto.
Qed.

Lemma bytes_ltb_total a b : bytes_ltb a b = false -> bytes_ltb b a = false -> a = b.
Proof.
  revert b. induction a as [|x a IH]; intros [|y b]; cbn; try done.
  rewrite !orb_false_iff, !andb_false_iff, !Z.ltb_ge, !Z.eqb_neq.
  intros [? H1] [? H2].
  assert (Hxy : byte_to_Z x = byte_to_Z y) by lia.
  destruct H1 as [H1|H1]; [lia|]. destruct H2 as [H2|H2]; [lia|].
  f_equal; [by apply byte_to_Z_inj | by apply IH].
Qed.

Lemma bytes_ltb_app p a b : bytes_ltb (p ++ a) (p ++ b) = bytes_ltb a b.
Proof. induction p as [|x p IH]; cbn; [done|]. by rewrite Z.ltb_irrefl, Z.eqb_refl, IH. Qed.

Lemma bytes_ltb_asym a b : bytes_ltb a b = true -> bytes_ltb b a = false.
Proof.
  intros H. destruct (bytes_ltb b a) eqn:E; [|done].
  by rewrite <-(bytes_ltb_irrefl a), (bytes_ltb_trans a b a).
Qed.

Lemma bytes_ltb_nil_r a : bytes_ltb a [] = false.
Proof. by destruct a. Qed.

#[global] Instance bytes_le_trans : Transitive bytes_le.
Proof.
  intros a b c. unfold bytes_le, bytes_leb. rewrite !negb_true_iff. intros Hab Hbc.
  destruct (bytes_ltb c a) eqn:Hca; [|done].
  destruct (bytes_ltb a b) eqn:Hl.
  - by rewrite (bytes_ltb_trans c a b) in Hbc.
  - pose proof (bytes_ltb_total a b Hl Hab) as ->. congruence.
Qed.

#[global] Instance bytes_le_total : Total bytes_le.
Proof.
  intros a b. unfold bytes_le, bytes_leb. rewrite !negb_true_iff.
  destruct (bytes_ltb b a) eqn:E; [right|by left]. by apply bytes_ltb_asym.
Qed.

#[global] Instance bytes_le_antisymm : AntiSymm (=) bytes_le.
Proof.
  intros a b. unfold bytes_le, bytes_leb. rewrite !negb_true_iff. intros.
  by apply bytes_ltb_total.
Qed.

Lemma bytes_le_refl a : bytes_le a a.
Proof. unfold bytes_le, bytes_leb. by rewrite bytes_ltb_irrefl. Qed.

(** A prefix sorts before everything that extends it. *)
Lemma prefix_bytes_le p k : p `prefix_of` k -> bytes_le p k.
Proof.
  intros [r ->]. unfold bytes_le, bytes_leb. apply negb_true_iff.
  rewrite <-(app_nil_r p) at 2. by rewrite bytes_ltb_app, bytes_ltb_nil_r.
Qed.

Lemma starts_with_true k p : starts_with k p = true <-> p `prefix_of` k.
Proof. unfold starts_with. by rewrite bool_decide_eq_true. Qed.

Lemma starts_with_app p r : starts_with (p ++ r) p = true.
Proof. apply starts_with_true. by exists r. Qed.

(** ** Lemmas on slices *)

Lemma slice_app {E A} (p m r : list A) a b :
  a = length p -> b = length p + length m -> slice (E:=E) (p ++ m ++ r) a b = Ok m.
Proof.
  intros -> ->. unfold slice. rewrite !length_app.
  rewrite (proj2 (Nat.leb_le _ _)), (proj2 (Nat.leb_le _ _)) by lia. cbn [andb].
  rewrite drop_app_length.
  replace (length p + length m - length p) with (length m) by lia. by rewrite take_app_length.
Qed.

Lemma read_at_app {E} n (p m r : bytes) off :
  n = length m -> off = length p -> read_at (E:=E) n (p ++ m ++ r) off = Ok m.
Proof.
  intros -> ->. unfold read_at. rewrite !length_app.
  rewrite (proj2 (Nat.leb_le _ _)) by lia. by rewrite drop_app_length, take_app_length.
Qed.

Lemma read_at_no_panic {E} n (data : bytes) off :
  off + n <= length data -> read_at (E:=E) n data off = Ok (take n (drop off data)).
Proof. intros H. unfold read_at. by rewrite (proj2 (Nat.leb_le _ _)). Qed.

Lemma slice_no_panic {E A} (data : list A) a b :
  a <= b -> b <= length data -> slice (E:=E) data a b = Ok (take (b - a) (drop a data)).
Proof. intros H1 H2. unfold slice. by rewrite !(proj2 (Nat.leb_le _ _)). Qed.

#[global] Arguments be : simpl never.
#[global] Arguments Z_to_byte : simpl never.
#[global] Arguments from_be : simpl never.
#[global] Arguments from_be_signed : simpl never.
#[global] Arguments swrap : simpl never.
#[global] Arguments slice : simpl never.
#[global] Arguments read_at : simpl never.
#[global] Arguments starts_with : simpl never.
#[global] Arguments times : simpl never.
