(* ===== verification/RustStr.v ===== *)
(** * Text: what the sources use of Rust's [str]

    UTF-8 validation ([String::from_utf8]) with the position and length its
    error reports, [trim], ASCII case folding, [str::parse] of integers and the
    decimal [Display] of integers, [strip_prefix], [trim_start_matches] and
    [replace].  Unicode case mapping, whose tables are not part of the program,
    is the class [UnicodeCase]: the sources rely on it being ASCII case mapping
    on ASCII text. *)

From S2P Require Import Prelude.

Local Open Scope Z_scope.

(** ** UTF-8 *)

Definition in_range (b : byte) (lo hi : Z) : bool := (lo <=? byte_to_Z b) && (byte_to_Z b <=? hi).
Definition is_cont (b : byte) : bool := in_range b 128 191.
Definition is_ascii (b : byte) : bool := byte_to_Z b <? 128.

(** Whether [b] may follow the lead byte [a] of a three-byte sequence. *)
Definition second_of_3 (a b : byte) : bool :=
  (in_range a 224 224 && in_range b 160 191) || (in_range a 225 236 && is_cont b)
  || (in_range a 237 237 && in_range b 128 159) || (in_range a 238 239 && is_cont b).
Definition second_of_4 (a b : byte) : bool :=
  (in_range a 240 240 && in_range b 144 191) || (in_range a 241 243 && is_cont b)
  || (in_range a 244 244 && in_range b 128 143).

(** [Utf8Error]: [valid_up_to] and [error_len]. *)
Definition utf8_error : Type := nat * option nat.

(** The validation loop of [core::str]: [None] when the rest is valid, the
    error otherwise; [off] is the position of the head of the list. *)
Fixpoint utf8_check (off : nat) (l : bytes) : option utf8_error :=
  match l with
  | [] => None
  | a :: l1 =>
    if is_ascii a then utf8_check (S off) l1
    else if in_range a 194 223 then
      match l1 with
      | [] => Some (off, None)
      | b :: l2 => if is_cont b then utf8_check (off + 2) l2 else Some (off, Some 1%nat)
      end
    else if in_range a 224 239 then
      match l1 with
      | [] => Some (off, None)
      | b :: l2 => if second_of_3 a b then
          match l2 with
          | [] => Some (off, None)
          | c :: l3 => if is_cont c then utf8_check (off + 3) l3 else Some (off, Some 2%nat)
          end else Some (off, Some 1%nat)
      end
    else if in_range a 240 244 then
      match l1 with
      | [] => Some (off, None)
      | b :: l2 => if second_of_4 a b then
          match l2 with
          | [] => Some (off, None)
          | c :: l3 => if is_cont c then
              match l3 with
              | [] => Some (off, None)
              | d :: l4 => if is_cont d then utf8_check (off + 4) l4 else Some (off, Some 3%nat)
              end else Some (off, Some 2%nat)
          end else Some (off, Some 1%nat)
      end
    else Some (off, Some 1%nat)
  end.

Definition utf8_valid (l : bytes) : bool :=
  match utf8_check 0 l with None => true | Some _ => false end.

(** ** Decimal numbers *)

Definition digit (d : Z) : byte := Z_to_byte (48 + d).
Definition is_digit (b : byte) : bool := in_range b 48 57.
Definition digit_val (b : byte) : Z := byte_to_Z b - 48.

Fixpoint dec_digits (fuel : nat) (n : Z) : bytes :=
  match fuel with
  | O => []
  | S f => if n <? 10 then [digit n] else dec_digits f (n / 10) ++ [digit (n mod 10)]
  end.

(** [Display] of an unsigned integer ([to_string], ["{}"]). *)
Definition show_u (n : Z) : str := dec_digits (S (Z.to_nat (Z.log2 n))) n.
(** [Display] of a signed integer. *)
Definition show_i (n : Z) : str := if n <? 0 then bs "-" ++ show_u (- n) else show_u n.

Definition dec_value (l : bytes) : Z := foldl (fun acc b => acc * 10 + digit_val b) 0 l.

(** Digits only, at least one. *)
Definition parse_digits (l : str) : option Z :=
  if bool_decide (l <> []) && forallb is_digit l then Some (dec_value l) else None.

(** [str::parse::<iN>]: an optional sign, digits, and no overflow. *)
Definition parse_int (w : Z) (s : str) : option Z :=
  let v := match s with
           | c :: r => if bool_decide (c = Byte.x2b) then parse_digits r
                       else if bool_decide (c = Byte.x2d) then Z.opp <$> parse_digits r
                       else parse_digits s
           | [] => None
           end in
  v ≫= fun z => if in_i w z then Some z else None.

(** [str::parse::<uN>]: no minus sign. *)
Definition parse_uint (w : Z) (s : str) : option Z :=
  let v := match s with
           | c :: r => if bool_decide (c = Byte.x2b) then parse_digits r else parse_digits s
           | [] => None
           end in
  v ≫= fun z => if in_u w z then Some z else None.

(** [Display] of [Utf8Error] and of [FromUtf8Error]. *)
Definition show_utf8_error (e : utf8_error) : str :=
  match e with
  | (i, Some n) => bs "invalid utf-8 sequence of " ++ show_u (Z.of_nat n)
                     ++ bs " bytes from index " ++ show_u (Z.of_nat i)
  | (i, None) => bs "incomplete utf-8 byte sequence from index " ++ show_u (Z.of_nat i)
  end.

(** [String::from_utf8], its error displayed. *)
Definition from_utf8 (l : bytes) : res str str :=
  match utf8_check 0 l with None => Ok l | Some e => Err (show_utf8_error e) end.

(** [String::from_utf8_lossy]: every invalid sequence becomes U+FFFD.  Each turn
    drops at least one byte, so [length l] turns are enough. *)
Definition replacement : bytes := [Byte.xef; Byte.xbf; Byte.xbd].
Fixpoint lossy_fuel (fuel : nat) (l : bytes) : str :=
  match fuel with
  | O => []
  | S f =>
    match utf8_check 0 l with
    | None => l
    | Some (i, None) => take i l ++ replacement
    | Some (i, Some n) => take i l ++ replacement ++ lossy_fuel f (drop (i + n) l)
    end
  end.
Definition from_utf8_lossy (l : bytes) : str := lossy_fuel (S (length l)) l.

(** [lines().next()]: up to the first line feed, which may follow a carriage
    return; [None] on empty text. *)
Definition strip_cr (l : str) : str :=
  match last l with
  | Some b => if bool_decide (b = Byte.x0d) then take (length l - 1) l else l
  | None => l
  end.
Fixpoint split_line (l : str) : str * option str :=
  match l with
  | [] => ([], None)
  | b :: r => if bool_decide (b = Byte.x0a) then ([], Some r)
              else let '(line, rest) := split_line r in (b :: line, rest)
  end.
Definition first_line (l : str) : option str :=
  match l with
  | [] => None
  | _ => match split_line l with (line, Some _) => Some (strip_cr line) | (line, None) => Some line end
  end.

(** ** Case *)

Definition ascii_lower (b : byte) : byte :=
  if in_range b 65 90 then Z_to_byte (byte_to_Z b + 32) else b.
Definition ascii_upper (b : byte) : byte :=
  if in_range b 97 122 then Z_to_byte (byte_to_Z b - 32) else b.
(** [to_ascii_lowercase]. *)
Definition to_ascii_lowercase (s : bytes) : bytes := ascii_lower <$> s.
Definition to_ascii_uppercase (s : bytes) : bytes := ascii_upper <$> s.
(** [eq_ignore_ascii_case]. *)
Definition eq_ignore_ascii_case (a b : str) : bool :=
  bool_decide (to_ascii_lowercase a = to_ascii_lowercase b).
Definition all_ascii (s : str) : bool := forallb is_ascii s.

(** [str::to_lowercase] and [str::to_uppercase]. *)
Class UnicodeCase := {
  to_lowercase : str -> str;
  to_uppercase : str -> str;
  to_lowercase_ascii s : all_ascii s = true -> to_lowercase s = to_ascii_lowercase s;
  to_uppercase_ascii s : all_ascii s = true -> to_uppercase s = to_ascii_uppercase s;
}.

(** ** Trimming and replacing *)

(** The code points with the property White_Space, by the length of their
    UTF-8 encoding. *)
Definition ws1 (a : byte) : bool := in_range a 9 13 || in_range a 32 32.
Definition ws2 (a b : byte) : bool :=
  in_range a 194 194 && (in_range b 133 133 || in_range b 160 160).
Definition ws3 (a b c : byte) : bool :=
  (in_range a 225 225 && in_range b 154 154 && in_range c 128 128)
  || (in_range a 226 226 && in_range b 128 128
      && (in_range c 128 138 || in_range c 168 169 || in_range c 175 175))
  || (in_range a 226 226 && in_range b 129 129 && in_range c 159 159)
  || (in_range a 227 227 && in_range b 128 128 && in_range c 128 128).

Fixpoint trim_start (l : str) : str :=
  match l with
  | a :: r1 =>
    if ws1 a then trim_start r1
    else match r1 with
         | b :: r2 =>
           if ws2 a b then trim_start r2
           else match r2 with
                | c :: r3 => if ws3 a b c then trim_start r3 else l
                | [] => l
                end
         | [] => l
         end
  | [] => []
  end.

(** [trim_end] on the reversed text. *)
Fixpoint trim_end_rev (l : str) : str :=
  match l with
  | a :: r1 =>
    if ws1 a then trim_end_rev r1
    else match r1 with
         | b :: r2 =>
           if ws2 b a then trim_end_rev r2
           else match r2 with
                | c :: r3 => if ws3 c b a then trim_end_rev r3 else l
                | [] => l
                end
         | [] => l
         end
  | [] => []
  end.
Definition trim_end (l : str) : str := reverse (trim_end_rev (reverse l)).
Definition trim (l : str) : str := trim_end (trim_start l).

(** The quote character. *)
Definition quote : byte := Byte.x27.

Fixpoint drop_while (p : byte -> bool) (l : str) : str :=
  match l with
  | a :: r => if p a then drop_while p r else l
  | [] => []
  end.
(** [trim_start_matches('\'')], [trim_end_matches('\'')]. *)
Definition trim_start_quotes (s : str) : str := drop_while (fun b => bool_decide (b = quote)) s.
Definition trim_end_quotes (s : str) : str := reverse (trim_start_quotes (reverse s)).

(** [replace("''", "'")]. *)
Fixpoint replace_quotes (l : str) : str :=
  match l with
  | a :: ((b :: r2) as r1) =>
    if bool_decide (a = quote) && bool_decide (b = quote) then quote :: replace_quotes r2
    else a :: replace_quotes r1
  | _ => l
  end.

(** [strip_prefix]. *)
Definition strip_prefix (p s : str) : option str :=
  if starts_with s p then Some (drop (length p) s) else None.

(** ** Lemmas *)

Lemma digit_val_digit d : 0 <= d < 10 -> digit_val (digit d) = d.
Proof.
  intros H. unfold digit_val, digit. rewrite byte_to_Z_to_byte, Z.mod_small by lia. lia.
Qed.

Lemma is_digit_digit d : 0 <= d < 10 -> is_digit (digit d) = true.
Proof.
  intros H. unfold is_digit, in_range, digit. rewrite byte_to_Z_to_byte, Z.mod_small by lia.
  apply andb_true_iff. rewrite !Z.leb_le. lia.
Qed.

Lemma dec_value_snoc l b : dec_value (l ++ [b]) = dec_value l * 10 + digit_val b.
Proof. unfold dec_value. by rewrite foldl_app. Qed.

Lemma dec_digits_spec fuel n :
  0 <= n < 2 ^ Z.of_nat fuel -> 0 < Z.of_nat fuel ->
  dec_value (dec_digits fuel n) = n /\ forallb is_digit (dec_digits fuel n) = true
  /\ dec_digits fuel n <> [].
Proof.
  revert n. induction fuel as [|f IH]; intros n Hn Hf; [lia|]. cbn [dec_digits].
  destruct (Z.ltb_spec n 10) as [Hlt|Hge].
  - repeat split; [|cbn; rewrite is_digit_digit by lia; done|done].
    unfold dec_value. cbn [foldl]. rewrite digit_val_digit by lia. lia.
  - assert (Hp : 2 ^ Z.of_nat (S f) = 2 * 2 ^ Z.of_nat f).
    { rewrite Nat2Z.inj_succ, Z.pow_succ_r by lia. lia. }
    pose proof (Z.mod_pos_bound n 10 eq_refl). pose proof (Z.div_mod n 10).
    assert (0 <= n / 10) by (apply Z.div_pos; lia).
    destruct f as [|f]; [cbn in Hp; lia|].
    destruct (IH (n / 10)) as (Hv & Hd & Hne); [lia|lia|]. repeat split.
    + rewrite dec_value_snoc, Hv, digit_val_digit by lia. lia.
    + rewrite forallb_app, Hd. cbn [forallb]. by rewrite is_digit_digit by lia.
    + intros E. apply (f_equal length) in E. rewrite length_app in E. cbn in E. lia.
Qed.

Lemma show_u_spec n : 0 <= n -> parse_digits (show_u n) = Some n.
Proof.
  intros Hn. unfold parse_digits, show_u.
  destruct (dec_digits_spec (S (Z.to_nat (Z.log2 n))) n) as (Hv & Hd & Hne).
  - split; [done|]. rewrite Nat2Z.inj_succ, Z2Nat.id by apply Z.log2_nonneg.
    destruct (Z.eq_dec n 0) as [->|]; [cbn; lia|]. apply Z.log2_spec. lia.
  - lia.
  - by rewrite bool_decide_eq_true_2, Hd, Hv by done.
Qed.

Lemma parse_digits_head l z c r :
  parse_digits l = Some z -> l = c :: r -> c <> Byte.x2b /\ c <> Byte.x2d /\ ws1 c = false.
Proof.
  unfold parse_digits. intros H ->. cbn in H.
  destruct (is_digit c) eqn:E; [|done].
  destruct c; by vm_compute in E.
Qed.

Lemma parse_uint_show w n : in_u w n = true -> parse_uint w (show_u n) = Some n.
Proof.
  intros Hw. pose proof (proj1 (in_u_spec w n) Hw) as Hn.
  pose proof (show_u_spec n (proj1 Hn)) as Hp. unfold parse_uint.
  destruct (show_u n) as [|c r] eqn:E; [done|].
  destruct (parse_digits_head _ _ c r Hp eq_refl) as (Hc & _ & _).
  rewrite bool_decide_eq_false_2, Hp by done. cbn. by rewrite Hw.
Qed.

Lemma parse_int_show w n : in_i w n = true -> parse_int w (show_i n) = Some n.
Proof.
  intros Hw. unfold parse_int, show_i. destruct (Z.ltb_spec n 0) as [Hlt|Hge].
  - change (bs "-" ++ show_u (- n)) with (Byte.x2d :: show_u (- n)).
    cbv beta iota zeta. rewrite bool_decide_eq_false_2, bool_decide_eq_true_2, show_u_spec by (done || lia).
    cbn. by rewrite Z.opp_involutive, Hw.
  - pose proof (show_u_spec n Hge) as Hp.
    destruct (show_u n) as [|c r] eqn:E; [done|].
    destruct (parse_digits_head _ _ c r Hp eq_refl) as (Hc & Hc' & _).
    rewrite !bool_decide_eq_false_2, Hp by done. cbn. by rewrite Hw.
Qed.

(** An ASCII character that is not white space stops [trim]. *)
Definition solid (b : byte) : bool := is_ascii b && negb (ws1 b).

Lemma solid_not_ws b : solid b = true ->
  ws1 b = false /\ (forall c, ws2 b c = false /\ ws2 c b = false)
  /\ forall c d, ws3 b c d = false /\ ws3 d c b = false.
Proof.
  unfold solid, is_ascii. intros H. reflect_bools. split; [done|].
  assert (Hr : forall lo hi, 128 <= lo -> in_range b lo hi = false).
  { intros lo hi Hlo. unfold in_range. by rewrite (proj2 (Z.leb_gt _ _)) by lia. }
  unfold ws2, ws3. split; intros; rewrite !Hr by lia; cbn; rewrite ?andb_false_r; done.
Qed.

Lemma trim_start_solid a r : solid a = true -> trim_start (a :: r) = a :: r.
Proof.
  intros Ha. destruct (solid_not_ws a Ha) as (H1 & H2 & H3). cbn. rewrite H1.
  destruct r as [|b [|c r]]; [done| |]; rewrite (proj1 (H2 _)); [done|].
  by rewrite (proj1 (H3 _ _)).
Qed.

Lemma trim_end_rev_solid a r : solid a = true -> trim_end_rev (a :: r) = a :: r.
Proof.
  intros Ha. destruct (solid_not_ws a Ha) as (H1 & H2 & H3). cbn. rewrite H1.
  destruct r as [|b [|c r]]; [done| |]; rewrite (proj2 (H2 _)); [done|].
  by rewrite (proj2 (H3 _ _)).
Qed.

Lemma trim_solid s a b : head s = Some a -> last s = Some b ->
  solid a = true -> solid b = true -> trim s = s.
Proof.
  intros Ha Hb Hsa Hsb. unfold trim.
  destruct s as [|a' r]; [done|]. cbn in Ha. injection Ha as ->.
  rewrite trim_start_solid by done. unfold trim_end.
  apply last_Some in Hb as [l' Hl]. rewrite Hl.
  rewrite reverse_app. cbn [reverse]. rewrite reverse_singleton. cbn [app].
  by rewrite trim_end_rev_solid, reverse_cons, reverse_involutive.
Qed.

Lemma is_digit_solid b : is_digit b = true -> solid b = true.
Proof. by destruct b. Qed.

Lemma trim_all_solid s : forallb solid s = true -> trim s = s.
Proof.
  intros H. destruct s as [|a r] eqn:E; [done|].
  destruct (last s) as [b|] eqn:Hb.
  - rewrite forallb_forall in H. eapply trim_solid; [done| |by apply H; left|].
    + by rewrite <-E.
    + apply H. rewrite <-E. apply last_Some_elem_of in Hb. by apply list_elem_of_In.
  - apply last_None in Hb. congruence.
Qed.

(** A persisted number is read back. *)
Lemma trim_show_u n : 0 <= n -> trim (show_u n) = show_u n.
Proof.
  intros Hn. pose proof (show_u_spec n Hn) as H. unfold parse_digits in H.
  destruct (forallb is_digit (show_u n)) eqn:E; [|by rewrite andb_false_r in H].
  apply trim_all_solid. apply forallb_forall. intros b Hb. apply is_digit_solid.
  rewrite forallb_forall in E. by apply E.
Qed.

(** How a CQL client writes a text literal: each quote doubled. *)
Definition double_quotes (s : str) : str :=
  s ≫= fun b => if bool_decide (b = quote) then [quote; quote] else [b].
Definition quoted (s : str) : str := [quote] ++ double_quotes s ++ [quote].

Lemma replace_double s : replace_quotes (double_quotes s) = s.
Proof.
  induction s as [|a s IH]; [done|]. unfold double_quotes in *. cbn [mbind list_bind].
  destruct (bool_decide_reflect (a = quote)) as [->|Hn]; cbn [app replace_quotes].
  - rewrite bool_decide_eq_true_2 by done. cbn [andb]. by rewrite IH.
  - rewrite bool_decide_eq_false_2 by done. cbn [andb].
    destruct (s ≫= _) as [|b r] eqn:E; [|by rewrite <-IH].
    cbn in IH. by rewrite <-IH.
Qed.

Lemma ascii_lower_ascii b : is_ascii b = true -> is_ascii (ascii_lower b) = true.
Proof. by destruct b. Qed.

Lemma ascii_lower_idem b : ascii_lower (ascii_lower b) = ascii_lower b.
Proof. by destruct b. Qed.

Lemma to_ascii_lowercase_idem s :
  to_ascii_lowercase (to_ascii_lowercase s) = to_ascii_lowercase s.
Proof.
  unfold to_ascii_lowercase. rewrite <-list_fmap_compose. apply list_fmap_ext.
  intros i b _. apply ascii_lower_idem.
Qed.

Lemma to_ascii_lowercase_ascii s :
  all_ascii s = true -> all_ascii (to_ascii_lowercase s) = true.
Proof.
  unfold all_ascii, to_ascii_lowercase. rewrite !forallb_forall. intros H b Hb.
  apply list_elem_of_In, list_elem_of_fmap in Hb as (c & -> & Hc). apply ascii_lower_ascii, H.
  by apply list_elem_of_In.
Qed.

Lemma utf8_check_ascii off s : all_ascii s = true -> utf8_check off s = None.
Proof.
  revert off. induction s as [|a s IH]; intros off; [done|]. cbn.
  intros [Ha Hs]%andb_true_iff. rewrite Ha. by apply IH.
Qed.

Lemma utf8_valid_ascii s : all_ascii s = true -> utf8_valid s = true.
Proof. intros H. unfold utf8_valid. by rewrite utf8_check_ascii. Qed.

Lemma from_utf8_valid s : utf8_valid s = true -> from_utf8 s = Ok s.
Proof. unfold utf8_valid, from_utf8. by destruct (utf8_check 0 s). Qed.

Lemma from_utf8_Ok s r : from_utf8 s = Ok r -> r = s /\ utf8_valid s = true.
Proof. unfold utf8_valid, from_utf8. by destruct (utf8_check 0 s); intros [= <-]. Qed.

(** A concrete case mapping: ASCII letters only. *)
Definition ascii_case : UnicodeCase :=
  {| to_lowercase := to_ascii_lowercase; to_uppercase := to_ascii_uppercase;
     to_lowercase_ascii s _ := eq_refl; to_uppercase_ascii s _ := eq_refl |}.

(** ** Lossy text keeps its ASCII beginning *)

Lemma utf8_check_app off p r : all_ascii p = true ->
  utf8_check off (p ++ r) = utf8_check (off + length p) r.
Proof.
  revert off. induction p as [|a p IH]; intros off Hp; cbn [app length].
  { by rewrite Nat.add_0_r. }
  cbn in Hp. apply andb_true_iff in Hp as [Ha Hp]. cbn [utf8_check]. rewrite Ha, IH by done.
  f_equal. lia.
Qed.

Lemma utf8_check_off off l i e : utf8_check off l = Some (i, e) -> (off <= i)%nat.
Proof.
  revert off. assert (Hn : exists n, (length l <= n)%nat) by eauto. destruct Hn as [n Hn].
  revert l Hn. induction n as [|n IH]; intros [|a l1] Hn off; cbn in Hn; try done; [lia|].
  cbn [utf8_check]. repeat case_match; intros He; simplify_eq; try lia.
  all: cbn in Hn; apply IH in He; lia.
Qed.

Lemma prefix_take {A} (p l : list A) i : p `prefix_of` l -> (length p <= i)%nat -> p `prefix_of` take i l.
Proof. intros [r ->] Hi. exists (take (i - length p) r). rewrite take_app. by rewrite take_ge. Qed.

Lemma prefix_ascii_stop p l r : all_ascii p = true -> p `prefix_of` l ++ Byte.xef :: r -> p `prefix_of` l.
Proof.
  revert p. induction l as [|a l IH]; intros [|b p] Hp Hpre; try apply prefix_nil.
  - apply prefix_cons_inv_1 in Hpre as ->. by cbn in Hp.
  - cbn in Hp. apply andb_true_iff in Hp as [_ Hp]. pose proof (prefix_cons_inv_1 _ _ _ _ Hpre) as ->.
    apply prefix_cons, IH; [done|]. by eapply prefix_cons_inv_2.
Qed.

Lemma lossy_starts_with l p : all_ascii p = true ->
  starts_with (from_utf8_lossy l) p = starts_with l p.
Proof.
  intros Hp. unfold starts_with, from_utf8_lossy. cbn [lossy_fuel]. apply bool_decide_ext.
  destruct (utf8_check 0 l) as [[i e]|] eqn:Hc; [|done].
  assert (Hfwd : p `prefix_of` l -> p `prefix_of` take i l).
  { intros Hl. apply prefix_take; [done|]. destruct Hl as [r ->].
    rewrite utf8_check_app in Hc by done. by apply utf8_check_off in Hc. }
  assert (Hback : p `prefix_of` take i l -> p `prefix_of` l).
  { intros Hl. etrans; [exact Hl|]. exists (drop i l). by rewrite take_drop. }
  assert (Hiff : forall r, p `prefix_of` take i l ++ replacement ++ r <-> p `prefix_of` l).
  { intros r. split; [intros Hl; by apply Hback, (prefix_ascii_stop p _ ([Byte.xbf; Byte.xbd] ++ r))|]. intros Hl. by apply prefix_app_r, Hfwd. }
  destruct e as [n|]; [apply Hiff|]. rewrite <-(app_nil_r replacement) at 1. apply Hiff.
Qed.

(** A prefix without line ends is one of the first line. *)
Definition no_line_end (p : str) : bool :=
  forallb (fun b => negb (bool_decide (b = Byte.x0a)) && negb (bool_decide (b = Byte.x0d))) p.

Lemma split_line_prefix p l : no_line_end p = true ->
  p `prefix_of` fst (split_line l) <-> p `prefix_of` l.
Proof.
  revert p. induction l as [|a l IH]; intros [|b p] Hp; cbn [split_line]; try (split; intros; apply prefix_nil); [done|].
  cbn in Hp. rewrite !andb_true_iff, !negb_true_iff, !bool_decide_eq_false in Hp. destruct Hp as [[Hb _] Hp].
  case_bool_decide as Ha.
  - subst a. split; [by intros [? ?]|]. intros Hl. by apply prefix_cons_inv_1 in Hl.
  - specialize (IH p Hp). destruct (split_line l) as [line rest]. cbn [fst] in *. split; intros Hl.
    all: pose proof (prefix_cons_inv_1 _ _ _ _ Hl) as ->; apply prefix_cons, IH; by eapply prefix_cons_inv_2.
Qed.

Lemma strip_cr_prefix p l : no_line_end p = true -> p `prefix_of` strip_cr l <-> p `prefix_of` l.
Proof.
  intros Hp. unfold strip_cr. destruct (last l) as [b|] eqn:Hl; [|done]. case_bool_decide as Hb; [|done]. subst b.
  apply last_Some in Hl as [l' ->]. rewrite length_app, Nat.add_sub, take_app_length. split.
  - intros Hpre. by apply prefix_app_r.
  - intros [r Hr]. destruct r as [|x r _] using rev_ind.
    + rewrite app_nil_r in Hr. rewrite <-Hr in Hp. unfold no_line_end in Hp. rewrite forallb_app in Hp.
      cbn in Hp. by rewrite !andb_false_r in Hp.
    + rewrite app_assoc in Hr. apply app_inj_tail in Hr as [-> _]. by exists r.
Qed.

Lemma first_line_starts_with l p : no_line_end p = true ->
  starts_with (default [] (first_line l)) p = starts_with l p.
Proof.
  intros Hp. unfold starts_with, first_line. apply bool_decide_ext. rewrite <-(split_line_prefix p l Hp).
  destruct l as [|a l]; [done|]. destruct (split_line (a :: l)) as [line [rest|]]; cbn; [|done].
  by apply strip_cr_prefix.
Qed.
