(* ===== verification/Triple.v ===== *)
(** * Triples for stateful computations

    A small program logic for the state monad [st] of [Prelude]: [triple P m Q X]
    says that from a state in [P] the computation ends in [Q a] when it returns
    [a], and in [X] when it fails or panics.  [keeps I m] is the common case of an
    invariant.  The hint database [triple] walks through the binds, matches and
    loops of a definition. *)

From S2P Require Import Prelude.

Definition triple {S E A} (P : S -> Prop) (m : st S E A) (Q : A -> S -> Prop) (X : S -> Prop) : Prop :=
  forall s, P s -> match m s with (s', Ok a) => Q a s' | (s', _) => X s' end.

Abbreviation keeps X m := (triple X%function m (fun _ => X%function) X%function).

Section rules.
Context {S E : Type}.
Implicit Types P X : S -> Prop.

Lemma triple_bind {A B} P X (Q : A -> S -> Prop) (R : B -> S -> Prop) (m : st S E A) (f : A -> st S E B) :
  triple P m Q X -> (forall a, triple (Q a) (f a) R X) -> triple P (m ≫= f) R X.
Proof.
  intros Hm Hf s Hs. specialize (Hm s Hs). unfold mbind, st_bind.
  destruct (m s) as [s1 [a|e|]]; [by apply Hf|done|done].
Qed.
Lemma triple_fmap {A B} P X (Q : A -> S -> Prop) (R : B -> S -> Prop) (m : st S E A) (f : A -> B) :
  triple P m Q X -> (forall a s, Q a s -> R (f a) s) -> triple P (f <$> m) R X.
Proof.
  intros Hm Hf s Hs. specialize (Hm s Hs). unfold fmap, st_fmap.
  destruct (m s) as [s1 [a|e|]]; [by apply Hf|done|done].
Qed.
Lemma triple_conseq {A} P P' X X' (Q Q' : A -> S -> Prop) (m : st S E A) :
  triple P m Q X -> (forall s, P' s -> P s) -> (forall a s, Q a s -> Q' a s) -> (forall s, X s -> X' s) ->
  triple P' m Q' X'.
Proof.
  intros Hm HP HQ HX s Hs. specialize (Hm s (HP s Hs)). destruct (m s) as [s1 [a|e|]]; eauto.
Qed.
Lemma triple_map_err {F A} P X (Q : A -> S -> Prop) (f : E -> F) (m : st S E A) :
  triple P m Q X -> triple P (st_map_err f m) Q X.
Proof. intros Hm s Hs. specialize (Hm s Hs). unfold st_map_err. by destruct (m s) as [s1 [a|e|]]. Qed.

(** [keeps_bind] keeps the invariant between the two halves. *)
Lemma keeps_bind {A B} X (R : B -> S -> Prop) (m : st S E A) (f : A -> st S E B) :
  keeps X m -> (forall a, triple X (f a) R X) -> triple X (m ≫= f) R X.
Proof. apply triple_bind. Qed.
Lemma keeps_fmap {A B} X (m : st S E A) (f : A -> B) : keeps X m -> keeps X (f <$> m).
Proof. intros Hm. by eapply triple_fmap. Qed.
Lemma keeps_ret {A} X (a : A) : keeps X (mret (M := st S E) a). Proof. by intros s. Qed.
Lemma keeps_throw {A} X (e : E) : keeps X (throw (A:=A) e). Proof. by intros s. Qed.
Lemma keeps_gets {A} X (f : S -> A) : keeps X (gets (E:=E) f). Proof. by intros s. Qed.
Lemma keeps_lift {A} X (r : res E A) : keeps X (lift r).
Proof. intros s Hs. unfold lift. by destruct r. Qed.
Lemma keeps_modify X (f : S -> S) : (forall s, X s -> X (f s)) -> keeps X (modify (E:=E) f).
Proof. intros Hf s Hs. by apply Hf. Qed.
Lemma keeps_for_each {A} X (l : list A) (step : A -> st S E unit) :
  (forall a, keeps X (step a)) -> keeps X (for_each l step).
Proof.
  intros Hstep. induction l as [|a l IH]; cbn [for_each]; [apply keeps_ret|]. by apply keeps_bind.
Qed.
Lemma keeps_map_st {A B} X (f : A -> st S E B) (l : list A) :
  (forall a, keeps X (f a)) -> keeps X (map_st f l).
Proof.
  intros Hf. induction l as [|a l IH]; cbn [map_st]; [apply keeps_ret|]. apply keeps_bind; [done|].
  intros b. apply keeps_bind; [done|]. intros bl. apply keeps_ret.
Qed.
End rules.

Create HintDb triple.
#[export] Hint Resolve keeps_ret keeps_throw keeps_gets keeps_lift : triple.
#[export] Hint Extern 2 (triple _ (st_map_err _ _) _ _) => apply triple_map_err : triple.
#[export] Hint Extern 3 (triple _ (mbind _ _) _ _) => apply keeps_bind; [|intros ?] : triple.
#[export] Hint Extern 3 (triple _ (fmap _ _) _ _) => apply keeps_fmap : triple.
#[export] Hint Extern 3 (triple _ (for_each _ _) _ _) => apply keeps_for_each; intros ? : triple.
#[export] Hint Extern 3 (triple _ (map_st _ _) _ _) => apply keeps_map_st; intros ? : triple.
#[export] Hint Extern 4 (triple _ (match ?x with _ => _ end) _ _) => destruct x : triple.
Ltac walk := solve [eauto 30 with triple nocore].
