(* ===== verification/Ast.v ===== *)
(** * The statements the CQL parser hands over

    The parser (the crate [cql3-parser] over a tree-sitter grammar) is not part
    of the repository's own sources.  This file holds the shape of its output as
    far as src/src/query.rs and src/src/schema.rs look into it: one constructor for each
    variant the sources name, one ([..Other]) for the variants they only reach
    through a wildcard, and the fields they read.  The parser itself is a
    parameter of the query engine. *)

From S2P Require Import Prelude.

Inductive Identifier :=
| Quoted (s : str)
| Unquoted (s : str).
#[global] Instance Identifier_eq_dec : EqDecision Identifier.
Proof. solve_decision. Defined.

(** A possibly keyspace-qualified name. *)
Record FQName := { fq_keyspace : option Identifier; fq_name : Identifier }.

Inductive DataTypeName :=
| DtInt | DtBigInt | DtSmallInt | DtTinyInt | DtFloat | DtDouble | DtBoolean
| DtText | DtVarChar | DtAscii | DtBlob | DtTimestamp | DtUuid | DtTimeUuid | DtInet
| DtSet | DtList | DtMap | DtFrozen
| DtOther (name : str).
#[global] Instance DataTypeName_eq_dec : EqDecision DataTypeName.
Proof. solve_decision. Defined.

Record DataType := { dt_name : DataTypeName; dt_definition : list DataTypeName }.

Record ColumnDefinition := {
  cd_name : Identifier;
  cd_data_type : DataType;
  cd_primary_key : bool;
}.

Record PrimaryKey := { pk_partition : list Identifier; pk_clustering : list Identifier }.

Record CreateTable := {
  ct_if_not_exists : bool;
  ct_name : FQName;
  ct_columns : list ColumnDefinition;
  ct_key : option PrimaryKey;
}.

Record CreateKeyspace := {
  ck_name : Identifier;
  ck_replication : list (str * str);
  ck_if_not_exists : bool;
}.

Record CommonDrop := { cdr_name : FQName; cdr_if_exists : bool }.

#[warnings="-register-all"]
Inductive Operand :=
| OpNull
| OpConst (text : str)
| OpParam (name : str)
| OpSet (items : list str)
| OpList (items : list str)
| OpMap (entries : list (str * str))
| OpTuple (items : list Operand)
| OpColumn (id : Identifier)
| OpOther.

Inductive RelationOperator := RelEqual | RelIn | RelOther.

Record RelationElement := {
  rel_obj : Operand;
  rel_oper : RelationOperator;
  rel_value : Operand;
}.

Inductive InsertValues := InsValues (v : list Operand) | InsJson (s : str).

Record Insert := {
  ins_table_name : FQName;
  ins_columns : list Identifier;
  ins_values : InsertValues;
}.

(** A selected column with its optional alias. *)
Record Named := { nm_name : Identifier; nm_alias : option Identifier }.
Definition alias_or_name (n : Named) : Identifier := default (nm_name n) (nm_alias n).

Inductive SelectElement := SelStar | SelColumn (named : Named) | SelFunction (named : Named).

Record Select := {
  sel_table_name : FQName;
  sel_columns : list SelectElement;
  sel_where : list RelationElement;
  sel_limit : option Z;
}.

Record Delete := {
  del_columns : list Identifier;
  del_table_name : FQName;
  del_where : list RelationElement;
}.

Record AssignmentElement := {
  asg_column : Identifier;
  asg_value : Operand;
  asg_operator : bool;
}.

Record Update := {
  upd_table_name : FQName;
  upd_assignments : list AssignmentElement;
  upd_where : list RelationElement;
}.

Inductive CassandraStatement :=
| StUse (id : Identifier)
| StCreateKeyspace (ks : CreateKeyspace)
| StCreateTable (t : CreateTable)
| StDropKeyspace (d : CommonDrop)
| StDropTable (d : CommonDrop)
| StInsert (i : Insert)
| StSelect (s : Select)
| StDelete (d : Delete)
| StUpdate (u : Update)
| StTruncate (name : FQName)
| StOther (short_name : str).
