(* ===== verification/Schema.v ===== *)
(** * Schema: column types, table definitions, identifiers

    Models src/src/schema.rs: [ColumnType] and its wire ids, the mapping from
    the parser's type names, [TableDef] and its lookups, identifier
    normalisation, and [build_table_def]. *)

From S2P Require Import Prelude RustStr Ast.

Inductive ColumnType :=
| TInt | TBigInt | TSmallInt | TTinyInt | TFloat | TDouble | TBoolean | TText | TBlob
| TTimestamp | TUuid | TInet
| TSet (elem : ColumnType)
| TList (elem : ColumnType)
| TMap (k v : ColumnType).
#[global] Instance ColumnType_eq_dec : EqDecision ColumnType.
Proof. solve_decision. Defined.

Definition wire_id (t : ColumnType) : Z :=
  match t with
  | TInt => 0x0009 | TBigInt => 0x0002 | TSmallInt => 0x0013 | TTinyInt => 0x0014
  | TFloat => 0x0008 | TDouble => 0x0007 | TBoolean => 0x0004 | TText => 0x000D
  | TBlob => 0x0003 | TTimestamp => 0x000B | TUuid => 0x000C | TInet => 0x0010
  | TSet _ => 0x0022 | TList _ => 0x0020 | TMap _ _ => 0x0021
  end%Z.

Definition write_wire_type (t : ColumnType) (buf : bytes) : bytes :=
  let buf := buf ++ be 2 (wire_id t) in
  match t with
  | TSet elem | TList elem => buf ++ be 2 (wire_id elem)
  | TMap k v => (buf ++ be 2 (wire_id k)) ++ be 2 (wire_id v)
  | _ => buf
  end.

Fixpoint cql_string (t : ColumnType) : str :=
  match t with
  | TInt => bs "int" | TBigInt => bs "bigint" | TSmallInt => bs "smallint"
  | TTinyInt => bs "tinyint" | TFloat => bs "float" | TDouble => bs "double"
  | TBoolean => bs "boolean" | TText => bs "text" | TBlob => bs "blob"
  | TTimestamp => bs "timestamp" | TUuid => bs "uuid" | TInet => bs "inet"
  | TSet e => bs "set<" ++ cql_string e ++ bs ">"
  | TList e => bs "list<" ++ cql_string e ++ bs ">"
  | TMap k v => bs "map<" ++ cql_string k ++ bs ", " ++ cql_string v ++ bs ">"
  end.

(** The recursion of the source goes one level down with an empty definition,
    where no further call happens: two levels of fuel are enough
    ([from_data_type_fuel_enough]). *)
Fixpoint from_data_type_fuel (fuel : nat) (name : DataTypeName) (definition : list DataTypeName)
    : option ColumnType :=
  match fuel with
  | O => None
  | S fuel' =>
    let elem (i : nat) := definition !! i ≫= fun d => from_data_type_fuel fuel' d [] in
    match name with
    | DtInt => Some TInt | DtBigInt => Some TBigInt | DtSmallInt => Some TSmallInt
    | DtTinyInt => Some TTinyInt | DtFloat => Some TFloat | DtDouble => Some TDouble
    | DtBoolean => Some TBoolean
    | DtText | DtVarChar | DtAscii => Some TText
    | DtBlob => Some TBlob | DtTimestamp => Some TTimestamp
    | DtUuid | DtTimeUuid => Some TUuid
    | DtInet => Some TInet
    | DtSet => TSet <$> elem 0
    | DtList => TList <$> elem 0
    | DtMap => k ← elem 0; v ← elem 1; Some (TMap k v)
    | DtFrozen =>
      inner ← definition !! 0;
      match inner with
      | DtSet => TSet <$> elem 1
      | DtList => TList <$> elem 1
      | DtMap => k ← elem 1; v ← elem 2; Some (TMap k v)
      | other => from_data_type_fuel fuel' other []
      end
    | DtOther _ => None
    end
  end.
Definition from_data_type : DataTypeName -> list DataTypeName -> option ColumnType :=
  from_data_type_fuel 2.

Record ColumnDef := {
  col_name : str;
  col_type : ColumnType;
  is_partition_key : bool;
  is_clustering : bool;
}.

Record TableDef := {
  td_keyspace : str;
  td_name : str;
  td_columns : list ColumnDef;
  td_partition_keys : list str;
  td_clustering_keys : list str;
}.

Record KeyspaceDef := { ks_name : str; ks_replication : list (str * str) }.

(** [Iterator::position]. *)
Fixpoint position {A} (p : A -> bool) (l : list A) : option nat :=
  match l with
  | [] => None
  | a :: r => if p a then Some 0 else S <$> position p r
  end.

(** [Iterator::find]. *)
Definition find_first {A} (p : A -> bool) (l : list A) : option A := List.find p l.

Definition column (t : TableDef) (name : str) : option ColumnDef :=
  find_first (fun c => bool_decide (col_name c = name)) (td_columns t).
Definition is_partition (t : TableDef) (name : str) : bool :=
  existsb (fun p => bool_decide (p = name)) (td_partition_keys t).
Definition column_index (t : TableDef) (name : str) : option nat :=
  position (fun c => bool_decide (col_name c = name)) (td_columns t).

(** The key columns, in key order: partition keys, then clustering keys. *)
Definition key_names (t : TableDef) : list str := td_partition_keys t ++ td_clustering_keys t.

Section identifiers.
Context `{UnicodeCase}.

Definition norm_id (id : Identifier) : str :=
  match id with Quoted s => s | Unquoted s => to_lowercase s end.

Definition ident_eq (id : Identifier) (name : str) : bool :=
  match id with
  | Quoted s => bool_decide (s = name)
  | Unquoted s => eq_ignore_ascii_case s name
  end.

(** The loop over [create.columns]. *)
Definition build_column (partition_keys clustering_keys : list str) (cd : ColumnDefinition)
    : option ColumnDef :=
  ty ← from_data_type (dt_name (cd_data_type cd)) (dt_definition (cd_data_type cd));
  let name := norm_id (cd_name cd) in
  let is_pk := cd_primary_key cd || bool_decide (name ∈ partition_keys) in
  let is_ck := negb is_pk && bool_decide (name ∈ clustering_keys) in
  Some {| col_name := name; col_type := ty; is_partition_key := is_pk; is_clustering := is_ck |}.

Definition build_table_def (keyspace table_name : str) (create : CreateTable) : option TableDef :=
  let partition_keys := match ct_key create with
                        | Some key => norm_id <$> pk_partition key | None => [] end in
  let clustering_keys := match ct_key create with
                         | Some key => norm_id <$> pk_clustering key | None => [] end in
  columns ← mapM (build_column partition_keys clustering_keys) (ct_columns create);
  let partition_keys :=
    if bool_decide (partition_keys = [])
    then col_name <$> filter (fun c => is_partition_key c = true) columns
    else partition_keys in
  Some {| td_keyspace := keyspace; td_name := table_name; td_columns := columns;
          td_partition_keys := partition_keys; td_clustering_keys := clustering_keys |}.
End identifiers.

(** ** The protocol's [option] encoding of a type

    The specification side of [write_wire_type]: CQL v4 describes a column type
    as a two-byte id followed, for collections, by the descriptions of the
    element types, recursively.  [read_option] is a reader of that grammar. *)

Definition scalar_of_id (id : Z) : option ColumnType :=
  find_first (fun t => (wire_id t =? id)%Z)
    [TInt; TBigInt; TSmallInt; TTinyInt; TFloat; TDouble; TBoolean; TText; TBlob; TTimestamp;
     TUuid; TInet].

Fixpoint read_option (fuel : nat) (l : bytes) : option (ColumnType * bytes) :=
  match fuel, l with
  | S f, a :: b :: r =>
    let id := from_be [a; b] in
    if (id =? 0x0022)%Z then '(e, r') ← read_option f r; Some (TSet e, r')
    else if (id =? 0x0020)%Z then '(e, r') ← read_option f r; Some (TList e, r')
    else if (id =? 0x0021)%Z then
      '(k, r1) ← read_option f r; '(v, r2) ← read_option f r1; Some (TMap k v, r2)
    else t ← scalar_of_id id; Some (t, r)
  | _, _ => None
  end.

Definition scalar (t : ColumnType) : bool :=
  match t with TSet _ | TList _ | TMap _ _ => false | _ => true end.
(** Collections of scalars only: what [write_wire_type] can describe. *)
Definition flat (t : ColumnType) : bool :=
  match t with TSet e | TList e => scalar e | TMap k v => scalar k && scalar v | _ => true end.

(** ** Well-formed tables *)

(** Every key name is a column, names are distinct, the flags of a column agree
    with the key lists, and column indexes fit a [u16]. *)
Definition table_wf (t : TableDef) : Prop :=
  NoDup (col_name <$> td_columns t) /\ NoDup (key_names t) /\
  td_partition_keys t <> [] /\
  Forall (fun n => n ∈ col_name <$> td_columns t) (key_names t) /\
  Forall (fun c => (is_partition_key c = true <-> col_name c ∈ td_partition_keys t) /\
                   (is_clustering c = true <-> col_name c ∈ td_clustering_keys t))
         (td_columns t) /\
  (Z.of_nat (length (td_columns t)) <= 2 ^ 16)%Z.

(** ** Lemmas *)

Lemma position_Some {A} (p : A -> bool) l i :
  position p l = Some i -> exists a, l !! i = Some a /\ p a = true /\
    forall j b, j < i -> l !! j = Some b -> p b = false.
Proof.
  revert i. induction l as [|a l IH]; intros i; cbn; [done|].
  destruct (p a) eqn:E.
  - intros [= <-]. exists a. repeat split; [done|]. intros; lia.
  - destruct (position p l) as [k|]; [|done]. cbn. intros [= <-].
    destruct (IH k eq_refl) as (b & Hb & Hp & Hj). exists b. repeat split; [done|done|].
    intros [|j] c Hlt Hc; cbn in Hc; [by injection Hc as <-|]. apply (Hj j c); [lia|done].
Qed.

Lemma position_None {A} (p : A -> bool) l :
  position p l = None <-> Forall (fun a => p a = false) l.
Proof.
  induction l as [|a l IH]; cbn; [by split|].
  rewrite Forall_cons, <-IH. destruct (p a); [by split; [|intros []]|].
  destruct (position p l); cbn; split; (done || by intros []).
Qed.

Lemma find_position {A} (p : A -> bool) l :
  find_first p l = position p l ≫= fun i => l !! i.
Proof.
  unfold find_first. induction l as [|a l IH]; cbn; [done|].
  destruct (p a); [done|]. rewrite IH. by destruct (position p l).
Qed.

Lemma column_index_Some t name i :
  column_index t name = Some i ->
  exists c, td_columns t !! i = Some c /\ col_name c = name /\ column t name = Some c.
Proof.
  intros Hi. unfold column, column_index in *. rewrite find_position, Hi. cbn.
  apply position_Some in Hi as (c & Hc & Hp & _). exists c. by apply bool_decide_eq_true in Hp.
Qed.

Lemma column_index_lookup t i c :
  NoDup (col_name <$> td_columns t) -> td_columns t !! i = Some c ->
  column_index t (col_name c) = Some i.
Proof.
  intros Hnd Hi. unfold column_index.
  destruct (position _ _) as [j|] eqn:E.
  - apply position_Some in E as (d & Hd & Hp & _). apply bool_decide_eq_true in Hp. f_equal.
    eapply (NoDup_lookup (col_name <$> td_columns t)); [done| |].
    + rewrite list_lookup_fmap, Hd. cbn. by rewrite Hp.
    + by rewrite list_lookup_fmap, Hi.
  - apply position_None in E. rewrite Forall_lookup in E. specialize (E _ _ Hi).
    by rewrite bool_decide_eq_true_2 in E.
Qed.

Lemma column_index_total t name :
  name ∈ col_name <$> td_columns t -> is_Some (column_index t name).
Proof.
  intros Hn. unfold column_index. destruct (position _ _) eqn:E; [done|].
  apply position_None in E. apply list_elem_of_fmap in Hn as (c & -> & Hc).
  rewrite Forall_forall in E. specialize (E c). rewrite bool_decide_eq_true_2 in E by done.
  by discriminate E.
Qed.

Lemma from_data_type_fuel_enough n name d :
  from_data_type_fuel (2 + n) name d = from_data_type name d.
Proof.
  assert (H0 : forall x, from_data_type_fuel (1 + n) x [] = from_data_type_fuel 1 x [])
    by (intros []; reflexivity).
  change (from_data_type name d) with (from_data_type_fuel 2 name d).
  change (2 + n) with (S (1 + n)).
  cbn [from_data_type_fuel]. destruct name; try done.
  all: change (from_data_type_fuel (1 + n)) with (from_data_type_fuel (S n)) in H0.
  all: destruct d as [|d0 [|d1 [|d2 d]]]; try reflexivity.
  all: rewrite ?H0; try reflexivity.
  all: destruct d0; try reflexivity; cbn; rewrite ?H0; try reflexivity.
Qed.

Lemma from_data_type_scalar d t : from_data_type_fuel 1 d [] = Some t -> scalar t = true.
Proof. by destruct d; intros [= <-]. Qed.

Lemma from_data_type_flat name d t : from_data_type name d = Some t -> flat t = true.
Proof.
  assert (He : forall (o : option DataTypeName) e,
    (o ≫= fun d0 => from_data_type_fuel 1 d0 []) = Some e -> scalar e = true).
  { intros [d0|] e; [apply from_data_type_scalar|done]. }
  unfold from_data_type. cbn [from_data_type_fuel].
  destruct name; try (by intros [= <-]); try done.
  all: try (intros (e & He' & ->)%fmap_Some; cbn; eauto; done).
  - intros (k & Hk & (v & Hv & [= <-])%bind_Some)%bind_Some. cbn.
    by rewrite (He _ _ Hk), (He _ _ Hv).
  - intros (i & Hi & H)%bind_Some. destruct i; try (by injection H as <-); try done.
    all: try (apply fmap_Some in H as (e & He' & ->); cbn; eauto; done).
    apply bind_Some in H as (k & Hk & (v & Hv & [= <-])%bind_Some). cbn.
    by rewrite (He _ _ Hk), (He _ _ Hv).
Qed.

Lemma scalar_of_id_wire t : scalar t = true -> scalar_of_id (wire_id t) = Some t.
Proof. by destruct t. Qed.

Lemma read_option_scalar f t rest :
  scalar t = true -> read_option (S f) (be 2 (wire_id t) ++ rest) = Some (t, rest).
Proof. by destruct t. Qed.

Lemma write_wire_type_read t buf rest : flat t = true ->
  exists enc, write_wire_type t buf = buf ++ enc /\ read_option 2 (enc ++ rest) = Some (t, rest).
Proof.
  intros Hf. unfold write_wire_type.
  destruct t as [| | | | | | | | | | | |e|e|k v];
    try (eexists; split; [reflexivity|by apply read_option_scalar]).
  all: rewrite <-?app_assoc; eexists; split; [reflexivity|]; cbn [flat] in Hf.
  - destruct e; done.
  - destruct e; done.
  - destruct k; try done; destruct v; done.
Qed.

(** Every column type a CREATE TABLE can produce is written to result and
    prepared metadata in the protocol's recursive type grammar, although
    [write_wire_type] itself does not recurse: a client that reads a type back
    gets exactly that type and the bytes that follow it. *)
Theorem wire_type_roundtrip name d t buf rest :
  from_data_type name d = Some t ->
  exists enc, write_wire_type t buf = buf ++ enc /\ read_option 2 (enc ++ rest) = Some (t, rest).
Proof. intros Ht. apply write_wire_type_read. eapply from_data_type_flat, Ht. Qed.

Lemma wire_type_roundtrip_witness :
  from_data_type DtFrozen [DtMap; DtText; DtBigInt] = Some (TMap TText TBigInt) /\
  exists enc, write_wire_type (TMap TText TBigInt) [Byte.xaa] = [Byte.xaa] ++ enc /\
    read_option 2 (enc ++ [Byte.xff]) = Some (TMap TText TBigInt, [Byte.xff]).
Proof.
  split; [reflexivity|].
  apply (wire_type_roundtrip DtFrozen [DtMap; DtText; DtBigInt]). reflexivity.
Defined.

Section table_defs.
Context `{UnicodeCase}.

(** The CREATE TABLE statements CQL allows: distinct column names; a PRIMARY
    KEY clause with a partition part and distinct declared columns and no
    inline PRIMARY KEY beside it, or an inline PRIMARY KEY and no clause. *)
Definition sane_create (c : CreateTable) : Prop :=
  let names := (fun cd => norm_id (cd_name cd)) <$> ct_columns c in
  NoDup names /\ (Z.of_nat (length (ct_columns c)) <= 2 ^ 16)%Z /\
  match ct_key c with
  | Some k =>
    let keys := (norm_id <$> pk_partition k) ++ (norm_id <$> pk_clustering k) in
    pk_partition k <> [] /\ NoDup keys /\ Forall (fun n => n ∈ names) keys /\
    Forall (fun cd => cd_primary_key cd = false) (ct_columns c)
  | None => Exists (fun cd => cd_primary_key cd = true) (ct_columns c)
  end.

Lemma build_columns_spec P C cds cols :
  mapM (build_column P C) cds = Some cols ->
  col_name <$> cols = (fun cd => norm_id (cd_name cd)) <$> cds /\
  Forall2 (fun cd c =>
    is_partition_key c = cd_primary_key cd || bool_decide (col_name c ∈ P) /\
    is_clustering c = negb (is_partition_key c) && bool_decide (col_name c ∈ C)) cds cols.
Proof.
  rewrite mapM_Some. induction 1 as [|cd c cds cols Hc Hl [IH1 IH2]]; [done|].
  unfold build_column in Hc. apply bind_Some in Hc as (ty & Hty & [= <-]).
  cbn. split; [by f_equal|]. constructor; [done|done].
Qed.

Lemma build_columns_flags P C cds cols :
  mapM (build_column P C) cds = Some cols -> NoDup (P ++ C) ->
  Forall (fun cd => cd_primary_key cd = false) cds ->
  Forall (fun c => (is_partition_key c = true <-> col_name c ∈ P) /\
                   (is_clustering c = true <-> col_name c ∈ C)) cols.
Proof.
  intros Hm Hnd Hin. destruct (build_columns_spec _ _ _ _ Hm) as [_ H2].
  apply Forall_lookup. intros i c Hc.
  destruct (Forall2_lookup_r _ _ _ _ _ H2 Hc) as (cd & Hcd & Hp & Hk).
  rewrite Forall_lookup in Hin. rewrite (Hin _ _ Hcd) in Hp. cbn [orb] in Hp.
  apply NoDup_app in Hnd as (_ & Hdis & _).
  rewrite Hk, Hp, andb_true_iff, negb_true_iff, bool_decide_eq_false, !bool_decide_eq_true.
  split; [done|]. split; [by intros []|]. intros HC. split; [|done].
  intros HP. by apply (Hdis _ HP).
Qed.

Lemma build_columns_inline cds cols :
  mapM (build_column [] []) cds = Some cols ->
  Forall2 (fun cd c => is_partition_key c = cd_primary_key cd /\ is_clustering c = false) cds cols.
Proof.
  intros Hm. destruct (build_columns_spec _ _ _ _ Hm) as [_ H2].
  eapply Forall2_impl; [exact H2|]. intros cd c [Hp Hk].
  rewrite bool_decide_eq_false_2, orb_false_r in Hp by set_solver.
  by rewrite bool_decide_eq_false_2, andb_false_r in Hk by set_solver.
Qed.

(** The partition keys of a table without a PRIMARY KEY clause. *)
Lemma inline_keys_spec (cols : list ColumnDef) :
  NoDup (col_name <$> cols) ->
  let P := col_name <$> filter (fun c => is_partition_key c = true) cols in
  NoDup P /\ Forall (fun n => n ∈ col_name <$> cols) P /\
  Forall (fun c => is_partition_key c = true <-> col_name c ∈ P) cols.
Proof.
  intros Hnd P. assert (Hsub : P `sublist_of` (col_name <$> cols)).
  { apply fmap_sublist, sublist_filter. }
  split; [by eapply sublist_NoDup|]. split.
  - apply Forall_forall. intros n Hn. by eapply elem_of_sublist.
  - apply Forall_forall. intros c Hc. split.
    + intros Ht. apply list_elem_of_fmap. exists c. split; [done|]. by apply list_elem_of_filter.
    + intros (d & Hcd & [Hd Hin]%list_elem_of_filter)%list_elem_of_fmap.
      apply list_elem_of_lookup in Hc as [i Hi]. apply list_elem_of_lookup in Hin as [j Hj].
      assert (i = j) as ->; [|by rewrite Hi in Hj; injection Hj as ->].
      eapply (NoDup_lookup (col_name <$> cols)); [done| |]; rewrite list_lookup_fmap.
      * by rewrite Hi.
      * rewrite Hj. cbn. by rewrite Hcd.
Qed.

Lemma sane_create_wf keyspace name c def :
  sane_create c -> build_table_def keyspace name c = Some def -> table_wf def.
Proof.
  unfold build_table_def. intros (Hnd & Hlen & Hkey) Hb.
  destruct (ct_key c) as [k|].
  - destruct Hkey as (Hne & Hnk & Hin & Hinl).
    apply bind_Some in Hb as (cols & Hm & [= <-]).
    rewrite bool_decide_eq_false_2 by (by destruct (pk_partition k)).
    destruct (build_columns_spec _ _ _ _ Hm) as [Hnames Hf2].
    unfold table_wf, key_names; cbn. rewrite Hnames.
    repeat split; [done|done|by destruct (pk_partition k)|done| |].
    + by eapply build_columns_flags.
    + by rewrite <-(Forall2_length _ _ _ Hf2).
  - apply bind_Some in Hb as (cols & Hm & [= <-]).
    destruct (build_columns_spec _ _ _ _ Hm) as [Hnames Hf2].
    pose proof (build_columns_inline _ _ Hm) as Hinl.
    rewrite <-Hnames in Hnd. destruct (inline_keys_spec cols Hnd) as (H1 & H2 & H3).
    unfold table_wf, key_names; cbn. rewrite app_nil_r.
    repeat split; [done|done| |done| |].
    + apply Exists_exists in Hkey as (cd & Hcd & Ht).
      apply list_elem_of_lookup in Hcd as [i Hi].
      destruct (Forall2_lookup_l _ _ _ _ _ Hinl Hi) as (col & Hc & Hp & _).
      intros E%fmap_nil_inv. eapply (filter_nil_not_elem_of _ _ col E); [by rewrite Hp|].
      apply list_elem_of_lookup. by exists i.
    + apply Forall_lookup. intros i col Hc.
      rewrite Forall_lookup in H3. split; [by eapply H3|].
      destruct (Forall2_lookup_r _ _ _ _ _ Hinl Hc) as (cd & _ & _ & ->).
      split; [done|]. by intros Hx%not_elem_of_nil.
    + by rewrite <-(Forall2_length _ _ _ Hf2).
Qed.

(** C39: a CREATE TABLE statement that CQL allows yields a well-formed table
    definition: every key name is a column, names are distinct, the key flags
    of the columns agree with the key lists (so the schema mirror's look-ups of
    key positions cannot fail), and column indexes fit the row format. *)
Theorem build_table_def_wf keyspace name c def :
  sane_create c -> build_table_def keyspace name c = Some def -> table_wf def.
Proof. apply sane_create_wf. Qed.

(** Resolving an identifier with [ident_eq] agrees with comparing normalised
    names when the identifier is ASCII and the stored name is lower case. *)
Lemma ident_eq_norm_id id name :
  (forall s, id = Unquoted s -> all_ascii s = true /\ to_ascii_lowercase name = name) ->
  ident_eq id name = bool_decide (norm_id id = name).
Proof.
  destruct id as [s|s]; cbn; [done|]. intros Hs. destruct (Hs s eq_refl) as [Ha Hn].
  unfold eq_ignore_ascii_case. by rewrite Hn, to_lowercase_ascii.
Qed.
End table_defs.

(** A concrete statement: CREATE TABLE t (Id int, "Ck" text, v set<blob>,
    PRIMARY KEY (id, "Ck")). *)
Definition demo_create : CreateTable :=
  {| ct_if_not_exists := false;
     ct_name := {| fq_keyspace := None; fq_name := Unquoted (bs "t") |};
     ct_columns :=
       [ {| cd_name := Unquoted (bs "Id"); cd_primary_key := false;
            cd_data_type := {| dt_name := DtInt; dt_definition := [] |} |};
         {| cd_name := Quoted (bs "Ck"); cd_primary_key := false;
            cd_data_type := {| dt_name := DtText; dt_definition := [] |} |};
         {| cd_name := Unquoted (bs "v"); cd_primary_key := false;
            cd_data_type := {| dt_name := DtSet; dt_definition := [DtBlob] |} |} ];
     ct_key := Some {| pk_partition := [Unquoted (bs "id")];
                       pk_clustering := [Quoted (bs "Ck")] |} |}.
Definition demo_table : TableDef :=
  {| td_keyspace := bs "ks"; td_name := bs "t";
     td_columns :=
       [ {| col_name := bs "id"; col_type := TInt; is_partition_key := true;
            is_clustering := false |};
         {| col_name := bs "Ck"; col_type := TText; is_partition_key := false;
            is_clustering := true |};
         {| col_name := bs "v"; col_type := TSet TBlob; is_partition_key := false;
            is_clustering := false |} ];
     td_partition_keys := [bs "id"]; td_clustering_keys := [bs "Ck"] |}.

Lemma build_table_def_wf_witness :
  build_table_def (H:=ascii_case) (bs "ks") (bs "t") demo_create = Some demo_table /\
  table_wf demo_table.
Proof.
  split; [reflexivity|].
  apply (build_table_def_wf (H:=ascii_case) (bs "ks") (bs "t") demo_create); [|reflexivity].
  unfold sane_create. cbn. repeat split; by_compute.
Defined.

(** The comment on [ident_eq] says it mirrors [norm_id]; it does for ASCII
    identifiers against lower-case names, but a plain identifier also matches a
    column that was created under a quoted mixed-case name, which [norm_id]
    keeps apart: INSERT and WHERE reach the column, SELECT and UPDATE do not. *)
Theorem ident_eq_not_norm_id `{UnicodeCase} :
  (forall s name, all_ascii s = true -> to_ascii_lowercase name = name ->
     ident_eq (Unquoted s) name = bool_decide (norm_id (Unquoted s) = name)) /\
  ident_eq (Unquoted (bs "ck")) (bs "Ck") = true /\ norm_id (Unquoted (bs "ck")) <> bs "Ck" /\
  find_first (fun c => ident_eq (Unquoted (bs "ck")) (col_name c)) (td_columns demo_table)
    <> column demo_table (norm_id (Unquoted (bs "ck"))).
Proof.
  assert (Hn : norm_id (Unquoted (bs "ck")) = bs "ck") by (cbn; by rewrite to_lowercase_ascii).
  repeat split.
  - intros s name Ha Hl. apply ident_eq_norm_id. by intros s' [= <-].
  - by rewrite Hn.
  - by rewrite Hn.
Qed.
