(* ===== verification/CqlValue.v ===== *)
(** * CQL values and their encodings

    Models src/src/cql_value.rs: [Value] and its equality, the wire encoding
    [write_wire]/[to_wire], the raw bytes used in keys and bind values, the
    decoder [from_wire]/[from_raw_bytes] with its errors and its panics, and
    the literal parser [parse_literal].  Floats are their IEEE 754 bit
    patterns; [==] on them is IEEE equality. *)

From S2P Require Import Prelude RustStr Schema.

Inductive IpAddr := V4 (octets : bytes) | V6 (octets : bytes).
#[global] Instance IpAddr_eq_dec : EqDecision IpAddr.
Proof. solve_decision. Defined.

#[warnings="-register-all"]
Inductive Value :=
| VNull
| VInt (v : Z)
| VBigInt (v : Z)
| VSmallInt (v : Z)
| VTinyInt (v : Z)
| VFloat (bits : Z)
| VDouble (bits : Z)
| VBoolean (v : bool)
| VText (v : str)
| VBlob (v : bytes)
| VTimestamp (v : Z)
| VUuid (v : bytes)
| VInet (v : IpAddr)
| VSet (values : list Value)
| VList (values : list Value)
| VMap (entries : list (Value * Value)).

(** ** Equality: [derive(PartialEq)] *)

(** IEEE equality on bit patterns of width [w] with [m] mantissa bits: a NaN
    equals nothing, the two zeros are equal. *)
Definition float_magnitude (w x : Z) : Z := Z.land x (2 ^ (w - 1) - 1).
Definition float_nan (w m x : Z) : bool :=
  ((2 ^ (w - 1 - m) - 1) * 2 ^ m <? float_magnitude w x)%Z.
Definition float_eqb (w m x y : Z) : bool :=
  negb (float_nan w m x) && negb (float_nan w m y) &&
  ((x =? y)%Z || ((float_magnitude w x =? 0)%Z && (float_magnitude w y =? 0)%Z)).

Definition list_eqb {A} (f : A -> A -> bool) : list A -> list A -> bool :=
  fix go l1 l2 :=
    match l1, l2 with
    | [], [] => true
    | a :: r1, b :: r2 => f a b && go r1 r2
    | _, _ => false
    end.

Fixpoint value_eqb (a b : Value) : bool :=
  match a, b with
  | VNull, VNull => true
  | VInt x, VInt y | VBigInt x, VBigInt y | VSmallInt x, VSmallInt y
  | VTinyInt x, VTinyInt y | VTimestamp x, VTimestamp y => (x =? y)%Z
  | VFloat x, VFloat y => float_eqb 32 23 x y
  | VDouble x, VDouble y => float_eqb 64 52 x y
  | VBoolean x, VBoolean y => eqb x y
  | VText x, VText y | VBlob x, VBlob y | VUuid x, VUuid y => bool_decide (x = y)
  | VInet x, VInet y => bool_decide (x = y)
  | VSet x, VSet y | VList x, VList y => list_eqb value_eqb x y
  | VMap x, VMap y =>
    list_eqb (fun p q => value_eqb (fst p) (fst q) && value_eqb (snd p) (snd q)) x y
  | _, _ => false
  end.

(** ** Encoding *)

Definition octets (a : IpAddr) : bytes := match a with V4 o => o | V6 o => o end.

Fixpoint write_wire (v : Value) (out : bytes) : bytes :=
  match v with
  | VNull => out ++ be 4 (-1)
  | VInt z => (out ++ be 4 4) ++ be 4 z
  | VBigInt z => (out ++ be 4 8) ++ be 8 z
  | VSmallInt z => (out ++ be 4 2) ++ be 2 z
  | VTinyInt z => (out ++ be 4 1) ++ [Z_to_byte z]
  | VFloat z => (out ++ be 4 4) ++ be 4 z
  | VDouble z => (out ++ be 4 8) ++ be 8 z
  | VBoolean b => (out ++ be 4 1) ++ [Z_to_byte (Z.b2z b)]
  | VText s => (out ++ be 4 (Z.of_nat (length s))) ++ s
  | VBlob s => (out ++ be 4 (Z.of_nat (length s))) ++ s
  | VTimestamp z => (out ++ be 4 8) ++ be 8 z
  | VUuid u => (out ++ be 4 16) ++ u
  | VInet (V4 o) => (out ++ be 4 4) ++ o
  | VInet (V6 o) => (out ++ be 4 16) ++ o
  | VSet values =>
    let payload := be 4 (Z.of_nat (length values)) in
    let payload := foldl (fun p e => write_wire e p) payload values in
    (out ++ be 4 (Z.of_nat (length payload))) ++ payload
  | VList values =>
    let payload := be 4 (Z.of_nat (length values)) in
    let payload := foldl (fun p e => write_wire e p) payload values in
    (out ++ be 4 (Z.of_nat (length payload))) ++ payload
  | VMap entries =>
    let payload := be 4 (Z.of_nat (length entries)) in
    let payload := foldl (fun p kv => write_wire (snd kv) (write_wire (fst kv) p)) payload entries in
    (out ++ be 4 (Z.of_nat (length payload))) ++ payload
  end.

Definition to_wire (v : Value) : bytes := write_wire v [].

Definition raw_bytes (v : Value) : bytes :=
  match v with
  | VNull => []
  | VInt z => be 4 z
  | VBigInt z => be 8 z
  | VSmallInt z => be 2 z
  | VTinyInt z => [Z_to_byte z]
  | VFloat z => be 4 z
  | VDouble z => be 8 z
  | VBoolean b => [Z_to_byte (Z.b2z b)]
  | VText s => s
  | VBlob s => s
  | VTimestamp z => be 8 z
  | VUuid u => u
  | VInet (V4 o) => o
  | VInet (V6 o) => o
  | VSet values => foldl (fun out e => out ++ to_wire e) (be 4 (Z.of_nat (length values))) values
  | VList values => foldl (fun out e => out ++ to_wire e) (be 4 (Z.of_nat (length values))) values
  | VMap entries =>
    foldl (fun out kv => (out ++ to_wire (fst kv)) ++ to_wire (snd kv))
      (be 4 (Z.of_nat (length entries))) entries
  end.

(** ** Decoding *)

(** [raw.try_into()?] into [[u8; n]]. *)
Definition try_into (n : nat) (raw : bytes) : res str bytes :=
  if length raw =? n then Ok raw else Err (bs "could not convert slice to array").

(** [raw[0]]. *)
Definition index0 (raw : bytes) : res str byte := unwrap (raw !! 0).

(** One length-prefixed element of a collection at [off]: the element and the
    next offset. *)
Definition read_elem (kind : str) (dec : bytes -> res str Value) (raw : bytes) (off : nat)
    : res str (Value * nat) :=
  if length raw <? off + 4 then Err (kind ++ bs " value truncated") else
  h ← read_at 4 raw off;
  let elen := from_be_signed h in
  if (elen <? 0)%Z || (Z.of_nat (length raw) <? Z.of_nat (off + 4) + elen)%Z
  then Err (kind ++ bs " value truncated") else
  let elen := Z.to_nat elen in
  d ← slice raw off (off + 4 + elen);
  v ← dec d;
  Ok (v, off + 4 + elen).

(** The element count at the head of a collection. *)
Definition read_count (kind noun : str) (raw : bytes) : res str Z :=
  if length raw <? 4 then Err (kind ++ bs " value too short") else
  h ← read_at 4 raw 0;
  let count := from_be_signed h in
  if (count <? 0)%Z then Err (bs "negative " ++ kind ++ noun) else Ok count.

(** The loop of the set and list decoders. *)
Definition read_elems (kind : str) (dec : bytes -> res str Value) (raw : bytes)
    : res str (list Value) :=
  count ← read_count kind (bs " element count") raw;
  '(_, values) ← times count
    (fun '(off, values) => '(v, off') ← read_elem kind dec raw off; Ok (off', values ++ [v]))
    (4, []);
  Ok values.

(** The loop of the map decoder. *)
Definition read_entries (deck decv : bytes -> res str Value) (raw : bytes)
    : res str (list (Value * Value)) :=
  count ← read_count (bs "map") (bs " entry count") raw;
  '(_, entries) ← times count
    (fun '(off, entries) =>
       '(key, off1) ← read_elem (bs "map") deck raw off;
       '(val, off2) ← read_elem (bs "map") decv raw off1;
       Ok (off2, entries ++ [(key, val)]))
    (4, []);
  Ok entries.

(** The length prefix of a value, checked against the payload that follows. *)
Definition with_prefix (dec : bytes -> res str Value) (data : bytes) : res str Value :=
  if length data <? 4 then Err (bs "value is shorter than its length prefix") else
  h ← read_at 4 data 0;
  let len := from_be_signed h in
  if (len <? 0)%Z then Ok VNull else
  if negb (Z.of_nat (length data) =? 4 + len)%Z
  then Err (bs "value length prefix does not match payload") else
  dec (drop 4 data).

(** The payload of a value of type [col_type]. *)
Fixpoint decode_raw (col_type : ColumnType) (raw : bytes) : res str Value :=
  match col_type with
  | TInt => a ← try_into 4 raw; Ok (VInt (from_be_signed a))
  | TBigInt => a ← try_into 8 raw; Ok (VBigInt (from_be_signed a))
  | TSmallInt => a ← try_into 2 raw; Ok (VSmallInt (from_be_signed a))
  | TTinyInt => b ← index0 raw; Ok (VTinyInt (swrap 8 (byte_to_Z b)))
  | TFloat => a ← try_into 4 raw; Ok (VFloat (from_be a))
  | TDouble => a ← try_into 8 raw; Ok (VDouble (from_be a))
  | TBoolean => b ← index0 raw; Ok (VBoolean (negb (byte_to_Z b =? 0)%Z))
  | TText => s ← from_utf8 raw; Ok (VText s)
  | TBlob => Ok (VBlob raw)
  | TTimestamp => a ← try_into 8 raw; Ok (VTimestamp (from_be_signed a))
  | TUuid => a ← try_into 16 raw; Ok (VUuid a)
  | TInet =>
    if length raw =? 4 then Ok (VInet (V4 raw))
    else if length raw =? 16 then Ok (VInet (V6 raw))
    else Err (bs "invalid inet address length " ++ show_u (Z.of_nat (length raw)))
  | TSet elem => VSet <$> read_elems (bs "set") (with_prefix (decode_raw elem)) raw
  | TList elem => VList <$> read_elems (bs "list") (with_prefix (decode_raw elem)) raw
  | TMap k v => VMap <$> read_entries (with_prefix (decode_raw k)) (with_prefix (decode_raw v)) raw
  end.

Definition from_wire (data : bytes) (col_type : ColumnType) : res str Value :=
  with_prefix (decode_raw col_type) data.

Definition from_raw_bytes (raw : bytes) (col_type : ColumnType) : res str Value :=
  from_wire (be 4 (Z.of_nat (length raw)) ++ raw) col_type.

(** ** Literals *)

Definition unescape_string (text : str) : str :=
  let t := trim text in
  if (2 <=? length t) && bool_decide (head t = Some quote) && bool_decide (last t = Some quote)
  then replace_quotes (take (length t - 2) (drop 1 t))
  else t.

(** What the literal parser takes from elsewhere: the standard library's float
    and address grammars, and the crate [hex]. *)
Class Literals := {
  parse_f32 : str -> option Z;
  parse_f64 : str -> option Z;
  parse_ip : str -> option IpAddr;
  hex_decode : str -> option bytes;
  hex_decode_to_slice : nat -> str -> option bytes;
  parse_f32_range s z : parse_f32 s = Some z -> in_u 32 z = true;
  parse_f64_range s z : parse_f64 s = Some z -> in_u 64 z = true;
  parse_ip_octets s a : parse_ip s = Some a ->
    length (octets a) = match a with V4 _ => 4 | V6 _ => 16 end;
  hex_decode_length s b : hex_decode s = Some b -> length s = 2 * length b;
  hex_decode_to_slice_spec n s :
    hex_decode_to_slice n s = b ← hex_decode s; if length b =? n then Some b else None;
}.

Section literals.
Context `{UnicodeCase} `{Literals}.

Definition cannot_parse (text : str) (ty : string) : str :=
  bs "cannot parse '" ++ text ++ bs "' as " ++ bs ty.

Definition parse_literal (text : str) (col_type : ColumnType) : res str Value :=
  let t := trim text in
  match col_type with
  | TInt => VInt <$> ok_or (parse_int 32 t) (cannot_parse text "int")
  | TBigInt => VBigInt <$> ok_or (parse_int 64 t) (cannot_parse text "bigint")
  | TSmallInt => VSmallInt <$> ok_or (parse_int 16 t) (cannot_parse text "smallint")
  | TTinyInt => VTinyInt <$> ok_or (parse_int 8 t) (cannot_parse text "tinyint")
  | TFloat => VFloat <$> ok_or (parse_f32 t) (cannot_parse text "float")
  | TDouble => VDouble <$> ok_or (parse_f64 t) (cannot_parse text "double")
  | TBoolean =>
    let u := to_uppercase t in
    if bool_decide (u = bs "TRUE") then Ok (VBoolean true)
    else if bool_decide (u = bs "FALSE") then Ok (VBoolean false)
    else Err (cannot_parse text "boolean")
  | TText => Ok (VText (unescape_string t))
  | TBlob =>
    let hex_text := match strip_prefix (bs "0x") t with
                    | Some r => r
                    | None => match strip_prefix (bs "0X") t with Some r => r | None => t end
                    end in
    VBlob <$> ok_or (hex_decode hex_text) (cannot_parse text "blob")
  | TTimestamp => VTimestamp <$> ok_or (parse_int 64 t) (cannot_parse text "timestamp")
  | TUuid =>
    let hex_text := trim_end_quotes (trim_start_quotes t) in
    let cleaned := filter (fun c => c <> Byte.x2d) hex_text in
    if negb (length cleaned =? 32) then Err (cannot_parse text "uuid")
    else VUuid <$> ok_or (hex_decode_to_slice 16 cleaned) (cannot_parse text "uuid")
  | TInet => VInet <$> ok_or (parse_ip t) (cannot_parse text "inet")
  | TSet _ | TList _ | TMap _ _ => Err (bs "collection literals are not supported")
  end.
End literals.

(** ** Typing of values *)

(** A value of a column type, every machine integer in range; [VNull] is no
    value of any type and no element of a collection. *)
Fixpoint has_type (t : ColumnType) (v : Value) : bool :=
  match t, v with
  | TInt, VInt z => in_i 32 z
  | TBigInt, VBigInt z => in_i 64 z
  | TSmallInt, VSmallInt z => in_i 16 z
  | TTinyInt, VTinyInt z => in_i 8 z
  | TFloat, VFloat z => in_u 32 z
  | TDouble, VDouble z => in_u 64 z
  | TBoolean, VBoolean _ => true
  | TText, VText s => utf8_valid s
  | TBlob, VBlob _ => true
  | TTimestamp, VTimestamp z => in_i 64 z
  | TUuid, VUuid u => length u =? 16
  | TInet, VInet (V4 o) => length o =? 4
  | TInet, VInet (V6 o) => length o =? 16
  | TSet e, VSet l => forallb (has_type e) l
  | TList e, VList l => forallb (has_type e) l
  | TMap tk tv, VMap l => forallb (fun kv => has_type tk (fst kv) && has_type tv (snd kv)) l
  | _, _ => false
  end.

(** Column contents: null or a value of the type. *)
Definition cell_ok (t : ColumnType) (v : Value) : bool :=
  match v with VNull => true | _ => has_type t v end.

(** The length prefixes are signed 32-bit numbers. *)
Definition fits (v : Value) : bool := (Z.of_nat (length (to_wire v)) <? 2 ^ 31)%Z.

(** ** Lemmas on the encoder *)

Definition is_coll (v : Value) : bool :=
  match v with VSet _ | VList _ | VMap _ => true | _ => false end.

Section value_ind.
Variable P : Value -> Prop.
Hypothesis Hscalar : forall v, is_coll v = false -> P v.
Hypothesis Hset : forall l, Forall P l -> P (VSet l).
Hypothesis Hlist : forall l, Forall P l -> P (VList l).
Hypothesis Hmap : forall l, Forall (fun kv => P (fst kv) /\ P (snd kv)) l -> P (VMap l).

(** Induction through the lists of elements and entries. *)
Fixpoint value_ind' (v : Value) : P v.
Proof.
  destruct v as [| | | | | | | | | | | | |l|l|l]; try (by apply Hscalar).
  - apply Hset. induction l as [|a l IH]; constructor; [apply value_ind'|exact IH].
  - apply Hlist. induction l as [|a l IH]; constructor; [apply value_ind'|exact IH].
  - apply Hmap. induction l as [|[a b] l IH]; constructor; [|exact IH].
    split; apply value_ind'.
Qed.
End value_ind.

Lemma foldl_app_concat {A} (f : bytes -> A -> bytes) (g : A -> bytes) l p :
  Forall (fun a => forall q, f q a = q ++ g a) l -> foldl f p l = p ++ concat (g <$> l).
Proof.
  intros Hf. revert p. induction Hf as [|a l Ha Hl IH]; intros p; cbn.
  - by rewrite app_nil_r.
  - by rewrite IH, Ha, app_assoc.
Qed.

(** [write_wire] only appends. *)
Lemma write_wire_app v out : write_wire v out = out ++ to_wire v.
Proof.
  revert out. induction v as [v Hv|l IH|l IH|l IH] using value_ind'; intros out.
  - unfold to_wire. destruct v as [| | | | | | | | | | | |[o|o]| | |]; cbn [write_wire]; try done;
      by rewrite ?app_nil_l, ?app_assoc.
  - unfold to_wire. cbn [write_wire]. by rewrite ?app_nil_l, ?app_assoc.
  - unfold to_wire. cbn [write_wire]. by rewrite ?app_nil_l, ?app_assoc.
  - unfold to_wire. cbn [write_wire]. by rewrite ?app_nil_l, ?app_assoc.
Qed.

(** The wire form of an entry of a map. *)
Definition entry_wire (kv : Value * Value) : bytes := to_wire (fst kv) ++ to_wire (snd kv).

Lemma raw_bytes_set l : raw_bytes (VSet l) = be 4 (Z.of_nat (length l)) ++ concat (to_wire <$> l).
Proof. cbn. apply foldl_app_concat. by apply Forall_true. Qed.
Lemma raw_bytes_list l : raw_bytes (VList l) = be 4 (Z.of_nat (length l)) ++ concat (to_wire <$> l).
Proof. cbn. apply foldl_app_concat. by apply Forall_true. Qed.
Lemma raw_bytes_map l : raw_bytes (VMap l) = be 4 (Z.of_nat (length l)) ++ concat (entry_wire <$> l).
Proof.
  cbn. apply foldl_app_concat. apply Forall_true. intros kv q. unfold entry_wire.
  by rewrite app_assoc.
Qed.

Lemma to_wire_set l :
  to_wire (VSet l) = be 4 (Z.of_nat (length (raw_bytes (VSet l)))) ++ raw_bytes (VSet l).
Proof.
  rewrite raw_bytes_set. unfold to_wire. cbn [write_wire app].
  rewrite (foldl_app_concat _ to_wire); [done|]. apply Forall_true.
  intros. apply write_wire_app.
Qed.
Lemma to_wire_list l :
  to_wire (VList l) = be 4 (Z.of_nat (length (raw_bytes (VList l)))) ++ raw_bytes (VList l).
Proof.
  rewrite raw_bytes_list. unfold to_wire. cbn [write_wire app].
  rewrite (foldl_app_concat _ to_wire); [done|]. apply Forall_true.
  intros. apply write_wire_app.
Qed.
Lemma to_wire_map l :
  to_wire (VMap l) = be 4 (Z.of_nat (length (raw_bytes (VMap l)))) ++ raw_bytes (VMap l).
Proof.
  rewrite raw_bytes_map. unfold to_wire. cbn [write_wire app].
  rewrite (foldl_app_concat _ entry_wire); [done|]. apply Forall_true.
  intros. unfold entry_wire. by rewrite !write_wire_app, app_assoc.
Qed.

(** The two encoders agree: the wire form is the raw form behind its length. *)
Lemma to_wire_raw t v : has_type t v = true ->
  to_wire v = be 4 (Z.of_nat (length (raw_bytes v))) ++ raw_bytes v.
Proof.
  intros Ht. destruct t; destruct v as [| | | | | | | | | | | |[o|o]| | |]; try discriminate Ht;
    lazymatch goal with
    | |- to_wire (VSet _) = _ => apply to_wire_set
    | |- to_wire (VList _) = _ => apply to_wire_list
    | |- to_wire (VMap _) = _ => apply to_wire_map
    | |- _ => idtac
    end;
    unfold to_wire; cbn [write_wire raw_bytes]; rewrite ?app_nil_l, ?length_be;
    try reflexivity; cbn [has_type] in Ht; apply Nat.eqb_eq in Ht; by rewrite Ht.
Qed.

Lemma length_to_wire_ge v : 4 <= length (to_wire v).
Proof.
  destruct v as [| | | | | | | | | | | |[o|o]|l|l|l];
    [..|rewrite to_wire_set|rewrite to_wire_list|rewrite to_wire_map];
    unfold to_wire; cbn [write_wire]; rewrite ?length_app, ?length_be; cbn [length]; lia.
Qed.

(** ** Lemmas on the decoder *)

Lemma read_elem_app kind dec pre p post v :
  (Z.of_nat (length p) < 2 ^ 31)%Z ->
  dec (be 4 (Z.of_nat (length p)) ++ p) = Ok v ->
  read_elem kind dec (pre ++ (be 4 (Z.of_nat (length p)) ++ p) ++ post) (length pre)
  = Ok (v, length pre + length (be 4 (Z.of_nat (length p)) ++ p)).
Proof.
  intros Hlen Hdec. set (h := be 4 (Z.of_nat (length p))) in *.
  assert (Hh : length h = 4) by apply length_be.
  unfold read_elem. rewrite !length_app, Hh.
  decide_test (length pre + (4 + length p + length post) <? length pre + 4) false.
  rewrite <-(app_assoc h p post), (read_at_app 4 pre h (p ++ post)) by done. res_simpl.
  assert (Hn : from_be_signed h = Z.of_nat (length p)) by (by apply from_be_len32).
  rewrite Hn.
  decide_test (Z.of_nat (length p) <? 0)%Z false. cbn [orb].
  decide_test (Z.of_nat (length pre + (4 + length p + length post))
               <? Z.of_nat (length pre + 4) + Z.of_nat (length p))%Z false.
  rewrite Nat2Z.id, (app_assoc h p post).
  rewrite (slice_app pre (h ++ p) post) by (rewrite ?length_app, ?Hh; lia). res_simpl.
  rewrite Hdec. res_simpl. do 2 f_equal. lia.
Qed.

(** A wire form that [dec] reads back. *)
Definition decodes (dec : bytes -> res str Value) (v : Value) : Prop :=
  exists p, to_wire v = be 4 (Z.of_nat (length p)) ++ p /\ (Z.of_nat (length p) < 2 ^ 31)%Z /\
            dec (to_wire v) = Ok v.

Lemma read_elem_wire kind dec raw pre v post :
  decodes dec v -> raw = pre ++ to_wire v ++ post ->
  read_elem kind dec raw (length pre) = Ok (v, length (pre ++ to_wire v)).
Proof.
  intros (p & Hw & Hl & Hd) ->. rewrite length_app, Hw in *. by apply read_elem_app.
Qed.

Lemma rep_elems kind dec raw l pre acc :
  Forall (decodes dec) l -> raw = pre ++ concat (to_wire <$> l) ->
  rep (length l)
    (fun '(off, values) => '(v, off') ← read_elem kind dec raw off; Ok (off', values ++ [v]))
    (length pre, acc) = Ok (length raw, acc ++ l).
Proof.
  intros Hl. revert pre acc. induction Hl as [|v l Hv Hl IH]; intros pre acc Hraw; cbn [rep length].
  - cbn in Hraw. by rewrite Hraw, !app_nil_r.
  - cbn [fmap list_fmap concat] in Hraw. rewrite (read_elem_wire _ _ _ _ _ _ Hv Hraw). res_simpl.
    rewrite (IH _ _ (eq_trans Hraw (app_assoc _ _ _))). by rewrite <-app_assoc.
Qed.

Lemma read_count_be kind noun n rest : (Z.of_nat n < 2 ^ 31)%Z ->
  read_count kind noun (be 4 (Z.of_nat n) ++ rest) = Ok (Z.of_nat n).
Proof.
  intros Hn. unfold read_count. rewrite length_app, length_be.
  decide_test (4 + length rest <? 4) false.
  rewrite (read_at_app 4 [] (be 4 (Z.of_nat n)) rest) by (by rewrite ?length_be).
  res_simpl. rewrite from_be_len32 by done. by decide_test (Z.of_nat n <? 0)%Z false.
Qed.

Lemma read_elems_wire kind dec l :
  Forall (decodes dec) l -> (Z.of_nat (length l) < 2 ^ 31)%Z ->
  read_elems kind dec (be 4 (Z.of_nat (length l)) ++ concat (to_wire <$> l)) = Ok l.
Proof.
  intros Hl Hn. unfold read_elems. rewrite read_count_be by done. res_simpl.
  rewrite times_rep, Nat2Z.id.
  pose proof (rep_elems kind dec _ l (be 4 (Z.of_nat (length l))) [] Hl eq_refl) as Hr.
  rewrite length_be in Hr. rewrite Hr. done.
Qed.

Lemma rep_entries deck decv raw l pre acc :
  Forall (fun kv => decodes deck (fst kv) /\ decodes decv (snd kv)) l ->
  raw = pre ++ concat (entry_wire <$> l) ->
  rep (length l)
    (fun '(off, entries) =>
       '(key, off1) ← read_elem (bs "map") deck raw off;
       '(val, off2) ← read_elem (bs "map") decv raw off1;
       Ok (off2, entries ++ [(key, val)]))
    (length pre, acc) = Ok (length raw, acc ++ l).
Proof.
  intros Hl. revert pre acc. induction Hl as [|[k v] l [Hk Hv] Hl IH]; intros pre acc Hraw;
    cbn [rep length].
  - cbn in Hraw. by rewrite Hraw, !app_nil_r.
  - cbn [fmap list_fmap concat fst snd] in *.
    unfold entry_wire at 1 in Hraw; cbn [fst snd] in Hraw. rewrite <-app_assoc in Hraw.
    rewrite (read_elem_wire _ _ _ _ _ _ Hk Hraw). res_simpl. rewrite app_assoc in Hraw.
    rewrite (read_elem_wire _ _ _ _ _ _ Hv Hraw). res_simpl.
    rewrite (IH _ _ (eq_trans Hraw (app_assoc _ _ _))). by rewrite <-app_assoc.
Qed.

Lemma read_entries_wire deck decv l :
  Forall (fun kv => decodes deck (fst kv) /\ decodes decv (snd kv)) l ->
  (Z.of_nat (length l) < 2 ^ 31)%Z ->
  read_entries deck decv (be 4 (Z.of_nat (length l)) ++ concat (entry_wire <$> l)) = Ok l.
Proof.
  intros Hl Hn. unfold read_entries. rewrite read_count_be by done. res_simpl.
  rewrite times_rep, Nat2Z.id.
  pose proof (rep_entries deck decv _ l (be 4 (Z.of_nat (length l))) [] Hl eq_refl) as Hr.
  rewrite length_be in Hr. rewrite Hr. done.
Qed.

Lemma with_prefix_payload dec p : (Z.of_nat (length p) < 2 ^ 31)%Z ->
  with_prefix dec (be 4 (Z.of_nat (length p)) ++ p) = dec p.
Proof.
  intros Hp. unfold with_prefix. rewrite length_app, length_be.
  decide_test (4 + length p <? 4) false.
  rewrite (read_at_app 4 [] (be 4 (Z.of_nat (length p))) p) by (by rewrite ?length_be).
  res_simpl. rewrite from_be_len32 by done.
  decide_test (Z.of_nat (length p) <? 0)%Z false.
  decide_test (Z.of_nat (4 + length p) =? 4 + Z.of_nat (length p))%Z true. cbn [negb].
  by rewrite drop_app_length' by (by rewrite length_be).
Qed.

Lemma from_raw_bytes_payload raw t : (Z.of_nat (length raw) < 2 ^ 31)%Z ->
  from_raw_bytes raw t = decode_raw t raw.
Proof. apply with_prefix_payload. Qed.

Lemma length_concat_elem {A} (f : A -> bytes) l a :
  a ∈ l -> length (f a) <= length (concat (f <$> l)).
Proof.
  induction 1 as [x l|x y l Hx IH]; cbn; rewrite length_app; lia.
Qed.

Lemma length_concat_ge {A} (f : A -> bytes) l :
  (forall a, 1 <= length (f a)) -> length l <= length (concat (f <$> l)).
Proof.
  intros Hf. induction l as [|a l IH]; cbn; [lia|]. rewrite length_app. specialize (Hf a). lia.
Qed.

Lemma try_into_be n z : try_into n (be n z) = Ok (be n z).
Proof. unfold try_into. by rewrite length_be, Nat.eqb_refl. Qed.

Lemma swrap8_byte z : in_i 8 z = true -> swrap 8 (byte_to_Z (Z_to_byte z)) = z.
Proof.
  intros Hz. rewrite byte_to_Z_to_byte. change 256%Z with (2 ^ 8)%Z.
  rewrite swrap_mod by lia. by apply swrap_id.
Qed.

Lemma decodes_typed t a :
  (forall v, has_type t v = true -> (Z.of_nat (length (raw_bytes v)) < 2 ^ 31)%Z ->
     decode_raw t (raw_bytes v) = Ok v) ->
  has_type t a = true -> (Z.of_nat (length (to_wire a)) < 2 ^ 31)%Z ->
  decodes (with_prefix (decode_raw t)) a.
Proof.
  intros IH Ha Hle. exists (raw_bytes a). rewrite (to_wire_raw t a Ha) in *.
  rewrite length_app, length_be in Hle.
  split; [done|]. split; [lia|]. rewrite with_prefix_payload by lia. apply IH; [done|lia].
Qed.

(** The conditions [read_elems_wire] and [read_entries_wire] ask for. *)
Lemma elems_decode t l n :
  (forall v, has_type t v = true -> (Z.of_nat (length (raw_bytes v)) < 2 ^ 31)%Z ->
     decode_raw t (raw_bytes v) = Ok v) ->
  forallb (has_type t) l = true ->
  (Z.of_nat (n + length (concat (to_wire <$> l))) < 2 ^ 31)%Z ->
  Forall (decodes (with_prefix (decode_raw t))) l /\ (Z.of_nat (length l) < 2 ^ 31)%Z.
Proof.
  intros IH Ht Hfit. split.
  - apply Forall_forall. intros a Ha. rewrite forallb_forall in Ht.
    pose proof (length_concat_elem to_wire l a Ha).
    apply decodes_typed; [done| |lia]. apply Ht. by apply list_elem_of_In.
  - assert (length l <= length (concat (to_wire <$> l))); [|lia].
    apply length_concat_ge. intros a. pose proof (length_to_wire_ge a). lia.
Qed.

Lemma entries_decode tk tv l n :
  (forall v, has_type tk v = true -> (Z.of_nat (length (raw_bytes v)) < 2 ^ 31)%Z ->
     decode_raw tk (raw_bytes v) = Ok v) ->
  (forall v, has_type tv v = true -> (Z.of_nat (length (raw_bytes v)) < 2 ^ 31)%Z ->
     decode_raw tv (raw_bytes v) = Ok v) ->
  forallb (fun kv => has_type tk (fst kv) && has_type tv (snd kv)) l = true ->
  (Z.of_nat (n + length (concat (entry_wire <$> l))) < 2 ^ 31)%Z ->
  Forall (fun kv => decodes (with_prefix (decode_raw tk)) (fst kv) /\
                    decodes (with_prefix (decode_raw tv)) (snd kv)) l /\
  (Z.of_nat (length l) < 2 ^ 31)%Z.
Proof.
  intros IHk IHv Ht Hfit. split.
  - apply Forall_forall. intros a Ha. rewrite forallb_forall in Ht.
    pose proof (length_concat_elem entry_wire l a Ha) as Hle.
    unfold entry_wire at 1 in Hle. rewrite length_app in Hle.
    apply list_elem_of_In, Ht, andb_true_iff in Ha as [Hk Hv].
    split; (apply decodes_typed; [done|done|lia]).
  - assert (length l <= length (concat (entry_wire <$> l))); [|lia].
    apply length_concat_ge. intros a. unfold entry_wire. rewrite length_app.
    pose proof (length_to_wire_ge (fst a)). lia.
Qed.

(** A typed value whose payload fits decodes from its raw bytes. *)
Lemma decode_raw_bytes t v : has_type t v = true ->
  (Z.of_nat (length (raw_bytes v)) < 2 ^ 31)%Z -> decode_raw t (raw_bytes v) = Ok v.
Proof.
  revert v. induction t as [| | | | | | | | | | | |e IHe|e IHe|tk IHk tv IHv]; intros v Ht Hfit;
    destruct v as [| | | | | |bits|b|s| | | |[o|o]|l|l|l]; try discriminate Ht;
    cbn [has_type] in Ht; cbn [decode_raw].
  1-3, 5-6, 10: cbn [raw_bytes]; rewrite try_into_be; res_simpl;
    rewrite ?from_be_be_i, ?from_be_be_u by (done || lia); done.
  - cbn [raw_bytes]. unfold index0. cbn. by rewrite swrap8_byte.
  - by destruct b.
  - cbn [raw_bytes]. by rewrite from_utf8_valid.
  - done.
  - cbn [raw_bytes]. unfold try_into. by rewrite Ht.
  - cbn [raw_bytes]. by rewrite Ht.
  - cbn [raw_bytes]. apply Nat.eqb_eq in Ht. by rewrite Ht.
  - rewrite raw_bytes_set, length_app in *.
    destruct (elems_decode e l _ IHe Ht Hfit). by rewrite read_elems_wire.
  - rewrite raw_bytes_list, length_app in *.
    destruct (elems_decode e l _ IHe Ht Hfit). by rewrite read_elems_wire.
  - rewrite raw_bytes_map, length_app in *.
    destruct (entries_decode tk tv l _ IHk IHv Ht Hfit). by rewrite read_entries_wire.
Qed.

Lemma from_wire_to_wire t v :
  cell_ok t v = true -> fits v = true -> from_wire (to_wire v) t = Ok v.
Proof.
  intros Ht Hf. unfold fits in Hf. apply Z.ltb_lt in Hf. unfold from_wire.
  destruct (value_eqb v VNull) eqn:E; [by destruct v|].
  assert (Hv : has_type t v = true) by (by destruct v).
  rewrite (to_wire_raw t v Hv), length_app, length_be in *.
  rewrite with_prefix_payload by lia. apply decode_raw_bytes; [done|lia].
Qed.

(** C16: the wire codec round-trips.  Every column content - null, or a value of
    the column's type with its machine integers in range, nested collections
    included - that fits the 32-bit length prefixes is decoded by [from_wire]
    from exactly the bytes [to_wire] writes. *)
Theorem wire_roundtrip t v :
  cell_ok t v = true -> fits v = true -> from_wire (to_wire v) t = Ok v.
Proof. apply from_wire_to_wire. Qed.

Definition demo_value : Value :=
  VMap [(VText (bs "k1"), VList [VInt (-7); VInt 2147483647]); (VText (bs "clé"), VList [])].

Lemma wire_roundtrip_witness :
  cell_ok (TMap TText (TList TInt)) demo_value = true /\
  from_wire (to_wire demo_value) (TMap TText (TList TInt)) = Ok demo_value.
Proof. split; [reflexivity|]. apply (wire_roundtrip (TMap TText (TList TInt))); reflexivity. Defined.

(** ** What the decoder can return *)

(** A successful element read went through the element's decoder on a payload
    whose prefix was not negative, and moved forward. *)
Lemma read_elem_inv kind dec raw off v off' :
  read_elem kind (with_prefix dec) raw off = Ok (v, off') ->
  (exists p, dec p = Ok v) /\ off + 4 <= off' <= length raw.
Proof.
  unfold read_elem. intros H. case_step_in H. reflect_bools.
  rewrite read_at_no_panic in H by lia. res_simpl.
  set (h := take 4 (drop off raw)) in *. case_step_in H.
  apply orb_false_iff in Heqb0 as [Hpos Hfit]. reflect_bools.
  set (n := Z.to_nat (from_be_signed h)) in *.
  rewrite slice_no_panic in H by lia. res_simpl.
  replace (off + 4 + n - off) with (4 + n) in H by lia.
  apply bind_Ok in H as (v' & Hv & [= <- <-]). split; [|lia].
  unfold with_prefix in Hv. assert (Hd : length (take (4 + n) (drop off raw)) = 4 + n).
  { rewrite length_take, length_drop. lia. }
  rewrite Hd in Hv. rewrite (proj2 (Nat.ltb_ge _ _)) in Hv by lia.
  rewrite read_at_no_panic in Hv by lia. res_simpl.
  rewrite drop_0, take_take, Nat.min_l in Hv by lia. fold h in Hv.
  rewrite (proj2 (Z.ltb_ge _ _)) in Hv by done.
  rewrite (proj2 (Z.eqb_eq _ _)) in Hv by lia. cbn [negb] in Hv. by eexists.
Qed.

Lemma read_elem_no_panic kind dec raw off :
  (forall d, dec d <> Panic) -> read_elem kind dec raw off <> Panic.
Proof.
  intros Hdec. unfold read_elem. case_step; [done|]. reflect_bools.
  rewrite read_at_no_panic by lia. res_simpl. case_step; [done|].
  match goal with H : _ || _ = false |- _ => apply orb_false_iff in H as [? ?] end. reflect_bools.
  rewrite slice_no_panic by lia. res_simpl.
  destruct (dec _) eqn:E; res_simpl; [done|done|]. by apply Hdec in E.
Qed.

Lemma read_count_no_panic kind noun raw : read_count kind noun raw <> Panic.
Proof.
  unfold read_count. case_step; [done|]. reflect_bools.
  rewrite read_at_no_panic by lia. res_simpl. by case_step.
Qed.

Lemma read_elems_inv kind dec raw l :
  read_elems kind (with_prefix dec) raw = Ok l -> Forall (fun v => exists p, dec p = Ok v) l.
Proof.
  unfold read_elems. intros (count & _ & H)%bind_Ok.
  apply bind_Ok in H as ([off l'] & H & [= <-]).
  eapply (times_inv (fun st => Forall (fun v => exists p, dec p = Ok v) (snd st))) in H; [done|done|].
  intros [o vs] [o' vs'] Hp H'. apply bind_Ok in H' as ([v o1] & Hr & [= <- <-]).
  apply Forall_app. split; [done|]. constructor; [|done]. by eapply read_elem_inv.
Qed.

Lemma read_entries_inv deck decv raw l :
  read_entries (with_prefix deck) (with_prefix decv) raw = Ok l ->
  Forall (fun kv => (exists p, deck p = Ok (fst kv)) /\ (exists p, decv p = Ok (snd kv))) l.
Proof.
  unfold read_entries. intros (count & _ & H)%bind_Ok.
  apply bind_Ok in H as ([off l'] & H & [= <-]).
  eapply (times_inv (fun st => Forall (fun kv => (exists p, deck p = Ok (fst kv)) /\
    (exists p, decv p = Ok (snd kv))) (snd st))) in H; [done|done|].
  intros [o vs] [o' vs'] Hp H'. apply bind_Ok in H' as ([k o1] & Hk & H').
  apply bind_Ok in H' as ([v o2] & Hv & [= <- <-]).
  apply Forall_app. split; [done|]. constructor; [|done].
  split; [by eapply (read_elem_inv _ _ _ _ _ _ Hk)|by eapply (read_elem_inv _ _ _ _ _ _ Hv)].
Qed.

Lemma try_into_Ok n raw a : try_into n raw = Ok a -> a = raw /\ length a = n.
Proof. unfold try_into. intros H. case_step_in H. injection H as <-. by reflect_bools. Qed.

Lemma decode_raw_typed t raw v : decode_raw t raw = Ok v -> has_type t v = true.
Proof.
  revert raw v. induction t as [| | | | | | | | | | | |e IHe|e IHe|tk IHk tv IHv]; intros raw v;
    cbn [decode_raw].
  1-3, 10: intros (a & [-> Hl]%try_into_Ok & [= <-])%bind_Ok; cbn [has_type];
    pose proof (from_be_signed_range raw) as Hr; rewrite Hl in Hr; apply Hr; lia.
  - intros (b & _ & [= <-])%bind_Ok. by apply swrap_range.
  - intros (a & [-> Hl]%try_into_Ok & [= <-])%bind_Ok. apply in_u_spec.
    pose proof (from_be_range raw) as Hr. by rewrite Hl in Hr.
  - intros (a & [-> Hl]%try_into_Ok & [= <-])%bind_Ok. apply in_u_spec.
    pose proof (from_be_range raw) as Hr. by rewrite Hl in Hr.
  - by intros (b & _ & [= <-])%bind_Ok.
  - by intros (s & [-> Hs]%from_utf8_Ok & [= <-])%bind_Ok.
  - by intros [= <-].
  - intros (a & [-> Hl]%try_into_Ok & [= <-])%bind_Ok. cbn. by rewrite Hl.
  - intros H. case_step_in H; [by injection H as <-|]. case_step_in H. by injection H as <-.
  - intros (l & Hl & ->)%fmap_Ok. apply read_elems_inv in Hl. cbn. apply forallb_Forall.
    eapply Forall_impl; [exact Hl|]. intros x [p Hp]. by eapply IHe.
  - intros (l & Hl & ->)%fmap_Ok. apply read_elems_inv in Hl. cbn. apply forallb_Forall.
    eapply Forall_impl; [exact Hl|]. intros x [p Hp]. by eapply IHe.
  - intros (l & Hl & ->)%fmap_Ok. apply read_entries_inv in Hl. cbn. apply forallb_Forall.
    eapply Forall_impl; [exact Hl|]. intros x [[p Hp] [q Hq]].
    by rewrite (IHk _ _ Hp), (IHv _ _ Hq).
Qed.

Lemma from_wire_cell data t v : from_wire data t = Ok v -> cell_ok t v = true.
Proof.
  unfold from_wire, with_prefix. intros H. case_step_in H. reflect_bools.
  rewrite read_at_no_panic in H by lia. res_simpl.
  case_step_in H; [by injection H as <-|]. case_step_in H.
  apply decode_raw_typed in H. by destruct v.
Qed.

(** C38: the decoder only yields well-typed column contents: whatever bytes a
    client binds or a row holds, [from_wire] returns an error, panics, or
    returns null or a value of the column's type with every machine integer in
    range, text valid UTF-8 and no null inside a collection. *)
Theorem from_wire_typed data t v : from_wire data t = Ok v -> cell_ok t v = true.
Proof. apply from_wire_cell. Qed.

Lemma from_wire_typed_witness :
  from_wire (bs "" ++ be 4 6 ++ be 4 0 ++ [Byte.x00; Byte.x01]) (TSet TTinyInt) = Ok (VSet []) /\
  cell_ok (TSet TTinyInt) (VSet []) = true.
Proof.
  split; [reflexivity|].
  apply (from_wire_typed (be 4 6 ++ be 4 0 ++ [Byte.x00; Byte.x01]) (TSet TTinyInt)). reflexivity.
Defined.

(** Whether a decoder of the type indexes the first byte of a payload. *)
Fixpoint indexes_first (t : ColumnType) : bool :=
  match t with
  | TTinyInt | TBoolean => true
  | TSet e | TList e => indexes_first e
  | TMap k v => indexes_first k || indexes_first v
  | _ => false
  end.

Lemma with_prefix_no_panic dec data : (forall p, dec p <> Panic) -> with_prefix dec data <> Panic.
Proof.
  intros Hd. unfold with_prefix. case_step; [done|]. reflect_bools.
  rewrite read_at_no_panic by lia. res_simpl. case_step; [done|]. by case_step.
Qed.

Lemma bind_no_panic {E A B} (m : res E A) (f : A -> res E B) :
  m <> Panic -> (forall a, m = Ok a -> f a <> Panic) -> (m ≫= f) <> Panic.
Proof. intros Hm Hf. destruct m; res_simpl; [by apply Hf|done|done]. Qed.

Lemma fmap_no_panic {E A B} (m : res E A) (f : A -> B) : m <> Panic -> f <$> m <> Panic.
Proof. by destruct m. Qed.

Lemma read_elems_no_panic kind dec raw :
  (forall d, dec d <> Panic) -> read_elems kind dec raw <> Panic.
Proof.
  intros Hd. apply bind_no_panic; [apply read_count_no_panic|]. intros count _.
  apply bind_no_panic; [|by intros [o l]].
  apply (times_no_panic (fun _ => True)); [done|done|]. intros [o l] _.
  apply bind_no_panic; [by apply read_elem_no_panic|]. by intros [v o'].
Qed.

Lemma read_entries_no_panic deck decv raw :
  (forall d, deck d <> Panic) -> (forall d, decv d <> Panic) -> read_entries deck decv raw <> Panic.
Proof.
  intros Hk Hv. apply bind_no_panic; [apply read_count_no_panic|]. intros count _.
  apply bind_no_panic; [|by intros [o l]].
  apply (times_no_panic (fun _ => True)); [done|done|]. intros [o l] _.
  apply bind_no_panic; [by apply read_elem_no_panic|]. intros [v o'] _.
  apply bind_no_panic; [by apply read_elem_no_panic|]. by intros [w o''].
Qed.

Lemma try_into_no_panic n raw : try_into n raw <> Panic.
Proof. unfold try_into. by case_step. Qed.

Lemma decode_raw_no_panic t raw : indexes_first t = false -> decode_raw t raw <> Panic.
Proof.
  revert raw. induction t as [| | | | | | | | | | | |e IHe|e IHe|tk IHk tv IHv]; intros raw Hi;
    cbn [decode_raw indexes_first] in *; try discriminate Hi.
  1-5, 8-9: apply bind_no_panic; [apply try_into_no_panic|done].
  - apply bind_no_panic; [|done]. unfold from_utf8. by case_step.
  - done.
  - case_step; [done|]. by case_step.
  - apply fmap_no_panic, read_elems_no_panic. intros d. apply with_prefix_no_panic. auto.
  - apply fmap_no_panic, read_elems_no_panic. intros d. apply with_prefix_no_panic. auto.
  - apply orb_false_iff in Hi as [Hk Hv].
    apply fmap_no_panic, read_entries_no_panic; intros d; apply with_prefix_no_panic; auto.
Qed.

(** Where decoding can panic.  No bytes make the decoder of a type without
    tinyint or boolean parts panic; for tinyint and boolean it panics on exactly
    the empty value, which a client can bind (the code indexes [raw[0]] without
    a length check). *)
Theorem from_wire_panics :
  (forall t data, indexes_first t = false -> from_wire data t <> Panic) /\
  (forall raw, from_raw_bytes raw TTinyInt = Panic <-> raw = []) /\
  (forall raw, from_raw_bytes raw TBoolean = Panic <-> raw = []).
Proof.
  assert (Hpre : forall raw dec, raw <> [] -> (forall p, p <> [] -> dec p <> Panic) ->
    with_prefix dec (be 4 (Z.of_nat (length raw)) ++ raw) <> Panic).
  { intros raw dec Hne Hd. unfold with_prefix. case_step; [done|]. reflect_bools.
    rewrite read_at_no_panic by lia. res_simpl. case_step; [done|]. case_step; [done|].
    apply Hd. by rewrite drop_app_length' by (by rewrite length_be). }
  repeat split.
  - intros t data Hi. apply with_prefix_no_panic. intros p. by apply decode_raw_no_panic.
  - intros H. destruct (decide (raw = [])) as [|Hne]; [done|]. exfalso. revert H.
    apply Hpre; [done|]. by intros [|b p].
  - by intros ->.
  - intros H. destruct (decide (raw = [])) as [|Hne]; [done|]. exfalso. revert H.
    apply Hpre; [done|]. by intros [|b p].
  - by intros ->.
Qed.

Lemma from_wire_panics_witness :
  from_wire [Byte.x00] (TMap TText TUuid) <> Panic /\ from_raw_bytes [] TBoolean = Panic.
Proof.
  destruct from_wire_panics as (H1 & _ & H3). split; [apply H1; reflexivity|].
  apply H3. reflexivity.
Defined.

(** ** Equality *)

Fixpoint float_free (v : Value) : bool :=
  match v with
  | VFloat _ | VDouble _ => false
  | VSet l | VList l => forallb float_free l
  | VMap l => forallb (fun kv => float_free (fst kv) && float_free (snd kv)) l
  | _ => true
  end.

Lemma list_eqb_spec {A} (f : A -> A -> bool) l1 :
  Forall (fun a => forall b, f a b = true <-> a = b) l1 ->
  forall l2, list_eqb f l1 l2 = true <-> l1 = l2.
Proof.
  induction 1 as [|a l1 Ha Hl IH]; intros [|b l2]; cbn; try done.
  rewrite andb_true_iff, Ha, IH. split; [by intros [-> ->]|by intros [= -> ->]].
Qed.

(** [==] is equality of values, floats apart. *)
Lemma value_eqb_spec a b : float_free a = true -> value_eqb a b = true <-> a = b.
Proof.
  revert b. induction a as [a Ha|l IH|l IH|l IH] using value_ind'; intros b Hf.
  - destruct a; try discriminate Ha; try discriminate Hf; destruct b; cbn [value_eqb]; try done;
      rewrite ?Z.eqb_eq, ?bool_decide_eq_true, ?eqb_true_iff; split;
      (by intros -> || by intros [= ->]).
  - destruct b; cbn [value_eqb]; try done. cbn [float_free] in Hf. apply forallb_Forall in Hf.
    rewrite list_eqb_spec; [split; [by intros ->|by intros [= ->]]|].
    eapply Forall_impl; [exact (Forall_conj _ _ _ IH Hf)|].
    cbn. intros x [Hx Hfx] c. by apply Hx.
  - destruct b; cbn [value_eqb]; try done. cbn [float_free] in Hf. apply forallb_Forall in Hf.
    rewrite list_eqb_spec; [split; [by intros ->|by intros [= ->]]|].
    eapply Forall_impl; [exact (Forall_conj _ _ _ IH Hf)|].
    cbn. intros x [Hx Hfx] c. by apply Hx.
  - destruct b; cbn [value_eqb]; try done. cbn [float_free] in Hf. apply forallb_Forall in Hf.
    rewrite list_eqb_spec; [split; [by intros ->|by intros [= ->]]|].
    eapply Forall_impl; [exact (Forall_conj _ _ _ IH Hf)|].
    cbn. intros [x y] [[Hx Hy] [Hfx Hfy]%andb_true_iff] [c d]. cbn in *.
    rewrite andb_true_iff, Hx, Hy by done. split; [by intros [-> ->]|by intros [= -> ->]].
Qed.

(** ** Lemmas on literals *)

Section literal_lemmas.
Context `{UnicodeCase} `{Literals}.

Lemma show_i_solid z : forallb solid (show_i z) = true.
Proof.
  assert (Hu : forall n, (0 <= n)%Z -> forallb solid (show_u n) = true).
  { intros n Hn. pose proof (show_u_spec n Hn) as Hs. unfold parse_digits in Hs.
    destruct (forallb is_digit (show_u n)) eqn:E; [|by rewrite andb_false_r in Hs].
    apply forallb_Forall. apply forallb_Forall in E. eapply Forall_impl; [exact E|].
    apply is_digit_solid. }
  unfold show_i. destruct (Z.ltb_spec z 0).
  - rewrite forallb_app, Hu by lia. done.
  - by apply Hu.
Qed.

Lemma unescape_quoted s : unescape_string (quoted s) = s.
Proof.
  assert (Ht : trim (quoted s) = quoted s).
  { unfold quoted. eapply (trim_solid _ quote quote); [done| |done|done].
    by rewrite app_assoc, last_snoc. }
  unfold unescape_string. rewrite Ht. unfold quoted.
  assert (Hl : last ([quote] ++ double_quotes s ++ [quote]) = Some quote)
    by (by rewrite app_assoc, last_snoc).
  assert (Hn : length ([quote] ++ double_quotes s ++ [quote]) = S (S (length (double_quotes s)))).
  { rewrite !length_app. cbn. lia. }
  rewrite Hl, Hn, !bool_decide_eq_true_2 by done. cbn [andb Nat.leb].
  replace (S (S (length (double_quotes s))) - 2) with (length (double_quotes s)) by lia.
  change (drop 1 ([quote] ++ double_quotes s ++ [quote])) with (double_quotes s ++ [quote]).
  by rewrite take_app_length, replace_double.
Qed.

(** Literals written the way CQL prints them are read back: an integer in
    range by any of the integer types and by timestamp, and a quoted text with
    its quotes doubled, whatever bytes it holds. *)
Theorem literal_roundtrip z s :
  (in_i 32 z = true -> parse_literal (show_i z) TInt = Ok (VInt z)) /\
  (in_i 64 z = true -> parse_literal (show_i z) TBigInt = Ok (VBigInt z)) /\
  (in_i 16 z = true -> parse_literal (show_i z) TSmallInt = Ok (VSmallInt z)) /\
  (in_i 8 z = true -> parse_literal (show_i z) TTinyInt = Ok (VTinyInt z)) /\
  (in_i 64 z = true -> parse_literal (show_i z) TTimestamp = Ok (VTimestamp z)) /\
  parse_literal (quoted s) TText = Ok (VText s).
Proof.
  assert (Hq : trim (quoted s) = quoted s).
  { unfold quoted. eapply (trim_solid _ quote quote); [done| |done|done].
    by rewrite app_assoc, last_snoc. }
  unfold parse_literal. rewrite (trim_all_solid _ (show_i_solid z)), Hq, unescape_quoted.
  repeat split; try (intros Hz; by rewrite parse_int_show).
Qed.
End literal_lemmas.

(** A concrete set of literal grammars that accepts nothing. *)
Definition no_literals : Literals.
Proof.
  refine {| parse_f32 _ := None; parse_f64 _ := None; parse_ip _ := None; hex_decode _ := None;
            hex_decode_to_slice _ _ := None |}; done.
Defined.

Lemma literal_roundtrip_witness :
  parse_literal (H:=ascii_case) (H0:=no_literals) (show_i (-128)) TTinyInt = Ok (VTinyInt (-128)) /\
  parse_literal (H:=ascii_case) (H0:=no_literals) (bs "'it''s'") TText = Ok (VText (bs "it's")).
Proof.
  pose proof (literal_roundtrip (H:=ascii_case) (H0:=no_literals) (-128) (bs "it's"))
    as (_ & _ & _ & H4 & _ & H6).
  split; [apply H4; reflexivity|exact H6].
Defined.
