(* ===== verification/Keys.v ===== *)
(** * Keys, routing and the row format

    Models the pure part of src/src/storage.rs: the key namespaces, the
    partition hash and engine routing, the key codec [encode_key]/[decode_key],
    the range bound [prefix_upper_bound], the row codec
    [encode_row_columns]/[decode_row_columns], and how [Storage::open] picks
    and persists the number of engines. *)

From S2P Require Import Prelude RustStr Schema CqlValue.

Definition KS_PREFIX : bytes := bs "ks!".
Definition TB_PREFIX : bytes := bs "tb!".
Definition DT_PREFIX : bytes := bs "dt!".
Definition bang : bytes := bs "!".

Definition ks_key (name : str) : bytes := KS_PREFIX ++ name.
Definition tb_key (keyspace table : str) : bytes := TB_PREFIX ++ keyspace ++ bang ++ table.
Definition tb_prefix (keyspace : str) : bytes := TB_PREFIX ++ keyspace ++ bang.
Definition dt_ks_prefix (keyspace : str) : bytes := DT_PREFIX ++ keyspace ++ bang.
Definition data_prefix (keyspace table : str) : bytes :=
  DT_PREFIX ++ keyspace ++ bang ++ table ++ bang.

(** ** Routing *)

Definition fnv1a (l : bytes) : Z :=
  foldl (fun h b => uwrap 64 (Z.lxor h (byte_to_Z b) * 0x100000001b3))
    0xcbf29ce484222325%Z l.

(** [engines] is [self.dbs.len()]. *)
Definition engine_of (engines : nat) (routing_key : bytes) : nat :=
  if engines <=? 1 then 0 else Z.to_nat (fnv1a routing_key mod Z.of_nat engines).

Definition data_engine (engines : nat) (keyspace table : str) (first_part : bytes) : nat :=
  engine_of engines (DT_PREFIX ++ keyspace ++ bang ++ table ++ bang ++ first_part).

(** [key_parts.first().map(|p| p.as_slice()).unwrap_or(&[])]. *)
Definition first_part (parts : list bytes) : bytes := default [] (head parts).

(** ** The key codec *)

Definition encode_key (parts : list bytes) : bytes :=
  foldl (fun out p => (out ++ be 2 (Z.of_nat (length p))) ++ p) [] parts.

(** The full key of a row. *)
Definition row_key (keyspace table : str) (parts : list bytes) : bytes :=
  data_prefix keyspace table ++ encode_key parts.

(** The loop of [decode_key_data]; every turn consumes two bytes, so the length
    of the key is enough fuel ([decode_parts_inv]). *)
Fixpoint decode_parts (fuel : nat) (rest : bytes) (parts : list bytes) : res str (list bytes) :=
  match rest with
  | [] => Ok parts
  | _ =>
    match fuel with
    | O => Panic
    | S f =>
      if length rest <? 2 then Err (bs "corrupt key") else
      h ← read_at 2 rest 0;
      let len := Z.to_nat (from_be h) in
      if length rest <? 2 + len then Err (bs "corrupt key") else
      p ← slice rest 2 (2 + len);
      decode_parts f (drop (2 + len) rest) (parts ++ [p])
    end
  end.

Definition decode_key_data (prefix full_key : bytes) : res str (list bytes) :=
  if negb (starts_with full_key prefix) then Err (bs "key does not belong to table") else
  let rest := drop (length prefix) full_key in
  decode_parts (length rest) rest [].

Definition decode_key (keyspace table : str) (full_key : bytes) : res str (list bytes) :=
  decode_key_data (data_prefix keyspace table) full_key.

(** ** Range bounds *)

(** The loop runs over the bytes in reverse; [l] is the reversed prefix. *)
Fixpoint upper_bound_rev (l : bytes) : option bytes :=
  match l with
  | [] => None
  | b :: r =>
    if (byte_to_Z b <? 255)%Z then Some (Z_to_byte (byte_to_Z b + 1) :: r)
    else (fun e => b :: e) <$> upper_bound_rev r
  end.
Definition prefix_upper_bound (prefix : bytes) : option bytes :=
  reverse <$> upper_bound_rev (reverse prefix).

(** ** The row codec *)

Definition encode_row_columns (values : list (Z * Value)) : bytes :=
  foldl (fun out iv => write_wire (snd iv) (out ++ be 2 (fst iv))) [] values.

Definition corrupt_row : str := bs "corrupt row value".

(** The contents of a column at [off], behind the column index, and the next
    offset; a length of -1 is null, other negative lengths are corrupt. *)
Definition decode_cell (data : bytes) (ty : ColumnType) (off : nat) : res str (Value * nat) :=
  if length data <? off + 4 then Err corrupt_row else
  h ← read_at 4 data off;
  let len := from_be_signed h in
  if (len =? -1)%Z then Ok (VNull, off + 4) else
  if (len <? 0)%Z || (Z.of_nat (length data) <? Z.of_nat (off + 4) + len)%Z then Err corrupt_row else
  let len := Z.to_nat len in
  d ← slice data off (off + 4 + len);
  v ← from_wire d ty;
  Ok (v, off + 4 + len).

(** One column of a stored row at [off]: its index, contents and the next offset. *)
Definition decode_column (data : bytes) (table : TableDef) (off : nat) : res str (nat * Value * nat) :=
  if length data <? off + 2 then Err corrupt_row else
  h ← read_at 2 data off;
  let idx := Z.to_nat (from_be h) in
  let off := off + 2 in
  col ← ok_or (td_columns table !! idx)
          (bs "row references unknown column index " ++ show_u (Z.of_nat idx));
  '(v, off') ← decode_cell data (col_type col) off;
  Ok (idx, v, off').

(** The loop; every turn moves [off] by at least six bytes. *)
Fixpoint decode_columns (fuel : nat) (data : bytes) (table : TableDef) (off : nat) (out : list Value)
    : res str (list Value) :=
  if length data <=? off then Ok out else
  match fuel with
  | O => Panic
  | S f =>
    '(idx, v, off') ← decode_column data table off;
    decode_columns f data table off' (<[idx := v]> out)
  end.

Definition decode_row_columns (data : bytes) (table : TableDef) : res str (list Value) :=
  decode_columns (length data) data table 0 (replicate (length (td_columns table)) VNull).

(** ** The number of engines *)

(** [env_num]: the variable parsed as [usize], the default when it is unset or
    no number, clamped. *)
Definition env_num (var : option str) (dflt lo hi : Z) : Z :=
  let v := default dflt (var ≫= parse_uint 64) in
  Z.max lo (Z.min hi v).

(** The shard count of [Storage::open]: [marker] is the text of ENGINE-SHARDS
    ([None] when it cannot be read), [cpus] the available parallelism and [var]
    RHYDADB_ENGINE_SHARDS; the result is the count and the marker afterwards. *)
Definition shard_count (marker : option str) (cpus : Z) (var : option str) : Z * option str :=
  match marker with
  | Some text => (default 1%Z (parse_uint 64 (trim text)), marker)
  | None =>
    let n := env_num var (Z.max 4 (Z.min 16 cpus)) 1 64 in
    (n, Some (show_u n))
  end.

(** ** Lemmas on the key codec *)

Definition enc_part (p : bytes) : bytes := be 2 (Z.of_nat (length p)) ++ p.
(** A key part whose length survives the cast to [u16]. *)
Definition short (p : bytes) : Prop := (Z.of_nat (length p) < 2 ^ 16)%Z.
#[global] Instance short_dec p : Decision (short p).
Proof. unfold short. apply _. Defined.

Lemma encode_key_concat parts : encode_key parts = concat (enc_part <$> parts).
Proof.
  unfold encode_key. rewrite (foldl_app_concat _ enc_part); [done|].
  apply Forall_true. intros p q. unfold enc_part. by rewrite app_assoc.
Qed.

Lemma encode_key_app a b : encode_key (a ++ b) = encode_key a ++ encode_key b.
Proof. by rewrite !encode_key_concat, fmap_app, concat_app. Qed.

Lemma length_enc_part p : length (enc_part p) = 2 + length p.
Proof. unfold enc_part. by rewrite length_app, length_be. Qed.

Lemma from_be_len16 p : short p -> from_be (be 2 (Z.of_nat (length p))) = Z.of_nat (length p).
Proof. intros Hp. apply from_be_be_u. apply in_u_spec. unfold short in Hp. cbn. lia. Qed.

(** One turn of the loop on an encoded part. *)
Lemma decode_parts_step f p rest acc : short p ->
  decode_parts (S f) (enc_part p ++ rest) acc = decode_parts f rest (acc ++ [p]).
Proof.
  intros Hp. assert (Hl : length (enc_part p ++ rest) = 2 + length p + length rest).
  { by rewrite length_app, length_enc_part. }
  cbn [decode_parts]. destruct (enc_part p ++ rest) as [|x l] eqn:E; [cbn in Hl; lia|].
  rewrite <-E in *. clear x l E. rewrite Hl.
  decide_test (2 + length p + length rest <? 2) false.
  unfold enc_part. rewrite <-app_assoc.
  rewrite (read_at_app 2 [] (be 2 (Z.of_nat (length p))) (p ++ rest)) by (by rewrite ?length_be).
  res_simpl. rewrite from_be_len16, Nat2Z.id by done.
  decide_test (2 + length p + length rest <? 2 + length p) false.
  rewrite slice_app by (by rewrite length_be). res_simpl.
  rewrite app_assoc, drop_app_length'; [done|]. by rewrite length_app, length_be.
Qed.

Lemma decode_parts_encode parts acc fuel :
  Forall short parts -> length (encode_key parts) <= fuel ->
  decode_parts fuel (encode_key parts) acc = Ok (acc ++ parts).
Proof.
  intros Hs. rewrite encode_key_concat. revert acc fuel.
  induction Hs as [|p parts Hp Hs IH]; intros acc fuel Hf; cbn [fmap list_fmap concat] in *.
  - rewrite app_nil_r. by destruct fuel.
  - rewrite length_app, length_enc_part in Hf. destruct fuel as [|fuel]; [lia|].
    rewrite decode_parts_step, IH, <-app_assoc by (done || lia). done.
Qed.

(** The loop returns only what re-encodes to the key, and never runs out of
    fuel. *)
Lemma decode_parts_inv fuel rest acc :
  length rest <= fuel ->
  match decode_parts fuel rest acc with
  | Ok parts => exists ps, parts = acc ++ ps /\ rest = encode_key ps /\ Forall short ps
  | Err e => e = bs "corrupt key"
  | Panic => False
  end.
Proof.
  revert rest acc. induction fuel as [|f IH]; intros rest acc Hf.
  { destruct rest; [|cbn in Hf; lia]. exists []. by rewrite app_nil_r. }
  cbn [decode_parts]. destruct rest as [|x l] eqn:E; [exists []; by rewrite app_nil_r|].
  rewrite <-E in *. clear x l E.
  case_step; [done|]. reflect_bools. rewrite read_at_no_panic by lia. res_simpl.
  rewrite drop_0. set (h := take 2 rest). case_step; [done|]. reflect_bools.
  assert (Hh : length h = 2) by (unfold h; rewrite length_take; lia).
  pose proof (from_be_range h) as Hr. rewrite Hh in Hr. cbn in Hr.
  set (n := Z.to_nat (from_be h)) in *.
  rewrite slice_no_panic by lia. res_simpl. replace (2 + n - 2) with n by lia.
  set (p := take n (drop 2 rest)).
  assert (Hp : length p = n) by (unfold p; rewrite length_take, length_drop; lia).
  specialize (IH (drop (2 + n) rest) (acc ++ [p])). rewrite length_drop in IH.
  destruct (decode_parts _ _ _) as [parts|e|] eqn:E; [|by apply IH; lia|by apply IH; lia].
  destruct IH as (ps & -> & Hd & Hs); [lia|]. exists (p :: ps). repeat split.
  - by rewrite <-app_assoc.
  - rewrite encode_key_concat. cbn [fmap list_fmap concat]. rewrite <-encode_key_concat, <-Hd.
    unfold enc_part. rewrite Hp. replace (be 2 (Z.of_nat n)) with h.
    + unfold h, p. rewrite <-(drop_drop rest n 2). by rewrite <-app_assoc, !take_drop.
    + unfold n. rewrite Z2Nat.id by lia. by rewrite be_from_be.
  - constructor; [|done]. unfold short. rewrite Hp. lia.
Qed.

Lemma decode_key_spec keyspace table k :
  (forall parts, decode_key keyspace table k = Ok parts <->
     k = row_key keyspace table parts /\ Forall short parts) /\
  decode_key keyspace table k <> Panic.
Proof.
  unfold decode_key, decode_key_data, row_key. set (p := data_prefix keyspace table).
  destruct (starts_with k p) eqn:Hp; cbn [negb].
  - apply starts_with_true in Hp as [r ->]. rewrite drop_app_length.
    pose proof (decode_parts_inv (length r) r [] (le_n _)) as Hinv. split.
    + intros parts. split.
      * intros Hd. rewrite Hd in Hinv. by destruct Hinv as (ps & -> & -> & Hs).
      * intros [[= ->]%app_inv_head Hs]. by apply decode_parts_encode.
    + intros Hd. by rewrite Hd in Hinv.
  - split; [|done]. intros parts. split; [done|]. intros [-> _]. by rewrite starts_with_app in Hp.
Qed.

Lemma decode_row_key keyspace table parts :
  Forall short parts -> decode_key keyspace table (row_key keyspace table parts) = Ok parts.
Proof. intros Hs. by apply decode_key_spec. Qed.

(** C25: keys are parsed exactly.  [decode_key] accepts precisely the keys of the
    table whose parts all fit the two-byte length prefix, and returns the very
    parts [put_row] encoded; every other key is an error, never a panic. *)
Theorem decode_key_exact keyspace table k :
  (forall parts, decode_key keyspace table k = Ok parts <->
     k = row_key keyspace table parts /\ Forall short parts) /\
  decode_key keyspace table k <> Panic.
Proof. apply decode_key_spec. Qed.

Lemma encode_key_empties m : encode_key (replicate m []) = replicate (m * 2) Byte.x00.
Proof.
  rewrite encode_key_concat, fmap_replicate. induction m as [|m IH]; [done|].
  cbn [replicate concat Nat.mul Nat.add]. by rewrite IH.
Qed.

(** A key part longer than 65535 bytes is not preserved: its length is cast
    to [u16], so the key of one 65536-byte part of zeros is also the key of
    32769 empty parts, and decoding a stored key of such a row does not give
    its parts back. *)
Theorem long_key_collision keyspace table :
  let big := [replicate (Z.to_nat 65536) Byte.x00] in
  let many := replicate (Z.to_nat 32769) ([] : bytes) in
  big <> many /\ row_key keyspace table big = row_key keyspace table many /\
  decode_key keyspace table (row_key keyspace table big) = Ok many.
Proof.
  intros big many. assert (He : encode_key big = encode_key many).
  { unfold many. rewrite encode_key_empties, encode_key_concat. cbn [big fmap list_fmap concat].
    rewrite app_nil_r. unfold enc_part. rewrite length_replicate, Z2Nat.id by lia.
    change (be 2 65536) with (replicate 2 Byte.x00). rewrite <-replicate_add. f_equal; lia. }
  split.
  - intros Hbm. apply (f_equal length) in Hbm. unfold many in Hbm.
    rewrite length_replicate in Hbm. cbn [big length] in Hbm. lia.
  - unfold row_key. rewrite He. split; [done|]. apply decode_row_key. by apply Forall_replicate.
Qed.

(** ** Lemmas on prefixes *)

(** Encoded keys are prefix-compatible: an encoded partition key is a byte
    prefix of an encoded row key exactly when its parts are the first parts. *)
Lemma encode_key_prefix a b : Forall short a -> Forall short b ->
  encode_key a `prefix_of` encode_key b <-> a `prefix_of` b.
Proof.
  intros Ha Hb. split.
  - rewrite !encode_key_concat. revert b Hb.
    induction Ha as [|p a Hp Ha IH]; intros b Hb Hpre; [by apply prefix_nil|].
    destruct Hb as [|q b Hq Hb]; cbn [fmap list_fmap concat] in Hpre.
    + apply prefix_length in Hpre. rewrite length_app, length_enc_part in Hpre. cbn in Hpre. lia.
    + destruct Hpre as [r Hr]. rewrite <-app_assoc in Hr. unfold enc_part at 1 3 in Hr.
      rewrite <-!app_assoc in Hr.
      apply app_inj_1 in Hr as [Hlen Hr]; [|by rewrite !length_be].
      apply (f_equal from_be) in Hlen. rewrite !from_be_len16 in Hlen by done.
      apply app_inj_1 in Hr as [-> Hr]; [|lia].
      apply prefix_cons, IH; [done|]. by exists r.
  - intros [r ->]. rewrite encode_key_app. by apply prefix_app_r.
Qed.

Definition no_bang (s : str) : Prop := Byte.x21 ∉ s.
#[global] Instance no_bang_dec s : Decision (no_bang s).
Proof. unfold no_bang. apply _. Defined.

Lemma no_bang_cons x s : no_bang (x :: s) -> x <> Byte.x21 /\ no_bang s.
Proof. unfold no_bang. rewrite not_elem_of_cons. by intros [? ?]. Qed.

Lemma bang_split a b r s :
  no_bang a -> no_bang b -> (a ++ bang ++ r) `prefix_of` (b ++ bang ++ s) ->
  a = b /\ r `prefix_of` s.
Proof.
  unfold bang. change (bs "!") with [Byte.x21]. revert b.
  induction a as [|x a IH]; intros [|y b] Ha Hb; cbn [app].
  - intros Hp. split; [done|]. by apply prefix_cons_inv_2 in Hp.
  - intros Hp%prefix_cons_inv_1. by apply no_bang_cons in Hb as [? _].
  - intros Hp%prefix_cons_inv_1. by apply no_bang_cons in Ha as [? _].
  - intros Hp. pose proof (prefix_cons_inv_1 _ _ _ _ Hp) as ->.
    apply no_bang_cons in Ha as [_ Ha], Hb as [_ Hb].
    by apply prefix_cons_inv_2, IH in Hp as [-> Hp].
Qed.

Lemma bang_split_eq a b r s :
  no_bang a -> no_bang b -> a ++ bang ++ r = b ++ bang ++ s -> a = b /\ r = s.
Proof.
  intros Ha Hb E. assert (Hp : (a ++ bang ++ r) `prefix_of` (b ++ bang ++ s)) by (by rewrite E).
  destruct (bang_split a b r s Ha Hb Hp) as [-> _]. split; [done|].
  by apply app_inv_head, app_inv_head in E.
Qed.

(** The prefix a scan or a range delete of a table uses reaches exactly that
    table's rows. *)
Lemma data_prefix_iff ks tb ks' tb' enc :
  no_bang ks -> no_bang ks' -> no_bang tb -> no_bang tb' ->
  data_prefix ks tb `prefix_of` data_prefix ks' tb' ++ enc <-> ks = ks' /\ tb = tb'.
Proof.
  intros H1 H2 H3 H4. unfold data_prefix. split.
  - intros Hp. rewrite <-!app_assoc in Hp. apply prefix_app_inv in Hp.
    apply bang_split in Hp as [-> Hp]; [|done|done].
    rewrite <-(app_nil_r bang) in Hp at 1.
    by apply bang_split in Hp as [-> _].
  - intros [-> ->]. by apply prefix_app_r.
Qed.

Lemma dt_ks_prefix_iff ks ks' tb' enc :
  no_bang ks -> no_bang ks' ->
  dt_ks_prefix ks `prefix_of` data_prefix ks' tb' ++ enc <-> ks = ks'.
Proof.
  intros H1 H2. unfold dt_ks_prefix, data_prefix. split.
  - intros Hp. rewrite <-!app_assoc in Hp. apply prefix_app_inv in Hp.
    rewrite <-(app_nil_r bang) in Hp at 1. by apply bang_split in Hp as [-> _].
  - intros ->. rewrite <-!app_assoc. apply prefix_app, prefix_app. by apply prefix_app_r.
Qed.

Lemma prefix_isolation ks tb pk ks' tb' parts :
  no_bang ks -> no_bang ks' -> no_bang tb -> no_bang tb' ->
  Forall short pk -> Forall short parts ->
  starts_with (row_key ks' tb' parts) (data_prefix ks tb ++ encode_key pk) = true <->
  ks = ks' /\ tb = tb' /\ pk `prefix_of` parts.
Proof.
  intros H1 H2 H3 H4 Hpk Hparts. rewrite starts_with_true. unfold row_key. split.
  - intros Hp.
    assert (Hd : data_prefix ks tb `prefix_of` data_prefix ks' tb' ++ encode_key parts).
    { destruct Hp as [r Hr]. exists (encode_key pk ++ r). by rewrite Hr, app_assoc. }
    apply data_prefix_iff in Hd as [-> ->]; [|done..].
    apply prefix_app_inv in Hp. by apply encode_key_prefix in Hp.
  - intros (-> & -> & Hp). by apply prefix_app, encode_key_prefix.
Qed.

(** No row is reached through another table's or partition's prefix.  For
    names without [!], the scan prefix of table [(ks, tb)] and partition [pk]
    is a prefix of a stored row's key exactly when the row belongs to that
    table and its key starts with the parts [pk]; with [pk = []] this is the
    prefix of table scans, TRUNCATE and DROP TABLE. *)
Theorem scan_prefix_isolation ks tb pk ks' tb' parts :
  no_bang ks -> no_bang ks' -> no_bang tb -> no_bang tb' ->
  Forall short pk -> Forall short parts ->
  starts_with (row_key ks' tb' parts) (data_prefix ks tb ++ encode_key pk) = true <->
  ks = ks' /\ tb = tb' /\ pk `prefix_of` parts.
Proof. apply prefix_isolation. Qed.

Lemma scan_prefix_isolation_witness :
  starts_with (row_key (bs "ks") (bs "t") [bs "a"; bs "1"])
    (data_prefix (bs "ks") (bs "t") ++ encode_key [bs "a"]) = true /\
  (starts_with (row_key (bs "ks") (bs "t2") [bs "a"]) (data_prefix (bs "ks") (bs "t") ++ encode_key [])
   = true -> bs "t" = bs "t2").
Proof.
  split.
  - apply (scan_prefix_isolation (bs "ks") (bs "t") [bs "a"] (bs "ks") (bs "t") [bs "a"; bs "1"]);
      by_compute.
  - intros Hs. apply (scan_prefix_isolation (bs "ks") (bs "t") [] (bs "ks") (bs "t2") [bs "a"]) in Hs;
      try by_compute.
    by destruct Hs as (_ & Ht & _).
Defined.

(** ** Lemmas on range bounds *)

Lemma upper_bound_rev_ff n b r : (byte_to_Z b < 255)%Z ->
  upper_bound_rev (replicate n Byte.xff ++ b :: r)
  = Some (replicate n Byte.xff ++ Z_to_byte (byte_to_Z b + 1) :: r).
Proof.
  intros Hb. induction n as [|n IH]; cbn [replicate app upper_bound_rev].
  - by rewrite (proj2 (Z.ltb_lt _ _)) by done.
  - change (byte_to_Z Byte.xff <? 255)%Z with false. by rewrite IH.
Qed.

(** The incremented byte is the last one below 255; the bytes after it stay. *)
Lemma prefix_upper_bound_spec q b n : (byte_to_Z b < 255)%Z ->
  prefix_upper_bound (q ++ b :: replicate n Byte.xff)
  = Some (q ++ Z_to_byte (byte_to_Z b + 1) :: replicate n Byte.xff).
Proof.
  intros Hb. unfold prefix_upper_bound.
  rewrite reverse_app, reverse_cons, reverse_replicate, <-app_assoc. cbn [app].
  rewrite upper_bound_rev_ff by done. cbn.
  by rewrite reverse_app, reverse_cons, reverse_involutive, reverse_replicate, <-app_assoc.
Qed.

Lemma byte_succ b : (byte_to_Z b < 255)%Z ->
  byte_to_Z (Z_to_byte (byte_to_Z b + 1)) = (byte_to_Z b + 1)%Z.
Proof.
  intros Hb. rewrite byte_to_Z_to_byte. pose proof (byte_to_Z_range b).
  by rewrite Z.mod_small by lia.
Qed.

Lemma range_covers q b tl k : (byte_to_Z b < 255)%Z ->
  (q ++ b :: tl) `prefix_of` k ->
  bytes_le (q ++ b :: tl) k /\ bytes_ltb k (q ++ Z_to_byte (byte_to_Z b + 1) :: tl) = true.
Proof.
  intros Hb Hk. split; [by apply prefix_bytes_le|]. destruct Hk as [r ->].
  rewrite <-app_assoc, bytes_ltb_app. cbn. rewrite byte_succ by done.
  by rewrite (proj2 (Z.ltb_lt _ _)) by lia.
Qed.

Lemma range_exact q b k : (byte_to_Z b < 255)%Z ->
  bytes_le (q ++ [b]) k -> bytes_ltb k (q ++ [Z_to_byte (byte_to_Z b + 1)]) = true ->
  (q ++ [b]) `prefix_of` k.
Proof.
  intros Hb. unfold bytes_le, bytes_leb. rewrite negb_true_iff. revert k.
  induction q as [|y q IH]; intros [|x k]; cbn [app bytes_ltb]; try done;
    rewrite orb_false_iff, andb_false_iff, orb_true_iff, andb_true_iff, !Z.ltb_lt, Z.ltb_ge,
      Z.eqb_eq, Z.eqb_neq.
  - rewrite byte_succ by done. intros [Hge _] [Hlt|[_ Hlt]]; [|by rewrite bytes_ltb_nil_r in Hlt].
    assert (x = b) as -> by (apply byte_to_Z_inj; lia). apply prefix_cons, prefix_nil.
  - intros [Hge H1] [Hlt|[He Hlt]]; [lia|]. apply byte_to_Z_inj in He as ->.
    destruct H1 as [?|H1]; [done|]. apply prefix_cons. by apply IH.
Qed.

Lemma prefix_range q b k : (byte_to_Z b < 255)%Z ->
  exists e, prefix_upper_bound (q ++ [b]) = Some e /\
    (bytes_leb (q ++ [b]) k && bytes_ltb k e = starts_with k (q ++ [b])).
Proof.
  intros Hb. eexists. split; [apply (prefix_upper_bound_spec q b 0 Hb)|].
  cbn [replicate]. apply eq_true_iff_eq. rewrite andb_true_iff, starts_with_true. split.
  - intros [H1 H2]. by apply range_exact.
  - intros Hk. by apply range_covers.
Qed.

(** C37: what a range tombstone removes.  For a prefix whose last byte is not
    0xFF - every prefix the storage layer uses ends in [!] - the range from the
    prefix to [prefix_upper_bound] holds exactly the keys that start with the
    prefix.  In general the range still covers all of them, but a trailing 0xFF
    is kept instead of cut, so [01 ff] also covers the foreign key [02]. *)
Theorem prefix_upper_bound_exact :
  (forall q b k, (byte_to_Z b < 255)%Z -> exists e, prefix_upper_bound (q ++ [b]) = Some e /\
     (bytes_leb (q ++ [b]) k && bytes_ltb k e = starts_with k (q ++ [b]))) /\
  (forall q b n k e, (byte_to_Z b < 255)%Z ->
     prefix_upper_bound (q ++ b :: replicate n Byte.xff) = Some e ->
     starts_with k (q ++ b :: replicate n Byte.xff) = true ->
     bytes_leb (q ++ b :: replicate n Byte.xff) k && bytes_ltb k e = true) /\
  (forall n, prefix_upper_bound (replicate n Byte.xff) = None) /\
  prefix_upper_bound [Byte.x01; Byte.xff] = Some [Byte.x02; Byte.xff] /\
  bytes_leb [Byte.x01; Byte.xff] [Byte.x02] && bytes_ltb [Byte.x02] [Byte.x02; Byte.xff] = true.
Proof.
  repeat split.
  - intros q b k Hb. by apply prefix_range.
  - intros q b n k e Hb He Hk%starts_with_true. rewrite prefix_upper_bound_spec in He by done.
    injection He as <-. apply andb_true_iff. by apply range_covers.
  - intros n. unfold prefix_upper_bound. rewrite reverse_replicate.
    assert (Hn : upper_bound_rev (replicate n Byte.xff) = None); [|by rewrite Hn].
    induction n as [|n IH]; [done|]. cbn [replicate upper_bound_rev].
    change (byte_to_Z Byte.xff <? 255)%Z with false. by rewrite IH.
Qed.

Lemma prefix_upper_bound_exact_witness :
  exists e, prefix_upper_bound (data_prefix (bs "ks") (bs "t")) = Some e /\
    bytes_leb (data_prefix (bs "ks") (bs "t")) (bs "dt!ks!t2!x") && bytes_ltb (bs "dt!ks!t2!x") e
    = starts_with (bs "dt!ks!t2!x") (data_prefix (bs "ks") (bs "t")).
Proof.
  destruct prefix_upper_bound_exact as (H1 & _).
  apply (H1 (bs "dt!ks!t") Byte.x21 (bs "dt!ks!t2!x")). reflexivity.
Defined.

(** ** Lemmas on routing *)

Lemma fnv1a_range l : (0 <= fnv1a l < 2 ^ 64)%Z.
Proof.
  unfold fnv1a. assert (Hi : (0 <= 0xcbf29ce484222325 < 2 ^ 64)%Z) by lia.
  revert Hi. generalize 0xcbf29ce484222325%Z. induction l as [|b l IH]; intros h Hh; [done|].
  cbn [foldl]. apply IH. unfold uwrap. apply Z.mod_pos_bound. lia.
Qed.

Lemma engine_of_lt n k : 0 < n -> engine_of n k < n.
Proof.
  intros Hn. unfold engine_of. destruct (Nat.leb_spec n 1); [lia|].
  pose proof (Z.mod_pos_bound (fnv1a k) (Z.of_nat n)). lia.
Qed.

(** Routing is total and keeps partitions together: the engine index is in
    range for every number of engines, and any two rows of a table that agree
    on the first key part - in particular all rows of a partition and the
    prefix a partition scan starts from - are on the same engine. *)
Theorem partition_routing engines keyspace table parts pk :
  0 < engines -> pk <> [] -> pk `prefix_of` parts ->
  data_engine engines keyspace table (first_part parts) < engines /\
  data_engine engines keyspace table (first_part parts)
  = data_engine engines keyspace table (first_part pk).
Proof.
  intros Hn Hne [r ->]. split; [by apply engine_of_lt|].
  destruct pk as [|p pk]; [done|]. done.
Qed.

Lemma partition_routing_witness :
  data_engine 16 (bs "ks") (bs "t") (first_part [bs "a"; bs "1"]) < 16 /\
  data_engine 16 (bs "ks") (bs "t") (first_part [bs "a"; bs "1"])
  = data_engine 16 (bs "ks") (bs "t") (first_part [bs "a"]).
Proof.
  apply (partition_routing 16 (bs "ks") (bs "t") [bs "a"; bs "1"] [bs "a"]); [lia|done|].
  by exists [bs "1"].
Defined.

(** The engine count survives restarts: whatever the environment says at
    the second start, [Storage::open] finds in ENGINE-SHARDS the count the first
    start persisted, which is between 1 and 64. *)
Theorem shard_count_stable cpus var cpus' var' n marker :
  shard_count None cpus var = (n, marker) ->
  shard_count marker cpus' var' = (n, marker) /\ (1 <= n <= 64)%Z.
Proof.
  unfold shard_count at 1. intros [= <- <-].
  assert (Hr : (1 <= env_num var (Z.max 4 (Z.min 16 cpus)) 1 64 <= 64)%Z).
  { unfold env_num. lia. }
  split; [|done]. unfold shard_count. rewrite trim_show_u by lia. rewrite parse_uint_show; [done|].
  apply in_u_spec. lia.
Qed.

Lemma shard_count_stable_witness :
  shard_count None 28 None = (16%Z, Some (bs "16")) /\
  shard_count (Some (bs "16")) 4 (Some (bs "32")) = (16%Z, Some (bs "16")) /\ (1 <= 16 <= 64)%Z.
Proof. split; [reflexivity|]. apply (shard_count_stable 28 None). reflexivity. Defined.

(** ** Lemmas on rows *)

Definition enc_col (iv : Z * Value) : bytes := be 2 (fst iv) ++ to_wire (snd iv).

Lemma encode_row_concat row : encode_row_columns row = concat (enc_col <$> row).
Proof.
  unfold encode_row_columns. rewrite (foldl_app_concat _ enc_col); [done|].
  apply Forall_true. intros iv q. unfold enc_col. by rewrite write_wire_app, <-app_assoc.
Qed.

(** A column of a row the table can hold: the index of a column, and contents
    of its type that fit the length prefixes. *)
Definition col_ok (table : TableDef) (iv : Z * Value) : Prop :=
  in_u 16 (fst iv) = true /\ fits (snd iv) = true /\
  exists c, td_columns table !! Z.to_nat (fst iv) = Some c /\ cell_ok (col_type c) (snd iv) = true.

Lemma decode_cell_app ty v data pre post :
  fits v = true -> cell_ok ty v = true -> data = pre ++ to_wire v ++ post ->
  decode_cell data ty (length pre) = Ok (v, length (pre ++ to_wire v)).
Proof.
  intros Hf Ht Hdata. unfold fits in Hf. apply Z.ltb_lt in Hf.
  assert (Hlen : length data = length pre + length (to_wire v) + length post).
  { rewrite Hdata, !length_app. lia. }
  pose proof (length_to_wire_ge v) as Hw. unfold decode_cell. rewrite Hlen, length_app.
  decide_test (length pre + length (to_wire v) + length post <? length pre + 4) false.
  destruct (value_eqb v VNull) eqn:E.
  { assert (v = VNull) as -> by (by destruct v).
    change (to_wire VNull) with (be 4 (-1)) in *.
    rewrite Hdata, (read_at_app 4) by (by rewrite ?length_be). res_simpl.
    rewrite (from_be_be_i 4) by (done || lia). cbn. by rewrite length_be. }
  assert (Hv : has_type ty v = true) by (by destruct v).
  pose proof (to_wire_raw _ _ Hv) as Hraw.
  assert (Hlw : length (to_wire v) = 4 + length (raw_bytes v)).
  { rewrite Hraw at 1. by rewrite length_app, length_be. }
  rewrite Hdata at 1. rewrite Hraw at 1. rewrite <-(app_assoc (be 4 _) _ post).
  rewrite (read_at_app 4) by (by rewrite ?length_be). res_simpl.
  rewrite from_be_len32 by lia.
  decide_test (Z.of_nat (length (raw_bytes v)) =? -1)%Z false.
  decide_test (Z.of_nat (length (raw_bytes v)) <? 0)%Z false. cbn [orb].
  decide_test (Z.of_nat (length pre + length (to_wire v) + length post)
     <? Z.of_nat (length pre + 4) + Z.of_nat (length (raw_bytes v)))%Z false.
  rewrite Nat2Z.id, Hdata, slice_app by (rewrite ?length_app; lia). res_simpl.
  rewrite from_wire_to_wire by (done || (unfold fits; by apply Z.ltb_lt)). res_simpl.
  do 2 f_equal. lia.
Qed.

Lemma decode_column_app table iv data pre post :
  col_ok table iv -> data = pre ++ enc_col iv ++ post ->
  decode_column data table (length pre)
  = Ok (Z.to_nat (fst iv), snd iv, length (pre ++ enc_col iv)).
Proof.
  destruct iv as [i v]. intros (Hi & Hf & c & Hc & Ht) Hdata. cbn [fst snd] in *.
  unfold enc_col in Hdata; cbn [fst snd] in Hdata. rewrite <-app_assoc in Hdata.
  assert (Hlen : length pre + 2 <= length data).
  { rewrite Hdata, !length_app, length_be. lia. }
  unfold decode_column. decide_test (length data <? length pre + 2) false.
  rewrite Hdata at 1. rewrite (read_at_app 2) by (by rewrite ?length_be). res_simpl.
  rewrite (from_be_be_u 2) by done. rewrite Hc. res_simpl. rewrite app_assoc in Hdata.
  replace (length pre + 2) with (length (pre ++ be 2 i)) by (by rewrite length_app, length_be).
  rewrite (decode_cell_app _ v _ _ post) by done. res_simpl.
  unfold enc_col. cbn [fst snd]. by rewrite app_assoc.
Qed.

Lemma decode_columns_encode table row data pre out fuel :
  Forall (col_ok table) row -> data = pre ++ encode_row_columns row -> length row <= fuel ->
  decode_columns fuel data table (length pre) out
  = Ok (foldl (fun o iv => <[Z.to_nat (fst iv) := snd iv]> o) out row).
Proof.
  rewrite encode_row_concat. intros Hrow. revert pre out fuel.
  induction Hrow as [|iv row Hiv Hrow IH]; intros pre out fuel Hdata Hfuel;
    cbn [fmap list_fmap concat] in Hdata.
  - rewrite app_nil_r in Hdata. subst data.
    destruct fuel; cbn [decode_columns]; by rewrite Nat.leb_refl.
  - destruct fuel as [|fuel]; [cbn in Hfuel; lia|]. cbn [decode_columns].
    assert (Hlt : length pre < length data).
    { rewrite Hdata, !length_app. unfold enc_col. rewrite length_app, length_be. lia. }
    decide_test (length data <=? length pre) false.
    rewrite (decode_column_app _ _ _ _ _ Hiv Hdata). res_simpl.
    rewrite (IH _ _ _ (eq_trans Hdata (app_assoc _ _ _))) by (cbn in Hfuel; lia). done.
Qed.

Lemma decode_row_encode table row : Forall (col_ok table) row ->
  decode_row_columns (encode_row_columns row) table
  = Ok (foldl (fun o iv => <[Z.to_nat (fst iv) := snd iv]> o)
          (replicate (length (td_columns table)) VNull) row).
Proof.
  intros Hrow. unfold decode_row_columns. change 0 with (length ([] : bytes)) at 1.
  apply decode_columns_encode; [done|done|]. rewrite encode_row_concat.
  apply length_concat_ge. intros iv. unfold enc_col. rewrite length_app, length_be. lia.
Qed.

(** The row vector after the columns of [row] were stored into it. *)
Definition place (out : list Value) (row : list (Z * Value)) : list Value :=
  foldl (fun o iv => <[Z.to_nat (fst iv) := snd iv]> o) out row.

Lemma length_place out row : length (place out row) = length out.
Proof.
  unfold place. revert out. induction row as [|iv row IH]; intros out; cbn; [done|].
  by rewrite IH, length_insert.
Qed.

Lemma place_other out row j :
  j ∉ (fun iv => Z.to_nat (fst iv)) <$> row -> place out row !! j = out !! j.
Proof.
  unfold place. revert out. induction row as [|iv row IH]; intros out Hj; cbn in *; [done|].
  apply not_elem_of_cons in Hj as [Hne Hj]. rewrite IH by done.
  by rewrite list_lookup_insert_ne.
Qed.

Lemma place_in out row i v :
  NoDup ((fun iv => Z.to_nat (fst iv)) <$> row) -> (i, v) ∈ row -> Z.to_nat i < length out ->
  place out row !! Z.to_nat i = Some v.
Proof.
  revert out. induction row as [|iv row IH]; intros out Hnd Hin Hlt; [by apply not_elem_of_nil in Hin|].
  apply NoDup_cons in Hnd as [Hn Hnd]. cbn. apply elem_of_cons in Hin as [<-|Hin].
  - cbn. fold (place (<[Z.to_nat i := v]> out) row). rewrite place_other by done.
    by apply list_lookup_insert_eq.
  - apply IH; [done|done|]. by rewrite length_insert.
Qed.

Lemma NoDup_indexes (row : list (Z * Value)) :
  Forall (fun iv => in_u 16 (fst iv) = true) row -> NoDup (fst <$> row) ->
  NoDup ((fun iv => Z.to_nat (fst iv)) <$> row).
Proof.
  intros Hr. induction Hr as [|iv row Hi Hr IH]; cbn; [constructor|].
  rewrite !NoDup_cons. intros [Hn Hnd]. split; [|by apply IH].
  intros (jv & He & Hin)%list_elem_of_fmap. apply Hn, list_elem_of_fmap. exists jv.
  split; [|done]. rewrite Forall_forall in Hr. specialize (Hr _ Hin).
  apply in_u_spec in Hi, Hr. lia.
Qed.

(** C17: the row codec round-trips.  A stored row with distinct column indexes
    and well-typed contents decodes to a full row of the table: the stored
    contents at their columns, null at every other column. *)
Theorem row_roundtrip table row :
  Forall (col_ok table) row -> NoDup (fst <$> row) ->
  exists out, decode_row_columns (encode_row_columns row) table = Ok out /\
    length out = length (td_columns table) /\
    (forall i v, (i, v) ∈ row -> out !! Z.to_nat i = Some v) /\
    (forall j, j < length (td_columns table) -> Z.of_nat j ∉ fst <$> row -> out !! j = Some VNull).
Proof.
  intros Hrow Hnd. eexists. split; [by apply decode_row_encode|].
  fold (place (replicate (length (td_columns table)) VNull) row).
  rewrite length_place, length_replicate. split; [done|].
  assert (Hnd' : NoDup ((fun iv => Z.to_nat (fst iv)) <$> row)).
  { apply NoDup_indexes; [|done]. eapply Forall_impl; [exact Hrow|]. by intros iv [Hi _]. }
  rewrite Forall_forall in Hrow. split.
  - intros i v Hin. apply place_in; [done|done|]. rewrite length_replicate.
    destruct (Hrow _ Hin) as (_ & _ & c & Hc & _). by eapply lookup_lt_Some.
  - intros j Hj Hn. rewrite place_other; [by apply lookup_replicate_2|].
    intros (iv & -> & Hin)%list_elem_of_fmap. apply Hn, list_elem_of_fmap. exists iv.
    split; [|done]. destruct (Hrow _ Hin) as [Hi _]. apply in_u_spec in Hi. lia.
Qed.

Lemma row_roundtrip_witness :
  exists out, decode_row_columns (encode_row_columns [(2%Z, VSet [VBlob [Byte.xff]])]) demo_table
    = Ok out /\ length out = 3 /\ out !! 2 = Some (VSet [VBlob [Byte.xff]]).
Proof.
  destruct (row_roundtrip demo_table [(2%Z, VSet [VBlob [Byte.xff]])]) as (out & Hd & Hl & Hin & _).
  - repeat constructor. eexists. by split.
  - repeat constructor. apply not_elem_of_nil.
  - exists out. split; [exact Hd|]. split; [exact Hl|]. apply (Hin 2%Z). by constructor.
Defined.

Lemma decode_cell_inv data ty off v off' :
  decode_cell data ty off = Ok (v, off') -> cell_ok ty v = true /\ off < off'.
Proof.
  unfold decode_cell. intros H. case_step_in H. apply bind_Ok in H as (h & _ & H).
  case_step_in H; [injection H as <- <-; split; [done|lia]|]. case_step_in H.
  apply bind_Ok in H as (d & _ & H). apply bind_Ok in H as (w & Hw & [= <- <-]).
  split; [by eapply from_wire_cell|lia].
Qed.

Lemma decode_column_inv data table off i v off' :
  decode_column data table off = Ok (i, v, off') ->
  (exists c, td_columns table !! i = Some c /\ cell_ok (col_type c) v = true) /\ off < off'.
Proof.
  unfold decode_column. intros H. case_step_in H. apply bind_Ok in H as (h & _ & H).
  apply bind_Ok in H as (c & Hc%ok_or_Ok & H). apply bind_Ok in H as ([w o] & Hw & [= <- <- <-]).
  apply decode_cell_inv in Hw as [Ht Ho]. split; [by exists c|lia].
Qed.

Lemma decode_column_no_panic data table off :
  Forall (fun c => indexes_first (col_type c) = false) (td_columns table) ->
  decode_column data table off <> Panic.
Proof.
  intros Hc. unfold decode_column. case_step; [done|]. reflect_bools.
  rewrite read_at_no_panic by lia. res_simpl.
  destruct (td_columns table !! _) as [c|] eqn:Hi; res_simpl; [|done].
  rewrite Forall_lookup in Hc. specialize (Hc _ _ Hi).
  apply bind_no_panic; [|by intros [w o]]. unfold decode_cell. case_step; [done|]. reflect_bools.
  rewrite read_at_no_panic by lia. res_simpl. case_step; [done|]. case_step; [done|].
  match goal with H : _ || _ = false |- _ => apply orb_false_iff in H as [? ?] end. reflect_bools.
  rewrite slice_no_panic by lia. res_simpl. apply bind_no_panic; [|done].
  apply with_prefix_no_panic. intros p. by apply decode_raw_no_panic.
Qed.

(** Rows of the width of the table with contents of the columns' types. *)
Definition row_ok (table : TableDef) (out : list Value) : Prop :=
  Forall2 (fun c v => cell_ok (col_type c) v = true) (td_columns table) out.

Lemma row_ok_insert table out i v c :
  row_ok table out -> td_columns table !! i = Some c -> cell_ok (col_type c) v = true ->
  row_ok table (<[i := v]> out).
Proof.
  unfold row_ok. intros Ho Hc Hv. rewrite <-(list_insert_id (td_columns table) i c Hc).
  by apply Forall2_insert.
Qed.

Lemma row_ok_nulls table : row_ok table (replicate (length (td_columns table)) VNull).
Proof. apply Forall2_replicate_r; [done|]. by apply Forall_true. Qed.

Lemma decode_columns_spec fuel data table off out :
  length data <= off + fuel -> row_ok table out ->
  (forall out', decode_columns fuel data table off out = Ok out' -> row_ok table out') /\
  (Forall (fun c => indexes_first (col_type c) = false) (td_columns table) ->
   decode_columns fuel data table off out <> Panic).
Proof.
  revert off out. induction fuel as [|f IH]; intros off out Hf Ho; cbn [decode_columns].
  - decide_test (length data <=? off) true. split; [by intros out' [= <-]|done].
  - destruct (length data <=? off) eqn:E; [split; [by intros out' [= <-]|done]|].
    destruct (decode_column data table off) as [[[i v] off']|e|] eqn:Hd; res_simpl.
    + apply decode_column_inv in Hd as ((c & Hc & Hv) & Hlt). apply IH; [lia|].
      by eapply row_ok_insert.
    + done.
    + split; [done|]. intros Hi. by apply (decode_column_no_panic data table off) in Hi.
Qed.

(** Decoding a stored row is total and typed: whatever bytes are stored,
    the loop terminates, and it returns an error or a row of the table's width
    whose contents have the column types; it can panic only through a tinyint
    or boolean column. *)
Theorem decode_row_typed data table :
  (forall out, decode_row_columns data table = Ok out -> row_ok table out) /\
  (Forall (fun c => indexes_first (col_type c) = false) (td_columns table) ->
   decode_row_columns data table <> Panic).
Proof. apply decode_columns_spec; [lia|apply row_ok_nulls]. Qed.

Lemma decode_row_typed_witness :
  decode_row_columns [Byte.x00] demo_table = Err corrupt_row /\
  decode_row_columns [Byte.x00; Byte.x09; Byte.xff] demo_table <> Panic.
Proof.
  split; [reflexivity|].
  destruct (decode_row_typed [Byte.x00; Byte.x09; Byte.xff] demo_table) as [_ H].
  apply H. by_compute.
Defined.
