(* ===== verification/Project.v ===== *)
(** * From stored entries to result rows

    Models [project_decoded], [project_fast_point] and [handle_entry] of
    src/src/query.rs: decoding a stored entry, checking the filters, projecting
    the selected columns, and the fast path of point lookups. *)

From S2P Require Import Prelude RustStr Schema CqlValue Keys.

(** [v[i]], [v[i] = x]. *)
Definition index {E A} (l : list A) (i : nat) : res E A := unwrap (l !! i).
Definition store {E A} (l : list A) (i : nat) (x : A) : res E (list A) :=
  if i <? length l then Ok (<[i := x]> l) else Panic.

(** The loop that puts the key columns into the row. *)
Fixpoint fill_keys (table : TableDef) (key_parts : list bytes) (part_idx : nat)
    (key_col_idxs : list nat) (row : list Value) : res str (list Value) :=
  match key_col_idxs with
  | [] => Ok row
  | col_idx :: r =>
    row' ← (if part_idx <? length key_parts then
              p ← index key_parts part_idx;
              c ← index (td_columns table) col_idx;
              v ← from_raw_bytes p (col_type c);
              store row col_idx v
            else Ok row);
    fill_keys table key_parts (S part_idx) r row'
  end.

(** The two filter loops: whether the row passes. *)
Fixpoint pass_eq (row : list Value) (eq_filters : list (nat * Value)) : res str bool :=
  match eq_filters with
  | [] => Ok true
  | (i, expected) :: r =>
    v ← index row i;
    if negb (value_eqb expected v) then Ok false else pass_eq row r
  end.
Fixpoint pass_in (row : list Value) (in_filters : list (nat * list Value)) : res str bool :=
  match in_filters with
  | [] => Ok true
  | (i, vs) :: r =>
    v ← index row i;
    if negb (existsb (fun w => value_eqb w v) vs) then Ok false else pass_in row r
  end.

(** The result: the rows so far with the new one, and whether it was emitted. *)
Definition project_decoded (table : TableDef) (selected_idxs : list nat)
    (eq_filters : list (nat * Value)) (in_filters : list (nat * list Value))
    (key_col_idxs : list nat) (key_parts : list bytes) (value_bytes : bytes)
    (out_rows : list (list Value)) : res str (list (list Value) * bool) :=
  row0 ← decode_row_columns value_bytes table;
  row ← fill_keys table key_parts 0 key_col_idxs row0;
  ok ← pass_eq row eq_filters;
  if negb ok then Ok (out_rows, false) else
  ok ← pass_in row in_filters;
  if negb ok then Ok (out_rows, false) else
  out ← map_res (index row) selected_idxs;
  Ok (out_rows ++ [out], true).

(** The scan of [project_fast_point] for one column, at offset [off].  [len as
    usize] of a negative length is close to 2^64; the sums overflow exactly when
    the mathematical sum reaches 2^64, which panics with overflow checks. *)
Fixpoint find_cell (fuel : nat) (value_bytes : bytes) (idx : nat) (table : TableDef) (off : Z)
    : res str (option Value) :=
  let n := Z.of_nat (length value_bytes) in
  if (n <=? off)%Z then Ok None else
  match fuel with
  | O => Panic
  | S f =>
    if (n <? off + 2)%Z then Err corrupt_row else
    h ← read_at 2 value_bytes (Z.to_nat off);
    let c_idx := Z.to_nat (from_be h) in
    let off := (off + 2)%Z in
    if (n <? off + 4)%Z then Err corrupt_row else
    h ← read_at 4 value_bytes (Z.to_nat off);
    let len := from_be_signed h in
    let off := (off + 4)%Z in
    if c_idx =? idx then
      if (len =? -1)%Z then Ok (Some VNull) else
      let e := (off + uwrap 64 len)%Z in
      if (2 ^ 64 <=? e)%Z then Panic else
      if (n <? e)%Z then Err corrupt_row else
      raw ← slice value_bytes (Z.to_nat off) (Z.to_nat e);
      c ← index (td_columns table) idx;
      Some <$> from_raw_bytes raw (col_type c)
    else if (len =? -1)%Z then find_cell f value_bytes idx table off
    else
      let e := (off + uwrap 64 len)%Z in
      if (2 ^ 64 <=? e)%Z then Panic else find_cell f value_bytes idx table e
  end.

(** One selected column of the fast path. *)
Definition fast_column (table : TableDef) (key_col_idxs : list nat) (key_parts : list bytes)
    (value_bytes : bytes) (idx : nat) : res str Value :=
  match position (fun k => k =? idx) key_col_idxs with
  | Some pos =>
    p ← index key_parts pos;
    c ← index (td_columns table) idx;
    from_raw_bytes p (col_type c)
  | None =>
    o ← find_cell (length value_bytes) value_bytes idx table 0;
    Ok (default VNull o)
  end.

Definition project_fast_point (table : TableDef) (selected_idxs key_col_idxs : list nat)
    (key_parts : list bytes) (value_bytes : bytes) (out_rows : list (list Value))
    : res str (list (list Value) * bool) :=
  out ← map_res (fast_column table key_col_idxs key_parts value_bytes) selected_idxs;
  Ok (out_rows ++ [out], true).

(** The rows, the first error, and whether the scan goes on. *)
Definition handle_entry (table : TableDef) (selected_idxs : list nat)
    (eq_filters : list (nat * Value)) (in_filters : list (nat * list Value))
    (key_col_idxs : list nat) (keyspace : str) (limit : option Z) (key value : bytes)
    (out_rows : list (list Value)) (error_slot : option str)
    : res str (list (list Value) * option str * bool) :=
  match (key_parts ← decode_key keyspace (td_name table) key;
         project_decoded table selected_idxs eq_filters in_filters key_col_idxs key_parts value
           out_rows) with
  | Ok (rows, true) =>
    Ok (rows, error_slot,
        match limit with Some l => (Z.of_nat (length rows) <? l)%Z | None => true end)
  | Ok (rows, false) => Ok (rows, error_slot, true)
  | Err e => Ok (out_rows, Some (default e error_slot), false)
  | Panic => Panic
  end.

(** ** The fast path *)

Lemma from_raw_bytes_raw t v : has_type t v = true -> fits v = true ->
  from_raw_bytes (raw_bytes v) t = Ok v.
Proof.
  intros Ht Hf. unfold from_raw_bytes. rewrite <-(to_wire_raw t v Ht).
  apply from_wire_to_wire; [|done]. by destruct v.
Qed.

(** The wire form of a cell: the null marker, or a length and the raw bytes. *)
Lemma cell_wire t v : cell_ok t v = true -> fits v = true ->
  (v = VNull /\ to_wire v = be 4 (-1)) \/
  (has_type t v = true /\ to_wire v = be 4 (Z.of_nat (length (raw_bytes v))) ++ raw_bytes v /\
   (Z.of_nat (length (raw_bytes v)) < 2 ^ 31)%Z).
Proof.
  intros Ht Hf. unfold fits in Hf. apply Z.ltb_lt in Hf.
  destruct (value_eqb v VNull) eqn:E; [left; by destruct v|right].
  assert (Hv : has_type t v = true) by (by destruct v). split; [done|].
  pose proof (to_wire_raw t v Hv) as Hw. split; [done|].
  rewrite Hw, length_app, length_be in Hf. lia.
Qed.

(** One step of the scan over an encoded column. *)
Lemma find_cell_step table iv data pre post idx f :
  col_ok table iv -> data = pre ++ enc_col iv ++ post -> (Z.of_nat (length data) < 2 ^ 63)%Z ->
  find_cell (S f) data idx table (Z.of_nat (length pre))
  = if Z.to_nat (fst iv) =? idx then Ok (Some (snd iv))
    else find_cell f data idx table (Z.of_nat (length (pre ++ enc_col iv))).
Proof.
  destruct iv as [i v]. intros (Hi & Hf & c & Hc & Ht) Hdata Hlen. cbn [fst snd] in *.
  unfold enc_col in *. cbn [fst snd] in *. rewrite <-app_assoc in Hdata.
  pose proof (length_to_wire_ge v) as Hw.
  assert (Hn : length data = length pre + 2 + length (to_wire v) + length post).
  { rewrite Hdata, !length_app, length_be. lia. }
  cbn [find_cell].
  decide_test (Z.of_nat (length data) <=? Z.of_nat (length pre))%Z false.
  decide_test (Z.of_nat (length data) <? Z.of_nat (length pre) + 2)%Z false.
  decide_test (Z.of_nat (length data) <? Z.of_nat (length pre) + 2 + 4)%Z false.
  rewrite Nat2Z.id. rewrite Hdata at 1. rewrite (read_at_app 2) by (by rewrite ?length_be). res_simpl.
  rewrite (from_be_be_u 2) by done.
  replace (Z.to_nat (Z.of_nat (length pre) + 2)) with (length (pre ++ be 2 i))
    by (rewrite length_app, length_be; lia).
  rewrite app_assoc in Hdata.
  destruct (cell_wire _ _ Ht Hf) as [[-> Hwire]|(Hty & Hwire & Hr)].
  - rewrite Hwire in *. rewrite Hdata at 1. rewrite (read_at_app 4) by (by rewrite ?length_be).
    res_simpl. rewrite (from_be_be_i 4) by (done || lia).
    change (-1 =? -1)%Z with true. cbn iota.
    replace (Z.of_nat (length pre) + 2 + 4)%Z with (Z.of_nat (length (pre ++ be 2 i ++ be 4 (-1))));
      [done|]. rewrite !length_app, !length_be. lia.
  - rewrite Hwire in Hdata, Hn |- *. rewrite length_app, length_be in Hn.
    rewrite Hdata at 1. rewrite <-(app_assoc (be 4 _) _ post).
    rewrite (read_at_app 4) by (by rewrite ?length_be). res_simpl.
    rewrite from_be_len32 by lia.
    decide_test (Z.of_nat (length (raw_bytes v)) =? -1)%Z false.
    unfold uwrap. rewrite (Z.mod_small (Z.of_nat _)) by lia.
    decide_test (2 ^ 64 <=? Z.of_nat (length pre) + 2 + 4 + Z.of_nat (length (raw_bytes v)))%Z false.
    destruct (Z.to_nat i =? idx) eqn:E.
    + decide_test (Z.of_nat (length data) <? Z.of_nat (length pre) + 2 + 4 + Z.of_nat (length (raw_bytes v)))%Z false.
      rewrite <-!app_assoc in Hdata. rewrite (app_assoc (be 2 i)), (app_assoc pre) in Hdata.
      rewrite Hdata, slice_app by (rewrite !length_app, !length_be; lia). res_simpl.
      apply Nat.eqb_eq in E. subst idx. unfold index. rewrite Hc. res_simpl.
      by rewrite (from_raw_bytes_raw (col_type c)).
    + f_equal. rewrite !length_app, !length_be. lia.
Qed.

Lemma find_cell_encode table row data pre idx fuel :
  Forall (col_ok table) row -> data = pre ++ encode_row_columns row -> length row <= fuel ->
  (Z.of_nat (length data) < 2 ^ 63)%Z ->
  find_cell fuel data idx table (Z.of_nat (length pre))
  = Ok (snd <$> find_first (fun iv => Z.to_nat (fst iv) =? idx) row).
Proof.
  rewrite encode_row_concat. intros Hrow. revert pre fuel.
  induction Hrow as [|iv row Hiv Hrow IH]; intros pre fuel Hdata Hfuel Hlen;
    cbn [fmap list_fmap concat] in Hdata.
  - rewrite app_nil_r in Hdata. subst data. destruct fuel; cbn [find_cell];
      by decide_test (Z.of_nat (length pre) <=? Z.of_nat (length pre))%Z true.
  - destruct fuel as [|fuel]; [cbn in Hfuel; lia|].
    rewrite (find_cell_step table iv data pre _ idx fuel Hiv Hdata Hlen).
    unfold find_first. cbn [List.find]. destruct (Z.to_nat (fst iv) =? idx); [done|].
    apply IH; [|cbn in Hfuel; lia|done]. by rewrite <-app_assoc.
Qed.

Lemma place_find n row j :
  NoDup ((fun iv => Z.to_nat (fst iv)) <$> row) -> j < n ->
  place (replicate n VNull) row !! j
  = Some (default VNull (snd <$> find_first (fun iv => Z.to_nat (fst iv) =? j) row)).
Proof.
  intros Hnd Hj. unfold find_first. destruct (List.find _ row) as [[i v]|] eqn:Hf.
  - apply List.find_some in Hf as [Hin He]. cbn in He. apply Nat.eqb_eq in He. subst j. cbn.
    apply place_in; [done|by apply list_elem_of_In|by rewrite length_replicate].
  - rewrite place_other; [by apply lookup_replicate_2|].
    intros (iv & -> & Hin)%list_elem_of_fmap. apply list_elem_of_In in Hin.
    apply (List.find_none _ _ Hf) in Hin. by rewrite Nat.eqb_refl in Hin.
Qed.

Section fast_path.
Context (table : TableDef) (k : nat) (c : ColumnDef) (v0 : Value) (row : list (Z * Value)).
Hypothesis key_column : td_columns table !! k = Some c.
Hypothesis key_type : has_type (col_type c) v0 = true.
Hypothesis key_fits : fits v0 = true.
Hypothesis row_cols : Forall (col_ok table) row.
Hypothesis row_distinct : NoDup (fst <$> row).
Hypothesis row_short : (Z.of_nat (length (encode_row_columns row)) < 2 ^ 63)%Z.

(** The row both paths read. *)
Definition full_row : list Value :=
  <[k := v0]> (place (replicate (length (td_columns table)) VNull) row).

Lemma length_full_row : length full_row = length (td_columns table).
Proof. unfold full_row. by rewrite length_insert, length_place, length_replicate. Qed.

Lemma full_row_key : index (E := str) full_row k = Ok v0.
Proof.
  unfold index, full_row. rewrite list_lookup_insert_eq; [done|].
  rewrite length_place, length_replicate. by eapply lookup_lt_Some.
Qed.

Lemma fast_column_full idx : idx < length (td_columns table) ->
  fast_column table [k] [raw_bytes v0] (encode_row_columns row) idx = index full_row idx.
Proof.
  intros Hi. pose proof (lookup_lt_Some _ _ _ key_column) as Hk.
  unfold fast_column, index, full_row. cbn [position]. destruct (k =? idx) eqn:E.
  - apply Nat.eqb_eq in E. subst idx. cbn [unwrap fmap option_fmap option_map lookup list_lookup].
    res_simpl. rewrite key_column. res_simpl. rewrite from_raw_bytes_raw by done.
    by rewrite list_lookup_insert_eq by (by rewrite length_place, length_replicate).
  - apply Nat.eqb_neq in E. cbn [fmap option_fmap option_map].
    change 0%Z with (Z.of_nat (length ([] : bytes))).
    rewrite (find_cell_encode table row) by (try done; rewrite encode_row_concat;
      apply length_concat_ge; intros iv; unfold enc_col; rewrite length_app, length_be; lia).
    res_simpl. rewrite list_lookup_insert_ne by done. rewrite place_find; [done| |done].
    apply NoDup_indexes; [|done]. eapply Forall_impl; [exact row_cols|]. by intros iv [? _].
Qed.

Lemma decoded_row out sel eqs ins :
  Forall (fun i => i < length (td_columns table)) sel ->
  project_decoded table sel eqs ins [k] [raw_bytes v0] (encode_row_columns row) out
  = (ok ← pass_eq full_row eqs;
     if negb ok then Ok (out, false) else
     ok ← pass_in full_row ins;
     if negb ok then Ok (out, false) else
     o ← map_res (index full_row) sel; Ok (out ++ [o], true)).
Proof.
  intros Hsel. unfold project_decoded. rewrite (decode_row_encode table row row_cols). res_simpl.
  fold (place (replicate (length (td_columns table)) VNull) row).
  assert (Hfill : fill_keys table [raw_bytes v0] 0 [k]
    (place (replicate (length (td_columns table)) VNull) row) = Ok full_row);
    [|rewrite Hfill; done].
  cbn [fill_keys]. change (0 <? length [raw_bytes v0]) with true. cbn iota.
  change (index [raw_bytes v0] 0) with (@Ok str _ (raw_bytes v0)). res_simpl.
  unfold index. rewrite key_column. res_simpl. rewrite from_raw_bytes_raw by done. res_simpl.
  pose proof (lookup_lt_Some _ _ _ key_column) as Hk.
  unfold store. rewrite length_place, length_replicate. rewrite (proj2 (Nat.ltb_lt _ _)) by done. done.
Qed.
End fast_path.

(** C29: the fast path of point lookups is the general path.  For a table with a
    single key column, on a stored row with well-typed contents, decoding only
    the selected columns ([project_fast_point]) returns the same row as decoding
    everything, filling in the key and checking the filter ([project_decoded]),
    as long as the key equals itself, which every key but a NaN does. *)
Theorem fast_point_equiv table k c v0 row sel out :
  td_columns table !! k = Some c -> has_type (col_type c) v0 = true -> fits v0 = true ->
  Forall (col_ok table) row -> NoDup (fst <$> row) ->
  (Z.of_nat (length (encode_row_columns row)) < 2 ^ 63)%Z ->
  Forall (fun i => i < length (td_columns table)) sel -> value_eqb v0 v0 = true ->
  project_fast_point table sel [k] [raw_bytes v0] (encode_row_columns row) out
  = project_decoded table sel [(k, v0)] [] [k] [raw_bytes v0] (encode_row_columns row) out.
Proof.
  intros Hc Ht Hf Hrow Hnd Hlen Hsel Heq. rewrite (decoded_row table k c v0 row) by done.
  cbn [pass_eq]. rewrite (full_row_key table k c) by done. res_simpl. rewrite Heq. cbn [negb pass_in]. res_simpl.
  unfold project_fast_point. rewrite (map_res_ext _ (index (full_row table k v0 row))); [done|].
  eapply Forall_impl; [exact Hsel|]. intros i Hi. cbn. by apply (fast_column_full table k c).
Qed.

Definition kv_table : TableDef :=
  {| td_keyspace := bs "ks"; td_name := bs "kv";
     td_columns := [ {| col_name := bs "k"; col_type := TText; is_partition_key := true; is_clustering := false |};
                     {| col_name := bs "v"; col_type := TBlob; is_partition_key := false; is_clustering := false |};
                     {| col_name := bs "n"; col_type := TInt; is_partition_key := false; is_clustering := false |} ];
     td_partition_keys := [bs "k"]; td_clustering_keys := [] |}.

Lemma fast_point_equiv_witness :
  project_fast_point kv_table [2; 0; 1] [0] [bs "key"]
    (encode_row_columns [(1%Z, VBlob [Byte.x01]); (2%Z, VNull)]) []
  = project_decoded kv_table [2; 0; 1] [(0, VText (bs "key"))] [] [0] [bs "key"]
    (encode_row_columns [(1%Z, VBlob [Byte.x01]); (2%Z, VNull)]) [].
Proof.
  apply (fast_point_equiv kv_table 0
    {| col_name := bs "k"; col_type := TText; is_partition_key := true; is_clustering := false |}
    (VText (bs "key"))); try reflexivity.
  - repeat constructor; eexists; by split.
  - by_compute.
  - repeat constructor; cbn; lia.
Defined.

(** On a NaN key the two paths differ: the stored row is returned by the
    fast path, and hidden by the filter check of the general path, which is what
    a query takes as soon as another filter or a clustering key is involved. *)
Theorem nan_key_paths_differ :
  exists table sel out v0 bytes,
    has_type TDouble v0 = true /\
    project_fast_point table sel [0] [raw_bytes v0] bytes out = Ok ([[v0]], true) /\
    project_decoded table sel [(0, v0)] [] [0] [raw_bytes v0] bytes out = Ok ([], false).
Proof.
  exists {| td_keyspace := bs "ks"; td_name := bs "d";
     td_columns := [ {| col_name := bs "d"; col_type := TDouble; is_partition_key := true; is_clustering := false |} ];
     td_partition_keys := [bs "d"]; td_clustering_keys := [] |}, [0], [], (VDouble 0x7ff8000000000000), [].
  repeat split; vm_compute; reflexivity.
Qed.
