(* ===== verification/Kv.v ===== *)
(** * The key-value engine the storage layer relies on

    RocksDB is not part of the repository.  The class [KV] is the part of its
    interface src/src/storage.rs calls, every call fallible; [KVLaws] is what the
    documentation promises of a database that works: it is a map, a write batch
    is applied in order and atomically, an iterator from a key enumerates the
    keys from there on in byte order.  [mem_kv] is a model that satisfies it. *)

From S2P Require Import Prelude.

(** The entries of a [WriteBatch]. *)
Inductive BatchOp :=
| BPut (key val : bytes)
| BDelete (key : bytes)
| BDeleteRange (start end_ : bytes).

(** A key in the half-open range of a range tombstone. *)
Definition in_key_range (start end_ k : bytes) : bool := bytes_leb start k && bytes_ltb k end_.

Definition apply_op (m : gmap bytes bytes) (op : BatchOp) : gmap bytes bytes :=
  match op with
  | BPut k v => <[k := v]> m
  | BDelete k => delete k m
  | BDeleteRange s e => filter (fun kv => in_key_range s e (fst kv) = false) m
  end.
Definition apply_ops (m : gmap bytes bytes) (ops : list BatchOp) : gmap bytes bytes :=
  foldl apply_op m ops.

Definition key_le (a b : bytes * bytes) : Prop := bytes_le (fst a) (fst b).
#[global] Instance key_le_dec : RelDecision key_le.
Proof. intros a b. unfold key_le. apply _. Defined.

(** The entries from [p] on, in key order. *)
Definition sorted_from (p : bytes) (m : gmap bytes bytes) : list (bytes * bytes) :=
  merge_sort key_le (filter (fun kv => bytes_leb p (fst kv) = true) (map_to_list m)).

Class KV := {
  db : Type;
  (** [DB::get] *)
  db_get : db -> bytes -> res str (option bytes);
  (** [DB::write_opt]; [put_opt] and [delete_opt] write one entry *)
  db_write : db -> list BatchOp -> res str db;
  (** [DB::iterator(IteratorMode::From(key, Direction::Forward))] *)
  db_iter : db -> bytes -> list (res str (bytes * bytes));
}.

Class KVLaws `{KV} := {
  db_ok : db -> Prop;
  db_view : db -> gmap bytes bytes;
  db_get_ok d k : db_ok d -> db_get d k = Ok (db_view d !! k);
  db_write_ok d ops : db_ok d ->
    exists d', db_write d ops = Ok d' /\ db_ok d' /\ db_view d' = apply_ops (db_view d) ops;
  db_iter_ok d p : db_ok d -> db_iter d p = Ok <$> sorted_from p (db_view d);
}.

(** A database that never fails. *)
Definition mem_kv : KV :=
  {| db := gmap bytes bytes;
     db_get m k := Ok (m !! k);
     db_write m ops := Ok (apply_ops m ops);
     db_iter m p := Ok <$> sorted_from p m |}.
Definition mem_kv_laws : @KVLaws mem_kv.
Proof.
  refine (@Build_KVLaws mem_kv (fun _ => True) (fun m => m) _ _ _).
  - done.
  - intros d ops _. by exists (apply_ops d ops).
  - done.
Defined.

(** A database whose disk is full: reads work, writes fail. *)
Definition full_disk_kv : KV :=
  {| db := gmap bytes bytes;
     db_get m k := Ok (m !! k);
     db_write m ops := Err (bs "IO error: No space left on device");
     db_iter m p := Ok <$> sorted_from p m |}.

(** ** Lemmas *)

Lemma apply_ops_app m a b : apply_ops m (a ++ b) = apply_ops (apply_ops m a) b.
Proof. unfold apply_ops. by rewrite foldl_app. Qed.

Lemma apply_op_range_lookup m s e k :
  apply_op m (BDeleteRange s e) !! k = if in_key_range s e k then None else m !! k.
Proof.
  cbn. destruct (in_key_range s e k) eqn:Hr.
  - apply map_lookup_filter_None. right. intros x _. cbn. by rewrite Hr.
  - destruct (m !! k) as [v|] eqn:Hm.
    + apply map_lookup_filter_Some. by split.
    + apply map_lookup_filter_None. by left.
Qed.

(** The operation writes or removes [k]. *)
Definition touches (op : BatchOp) (k : bytes) : bool :=
  match op with
  | BPut k' _ | BDelete k' => bool_decide (k' = k)
  | BDeleteRange s e => in_key_range s e k
  end.

Lemma apply_op_untouched m op k : touches op k = false -> apply_op m op !! k = m !! k.
Proof.
  destruct op as [k' v|k'|s e]; cbn [touches]; intros Ht.
  - apply bool_decide_eq_false in Ht. by apply lookup_insert_ne.
  - apply bool_decide_eq_false in Ht. by apply lookup_delete_ne.
  - by rewrite apply_op_range_lookup, Ht.
Qed.

Lemma apply_ops_untouched m ops k :
  Forall (fun op => touches op k = false) ops -> apply_ops m ops !! k = m !! k.
Proof.
  intros Ho. revert m. induction Ho as [|op ops Hop Ho IH]; intros m; [done|].
  change (apply_ops m (op :: ops)) with (apply_ops (apply_op m op) ops).
  by rewrite IH, apply_op_untouched.
Qed.

#[global] Instance key_le_trans : Transitive key_le.
Proof. intros a b c. unfold key_le. apply transitivity. Qed.
#[global] Instance key_le_total : Total key_le.
Proof. intros a b. unfold key_le. apply (total bytes_le). Qed.

Lemma sorted_from_sorted p m : StronglySorted key_le (sorted_from p m).
Proof. apply (StronglySorted_merge_sort _). Qed.

Lemma elem_of_sorted_from p m k v :
  (k, v) ∈ sorted_from p m <-> m !! k = Some v /\ bytes_le p k.
Proof.
  unfold sorted_from. rewrite (merge_sort_Permutation key_le), list_elem_of_filter.
  rewrite elem_of_map_to_list. cbn. unfold bytes_le. tauto.
Qed.

Lemma NoDup_sorted_from p m : NoDup (fst <$> sorted_from p m).
Proof.
  unfold sorted_from. rewrite (merge_sort_Permutation key_le).
  eapply sublist_NoDup; [apply (NoDup_fst_map_to_list m)|]. apply fmap_sublist, sublist_filter.
Qed.
