(* ===== verification/Pipeline.v ===== *)
(** * The write pipelines

    Models [WriteOp], [batch_apply] and [spawn_writer] of src/src/storage.rs: one
    engine with its operation channel, the collector thread that folds queued
    operations into batches, the commit channel, and the committer thread that
    writes a batch and then releases the waiters of its operations.  A oneshot
    channel is a ticket number; dropping its sender completes the ticket.  The
    threads are a labelled transition system, executable one label at a time. *)

From S2P Require Import Prelude Kv.

(** 2048, as a number that does not unfold to a unary literal. *)
Definition MAX_BATCH_OPS : nat := Z.to_nat 2048.

Inductive WriteOp :=
| Put (key val : bytes) (done : option nat)
| Delete (key : bytes) (done : option nat)
| DeleteRange (start end_ : bytes) (done : option nat).

(** A [WriteBatch] and the senders of its operations. *)
Definition Batch : Type := list BatchOp * list (option nat).

Definition batch_apply (b : Batch) (op : WriteOp) : Batch :=
  match op with
  | Put key val d => (fst b ++ [BPut key val], snd b ++ [d])
  | Delete key d => (fst b ++ [BDelete key], snd b ++ [d])
  | DeleteRange s e d => (fst b ++ [BDeleteRange s e], snd b ++ [d])
  end.

(** The batch entry and the sender of an operation. *)
Definition op_of (op : WriteOp) : BatchOp :=
  match op with
  | Put k v _ => BPut k v
  | Delete k _ => BDelete k
  | DeleteRange s e _ => BDeleteRange s e
  end.
Definition done_of (op : WriteOp) : option nat :=
  match op with Put _ _ d => d | Delete _ d => d | DeleteRange _ _ d => d end.

Section engine.
Context `{KV}.

(** The collector thread: waiting in [ops_rx.recv()], filling a batch, or about
    to hand the batch to the commit channel. *)
Inductive Collector := CIdle | CFill (b : Batch) | CSend (b : Batch).
Definition coll_batch (c : Collector) : list Batch :=
  match c with CIdle => [] | CFill b => [b] | CSend b => [b] end.

(** One engine.  [e_open]: the receiving end of the operation channel is alive.
    [e_coll]: the collector.  [e_commits]: the commit channel.  [e_signal]: the
    senders the committer holds after its write.  [e_next]: the next ticket.
    [e_done]: completed tickets. *)
Record Engine := {
  e_db : db;
  e_open : bool;
  e_queue : list WriteOp;
  e_coll : Collector;
  e_commits : list Batch;
  e_signal : option (list (option nat));
  e_next : nat;
  e_done : gset nat;
}.

(** [spawn_writer]: empty channels, idle threads. *)
Definition spawn_writer (d : db) : Engine :=
  {| e_db := d; e_open := true; e_queue := []; e_coll := CIdle; e_commits := [];
     e_signal := None; e_next := 0; e_done := ∅ |}.

(** [w.tx.send(op(Some(done_tx)))] on a fresh oneshot channel. *)
Definition send (e : Engine) (op : option nat -> WriteOp) : res str (Engine * nat) :=
  if e_open e then
    Ok ({| e_db := e_db e; e_open := e_open e; e_queue := e_queue e ++ [op (Some (e_next e))];
           e_coll := e_coll e; e_commits := e_commits e; e_signal := e_signal e;
           e_next := S (e_next e); e_done := e_done e |}, e_next e)
  else Err (bs "storage writer is gone").

(** A write that bypasses the pipeline ([put_opt], [delete_opt], [write_opt] on
    the engine itself). *)
Definition direct_write (e : Engine) (ops : list BatchOp) : res str Engine :=
  d ← db_write (e_db e) ops;
  Ok {| e_db := d; e_open := e_open e; e_queue := e_queue e; e_coll := e_coll e;
        e_commits := e_commits e; e_signal := e_signal e; e_next := e_next e;
        e_done := e_done e |}.

(** The actions of the two threads. *)
Inductive Label :=
| CollectFirst   (** [ops_rx.recv()] opens a batch *)
| CollectMore    (** another operation joins the open batch *)
| CollectClose   (** the inner loop of the collector ends *)
| CollectFlush   (** [commit_tx.send((batch, done))] *)
| CommitWrite    (** [db.write_opt(batch)]; a failure is only logged *)
| CommitSignal.  (** [drop(done)] *)

(** The collector's half of the state after its action. *)
Definition collect_step (write_sync : bool) (l : Label) (q : list WriteOp) (c : Collector)
    (cs : list Batch) : option (list WriteOp * Collector * list Batch) :=
  match l, c, q with
  | CollectFirst, CIdle, op :: q' => Some (q', CFill (batch_apply ([], []) op), cs)
  | CollectMore, CFill b, op :: q' =>
    if length (fst b) <? MAX_BATCH_OPS then Some (q', CFill (batch_apply b op), cs) else None
  | CollectClose, CFill b, _ =>
    (* a full batch; durable mode: the 1 ms window, which may end at any moment;
       otherwise: an empty channel *)
    if (MAX_BATCH_OPS <=? length (fst b)) || write_sync || match q with [] => true | _ => false end
    then Some (q, CSend b, cs) else None
  | CollectFlush, CSend b, _ => Some (q, CIdle, cs ++ [b])
  | _, _, _ => None
  end.

Definition pipe_step (write_sync : bool) (l : Label) (e : Engine) : option Engine :=
  match l with
  | CommitWrite =>
    match e_signal e, e_commits e with
    | None, b :: cs =>
      Some {| e_db := match db_write (e_db e) (fst b) with Ok d => d | _ => e_db e end;
              e_open := e_open e; e_queue := e_queue e; e_coll := e_coll e; e_commits := cs;
              e_signal := Some (snd b); e_next := e_next e; e_done := e_done e |}
    | _, _ => None
    end
  | CommitSignal =>
    match e_signal e with
    | Some ds =>
      Some {| e_db := e_db e; e_open := e_open e; e_queue := e_queue e; e_coll := e_coll e;
              e_commits := e_commits e; e_signal := None; e_next := e_next e;
              e_done := e_done e ∪ list_to_set (omap id ds) |}
    | None => None
    end
  | _ =>
    '(q, c, cs) ← collect_step write_sync l (e_queue e) (e_coll e) (e_commits e);
    Some {| e_db := e_db e; e_open := e_open e; e_queue := q; e_coll := c; e_commits := cs;
            e_signal := e_signal e; e_next := e_next e; e_done := e_done e |}
  end.

(** Everything the threads still have to do. *)
Definition idle (e : Engine) : Prop :=
  e_queue e = [] /\ e_coll e = CIdle /\ e_commits e = [] /\ e_signal e = None.

(** A fair schedule: the committer first, then the collector. *)
Definition next_label (e : Engine) : option Label :=
  match e_signal e, e_commits e, e_coll e, e_queue e with
  | Some _, _, _, _ => Some CommitSignal
  | None, _ :: _, _, _ => Some CommitWrite
  | None, [], CSend _, _ => Some CollectFlush
  | None, [], CFill _, [] => Some CollectClose
  | None, [], CFill b, _ :: _ =>
    Some (if length (fst b) <? MAX_BATCH_OPS then CollectMore else CollectClose)
  | None, [], CIdle, _ :: _ => Some CollectFirst
  | None, [], CIdle, [] => None
  end.

(** The threads run until there is nothing left: what joining them at the end of
    [Drop for Storage] waits for, once the senders are gone. *)
Fixpoint drain (write_sync : bool) (fuel : nat) (e : Engine) : Engine :=
  match fuel with
  | O => e
  | S f =>
    match next_label e ≫= fun l => pipe_step write_sync l e with
    | Some e' => drain write_sync f e'
    | None => e
    end
  end.

(** Weights that every action decreases: the fuel [drain] needs. *)
Definition work (e : Engine) : nat :=
  5 * length (e_queue e) + match e_coll e with CIdle => 0 | CFill _ => 4 | CSend _ => 3 end
  + 2 * length (e_commits e) + match e_signal e with Some _ => 1 | None => 0 end.

(** ** The pending operations *)

Definition pend_batches (e : Engine) : list Batch := e_commits e ++ coll_batch (e_coll e).
Definition pend_ops (e : Engine) : list BatchOp :=
  concat (fst <$> pend_batches e) ++ (op_of <$> e_queue e).
Definition pend_tickets (e : Engine) : list (option nat) :=
  concat (snd <$> pend_batches e) ++ (done_of <$> e_queue e).

(** An operation as the storage builds it: a function of the sender it will
    carry. *)
Definition carries (op : option nat -> WriteOp) : Prop :=
  forall d, done_of (op d) = d /\ op_of (op d) = op_of (op None).

(** Runs of an engine that starts with database [d0]: senders and threads
    interleave freely; [log] lists the operations in the order they were sent. *)
Inductive run (write_sync : bool) (d0 : db) : Engine -> list BatchOp -> Prop :=
| run_start : run write_sync d0 (spawn_writer d0) []
| run_send e log op e' t :
    run write_sync d0 e log -> carries op -> send e op = Ok (e', t) ->
    run write_sync d0 e' (log ++ [op_of (op None)])
| run_step e log l e' :
    run write_sync d0 e log -> pipe_step write_sync l e = Some e' -> run write_sync d0 e' log.
End engine.

(** ** Lemmas *)

Lemma batch_apply_fst b op : fst (batch_apply b op) = fst b ++ [op_of op].
Proof. by destruct op. Qed.
Lemma batch_apply_snd b op : snd (batch_apply b op) = snd b ++ [done_of op].
Proof. by destruct op. Qed.
Arguments batch_apply : simpl never.
Arguments collect_step : simpl never.
Arguments MAX_BATCH_OPS : simpl never.

(** The collector moves operations along without reordering them. *)
Lemma collect_step_pending sync l q c cs q' c' cs' (A : Type) (f : Batch -> list A) (g : WriteOp -> A) :
  f ([], []) = [] -> (forall b op, f (batch_apply b op) = f b ++ [g op]) ->
  collect_step sync l q c cs = Some (q', c', cs') ->
  concat (f <$> (cs' ++ coll_batch c')) ++ (g <$> q')
  = concat (f <$> (cs ++ coll_batch c)) ++ (g <$> q).
Proof.
  intros Hnil Hf Hs. rewrite !fmap_app, !concat_app.
  destruct l, c as [|b|b]; try done; unfold collect_step in Hs; repeat case_step_in Hs;
    try discriminate; injection Hs as <- <- <-; subst; cbn;
    rewrite ?fmap_app, ?concat_app, ?Hf, ?Hnil; cbn;
    by rewrite ?app_nil_r, <-?app_assoc, ?app_nil_r.
Qed.

Lemma collect_step_work sync l q c cs q' c' cs' :
  collect_step sync l q c cs = Some (q', c', cs') ->
  5 * length q' + match c' with CIdle => 0 | CFill _ => 4 | CSend _ => 3 end + 2 * length cs'
  < 5 * length q + match c with CIdle => 0 | CFill _ => 4 | CSend _ => 3 end + 2 * length cs.
Proof.
  intros Hs. destruct l, c as [|b|b]; try done; unfold collect_step in Hs; repeat case_step_in Hs;
    try discriminate; injection Hs as <- <- <-; rewrite ?length_app; cbn; lia.
Qed.

Section pipeline_lemmas.
Context `{KVLaws}.

(** The effect of an action on the pending operations, the database and the
    completed tickets. *)
Inductive effect (e e' : Engine) : Prop :=
| eff_move :
    pend_ops e' = pend_ops e -> pend_tickets e' = pend_tickets e -> e_db e' = e_db e ->
    e_signal e' = e_signal e -> e_done e' = e_done e -> effect e e'
| eff_write b :
    b ∈ pend_batches e -> pend_ops e = fst b ++ pend_ops e' -> pend_tickets e = snd b ++ pend_tickets e' ->
    e_signal e = None -> e_signal e' = Some (snd b) -> e_done e' = e_done e ->
    e_db e' = match db_write (e_db e) (fst b) with Ok d => d | _ => e_db e end -> effect e e'
| eff_signal ds :
    pend_ops e' = pend_ops e -> pend_tickets e' = pend_tickets e -> e_db e' = e_db e ->
    e_signal e = Some ds -> e_signal e' = None ->
    e_done e' = e_done e ∪ list_to_set (omap id ds) -> effect e e'.

Lemma collect_effect sync l (e e' : Engine) :
  ('(q, c, cs) ← collect_step sync l (e_queue e) (e_coll e) (e_commits e);
   Some {| e_db := e_db e; e_open := e_open e; e_queue := q; e_coll := c; e_commits := cs;
           e_signal := e_signal e; e_next := e_next e; e_done := e_done e |}) = Some e' ->
  effect e e'.
Proof.
  intros ([[q c] cs] & Hc & [= <-])%bind_Some. apply eff_move; try done.
  - exact (collect_step_pending _ _ _ _ _ _ _ _ BatchOp fst op_of eq_refl batch_apply_fst Hc).
  - exact (collect_step_pending _ _ _ _ _ _ _ _ (option nat) snd done_of eq_refl batch_apply_snd Hc).
Qed.

Lemma pipe_step_effect sync l e e' : pipe_step sync l e = Some e' -> effect e e'.
Proof.
  destruct l; try apply collect_effect; cbn; intros Hs.
  - destruct (e_signal e) eqn:Es; [done|]. destruct (e_commits e) as [|b cs] eqn:Ec; [done|].
    injection Hs as <-. apply (eff_write _ _ b); try done;
      unfold pend_ops, pend_tickets, pend_batches; rewrite Ec; cbn;
      [by constructor|by rewrite app_assoc..].
  - destruct (e_signal e) as [ds|] eqn:Es; [|done]. injection Hs as <-. by apply (eff_signal _ _ ds).
Qed.

Lemma pipe_step_next sync l e e' :
  pipe_step sync l e = Some e' -> e_next e' = e_next e /\ e_open e' = e_open e.
Proof.
  destruct l; cbn; try (intros ([[q c] cs] & _ & [= <-])%bind_Some; done);
    repeat case_match; try done; by intros [= <-].
Qed.

Lemma pipe_step_work sync l e e' : pipe_step sync l e = Some e' -> work e' < work e.
Proof.
  destruct l;
    try (intros ([[q c] cs] & Hc%collect_step_work & [= <-])%bind_Some; unfold work; cbn; lia);
    unfold work, pipe_step.
  - destruct (e_signal e) eqn:Es; [done|]. destruct (e_commits e) as [|b cs] eqn:Ec; [done|].
    intros [= <-]. cbn. lia.
  - destruct (e_signal e) as [ds|] eqn:Es; [|done]. intros [= <-]. cbn. lia.
Qed.

(** The contents of the engine once everything sent so far is committed. *)
Definition logical (e : Engine) : gmap bytes bytes := apply_ops (db_view (e_db e)) (pend_ops e).

Lemma pipe_step_logical sync l e e' :
  db_ok (e_db e) -> pipe_step sync l e = Some e' ->
  logical e' = logical e /\ db_ok (e_db e').
Proof.
  intros Hok Hs. unfold logical.
  destruct (pipe_step_effect _ _ _ _ Hs) as [Hp _ Hd _ _|b _ Hp _ _ _ _ Hd|ds Hp _ Hd _ _ _].
  - by rewrite Hp, Hd.
  - destruct (db_write_ok (e_db e) (fst b) Hok) as (d' & Hw & Hok' & Hv).
    rewrite Hw in Hd. rewrite Hd, Hv, Hp. split; [|done]. by rewrite apply_ops_app.
  - by rewrite Hp, Hd.
Qed.

Lemma send_spec e op e' t :
  send e op = Ok (e', t) ->
  e_db e' = e_db e /\ pend_ops e' = pend_ops e ++ [op_of (op (Some t))] /\
  pend_tickets e' = pend_tickets e ++ [done_of (op (Some t))] /\ t = e_next e /\
  e_next e' = S (e_next e) /\ e_signal e' = e_signal e /\ e_done e' = e_done e /\
  e_open e' = e_open e.
Proof.
  unfold send, pend_ops, pend_tickets, pend_batches. case_match; [|done]. intros [= <- <-]. cbn.
  by rewrite !fmap_app, !app_assoc.
Qed.

Lemma send_logical e op e' t :
  send e op = Ok (e', t) -> logical e' = apply_op (logical e) (op_of (op (Some t))).
Proof.
  intros (Hd & Hp & _)%send_spec. unfold logical. by rewrite Hd, Hp, apply_ops_app.
Qed.

Lemma send_open e op : e_open e = true -> exists e', send e op = Ok (e', e_next e).
Proof. intros Ho. unfold send. rewrite Ho. by eexists. Qed.

(** Every batch on its way has one sender per operation and between one and
    [MAX_BATCH_OPS] operations. *)
Definition batch_ok (b : Batch) : Prop :=
  length (fst b) = length (snd b) /\ 1 <= length (fst b) <= MAX_BATCH_OPS.
Definition batches_ok (e : Engine) : Prop := Forall batch_ok (pend_batches e).

Lemma batch_apply_ok b op :
  length (fst b) = length (snd b) -> length (fst b) < MAX_BATCH_OPS -> batch_ok (batch_apply b op).
Proof.
  intros Hl Hlt. unfold batch_ok. rewrite batch_apply_fst, batch_apply_snd, !length_app. cbn.
  lia.
Qed.
Lemma batch_first_ok op : batch_ok (batch_apply ([], []) op).
Proof. apply batch_apply_ok; [done|]. cbn. unfold MAX_BATCH_OPS. lia. Qed.

Lemma collect_step_batches sync l q c cs q' c' cs' :
  collect_step sync l q c cs = Some (q', c', cs') ->
  Forall batch_ok (cs ++ coll_batch c) -> Forall batch_ok (cs' ++ coll_batch c').
Proof.
  intros Hs. rewrite !Forall_app. intros [Hcs Hc].
  destruct l, c as [|b|b]; try done; unfold collect_step in Hs; repeat case_step_in Hs;
    try discriminate; injection Hs as <- <- <-; rewrite ?Forall_app; cbn in *;
    rewrite ?Forall_singleton in *; repeat split_and?; try done.
  - apply batch_first_ok.
  - apply batch_apply_ok; [by apply Hc|]. by apply Nat.ltb_lt.
Qed.

Lemma pipe_step_batches sync l e e' :
  pipe_step sync l e = Some e' -> batches_ok e -> batches_ok e'.
Proof.
  unfold batches_ok, pend_batches.
  destruct l; try (intros ([[q c] cs] & Hc & [= <-])%bind_Some; exact (collect_step_batches _ _ _ _ _ _ _ _ Hc));
    unfold pipe_step.
  - destruct (e_signal e) eqn:Es; [done|]. destruct (e_commits e) as [|b cs] eqn:Ec; [done|].
    intros [= <-]. cbn. rewrite Forall_cons. tauto.
  - destruct (e_signal e) as [ds|] eqn:Es; [|done]. by intros [= <-].
Qed.

Lemma send_batches e op e' t : send e op = Ok (e', t) -> batches_ok e -> batches_ok e'.
Proof. unfold send. case_match; [|done]. by intros [= <- <-]. Qed.

Lemma run_batches sync d0 e log : run sync d0 e log -> batches_ok e.
Proof.
  induction 1 as [|e log op e' t Hr IH Hop Hs|e log l e' Hr IH Hs].
  - by apply Forall_nil.
  - by eapply send_batches.
  - by eapply pipe_step_batches.
Qed.

Lemma run_open sync d0 e log : run sync d0 e log -> e_open e = true.
Proof.
  induction 1 as [|e log op e' t Hr IH Hop Hs|e log l e' Hr IH Hs]; [done| |].
  - apply send_spec in Hs. destruct_and!. congruence.
  - apply pipe_step_next in Hs. destruct_and!. congruence.
Qed.

(** The state of the tickets: those below [k] are completed, those from [k] to
    [m] are committed and about to be completed, the others are pending. *)
Definition tickets_at (e : Engine) (m k : nat) : Prop :=
  k <= m <= e_next e /\
  default [] (e_signal e) = Some <$> seq k (m - k) /\
  pend_tickets e = Some <$> seq m (e_next e - m) /\
  (forall t, t ∈ e_done e <-> t < k).

Lemma tickets_send e op e' t m k :
  carries op -> send e op = Ok (e', t) -> tickets_at e m k -> tickets_at e' m k.
Proof.
  intros Hop (Edb & Ep & Et & -> & En & Esg & Ed & _)%send_spec (Hk & Hsg & Ht & Hd).
  destruct (Hop (Some (e_next e))) as [Hop1 _]. rewrite Hop1 in Et.
  unfold tickets_at. rewrite Et, En, Esg, Ed, Ht. repeat split; try (by apply Hd); try done; try lia.
  replace (S (e_next e) - m) with (S (e_next e - m)) by lia.
  rewrite seq_S, fmap_app. cbn. do 3 f_equal. lia.
Qed.

Lemma split_tickets (a b : list (option nat)) m n :
  a ++ b = Some <$> seq m n ->
  a = Some <$> seq m (length a) /\ b = Some <$> seq (m + length a) (n - length a) /\ length a <= n.
Proof.
  intros He. assert (Hl : length a + length b = n).
  { rewrite <-length_app, He, length_fmap, length_seq. done. }
  replace n with (length a + (n - length a)) in He by lia.
  rewrite seq_app, fmap_app in He. apply app_inj_1 in He as [Ha Hb]; [|by rewrite length_fmap, length_seq].
  split; [done|]. split; [done|lia].
Qed.

Lemma omap_tickets (l : list nat) : omap id (Some <$> l) = l.
Proof. induction l; cbn; congruence. Qed.

Lemma tickets_write e e' m k ds :
  tickets_at e m k -> pend_tickets e = ds ++ pend_tickets e' -> e_next e' = e_next e ->
  e_signal e = None -> e_signal e' = Some ds -> e_done e' = e_done e ->
  tickets_at e' (m + length ds) k.
Proof.
  intros (Hk & Hsg & Ht & Hd) Et En Es Es' Ed. rewrite Et in Ht.
  apply split_tickets in Ht as (Ht1 & Ht2 & Ht3). rewrite Es in Hsg.
  assert (m = k) as <-.
  { apply (f_equal length) in Hsg. rewrite length_fmap, length_seq in Hsg. cbn in Hsg. lia. }
  unfold tickets_at. rewrite En, Es', Ed. repeat split; try (by apply Hd); try lia.
  - cbn. rewrite Ht1 at 1. do 2 f_equal; lia.
  - rewrite Ht2 at 1. do 2 f_equal; lia.
Qed.

Lemma tickets_signal e e' m k ds :
  tickets_at e m k -> pend_tickets e' = pend_tickets e -> e_next e' = e_next e ->
  e_signal e = Some ds -> e_signal e' = None ->
  e_done e' = e_done e ∪ list_to_set (omap id ds) -> tickets_at e' m m.
Proof.
  intros (Hk & Hsg & Ht & Hd) Et En Es Es' Ed. rewrite Es in Hsg. cbn in Hsg.
  unfold tickets_at. rewrite Et, En, Es', Ed, Hsg, omap_tickets.
  repeat split; try done; try lia.
  - by rewrite Nat.sub_diag.
  - intros [Hi%Hd|Hi]%elem_of_union; [lia|]. apply elem_of_list_to_set, elem_of_seq in Hi. lia.
  - intros Hi. apply elem_of_union. destruct (decide (t < k)); [left; by apply Hd|right].
    apply elem_of_list_to_set, elem_of_seq. lia.
Qed.

(** A thread's action commits some first part of the pending operations (often
    none), in order, and keeps the book on the tickets. *)
Lemma pipe_step_commits sync l e e' m k :
  db_ok (e_db e) -> batches_ok e -> tickets_at e m k -> pipe_step sync l e = Some e' ->
  exists n k', tickets_at e' (m + n) k' /\ pend_ops e = take n (pend_ops e) ++ pend_ops e' /\
    length (take n (pend_ops e)) = n /\
    db_view (e_db e') = apply_ops (db_view (e_db e)) (take n (pend_ops e)).
Proof.
  intros Hok Hb Ht Hs. pose proof (pipe_step_next _ _ _ _ Hs) as [Hn' _].
  destruct (pipe_step_effect _ _ _ _ Hs) as
    [Ep Et Ed Es En|b Hin Ep Et Es Es' En Ed|ds Ep Et Ed Es Es' En].
  - exists 0, k. rewrite Nat.add_0_r, Ed, Ep. split; [|done].
    unfold tickets_at in *. by rewrite Et, Es, En, Hn'.
  - unfold batches_ok in Hb. rewrite Forall_forall in Hb. destruct (Hb _ Hin) as [Hlen _].
    destruct (db_write_ok (e_db e) (fst b) Hok) as (d' & Hw & _ & Hv'). rewrite Hw in Ed.
    exists (length (snd b)), k. rewrite Ed, Hv', Ep, <-Hlen, take_app_length. rewrite Hlen at 1.
    split; [|done]. by eapply tickets_write.
  - exists 0, m. rewrite Nat.add_0_r, Ed, Ep. split; [|done]. by eapply tickets_signal.
Qed.

(** The invariant of a run: what is committed is a prefix of the log, what is
    pending is the rest. *)
Definition run_inv (d0 : db) (e : Engine) (log : list BatchOp) : Prop :=
  db_ok (e_db e) /\ e_next e = length log /\
  exists m k, tickets_at e m k /\
    db_view (e_db e) = apply_ops (db_view d0) (take m log) /\ pend_ops e = drop m log.

Lemma run_inv_send d0 e log op e' t :
  run_inv d0 e log -> carries op -> send e op = Ok (e', t) ->
  run_inv d0 e' (log ++ [op_of (op None)]).
Proof.
  intros (Hok & Hn & m & k & Htk & Hv & Hp) Hop Hs.
  pose proof (tickets_send _ _ _ _ _ _ Hop Hs Htk) as Htk'.
  destruct Htk as ([Hk Hm] & _). apply send_spec in Hs as (Edb & Ep & _ & -> & En & _).
  destruct (Hop (Some (e_next e))) as [_ Hop2]. rewrite Hop2 in Ep.
  unfold run_inv. rewrite Edb, En, Ep, length_app. cbn [length].
  split; [done|]. split; [lia|]. exists m, k. split; [done|].
  by rewrite take_app_le, drop_app_le, Hp by lia.
Qed.

Lemma run_inv_step sync d0 e log l e' :
  run_inv d0 e log -> batches_ok e -> pipe_step sync l e = Some e' -> run_inv d0 e' log.
Proof.
  intros (Hok & Hn & m & k & Htk & Hv & Hp) Hb Hs.
  pose proof (pipe_step_logical _ _ _ _ Hok Hs) as [_ Hok'].
  pose proof (pipe_step_next _ _ _ _ Hs) as [Hn' _]. split; [done|]. split; [congruence|].
  destruct (pipe_step_commits _ _ _ _ _ _ Hok Hb Htk Hs) as (n & k' & Htk' & Hp' & Hl & Hv').
  exists (m + n), k'. split; [done|]. split.
  - by rewrite Hv', Hv, Hp, <-apply_ops_app, take_take_drop.
  - rewrite Hp in Hp'. rewrite <-drop_drop. rewrite Hp in Hl.
    rewrite <-(take_drop n (drop m log)) in Hp' at 1. by apply app_inv_head in Hp'.
Qed.

Lemma run_inv_run sync d0 e log : db_ok d0 -> run sync d0 e log -> run_inv d0 e log.
Proof.
  intros Hd0. induction 1 as [|e log op e' t Hr IH Hop Hs|e log l e' Hr IH Hs].
  - split; [done|]. split; [done|]. exists 0, 0. repeat split; try done; try lia.
  - by eapply run_inv_send.
  - by eapply run_inv_step; [| eapply run_batches |].
Qed.

(** ** Engines in operation *)

(** What holds of an engine at any time, whatever was written beside the
    pipeline. *)
Definition engine_ok (e : Engine) : Prop :=
  db_ok (e_db e) /\ e_open e = true /\ batches_ok e /\ exists m k, tickets_at e m k.

Lemma engine_ok_spawn d : db_ok d -> engine_ok (spawn_writer d).
Proof.
  intros Hd. repeat split; [done|by apply Forall_nil|]. exists 0, 0. repeat split; try done; try lia.
Qed.
Lemma engine_ok_send e op e' t :
  engine_ok e -> carries op -> send e op = Ok (e', t) -> engine_ok e'.
Proof.
  intros (Hd & Ho & Hb & m & k & Ht) Hop Hs. pose proof (send_spec _ _ _ _ Hs).
  destruct_and!. split; [congruence|]. split; [congruence|]. split; [by eapply send_batches|].
  exists m, k. by eapply tickets_send.
Qed.
Lemma engine_ok_step sync l e e' : engine_ok e -> pipe_step sync l e = Some e' -> engine_ok e'.
Proof.
  intros (Hd & Ho & Hb & m & k & Ht) Hs. pose proof (pipe_step_next _ _ _ _ Hs) as [_ Ho'].
  split; [by eapply pipe_step_logical|]. split; [congruence|].
  split; [by eapply pipe_step_batches|].
  destruct (pipe_step_commits _ _ _ _ _ _ Hd Hb Ht Hs) as (n & k' & Ht' & _). by exists (m + n), k'.
Qed.
Lemma engine_ok_direct e ops : engine_ok e ->
  exists e', direct_write e ops = Ok e' /\ engine_ok e' /\
    db_view (e_db e') = apply_ops (db_view (e_db e)) ops /\ pend_ops e' = pend_ops e.
Proof.
  intros (Hd & Ho & Hb & m & k & Ht). destruct (db_write_ok _ ops Hd) as (d' & Hw & Hok & Hv).
  unfold direct_write. rewrite Hw. eexists. split; [reflexivity|]. split; [|done].
  repeat split; [done|done|done|]. by exists m, k.
Qed.

Lemma length_pend e : batches_ok e -> length (pend_ops e) = length (pend_tickets e).
Proof.
  unfold batches_ok, pend_ops, pend_tickets. intros Hb. rewrite !length_app, !length_fmap. f_equal.
  induction Hb as [|b bs [Hl _] Hb IH]; [done|]. cbn. rewrite !length_app. lia.
Qed.

(** [o] was written to [key] by the operation with ticket [t], and nothing sent
    after it concerns [key]. *)
Definition written (e : Engine) (t : nat) (key : bytes) (o : option bytes) : Prop :=
  engine_ok e /\ logical e !! key = o /\
  exists m k, tickets_at e m k /\ t < e_next e /\
    Forall (fun op => touches op key = false) (drop (S t - m) (pend_ops e)).

Lemma written_sent e op e' t key o :
  engine_ok e -> carries op -> send e op = Ok (e', t) ->
  apply_op (logical e) (op_of (op None)) !! key = o -> written e' t key o.
Proof.
  intros He Hop Hs Ho. split; [by eapply engine_ok_send|].
  rewrite (send_logical _ _ _ _ Hs), (proj2 (Hop (Some t))). split; [done|].
  destruct He as (_ & _ & Hb & m & k & Ht). exists m, k. split; [by eapply tickets_send|].
  apply send_spec in Hs as (_ & Ep & _ & -> & En & _). split; [lia|].
  rewrite drop_ge; [by apply Forall_nil|]. destruct Ht as (Hk & _ & Hp & _).
  rewrite Ep, length_app, length_pend, Hp, length_fmap, length_seq by done. cbn. lia.
Qed.

Lemma written_send e op e' n t key o :
  written e t key o -> carries op -> touches (op_of (op None)) key = false ->
  send e op = Ok (e', n) -> written e' t key o.
Proof.
  intros (He & Hl & m & k & Ht & Hn & Hf) Hop Hu Hs. split; [by eapply engine_ok_send|].
  rewrite (send_logical _ _ _ _ Hs), (proj2 (Hop (Some n))), apply_op_untouched by done.
  split; [done|]. exists m, k. split; [by eapply tickets_send|].
  apply send_spec in Hs as (_ & Ep & _ & -> & En & _). split; [lia|].
  rewrite Ep, (proj2 (Hop (Some (e_next e)))). apply Forall_forall. intros x Hx.
  destruct (decide (S t - m <= length (pend_ops e))).
  - rewrite drop_app_le in Hx by done. apply elem_of_app in Hx as [Hx|Hx].
    + rewrite Forall_forall in Hf. by apply Hf.
    + by apply list_elem_of_singleton in Hx as ->.
  - rewrite drop_ge in Hx by (rewrite length_app; cbn; lia). by apply not_elem_of_nil in Hx.
Qed.

Lemma written_step sync l e e' t key o :
  written e t key o -> pipe_step sync l e = Some e' -> written e' t key o.
Proof.
  intros (He & Hl & m & k & Ht & Hn & Hf) Hs. split; [by eapply engine_ok_step|].
  destruct He as (Hd & _ & Hb & _). rewrite (proj1 (pipe_step_logical _ _ _ _ Hd Hs)).
  split; [done|]. destruct (pipe_step_commits _ _ _ _ _ _ Hd Hb Ht Hs) as (n & k' & Ht' & Hp & Hln & _).
  exists (m + n), k'. split; [done|]. rewrite (proj1 (pipe_step_next _ _ _ _ Hs)).
  split; [done|]. assert (Hd' : pend_ops e' = drop n (pend_ops e)).
  { rewrite <-(take_drop n (pend_ops e)) in Hp at 1. by apply app_inv_head in Hp. }
  rewrite Hd', drop_drop.
  replace (n + (S t - (m + n))) with ((S t - m) + (n + (S t - (m + n)) - (S t - m))) by lia.
  rewrite <-drop_drop. by apply Forall_drop.
Qed.

(** Once the ticket is completed, the database itself has the value. *)
Lemma written_done e t key o :
  written e t key o -> t ∈ e_done e -> db_get (e_db e) key = Ok o.
Proof.
  intros ((Hd & _) & Hl & m & k & (Hk & _ & _ & Hdone) & _ & Hf) Ht%Hdone.
  rewrite db_get_ok by done. f_equal. rewrite <-Hl. unfold logical. symmetry.
  apply apply_ops_untouched. by replace (S t - m) with 0 in Hf by lia.
Qed.

(** ** Progress *)

Lemma next_label_enabled sync e l :
  next_label e = Some l -> exists e', pipe_step sync l e = Some e'.
Proof.
  unfold next_label, pipe_step, collect_step. intros Hl.
  destruct (e_signal e); [injection Hl as <-; eauto|].
  destruct (e_commits e); [|injection Hl as <-; eauto].
  destruct (e_coll e) as [|b|b], (e_queue e) as [|op q]; try discriminate; injection Hl as <-;
    rewrite ?orb_true_r; try (by eexists).
  destruct (length (fst b) <? MAX_BATCH_OPS) eqn:E; [by eexists|].
  apply Nat.ltb_ge, Nat.leb_le in E. rewrite E. by eexists.
Qed.

Lemma next_label_idle e : next_label e = None <-> idle e.
Proof.
  unfold next_label, idle. destruct (e_signal e), (e_commits e), (e_coll e), (e_queue e);
    (split; [discriminate || done|]); intros (? & ? & ? & ?); done.
Qed.

Lemma drain_idle sync fuel e : work e <= fuel -> idle (drain sync fuel e).
Proof.
  revert e. induction fuel as [|f IH]; intros e Hf; cbn [drain].
  - apply next_label_idle. destruct (next_label e) as [l|] eqn:Hl; [|done].
    destruct (next_label_enabled sync e l Hl) as (e' & He%pipe_step_work). lia.
  - destruct (next_label e) as [l|] eqn:Hl; cbn; [|by apply next_label_idle].
    destruct (next_label_enabled sync e l Hl) as (e' & He). rewrite He.
    apply IH. apply pipe_step_work in He. lia.
Qed.

Lemma drain_run sync d0 fuel e log : run sync d0 e log -> run sync d0 (drain sync fuel e) log.
Proof.
  revert e. induction fuel as [|f IH]; intros e Hr; cbn [drain]; [done|].
  destruct (next_label e ≫= _) as [e'|] eqn:He; [|done].
  apply bind_Some in He as (l & _ & He). apply IH. by eapply run_step.
Qed.

Lemma drain_inv (P : Engine -> Prop) sync fuel e :
  (forall l e e', P e -> pipe_step sync l e = Some e' -> P e') -> P e -> P (drain sync fuel e).
Proof.
  intros Hstep. revert e. induction fuel as [|f IH]; intros e He; cbn [drain]; [done|].
  destruct (next_label e ≫= _) as [e'|] eqn:Hl; [|done].
  apply bind_Some in Hl as (l & _ & Hl). eauto.
Qed.

Lemma idle_pending e : idle e -> pend_ops e = [] /\ pend_tickets e = [].
Proof.
  intros (Hq & Hc & Hcs & _). unfold pend_ops, pend_tickets, pend_batches. by rewrite Hq, Hc, Hcs.
Qed.

Lemma idle_done e t : engine_ok e -> idle e -> t ∈ e_done e <-> t < e_next e.
Proof.
  intros (_ & _ & _ & m & k & (Hk & Hsg & Ht & Hd)) Hi.
  rewrite (proj2 (idle_pending e Hi)) in Ht. destruct Hi as (_ & _ & _ & Hs). rewrite Hs in Hsg.
  apply (f_equal length) in Hsg, Ht. rewrite length_fmap, length_seq in Hsg, Ht. cbn in Hsg, Ht.
  rewrite Hd. lia.
Qed.

(** ** The guarantees of the pipeline *)

(** C3: an engine refines a sequential map.  However senders, collector and
    committer interleave, the database is the initial one with a prefix of the
    operations applied, in the order they were sent (no operation is lost,
    duplicated or overtaken, range tombstones included), the rest is pending, and
    a completed ticket stands for an operation inside that prefix: a client that
    was acknowledged reads its own write. *)
Theorem pipeline_refines sync d0 e log :
  db_ok d0 -> run sync d0 e log ->
  exists m, m <= length log /\
    db_view (e_db e) = apply_ops (db_view d0) (take m log) /\
    logical e = apply_ops (db_view d0) log /\
    (forall t, t ∈ e_done e -> t < m).
Proof.
  intros Hd0 Hr. destruct (run_inv_run _ _ _ _ Hd0 Hr) as
    (_ & Hn & m & k & (Hk & _ & _ & Hd) & Hv & Hp).
  exists m. split; [lia|]. split; [done|]. split.
  - unfold logical. by rewrite Hv, Hp, <-apply_ops_app, take_drop.
  - intros t Ht%Hd. lia.
Qed.

(** Nothing accepted is lost at shutdown.  From any point of any run the
    threads finish after at most [work] actions, in the state where every
    operation sent is committed and every ticket is completed: what [Drop for
    Storage] waits for before it releases the engines. *)
Theorem drain_commits sync d0 e log :
  db_ok d0 -> run sync d0 e log ->
  idle (drain sync (work e) e) /\
  db_view (e_db (drain sync (work e) e)) = apply_ops (db_view d0) log /\
  (forall t, t ∈ e_done (drain sync (work e) e) <-> t < length log).
Proof.
  intros Hd0 Hr. assert (Hi : idle (drain sync (work e) e)) by (by apply drain_idle).
  apply (drain_run _ _ (work e)) in Hr. destruct (run_inv_run _ _ _ _ Hd0 Hr) as
    (_ & Hn & m & k & (Hk & Hsg & Ht & Hd) & Hv & Hp).
  destruct (idle_pending _ Hi) as [Hp0 Ht0]. destruct Hi as (Hq & Hc & Hcs & Hs).
  rewrite Hs in Hsg. rewrite Ht0, Hn in Ht.
  apply (f_equal length) in Hsg, Ht. rewrite length_fmap, length_seq in Hsg, Ht. cbn in Hsg, Ht.
  split; [done|]. split; [rewrite Hv, take_ge by lia; done|].
  intros t. rewrite Hd. lia.
Qed.

(** A batch handed to the database has between one and [MAX_BATCH_OPS]
    operations and one sender per operation, in every run and in both modes. *)
Theorem batch_bound sync d0 e log b cs :
  run sync d0 e log -> e_commits e = b :: cs ->
  1 <= length (fst b) <= MAX_BATCH_OPS /\ length (fst b) = length (snd b).
Proof.
  intros Hr%run_batches Hc. unfold batches_ok, pend_batches in Hr. rewrite Hc in Hr.
  cbn in Hr. apply Forall_cons in Hr as [[Hl Hm] _]. done.
Qed.
End pipeline_lemmas.

(** ** Concrete runs *)

Definition demo_put (k v : string) : option nat -> WriteOp := Put (bs k) (bs v).
Lemma carries_put k v : carries (Put k v).
Proof. done. Qed.
Lemma carries_delete k : carries (Delete k).
Proof. done. Qed.
Lemma carries_range s e : carries (DeleteRange s e).
Proof. done. Qed.

(** An interleaving, as a list of events: an operation is sent, or a thread
    acts (an action that is not enabled is skipped). *)
Inductive Event := ESend (op : option nat -> WriteOp) | EStep (l : Label).
Definition exec_event `{KV} (sync : bool) (e : Engine) (ev : Event) : Engine :=
  match ev with
  | ESend op => match send e op with Ok (e', _) => e' | _ => e end
  | EStep l => default e (pipe_step sync l e)
  end.
Definition exec `{KV} (sync : bool) (e : Engine) (evs : list Event) : Engine :=
  foldl (exec_event sync) e evs.
Definition sent (evs : list Event) : list BatchOp :=
  evs ≫= fun ev => match ev with ESend op => [op_of (op None)] | EStep _ => [] end.

Lemma exec_run `{KVLaws} sync d0 evs :
  Forall (fun ev => match ev with ESend op => carries op | EStep _ => True end) evs ->
  run sync d0 (exec sync (spawn_writer d0) evs) (sent evs).
Proof.
  intros Hc. induction evs as [|ev evs IH] using rev_ind; [apply run_start|].
  apply Forall_app in Hc as [Hc Hev]. rewrite Forall_singleton in Hev. specialize (IH Hc).
  unfold exec, sent. rewrite foldl_app, bind_app. cbn.
  fold (exec sync (spawn_writer d0) evs). destruct ev as [op|l]; cbn; rewrite ?app_nil_r.
  - pose proof (run_open _ _ _ _ IH) as Ho.
    destruct (send_open _ op Ho) as (e' & He). rewrite He.
    exact (run_send _ _ _ _ _ _ _ IH Hev He).
  - destruct (pipe_step sync l _) as [e'|] eqn:He; [by eapply run_step|done].
Qed.

(** Two writes to one key; the first is committed, the second still queued. *)
Definition demo_events : list Event :=
  [ESend (demo_put "k" "1"); EStep CollectFirst; EStep CollectClose; EStep CollectFlush;
   EStep CommitWrite; EStep CommitSignal; ESend (demo_put "k" "2")].
Definition demo_engine : @Engine mem_kv := exec false (spawn_writer (∅ : @db mem_kv)) demo_events.
Lemma demo_run : @run mem_kv false (∅ : gmap bytes bytes) demo_engine (sent demo_events).
Proof. apply (exec_run (H0 := mem_kv_laws) false). repeat apply Forall_cons_2; try done; try apply Forall_nil_2. Qed.

Lemma pipeline_refines_witness :
  exists m, m <= length (sent demo_events) /\
    db_view (KVLaws := mem_kv_laws) (e_db demo_engine)
    = apply_ops ∅ (take m [BPut (bs "k") (bs "1"); BPut (bs "k") (bs "2")]) /\
    logical (H0 := mem_kv_laws) demo_engine = apply_ops ∅ (sent demo_events) /\ 0 < m.
Proof.
  destruct (pipeline_refines (H0 := mem_kv_laws) false ∅ demo_engine _ I demo_run) as (m & Hm & Hv & Hl & Hd).
  exists m. split; [exact Hm|]. split; [exact Hv|]. split; [exact Hl|]. apply Hd. by_compute.
Defined.

Lemma drain_commits_witness :
  idle (drain false (work demo_engine) demo_engine) /\
  1 ∈ e_done (drain false (work demo_engine) demo_engine).
Proof.
  destruct (drain_commits (H0 := mem_kv_laws) false ∅ demo_engine _ I demo_run) as (Hi & _ & Hd).
  split; [exact Hi|]. apply Hd. cbn. lia.
Defined.

(** A batch of two operations on its way to the committer. *)
Definition demo_batch : Batch :=
  ([BPut (bs "k") (bs "1"); BDelete (bs "j")], [Some 0; Some 1]).
Definition demo_events2 : list Event :=
  [ESend (demo_put "k" "1"); ESend (Delete (bs "j")); EStep CollectFirst; EStep CollectMore;
   EStep CollectClose; EStep CollectFlush].
Lemma demo_run2 :
  @run mem_kv true (∅ : gmap bytes bytes) (exec true (spawn_writer (∅ : @db mem_kv)) demo_events2)
    (sent demo_events2).
Proof. apply (exec_run (H0 := mem_kv_laws) true). repeat apply Forall_cons_2; try done; try apply Forall_nil_2. Qed.

Lemma batch_bound_witness :
  1 <= length (fst demo_batch) <= MAX_BATCH_OPS /\ length (fst demo_batch) = length (snd demo_batch).
Proof. refine (batch_bound true _ _ _ _ [] demo_run2 _). vm_compute. reflexivity. Defined.

(** A failed commit is acknowledged.  When the database refuses the write,
    the committer logs the error and drops the senders all the same: the ticket
    of the lost write completes, and [settle] cannot tell. *)
Theorem failed_commit_acknowledged :
  exists e e' t, @run full_disk_kv true (∅ : gmap bytes bytes) e [BPut (bs "k") (bs "1")] /\
    drain true (work e) e = e' /\ idle e' /\
    t ∈ e_done e' /\ db_get (e_db e') (bs "k") = Ok None.
Proof.
  eexists _, _, 0. split.
  { apply (run_send (H := full_disk_kv) true ∅ (spawn_writer (H := full_disk_kv) ∅) []
      (demo_put "k" "1") _ 0); [apply run_start|done|reflexivity]. }
  split; [reflexivity|]. split; [by vm_compute|]. split; [by_compute|by vm_compute].
Qed.
