(* ===== verification/Storage.v ===== *)
(** * The storage layer

    Models [Storage] of src/src/storage.rs: the engines with their pipelines, the
    keyspace and table caches, the statement cache, the point-lookup row cache,
    and every operation on them.  serde_json is a parameter; [Arc], locks and the
    async runtime are transparent: each operation is one step of a thread, and
    the threads of the pipelines act between them. *)

From S2P Require Import Prelude RustStr Ast Schema CqlValue Keys Kv Pipeline.

(** serde_json on the two definitions it stores. *)
Class Json := {
  ks_to_vec : KeyspaceDef -> res str bytes;
  ks_from_slice : bytes -> res str KeyspaceDef;
  tb_to_vec : TableDef -> res str bytes;
  tb_from_slice : bytes -> res str TableDef;
}.
Class JsonLaws `{Json} := {
  ks_json d : exists b, ks_to_vec d = Ok b /\ ks_from_slice b = Ok d;
  tb_json d : exists b, tb_to_vec d = Ok b /\ tb_from_slice b = Ok d;
}.

(** 8192. *)
Definition AST_CACHE_CAPACITY : nat := Z.to_nat 8192.

(** A oneshot receiver: engine and ticket; [None] when the sender is gone. *)
Abbreviation WriteTicket := (option (nat * nat)).

Section storage.
Context `{KV} `{Json}.

Record Storage := {
  st_engines : list Engine;
  st_keyspaces : gmap str KeyspaceDef;
  st_tables : gmap (str * str) TableDef;
  st_ast_cache : gmap str CassandraStatement;
  st_write_sync : bool;
  st_row_cache : option (gmap bytes bytes);
}.

Abbreviation M := (st Storage str).

Definition set_engines (l : list Engine) (s : Storage) : Storage :=
  {| st_engines := l; st_keyspaces := st_keyspaces s; st_tables := st_tables s;
     st_ast_cache := st_ast_cache s; st_write_sync := st_write_sync s;
     st_row_cache := st_row_cache s |}.
Definition set_keyspaces (m : gmap str KeyspaceDef) (s : Storage) : Storage :=
  {| st_engines := st_engines s; st_keyspaces := m; st_tables := st_tables s;
     st_ast_cache := st_ast_cache s; st_write_sync := st_write_sync s;
     st_row_cache := st_row_cache s |}.
Definition set_tables (m : gmap (str * str) TableDef) (s : Storage) : Storage :=
  {| st_engines := st_engines s; st_keyspaces := st_keyspaces s; st_tables := m;
     st_ast_cache := st_ast_cache s; st_write_sync := st_write_sync s;
     st_row_cache := st_row_cache s |}.
Definition set_ast_cache (m : gmap str CassandraStatement) (s : Storage) : Storage :=
  {| st_engines := st_engines s; st_keyspaces := st_keyspaces s; st_tables := st_tables s;
     st_ast_cache := m; st_write_sync := st_write_sync s; st_row_cache := st_row_cache s |}.
Definition set_row_cache (c : option (gmap bytes bytes)) (s : Storage) : Storage :=
  {| st_engines := st_engines s; st_keyspaces := st_keyspaces s; st_tables := st_tables s;
     st_ast_cache := st_ast_cache s; st_write_sync := st_write_sync s; st_row_cache := c |}.

(** [self.dbs.len()]. *)
Definition dbs_len (s : Storage) : nat := length (st_engines s).

(** An action on engine [i]; an index out of range panics. *)
Definition on_engine {A} (i : nat) (f : Engine -> Engine * res str A) : M A := fun s =>
  match st_engines s !! i with
  | None => (s, Panic)
  | Some e => let '(e', r) := f e in (set_engines (<[i := e']> (st_engines s)) s, r)
  end.
(** A write that does not go through the pipeline. *)
Definition engine_write (i : nat) (ops : list BatchOp) (what : string) : M () :=
  on_engine i (fun e =>
    match direct_write e ops with
    | Ok e' => (e', Ok ())
    | Err x => (e, Err (bs what ++ x))
    | Panic => (e, Panic)
    end).
Definition engine_get (i : nat) (key : bytes) : M (option bytes) :=
  on_engine i (fun e => (e, db_get (e_db e) key)).
(** [writers[i].tx.send(..)] with a fresh oneshot channel. *)
Definition engine_send (i : nat) (op : option nat -> WriteOp) : M WriteTicket :=
  on_engine i (fun e =>
    match send e op with
    | Ok (e', t) => (e', Ok (Some (i, t)))
    | Err x => (e, Err x)
    | Panic => (e, Panic)
    end).

(** ** Plain reads and writes on engine 0 *)

Definition put (key val : bytes) : M () := engine_write 0 [BPut key val] "rocksdb put failed: ".
Definition get (key : bytes) : M (option bytes) := engine_get 0 key.
Definition delete (key : bytes) : M () := engine_write 0 [BDelete key] "rocksdb delete failed: ".

(** ** Scans *)

(** The loop over an iterator.  The callback has state [A], says whether to go
    on, and may panic. *)
Fixpoint each_item {A} (prefix : bytes) (f : A -> bytes -> bytes -> A * res str bool) (a : A)
    (items : list (res str (bytes * bytes))) : A * res str () :=
  match items with
  | [] => (a, Ok ())
  | Ok (k, v) :: r =>
    if negb (starts_with k prefix) then (a, Ok ()) else
    match f a k v with
    | (a', Ok true) => each_item prefix f a' r
    | (a', Ok false) => (a', Ok ())
    | (a', Err e) => (a', Err e)
    | (a', Panic) => (a', Panic)
    end
  | Err e :: _ => (a, Err e)
  | Panic :: _ => (a, Panic)
  end.

Definition for_each_on_engine {A} (s : Storage) (engine : nat) (prefix : bytes)
    (f : A -> bytes -> bytes -> A * res str bool) (a : A) : A * res str () :=
  match st_engines s !! engine with
  | None => (a, Panic)
  | Some e => each_item prefix f a (db_iter (e_db e) prefix)
  end.

(** [|k, v| { out.push((k, v)); true }]. *)
Definition push_entry (out : list (bytes * bytes)) (k v : bytes)
    : list (bytes * bytes) * res str bool := (out ++ [(k, v)], Ok true).

(** The value of a scan into a vector. *)
Definition collected {A} (r : A * res str ()) : res str A := snd r ≫= fun _ => Ok (fst r).

Definition scan_prefix (s : Storage) (prefix : bytes) : res str (list (bytes * bytes)) :=
  collected (for_each_on_engine s 0 prefix push_entry []).

Definition for_each_in_prefix {A} (s : Storage) (prefix : bytes)
    (f : A -> bytes -> bytes -> A * res str bool) (a : A) : A * res str () :=
  for_each_on_engine s 0 prefix f a.

(** The loop over the engines; [stop] is the flag of the source. *)
Fixpoint each_engine {A} (s : Storage) (prefix : bytes) (f : A -> bytes -> bytes -> A * res str bool)
    (engines : list nat) (a : A) : A * res str () :=
  match engines with
  | [] => (a, Ok ())
  | i :: r =>
    match for_each_on_engine s i prefix
            (fun '(a, _) k v => match f a k v with
                                | (a', Ok c) => ((a', negb c), Ok c)
                                | (a', o) => ((a', false), o)
                                end) (a, false) with
    | ((a', stop), Ok _) => if stop then (a', Ok ()) else each_engine s prefix f r a'
    | ((a', _), o) => (a', o)
    end
  end.

Definition for_each_in_table {A} (s : Storage) (keyspace table : str)
    (f : A -> bytes -> bytes -> A * res str bool) (a : A) : A * res str () :=
  each_engine s (data_prefix keyspace table) f (seq 0 (dbs_len s)) a.

Definition for_each_in_partition {A} (s : Storage) (keyspace table : str) (partition : list bytes)
    (f : A -> bytes -> bytes -> A * res str bool) (a : A) : A * res str () :=
  let prefix := data_prefix keyspace table ++ encode_key partition in
  let engine := data_engine (dbs_len s) keyspace table (first_part partition) in
  for_each_on_engine s engine prefix f a.

Definition scan_rows (s : Storage) (keyspace table : str) : res str (list (bytes * bytes)) :=
  collected (for_each_in_table s keyspace table push_entry []).
Definition scan_partition (s : Storage) (keyspace table : str) (partition_key : list bytes)
    : res str (list (bytes * bytes)) :=
  collected (for_each_in_partition s keyspace table partition_key push_entry []).

(** ** Range deletes *)

Definition delete_prefix (prefix : bytes) : M () :=
  match prefix_upper_bound prefix with
  | Some e => engine_write 0 [BDeleteRange prefix e] "rocksdb delete_range failed: "
  | None =>
    s ← gets id;
    entries ← lift (scan_prefix s prefix);
    for_each entries (fun kv => delete (fst kv))
  end.

(** The callback of the per-row fallback: a send that fails is ignored, its
    receiver completes at once. *)
Definition send_delete (engine : nat) (acc : Storage * list WriteTicket) (k v : bytes)
    : (Storage * list WriteTicket) * res str bool :=
  match engine_send engine (Delete k) (fst acc) with
  | (s', Ok t) => ((s', snd acc ++ [t]), Ok true)
  | (s', Err _) => ((s', snd acc ++ [None]), Ok true)
  | (s', Panic) => ((s', snd acc), Panic)
  end.

(** [for engine in 0..self.dbs.len()] of the per-row fallback. *)
Definition delete_rows_on (data_prefix : bytes) (tickets : list WriteTicket) (engine : nat)
    : M (list WriteTicket) := fun s =>
  let '((s', ts), r) := for_each_on_engine s engine data_prefix (send_delete engine) (s, tickets) in
  (s', r ≫= fun _ => Ok ts).

Definition delete_data_prefix (data_prefix : bytes) : M (list WriteTicket) :=
  n ← gets dbs_len;
  tickets ← match prefix_upper_bound data_prefix with
            | Some e => map_st (fun i => engine_send i (DeleteRange data_prefix e)) (seq 0 n)
            | None => foldl (fun m i => ts ← m; delete_rows_on data_prefix ts i) (mret []) (seq 0 n)
            end;
  modify (fun s => match st_row_cache s with
                   | Some _ => if starts_with data_prefix DT_PREFIX
                               then set_row_cache (Some ∅) s else s
                   | None => s
                   end);;
  mret tickets.

(** ** Keyspaces *)

Definition put_keyspace (ks : KeyspaceDef) : M () :=
  j ← lift (ks_to_vec ks);
  put (ks_key (ks_name ks)) j;;
  modify (fun s => set_keyspaces (<[ks_name ks := ks]> (st_keyspaces s)) s).

Definition get_keyspace (name : str) : M (option KeyspaceDef) :=
  c ← gets (fun s => st_keyspaces s !! name);
  match c with
  | Some ks => mret (Some ks)
  | None =>
    o ← get (ks_key name);
    match o with
    | Some b =>
      ks ← lift (ks_from_slice b);
      modify (fun s => set_keyspaces (<[name := ks]> (st_keyspaces s)) s);;
      mret (Some ks)
    | None => mret None
    end
  end.

Definition delete_keyspace (name : str) : M (list WriteTicket) :=
  delete (ks_key name);;
  delete_prefix (tb_prefix name);;
  tickets ← delete_data_prefix (dt_ks_prefix name);
  modify (fun s => set_keyspaces (base.delete name (st_keyspaces s)) s);;
  modify (fun s => set_tables (filter (fun e => fst (fst e) <> name) (st_tables s)) s);;
  mret tickets.

(** ** Tables *)

Definition put_table (table : TableDef) : M () :=
  j ← lift (tb_to_vec table);
  put (tb_key (td_keyspace table) (td_name table)) j;;
  modify (fun s => set_tables (<[(td_keyspace table, td_name table) := table]> (st_tables s)) s).

(** The last act of [get_table]: the definition it read goes into the cache. *)
Definition table_fill (keyspace table : str) (def : TableDef) : M () :=
  modify (fun s => set_tables (<[(keyspace, table) := def]> (st_tables s)) s).

Definition get_table (keyspace table : str) : M (option TableDef) :=
  c ← gets (fun s => st_tables s !! (keyspace, table));
  match c with
  | Some def => mret (Some def)
  | None =>
    o ← get (tb_key keyspace table);
    match o with
    | Some b =>
      def ← lift (tb_from_slice b);
      table_fill keyspace table def;;
      mret (Some def)
    | None => mret None
    end
  end.

Definition delete_table (keyspace table : str) : M (list WriteTicket) :=
  delete (tb_key keyspace table);;
  tickets ← delete_data_prefix (data_prefix keyspace table);
  modify (fun s => set_tables (base.delete (keyspace, table) (st_tables s)) s);;
  mret tickets.

Definition truncate_table (keyspace table : str) : M (list WriteTicket) :=
  delete_data_prefix (data_prefix keyspace table).

(** ** The statement cache *)

Definition ast_cache_get (query : str) (s : Storage) : option CassandraStatement :=
  st_ast_cache s !! query.
Definition ast_cache_put (query : str) (stmt : CassandraStatement) (s : Storage) : Storage :=
  let cache := if AST_CACHE_CAPACITY <=? size (st_ast_cache s) then ∅ else st_ast_cache s in
  set_ast_cache (<[query := stmt]> cache) s.

(** ** Rows *)

Definition should_cache (keyspace : str) : bool :=
  negb (bool_decide (keyspace = bs "system"))
  && negb (bool_decide (keyspace = bs "system_schema"))
  && negb (bool_decide (keyspace = bs "system_virtual_schema")).

(** [if Self::should_cache(keyspace) { if let Some(cache) = &self.row_cache {..}}]. *)
Definition on_cache (keyspace : str) (f : gmap bytes bytes -> gmap bytes bytes) : M () :=
  modify (fun s => if should_cache keyspace then set_row_cache (f <$> st_row_cache s) s else s).
Definition cache_lookup (keyspace : str) (key : bytes) (s : Storage) : option bytes :=
  if should_cache keyspace then st_row_cache s ≫= fun c => c !! key else None.

(** The engine of a row. *)
Definition row_engine (keyspace table : str) (key_parts : list bytes) (s : Storage) : nat :=
  data_engine (dbs_len s) keyspace table (first_part key_parts).

(** The database access of [get_row]. *)
Definition row_fetch (keyspace table : str) (key_parts : list bytes) : M (option bytes) :=
  engine ← gets (row_engine keyspace table key_parts);
  engine_get engine (row_key keyspace table key_parts).

(** Its last act: what was found goes into the cache. *)
Definition row_fill (keyspace table : str) (key_parts : list bytes) (o : option bytes) : M () :=
  match o with
  | Some v => on_cache keyspace <[row_key keyspace table key_parts := v]>
  | None => mret ()
  end.

(** Lookup, fetch and fill; no lock is held from one to the next. *)
Definition get_row (keyspace table : str) (key_parts : list bytes) : M (option bytes) :=
  c ← gets (cache_lookup keyspace (row_key keyspace table key_parts));
  match c with
  | Some v => mret (Some v)
  | None =>
    o ← row_fetch keyspace table key_parts;
    row_fill keyspace table key_parts o;;
    mret o
  end.

Definition put_row_sync (keyspace table : str) (key_parts : list bytes) (value : bytes) : M () :=
  let key := row_key keyspace table key_parts in
  engine ← gets (row_engine keyspace table key_parts);
  engine_write engine [BPut key value] "rocksdb put failed: ";;
  on_cache keyspace <[key := value]>.

Definition delete_row_sync (keyspace table : str) (key_parts : list bytes) : M () :=
  let key := row_key keyspace table key_parts in
  engine ← gets (row_engine keyspace table key_parts);
  engine_write engine [BDelete key] "rocksdb delete failed: ";;
  on_cache keyspace (base.delete key).

Definition write_data_op (keyspace table : str) (key_parts : list bytes)
    (op : option nat -> WriteOp) : M WriteTicket :=
  engine ← gets (row_engine keyspace table key_parts);
  engine_send engine op.

Definition put_row (keyspace table : str) (key_parts : list bytes) (value : bytes) : M WriteTicket :=
  let key := row_key keyspace table key_parts in
  on_cache keyspace <[key := value]>;;
  write_data_op keyspace table key_parts (Put key value).

Definition delete_row (keyspace table : str) (key_parts : list bytes) : M WriteTicket :=
  let key := row_key keyspace table key_parts in
  on_cache keyspace (base.delete key);;
  write_data_op keyspace table key_parts (Delete key).

(** ** The pipelines, and waiting for them *)

(** A thread of engine [i] acts. *)
Definition thread_step (i : nat) (l : Label) (s : Storage) : option Storage :=
  e ← st_engines s !! i;
  e' ← pipe_step (st_write_sync s) l e;
  Some (set_engines (<[i := e']> (st_engines s)) s).

(** The condition [settle] waits for: every sender of the tickets is gone. *)
Definition ticket_done (s : Storage) (t : WriteTicket) : bool :=
  match t with
  | Some (i, n) => match st_engines s !! i with
                   | Some e => bool_decide (n ∈ e_done e) | None => true end
  | None => true
  end.
Definition settled (s : Storage) (tickets : list WriteTicket) : bool :=
  forallb (ticket_done s) tickets.

(** The threads of all engines run dry: what [Drop for Storage] waits for, and
    one way [settle] can come to an end. *)
Definition quiesce (s : Storage) : Storage :=
  set_engines ((fun e => drain (st_write_sync s) (work e) e) <$> st_engines s) s.
End storage.
