(* ===== verification/Rows.v ===== *)
(** * Rows: what clients can rely on

    What the row operations of [Storage] do to a working storage, and that
    waiting for write tickets ends.  What holds of acknowledged writes while
    other requests run is in [Acked]; here are the two ways in which the row
    cache breaks it. *)

From S2P Require Import Prelude RustStr Ast Schema CqlValue Keys Kv Pipeline Storage.

Section rows.
Context `{KVLaws} `{Json}.

(** Engines exist and work. *)
Definition engines_ok (s : Storage) : Prop :=
  0 < dbs_len s /\ Forall engine_ok (st_engines s).

Lemma engine_at s i : engines_ok s -> i < dbs_len s ->
  exists e, st_engines s !! i = Some e /\ engine_ok e.
Proof.
  intros [_ Hf] Hi. destruct (lookup_lt_is_Some_2 (st_engines s) i Hi) as [e He].
  exists e. split; [done|]. by eapply Forall_lookup_1.
Qed.

Lemma row_engine_lt s ks tb parts : engines_ok s -> row_engine ks tb parts s < dbs_len s.
Proof. intros [Hn _]. by apply engine_of_lt. Qed.

(** The state after engine [i] moved to [e]. *)
Definition with_engine (i : nat) (e : Engine) (s : Storage) : Storage :=
  set_engines (<[i := e]> (st_engines s)) s.

Lemma engines_ok_with s i e : engines_ok s -> engine_ok e -> engines_ok (with_engine i e s).
Proof.
  intros [Hn Hf] He. split; [unfold dbs_len; cbn; by rewrite length_insert|].
  by apply Forall_insert.
Qed.
Lemma dbs_len_with s i e : dbs_len (with_engine i e s) = dbs_len s.
Proof. unfold dbs_len. cbn. by rewrite length_insert. Qed.

Lemma engine_send_eq s i e op : st_engines s !! i = Some e -> engine_ok e -> carries op ->
  exists e', send e op = Ok (e', e_next e) /\ engine_ok e' /\
    engine_send i op s = (with_engine i e' s, Ok (Some (i, e_next e))).
Proof.
  intros Hi He Hop. destruct (send_open e op) as [e' Hs]; [by apply He|].
  exists e'. split; [done|]. split; [by eapply engine_ok_send|].
  unfold engine_send, on_engine. by rewrite Hi, Hs.
Qed.

Lemma engine_write_eq s i e ops what : st_engines s !! i = Some e -> engine_ok e ->
  exists e', engine_write i ops what s = (with_engine i e' s, Ok ()) /\ engine_ok e' /\
    db_view (e_db e') = apply_ops (db_view (e_db e)) ops /\ pend_ops e' = pend_ops e.
Proof.
  intros Hi He. destruct (engine_ok_direct e ops He) as (e' & Hw & He' & Hv & Hp).
  exists e'. split; [|done]. unfold engine_write, on_engine. by rewrite Hi, Hw.
Qed.

Lemma set_engines_same s i e : st_engines s !! i = Some e ->
  set_engines (<[i := e]> (st_engines s)) s = s.
Proof. intros Hi. rewrite list_insert_id by done. by destruct s. Qed.

Lemma engine_get_eq s i e key : st_engines s !! i = Some e ->
  engine_get i key s = (s, db_get (e_db e) key).
Proof. intros Hi. unfold engine_get, on_engine. rewrite Hi. by rewrite set_engines_same. Qed.

(** The effect of [on_cache]. *)
Definition cached (ks : str) (f : gmap bytes bytes -> gmap bytes bytes) (s : Storage) : Storage :=
  if should_cache ks then set_row_cache (f <$> st_row_cache s) s else s.
Lemma cached_engines ks f s : st_engines (cached ks f s) = st_engines s.
Proof. unfold cached. by case_match. Qed.
Lemma cached_sync ks f s : st_write_sync (cached ks f s) = st_write_sync s.
Proof. unfold cached. by case_match. Qed.
Lemma engines_ok_cached ks f s : engines_ok s -> engines_ok (cached ks f s).
Proof. unfold engines_ok, dbs_len. by rewrite cached_engines. Qed.

Lemma cache_lookup_cached ks key ks' f s :
  cache_lookup ks key (cached ks' f s)
  = if should_cache ks && should_cache ks' then (f <$> st_row_cache s) ≫= fun c => c !! key
    else cache_lookup ks key s.
Proof. unfold cache_lookup, cached. by destruct (should_cache ks), (should_cache ks'). Qed.

(** One queued row operation: its engine receives it, the cache is updated. *)
Lemma row_op_spec s ks tb parts f op : engines_ok s -> carries op ->
  exists e e', let i := row_engine ks tb parts s in
    st_engines s !! i = Some e /\ engine_ok e /\ send e op = Ok (e', e_next e) /\
    (on_cache ks f;; write_data_op ks tb parts op) s
    = (with_engine i e' (cached ks f s), Ok (Some (i, e_next e))).
Proof.
  intros Hs Hop. destruct (engine_at s (row_engine ks tb parts s)) as (e & He & Hok);
    [done|by apply row_engine_lt|].
  destruct (engine_send_eq (cached ks f s) (row_engine ks tb parts s) e op) as (e' & Hsend & _ & Heq);
    [by rewrite cached_engines|done|done|].
  exists e, e'. split; [done|]. split; [done|]. split; [done|].
  unfold on_cache. rewrite (st_bind_eq _ _ s (cached ks f s) ()) by done.
  unfold write_data_op. rewrite (st_bind_eq _ _ _ (cached ks f s) (row_engine ks tb parts s)); [done|].
  unfold gets, row_engine, dbs_len. by rewrite cached_engines.
Qed.

Lemma thread_step_inv i l s s' : thread_step i l s = Some s' ->
  exists e e', st_engines s !! i = Some e /\ pipe_step (st_write_sync s) l e = Some e' /\
    s' = with_engine i e' s.
Proof.
  unfold thread_step. intros (e & He & (e' & He' & [= <-])%bind_Some)%bind_Some.
  by exists e, e'.
Qed.

(** What the database access of a read finds. *)
Lemma row_fetch_eq s ks tb parts e : engine_ok e -> st_engines s !! row_engine ks tb parts s = Some e ->
  row_fetch ks tb parts s = (s, Ok (db_view (e_db e) !! row_key ks tb parts)).
Proof.
  intros Hok He. unfold row_fetch. rewrite (st_bind_eq _ _ s s (row_engine ks tb parts s)) by done.
  rewrite (engine_get_eq _ _ _ _ He), db_get_ok by apply Hok. done.
Qed.

(** What a read does to the state: nothing, or it remembers the value. *)
Lemma get_row_spec s ks tb parts : engines_ok s ->
  let key := row_key ks tb parts in
  exists e, st_engines s !! row_engine ks tb parts s = Some e /\ engine_ok e /\
  get_row ks tb parts s =
    match cache_lookup ks key s with
    | Some v => (s, Ok (Some v))
    | None => match db_view (e_db e) !! key with
              | Some v => (cached ks <[key := v]> s, Ok (Some v))
              | None => (s, Ok None)
              end
    end.
Proof.
  intros Hs key. destruct (engine_at s (row_engine ks tb parts s)) as (e & He & Hok);
    [done|by apply row_engine_lt|].
  exists e. split; [done|]. split; [done|]. unfold get_row.
  rewrite (st_bind_eq _ _ s s (cache_lookup ks key s)) by done.
  destruct (cache_lookup ks key s); [done|].
  rewrite (st_bind_eq _ _ _ _ _ (row_fetch_eq _ _ _ _ _ Hok He)). fold key.
  by destruct (db_view (e_db e) !! key).
Qed.

(** ** Quiescence *)

Definition thread (s s' : Storage) : Prop := exists i l, thread_step i l s = Some s'.

Lemma drain_thread s i e fuel : st_engines s !! i = Some e ->
  rtc thread s (with_engine i (drain (st_write_sync s) fuel e) s).
Proof.
  revert s e. induction fuel as [|f IH]; intros s e He; cbn [drain];
    [unfold with_engine; by rewrite set_engines_same|].
  destruct (next_label e ≫= _) as [e'|] eqn:Hl;
    [|unfold with_engine; by rewrite set_engines_same].
  apply bind_Some in Hl as (l & _ & Hl).
  assert (Ht : thread_step i l s = Some (with_engine i e' s)).
  { unfold thread_step. rewrite He. cbn. by rewrite Hl. }
  eapply rtc_l; [exists i, l; exact Ht|].
  specialize (IH (with_engine i e' s) e'). unfold with_engine, set_engines in *. cbn in IH.
  rewrite list_insert_insert_eq in IH. apply IH, list_lookup_insert_eq. by eapply lookup_lt_Some.
Qed.

Lemma quiesce_thread s : rtc thread s (quiesce s).
Proof.
  set (d := fun e : Engine => drain (st_write_sync s) (work e) e).
  assert (Hk : forall l2 l1, st_engines s = l1 ++ l2 ->
    rtc thread (set_engines ((d <$> l1) ++ l2) s) (quiesce s)).
  { induction l2 as [|e l2 IH]; intros l1 Hl.
    - rewrite app_nil_r in Hl. unfold quiesce. by rewrite Hl, app_nil_r.
    - specialize (IH (l1 ++ [e])). rewrite <-app_assoc in IH. specialize (IH Hl).
      etrans; [|exact IH].
      pose proof (drain_thread (set_engines ((d <$> l1) ++ e :: l2) s) (length l1) e (work e)) as Hd.
      rewrite fmap_app, <-app_assoc. unfold with_engine, set_engines in Hd. cbn in Hd.
      rewrite list_lookup_middle, insert_app_r_alt in Hd by (by rewrite length_fmap).
      rewrite length_fmap, Nat.sub_diag in Hd. by apply Hd. }
  specialize (Hk (st_engines s) [] eq_refl). cbn in Hk.
  by replace (set_engines (st_engines s) s) with s in Hk by (by destruct s).
Qed.

Lemma drained_ok sync e : engine_ok e ->
  engine_ok (drain sync (work e) e) /\ idle (drain sync (work e) e) /\
  logical (drain sync (work e) e) = logical e /\ e_next (drain sync (work e) e) = e_next e.
Proof.
  intros He. split; [|split; [by apply drain_idle|]].
  - apply drain_inv; [|done]. intros l e1 e2. apply engine_ok_step.
  - apply (drain_inv (fun e' => engine_ok e' /\ logical e' = logical e /\ e_next e' = e_next e)); [|done].
    intros l e1 e2 (Hok & Hl & Hn) Hs. split; [by eapply engine_ok_step|].
    rewrite (proj1 (pipe_step_next _ _ _ _ Hs)). split; [|done].
    rewrite <-Hl. eapply pipe_step_logical; [apply Hok|done].
Qed.

(** A ticket some earlier write returned. *)
Definition issued (s : Storage) (t : WriteTicket) : Prop :=
  match t with
  | Some (i, n) => exists e, st_engines s !! i = Some e /\ n < e_next e
  | None => True
  end.

(** The tickets issued so far are completed once the threads have run dry. *)
Lemma quiesce_settled s tickets : engines_ok s -> Forall (issued s) tickets -> settled (quiesce s) tickets = true.
Proof.
  intros [_ Hs] Ht. apply forallb_Forall. eapply Forall_impl; [exact Ht|]. intros [[i n]|] Hi; [|done].
  destruct Hi as (e & He & Hn). cbn. rewrite list_lookup_fmap, He. cbn.
  apply bool_decide_eq_true. destruct (drained_ok (st_write_sync s) e) as (Hok & Hid & _ & Hnx);
    [by eapply Forall_lookup_1|]. apply (idle_done _ _ Hok Hid). by rewrite Hnx.
Qed.
Lemma quiesce_done s t : engines_ok s -> issued s t -> ticket_done (quiesce s) t = true.
Proof.
  intros Hs Ht. pose proof (quiesce_settled s [t] Hs (Forall_cons_2 _ _ _ Ht (Forall_nil_2 _))) as Hq.
  cbn in Hq. by rewrite andb_true_r in Hq.
Qed.
(** A queued row operation is accepted, and its ticket was issued. *)
Lemma row_op_issued s ks tb parts f op : engines_ok s -> carries op ->
  exists s1 t, (on_cache ks f;; write_data_op ks tb parts op) s = (s1, Ok t) /\ engines_ok s1 /\ issued s1 t.
Proof.
  intros Hs Hop. destruct (row_op_spec s ks tb parts f op Hs Hop) as (e & e' & He & Hok & Hsend & Heq).
  eexists _, _. split; [exact Heq|]. split.
  - apply engines_ok_with; [by apply engines_ok_cached|by eapply engine_ok_send].
  - exists e'. split.
    + apply list_lookup_insert_eq. rewrite cached_engines. by eapply lookup_lt_Some.
    + apply send_spec in Hsend as (_ & _ & _ & _ & -> & _). lia.
Qed.

(** C28: waiting ends.  From every state the pipeline threads can run until
    every ticket handed out so far is completed, without losing an operation:
    [settle] never waits for ever on a working database, and the state it can
    come to has the logical contents committed on every engine. *)
Theorem settle_completes s tickets :
  engines_ok s -> Forall (issued s) tickets ->
  rtc thread s (quiesce s) /\ settled (quiesce s) tickets = true /\
  Forall2 (fun e e' => db_view (e_db e') = logical e) (st_engines s) (st_engines (quiesce s)).
Proof.
  intros [Hn Hs] Ht. split; [apply quiesce_thread|]. split; [by apply quiesce_settled|].
  cbn. apply Forall2_fmap_r, Forall_Forall2_diag. eapply Forall_impl; [exact Hs|].
  intros e He. destruct (drained_ok (st_write_sync s) e He) as (_ & Hi & <- & _).
  unfold logical. by rewrite (proj1 (idle_pending _ Hi)).
Qed.

End rows.

(** ** A concrete storage *)

(** A json codec that accepts nothing: the row operations do not use it. *)
Definition no_json : Json :=
  {| ks_to_vec _ := Err []; ks_from_slice _ := Err []; tb_to_vec _ := Err [];
     tb_from_slice _ := Err [] |}.

(** Two engines, an empty row cache, one committed row [ks.t[a] = 1]. *)
Definition demo_key : bytes := row_key (bs "ks") (bs "t") [bs "a"].
Definition demo_storage : @Storage mem_kv :=
  let e (d : gmap bytes bytes) := spawn_writer (H := mem_kv) d in
  {| st_engines := (fun i => e (if bool_decide (i = data_engine 2 (bs "ks") (bs "t") (bs "a"))
                                then {[demo_key := bs "1"]} else ∅)) <$> [0; 1];
     st_keyspaces := ∅; st_tables := ∅; st_ast_cache := ∅; st_write_sync := false;
     st_row_cache := Some ∅ |}.

Lemma demo_storage_ok : engines_ok (H0 := mem_kv_laws) demo_storage.
Proof.
  split; [cbn; lia|]. repeat (apply Forall_cons; split; [by apply engine_ok_spawn|]).
  apply Forall_nil_2.
Qed.

Lemma settle_completes_witness :
  exists s1 t, put_row (bs "ks") (bs "t") [bs "b"] (bs "2") demo_storage = (s1, Ok t) /\
    settled (quiesce s1) [t; None] = true.
Proof.
  destruct (row_op_issued (H0 := mem_kv_laws) demo_storage (bs "ks") (bs "t") [bs "b"]
    <[row_key (bs "ks") (bs "t") [bs "b"] := bs "2"]>
    (Put (row_key (bs "ks") (bs "t") [bs "b"]) (bs "2"))) as (s1 & t & Heq & Hs1 & Ht);
    [apply demo_storage_ok|done|].
  exists s1, t. split; [exact Heq|].
  apply (settle_completes (H0 := mem_kv_laws) s1 [t; None] Hs1).
  repeat apply Forall_cons_2; [exact Ht|exact I|apply Forall_nil_2].
Defined.

(** The row cache can resurrect a deleted row.  A read that falls between
    the enqueuing of a delete and its commit misses the cache, finds the old
    value in the database and puts it back into the cache; the delete then
    commits and is acknowledged, the row is gone from the database, and every
    later point read still returns it. *)
Theorem deleted_row_resurrected :
  let s1 := fst (delete_row (bs "ks") (bs "t") [bs "a"] demo_storage) in
  let t := snd (delete_row (bs "ks") (bs "t") [bs "a"] demo_storage) in
  let s2 := fst (get_row (bs "ks") (bs "t") [bs "a"] s1) in
  let s3 := quiesce s2 in
  (ts ← t; Ok (settled s3 [ts])) = Ok true /\
  scan_rows s3 (bs "ks") (bs "t") = Ok [] /\
  snd (get_row (bs "ks") (bs "t") [bs "a"] s3) = Ok (Some (bs "1")).
Proof. repeat split; vm_compute; reflexivity. Qed.

(** A read that overlaps a write can undo it in the cache.  [get_row] misses the
    cache and finds the old value in the database; then the row is written, the
    write is committed and acknowledged; then the read does its last act and puts
    the old value into the cache.  The database has the new value, and every
    later point read returns the old one. *)
Theorem racing_read_stale :
  let old := snd (row_fetch (bs "ks") (bs "t") [bs "a"] demo_storage) in
  let s1 := fst (put_row (bs "ks") (bs "t") [bs "a"] (bs "2") demo_storage) in
  let t := snd (put_row (bs "ks") (bs "t") [bs "a"] (bs "2") demo_storage) in
  let s2 := quiesce s1 in
  let s3 := fst (row_fill (bs "ks") (bs "t") [bs "a"] (Some (bs "1")) s2) in
  cache_lookup (bs "ks") demo_key demo_storage = None /\ old = Ok (Some (bs "1")) /\
  (ts ← t; Ok (settled s2 [ts])) = Ok true /\
  snd (get_row (bs "ks") (bs "t") [bs "a"] s2) = Ok (Some (bs "2")) /\
  scan_rows s3 (bs "ks") (bs "t") = Ok [(demo_key, bs "2")] /\
  snd (get_row (bs "ks") (bs "t") [bs "a"] s3) = Ok (Some (bs "1")).
Proof. repeat split; vm_compute; reflexivity. Qed.

(** So can a TRUNCATE of an unrelated table: it empties the whole row cache, so
    that a read of a row whose write is still queued goes to the database, and
    what it finds there outlives the write. *)
Theorem cleared_cache_stale :
  let s1 := fst (put_row (bs "ks") (bs "t") [bs "a"] (bs "2") demo_storage) in
  let t := snd (put_row (bs "ks") (bs "t") [bs "a"] (bs "2") demo_storage) in
  let s2 := fst (truncate_table (bs "ks") (bs "u") s1) in
  let s3 := quiesce (fst (get_row (bs "ks") (bs "t") [bs "a"] s2)) in
  (ts ← t; Ok (settled s3 [ts])) = Ok true /\
  scan_rows s3 (bs "ks") (bs "t") = Ok [(demo_key, bs "2")] /\
  snd (get_row (bs "ks") (bs "t") [bs "a"] s3) = Ok (Some (bs "1")).
Proof. repeat split; vm_compute; reflexivity. Qed.
