(* ===== verification/Scans.v ===== *)
(** * Scans and range deletes

    Theorems about [scan_partition], [scan_rows] and [truncate_table]: a scan
    returns exactly the committed rows under its prefix, in key order on each
    engine, and a range delete reaches every engine.  What a completed TRUNCATE
    leaves is in [Acked]. *)

From S2P Require Import Prelude RustStr Ast Schema CqlValue Keys Kv Pipeline Storage Rows.

(** A key between a prefix and an extension of it extends it. *)
Lemma between_prefix p k k' :
  bytes_le p k -> bytes_le k k' -> p `prefix_of` k' -> p `prefix_of` k.
Proof.
  unfold bytes_le, bytes_leb. rewrite !negb_true_iff. intros Hp Hk [r ->]. revert k Hp Hk.
  induction p as [|x p IH]; intros [|y k]; cbn [app bytes_ltb]; try done.
  - intros _ _. apply prefix_nil.
  - rewrite !orb_false_iff, !andb_false_iff, !Z.ltb_ge, !Z.eqb_neq. intros [H1 H2] [H3 H4].
    assert (x = y) as -> by (apply byte_to_Z_inj; lia). apply prefix_cons, IH.
    + by destruct H2.
    + by destruct H4.
Qed.

Lemma filter_none {A} (P : A -> Prop) `{!forall x, Decision (P x)} l :
  Forall (fun x => ~ P x) l -> filter P l = [].
Proof. induction 1 as [|x l Hx Hl IH]; [done|]. by rewrite filter_cons_False. Qed.

Lemma elem_of_concat {A} (x : A) ls : x ∈ concat ls <-> exists l, x ∈ l /\ l ∈ ls.
Proof.
  induction ls as [|l ls IH]; cbn; split.
  - by intros ?%not_elem_of_nil.
  - by intros (l & _ & ?%not_elem_of_nil).
  - intros [Hx|Hx]%elem_of_app; [exists l; split; [done|by left]|].
    apply IH in Hx as (l' & Hx & Hl). exists l'. split; [done|by right].
  - intros (l' & Hx & [->|Hl]%elem_of_cons); apply elem_of_app; [by left|right].
    apply IH. by exists l'.
Qed.

(** Whatever the callback, a scan of sorted entries is a scan of those under the
    prefix. *)
Lemma each_item_filter {A} p (f : A -> bytes -> bytes -> A * res str bool) a l :
  StronglySorted key_le l -> Forall (fun kv => bytes_le p (fst kv)) l ->
  each_item p f a (Ok <$> l)
  = each_item p f a (Ok <$> filter (fun kv => starts_with (fst kv) p = true) l).
Proof.
  intros Hs. revert a. induction Hs as [|[k v] l Hs IH Hle]; intros a Hp; [done|].
  apply Forall_cons in Hp as [Hk Hp]. cbn [fmap list_fmap each_item].
  destruct (starts_with k p) eqn:E; cbn [negb].
  - rewrite filter_cons_True by done. cbn [fmap list_fmap each_item]. rewrite E. cbn [negb].
    destruct (f a k v) as [a' [[]|e|]]; [by apply IH|done..].
  - rewrite filter_cons_False by (cbn; congruence). rewrite (filter_none _ l); [done|].
    rewrite Forall_forall in *. intros [k' v'] Hin. cbn. rewrite starts_with_true. intros Hpre.
    apply not_true_iff_false in E. apply E, starts_with_true.
    eapply between_prefix; [exact Hk| |exact Hpre]. by apply (Hle (k', v')).
Qed.

Section scans.
Context `{KVLaws} `{Json}.

(** The committed entries of an engine under a prefix. *)
Definition under (p : bytes) (e : Engine) : list (bytes * bytes) :=
  filter (fun kv => starts_with (fst kv) p = true) (sorted_from p (db_view (e_db e))).

Lemma elem_of_under p e k v :
  (k, v) ∈ under p e <-> db_view (e_db e) !! k = Some v /\ starts_with k p = true.
Proof.
  unfold under. rewrite list_elem_of_filter, elem_of_sorted_from. cbn. split; [tauto|].
  intros [Hv Hp]. repeat split; [done|done|]. by apply prefix_bytes_le, starts_with_true.
Qed.

Lemma StronglySorted_filter {A} (R : A -> A -> Prop) (P : A -> Prop) `{!forall x, Decision (P x)} l :
  StronglySorted R l -> StronglySorted R (filter P l).
Proof.
  induction 1 as [|a l Hs IH Hf]; [rewrite filter_nil; constructor|].
  rewrite filter_cons. case_decide; [|done]. constructor; [done|].
  rewrite Forall_forall in *. intros x [_ Hx]%list_elem_of_filter. by apply Hf.
Qed.

Lemma under_sorted p e : StronglySorted key_le (under p e).
Proof. apply StronglySorted_filter, sorted_from_sorted. Qed.
Lemma under_NoDup p e : NoDup (fst <$> under p e).
Proof.
  eapply sublist_NoDup; [apply (NoDup_sorted_from p (db_view (e_db e)))|].
  apply fmap_sublist, sublist_filter.
Qed.

Lemma items_from p e : db_ok (e_db e) ->
  db_iter (e_db e) p = Ok <$> sorted_from p (db_view (e_db e)) /\
  Forall (fun kv => bytes_le p (fst kv)) (sorted_from p (db_view (e_db e))).
Proof.
  intros Hd. split; [by apply db_iter_ok|]. apply Forall_forall. intros [k v] Hin.
  by apply elem_of_sorted_from in Hin as [_ ?].
Qed.

Lemma engine_items {A} s i e p (f : A -> bytes -> bytes -> A * res str bool) a :
  st_engines s !! i = Some e -> engine_ok e ->
  for_each_on_engine s i p f a = each_item p f a (Ok <$> under p e).
Proof.
  intros He [Hd _]. unfold for_each_on_engine. rewrite He.
  destruct (items_from p e Hd) as [-> Hf]. by apply each_item_filter; [apply sorted_from_sorted|].
Qed.

Lemma under_prefix p e : Forall (fun kv => starts_with (fst kv) p = true) (under p e).
Proof. apply Forall_forall. intros [k v] Hin. by apply elem_of_under in Hin as [_ ?]. Qed.

Lemma each_item_push p l out : Forall (fun kv => starts_with (fst kv) p = true) l ->
  each_item p push_entry out (Ok <$> l) = (out ++ l, Ok ()).
Proof.
  intros Hp. revert out. induction Hp as [|[k v] l Hk Hp IH]; intros out; cbn [fmap list_fmap each_item].
  - by rewrite app_nil_r.
  - cbn in Hk. rewrite Hk. cbn [negb push_entry]. by rewrite IH, <-app_assoc.
Qed.

Lemma engine_scan s i e p out : st_engines s !! i = Some e -> engine_ok e ->
  for_each_on_engine s i p push_entry out = (out ++ under p e, Ok ()).
Proof.
  intros He Hok. rewrite (engine_items _ _ _ _ _ _ He Hok). apply each_item_push, under_prefix.
Qed.

(** The loop over engines with a collecting callback. *)
Lemma each_item_flagged p l out :
  each_item p (fun '(a, _) k v => match push_entry a k v with
                                  | (a', Ok c) => ((a', negb c), Ok c)
                                  | (a', o) => ((a', false), o)
                                  end) (out, false) (Ok <$> l)
  = let r := each_item p push_entry out (Ok <$> l) in ((fst r, false), snd r).
Proof.
  revert out. induction l as [|[k v] l IH]; intros out; cbn [fmap list_fmap each_item]; [done|].
  destruct (starts_with k p); cbn [negb]; [|done]. cbn [push_entry negb]. by rewrite IH.
Qed.

Lemma table_scan s p engines out : engines_ok s -> Forall (fun i => i < dbs_len s) engines ->
  exists es, Forall2 (fun i e => st_engines s !! i = Some e) engines es /\
    each_engine s p push_entry engines out = (out ++ concat (under p <$> es), Ok ()).
Proof.
  intros Hs Hf. revert out. induction Hf as [|i engines Hi Hf IH]; intros out.
  - exists []. split; [done|]. cbn. by rewrite app_nil_r.
  - destruct (engine_at s i Hs Hi) as (e & He & Hok).
    destruct (IH (out ++ under p e)) as (es & Hes & Heq). exists (e :: es). split; [by constructor|].
    cbn [each_engine]. rewrite (engine_items _ _ _ _ _ _ He Hok), each_item_flagged.
    rewrite each_item_push by apply under_prefix. cbn. by rewrite Heq, app_assoc.
Qed.

Lemma engines_seq (l es : list Engine) k :
  Forall2 (fun i e => l !! (i - k) = Some e) (seq k (length l)) es -> es = l.
Proof.
  revert es k. induction l as [|e l IH]; intros es k; cbn; [by inversion 1|].
  inversion 1 as [|? e' ? es' He Hes]; subst. rewrite Nat.sub_diag in He. injection He as <-.
  f_equal. apply (IH _ (S k)). rewrite Forall2_lookup in *. intros j. specialize (Hes j).
  destruct (seq (S k) (length l) !! j) as [x|] eqn:Hx; [|by inversion Hes; constructor].
  inversion Hes as [? y Hy|]; subst. constructor. apply lookup_seq in Hx as [-> _].
  by replace (S k + j - k) with (S (S k + j - S k)) in Hy by lia.
Qed.

Lemma scan_rows_eq s ks tb : engines_ok s ->
  scan_rows s ks tb = Ok (concat (under (data_prefix ks tb) <$> st_engines s)).
Proof.
  intros Hs. unfold scan_rows, for_each_in_table, dbs_len.
  destruct (table_scan s (data_prefix ks tb) (seq 0 (length (st_engines s))) []) as (es & Hes & ->);
    [done| |].
  - apply Forall_forall. intros i Hi. apply elem_of_seq in Hi. unfold dbs_len. lia.
  - cbn. do 3 f_equal. apply (engines_seq _ _ 0). eapply Forall2_impl; [exact Hes|]. cbn.
    intros i e. by rewrite Nat.sub_0_r.
Qed.

Lemma scan_partition_eq s ks tb pk : engines_ok s ->
  exists e, st_engines s !! row_engine ks tb pk s = Some e /\ engine_ok e /\
    scan_partition s ks tb pk = Ok (under (data_prefix ks tb ++ encode_key pk) e).
Proof.
  intros Hs. destruct (engine_at s (row_engine ks tb pk s)) as (e & He & Hok);
    [done|by apply row_engine_lt|].
  exists e. split; [done|]. split; [done|]. unfold scan_partition, for_each_in_partition.
  by rewrite (engine_scan s (row_engine ks tb pk s) e) by done.
Qed.

(** The committed value of a row: what its engine's database holds. *)
Definition committed (s : Storage) (ks tb : str) (parts : list bytes) : option bytes :=
  e ← st_engines s !! row_engine ks tb parts s; db_view (e_db e) !! row_key ks tb parts.

(** C24: a partition scan is exact.  It never fails on a working database, its
    rows are distinct and in key order, and the row [(ks', tb', parts)] is in
    the result with value [v] exactly when it belongs to the table, its key
    starts with the partition key, and [v] is its committed value. *)
Theorem scan_partition_exact s ks tb pk :
  engines_ok s -> no_bang ks -> no_bang tb -> Forall short pk -> pk <> [] ->
  exists l, scan_partition s ks tb pk = Ok l /\ StronglySorted key_le l /\ NoDup (fst <$> l) /\
    forall ks' tb' parts v, no_bang ks' -> no_bang tb' -> Forall short parts ->
      (row_key ks' tb' parts, v) ∈ l <->
      ks = ks' /\ tb = tb' /\ pk `prefix_of` parts /\ committed s ks' tb' parts = Some v.
Proof.
  intros Hs Hks Htb Hpk Hne. destruct (scan_partition_eq s ks tb pk Hs) as (e & He & Hok & ->).
  eexists. split; [done|]. split; [apply under_sorted|]. split; [apply under_NoDup|].
  intros ks' tb' parts v Hks' Htb' Hparts. rewrite elem_of_under.
  rewrite (prefix_isolation ks tb pk ks' tb' parts) by done.
  assert (Hsame : pk `prefix_of` parts -> row_engine ks tb parts s = row_engine ks tb pk s).
  { intros [r ->]. destruct pk; [done|]. done. }
  unfold committed. split.
  - intros (Hv & -> & -> & Hpre). by rewrite Hsame, He by done.
  - intros (-> & -> & Hpre & Hv). rewrite Hsame, He in Hv by done. done.
Qed.

(** C8: a table scan is exact.  It never fails on a working database and visits
    every engine in turn: the result is one list per engine, each in key order and
    without repetitions, holding committed entries of that engine only; and the
    row [(ks', tb', parts)] is in it with value [v] exactly when it is a row of
    the table and [v] is what that engine holds for it. *)
Theorem scan_rows_exact s ks tb :
  engines_ok s -> no_bang ks -> no_bang tb ->
  exists ls, scan_rows s ks tb = Ok (concat ls) /\
    Forall2 (fun e l => StronglySorted key_le l /\ NoDup (fst <$> l) /\
      (forall k v, (k, v) ∈ l -> db_view (e_db e) !! k = Some v) /\
      forall ks' tb' parts v, no_bang ks' -> no_bang tb' -> Forall short parts ->
        (row_key ks' tb' parts, v) ∈ l <->
        ks = ks' /\ tb = tb' /\ db_view (e_db e) !! row_key ks' tb' parts = Some v) (st_engines s) ls.
Proof.
  intros Hs Hks Htb. eexists. split; [by apply scan_rows_eq|].
  apply Forall2_fmap_r, Forall_Forall2_diag, Forall_true. intros e.
  split; [apply under_sorted|]. split; [apply under_NoDup|]. split.
  - intros k v Hin. by apply elem_of_under in Hin as [? _].
  - intros ks' tb' parts v Hks' Htb' Hparts. rewrite elem_of_under.
    pose proof (prefix_isolation ks tb [] ks' tb' parts Hks Hks' Htb Htb' (Forall_nil_2 _) Hparts) as Hiso.
    change (encode_key []) with (@nil byte) in Hiso. rewrite app_nil_r in Hiso. rewrite Hiso.
    pose proof (prefix_nil parts). tauto.
Qed.

(** ** Range deletes *)

(** One operation for every engine. *)
Lemma send_all op l2 l1 s : carries op -> st_engines s = l1 ++ l2 -> Forall engine_ok l2 ->
  exists l2', Forall2 (fun e e' => send e op = Ok (e', e_next e)) l2 l2' /\
    map_st (fun i => engine_send i op) (seq (length l1) (length l2)) s
    = (set_engines (l1 ++ l2') s,
       Ok (zip_with (fun i e => Some (i, e_next e)) (seq (length l1) (length l2)) l2)).
Proof.
  intros Hop. revert l1 s. induction l2 as [|e l2 IH]; intros l1 s Hl Hf; cbn [length seq map_st].
  - exists []. split; [done|]. cbn. unfold mret, st_ret. f_equal. rewrite <-Hl. by destruct s.
  - apply Forall_cons in Hf as [He Hf].
    destruct (engine_send_eq s (length l1) e op) as (e' & Hse & He' & Heq);
      [by rewrite Hl, list_lookup_middle|done|done|].
    destruct (IH (l1 ++ [e']) (with_engine (length l1) e' s)) as (l2' & Hl2 & Hm); [|done|].
    { unfold with_engine. cbn. rewrite Hl, insert_app_r_alt, Nat.sub_diag by done.
      cbn. by rewrite <-app_assoc. }
    exists (e' :: l2'). split; [by constructor|]. rewrite (st_bind_eq _ _ _ _ _ Heq).
    rewrite length_app, Nat.add_1_r in Hm. rewrite (st_bind_eq _ _ _ _ _ Hm).
    unfold mret, st_ret. cbn. f_equal. unfold set_engines, with_engine. cbn.
    by rewrite <-app_assoc.
Qed.

(** The threads keep the engines working, and their logical contents. *)
Definition same_work (e e' : Engine) : Prop :=
  engine_ok e' /\ logical e' = logical e /\ e_next e' = e_next e.

Lemma thread_same s s' l0 :
  Forall2 same_work l0 (st_engines s) -> rtc thread s s' -> Forall2 same_work l0 (st_engines s').
Proof.
  intros Hf Hr. induction Hr as [|s s1 s2 (i & l & Ht) Hr IH]; [done|]. apply IH.
  apply thread_step_inv in Ht as (e & e' & He & Hp & ->).
  destruct (Forall2_lookup_r _ _ _ _ _ Hf He) as (e0 & He0 & Hok & Hlog & Hn).
  cbn. rewrite <-(list_insert_id l0 i e0 He0). apply Forall2_insert; [done|].
  split; [by eapply engine_ok_step|]. rewrite <-Hlog, <-Hn.
  split; [eapply pipe_step_logical; [apply Hok|done]|by apply pipe_step_next in Hp as [? _]].
Qed.

(** An engine whose last ticket is completed has nothing pending. *)
Lemma last_done e t : engine_ok e -> e_next e = S t -> t ∈ e_done e -> pend_ops e = [].
Proof.
  intros (_ & _ & Hb & m & k & (Hk & _ & Hp & Hd)) Hn Ht%Hd.
  apply length_zero_iff_nil. rewrite length_pend, Hp, length_fmap, length_seq by done. lia.
Qed.

Lemma data_prefix_range ks tb :
  exists e, prefix_upper_bound (data_prefix ks tb) = Some e /\
    forall k, in_key_range (data_prefix ks tb) e k = starts_with k (data_prefix ks tb).
Proof.
  set (q := DT_PREFIX ++ ks ++ bang ++ tb).
  assert (data_prefix ks tb = q ++ [Byte.x21]) as ->
    by (unfold data_prefix, q; by rewrite <-!app_assoc).
  destruct (prefix_range q Byte.x21 [] eq_refl) as (e & He & _). exists e. split; [done|].
  intros k. destruct (prefix_range q Byte.x21 k eq_refl) as (e' & He' & Hk).
  rewrite He in He'. by injection He' as <-.
Qed.

Lemma delete_data_prefix_spec s p e : engines_ok s ->
  prefix_upper_bound p = Some e -> starts_with p DT_PREFIX = true ->
  exists l', Forall2 (fun a a' => send a (DeleteRange p e) = Ok (a', e_next a)) (st_engines s) l' /\
    delete_data_prefix p s
    = (set_row_cache (const ∅ <$> st_row_cache s) (set_engines l' s),
       Ok (zip_with (fun i e => Some (i, e_next e)) (seq 0 (dbs_len s)) (st_engines s))).
Proof.
  intros Hs He Hdt.
  destruct (send_all (DeleteRange p e) (st_engines s) [] s) as (l' & Hl' & Hm);
    [done|done|apply Hs|].
  exists l'. split; [done|]. unfold delete_data_prefix.
  rewrite (st_bind_eq _ _ s s (dbs_len s)) by done. rewrite He.
  rewrite (st_bind_eq _ _ _ _ _ Hm). cbn [app].
  unfold modify. unfold mbind at 1, st_bind at 1. rewrite Hdt. cbn.
  destruct (st_row_cache s) eqn:Hc; [done|]. unfold mret, st_ret. f_equal.
  unfold set_row_cache, set_engines. cbn. by rewrite <-Hc.
Qed.

Lemma truncate_spec s ks tb : engines_ok s ->
  exists e l', prefix_upper_bound (data_prefix ks tb) = Some e /\
    Forall2 (fun a a' => send a (DeleteRange (data_prefix ks tb) e) = Ok (a', e_next a))
      (st_engines s) l' /\
    truncate_table ks tb s
    = (set_row_cache (const ∅ <$> st_row_cache s) (set_engines l' s),
       Ok (zip_with (fun i e => Some (i, e_next e)) (seq 0 (dbs_len s)) (st_engines s))).
Proof.
  intros Hs. destruct (data_prefix_range ks tb) as (e & He & _).
  destruct (delete_data_prefix_spec s (data_prefix ks tb) e) as (l' & Hl' & Heq);
    [done|done|apply starts_with_app|]. by exists e, l'.
Qed.

Lemma thread_cache s s' : rtc thread s s' -> st_row_cache s' = st_row_cache s.
Proof.
  induction 1 as [|s s1 s2 (i & l & Ht) Hr IH]; [done|].
  apply thread_step_inv in Ht as (e & e' & _ & _ & ->). done.
Qed.

(** The engines after one operation for each of them has settled. *)
Lemma settled_views s s2 l' op : engines_ok s -> carries op ->
  Forall2 (fun a a' => send a op = Ok (a', e_next a)) (st_engines s) l' ->
  Forall2 same_work l' (st_engines s2) ->
  settled s2 (zip_with (fun i e => Some (i, e_next e)) (seq 0 (dbs_len s)) (st_engines s)) = true ->
  Forall2 (fun e e2 => engine_ok e2 /\ db_view (e_db e2) = apply_op (logical e) (op_of (op None)))
    (st_engines s) (st_engines s2).
Proof.
  intros [_ Hs] Hop Hl' Hl2 Hset. apply forallb_Forall in Hset. rewrite Forall_lookup in Hset.
  apply Forall2_same_length_lookup_2.
  { rewrite (Forall2_length _ _ _ Hl'). by eapply Forall2_length. }
  intros i e e2 He He2. destruct (Forall2_lookup_l _ _ _ _ _ Hl' He) as (e' & He' & Hsend).
  destruct (Forall2_lookup_lr _ _ _ _ _ _ Hl2 He' He2) as (Hok & Hlog & Hn).
  assert (Ht : ticket_done s2 (Some (i, e_next e)) = true).
  { apply (Hset i). apply lookup_zip_with_Some. exists i, e. repeat split; [|done].
    apply lookup_seq. split; [done|]. by eapply lookup_lt_Some. }
  cbn in Ht. rewrite He2 in Ht. apply bool_decide_eq_true in Ht. split; [done|].
  rewrite <-(proj2 (Hop (Some (e_next e)))), <-(send_logical _ _ _ _ Hsend), <-Hlog.
  unfold logical. rewrite (last_done e2 (e_next e)); [done|done| |done].
  apply send_spec in Hsend as (_ & _ & _ & _ & Hnx & _). congruence.
Qed.

End scans.

Lemma scan_partition_exact_witness :
  exists l, scan_partition demo_storage (bs "ks") (bs "t") [bs "a"] = Ok l /\
    StronglySorted key_le l /\ (demo_key, bs "1") ∈ l.
Proof.
  destruct (scan_partition_exact (H0 := mem_kv_laws) demo_storage (bs "ks") (bs "t") [bs "a"])
    as (l & Hl & Hsort & _ & Hin).
  - apply demo_storage_ok.
  - by_compute.
  - by_compute.
  - by_compute.
  - done.
  - exists l. split; [exact Hl|]. split; [exact Hsort|].
    apply (Hin (bs "ks") (bs "t") [bs "a"] (bs "1")); [by_compute..|].
    split; [done|]. split; [done|]. split; [done|]. vm_compute. reflexivity.
Defined.

(** The row of [demo_storage] is found by a scan of its table. *)
Lemma scan_rows_exact_witness :
  exists ls, scan_rows demo_storage (bs "ks") (bs "t") = Ok (concat ls) /\ length ls = 2 /\
    (demo_key, bs "1") ∈ concat ls.
Proof.
  destruct (scan_rows_exact (H0 := mem_kv_laws) demo_storage (bs "ks") (bs "t")) as (ls & Hl & Hin);
    [apply demo_storage_ok|by_compute|by_compute|].
  exists ls. split; [exact Hl|]. split; [symmetry; exact (Forall2_length _ _ _ Hin)|].
  apply elem_of_concat.
  set (e := spawn_writer (H := mem_kv) ({[demo_key := bs "1"]} : gmap bytes bytes)).
  assert (He : st_engines demo_storage !! data_engine 2 (bs "ks") (bs "t") (bs "a") = Some e).
  { unfold demo_storage. cbn [st_engines].
    assert (Hd : data_engine 2 (bs "ks") (bs "t") (bs "a") < 2) by (by apply engine_of_lt; lia).
    rewrite list_lookup_fmap. destruct (data_engine 2 _ _ _) as [|[|n]]; [done|done|lia]. }
  destruct (Forall2_lookup_l _ _ _ _ _ Hin He) as (l & Hll & _ & _ & _ & Hrow).
  exists l. split; [|by eapply list_elem_of_lookup_2].
  apply (Hrow (bs "ks") (bs "t") [bs "a"] (bs "1")); [by_compute..|].
  split; [reflexivity|]. split; [reflexivity|]. exact (lookup_singleton_eq (M := gmap bytes) demo_key (bs "1")).
Defined.
