(* ===== verification/Catalog.v ===== *)
(** * The catalog: keyspaces and tables

    The schema operations of [Storage] keep two copies of every definition, a
    JSON document on engine 0 and an entry of an in-memory map, and range deletes
    of the first must agree with the removal of the second.  Abstractly they are
    two finite maps; [catalog_refines] is the refinement. *)

From S2P Require Import Prelude RustStr Ast Schema CqlValue Keys Kv Pipeline Storage Rows Scans.

#[local] Arguments ks_key : simpl never.
#[local] Arguments tb_key : simpl never.

(** ** The abstract catalog *)

Record Cat := { cat_ks : gmap str KeyspaceDef; cat_tb : gmap (str * str) TableDef }.

Inductive CatOp :=
| PutKs (d : KeyspaceDef)
| GetKs (name : str)
| DropKs (name : str)
| PutTb (d : TableDef)
| GetTb (keyspace table : str)
| DropTb (keyspace table : str).

Inductive CatRes := RUnit | RKs (o : option KeyspaceDef) | RTb (o : option TableDef).

Definition spec_op (op : CatOp) (c : Cat) : Cat * CatRes :=
  match op with
  | PutKs d => ({| cat_ks := <[ks_name d := d]> (cat_ks c); cat_tb := cat_tb c |}, RUnit)
  | GetKs name => (c, RKs (cat_ks c !! name))
  | DropKs name =>
    ({| cat_ks := base.delete name (cat_ks c);
        cat_tb := filter (fun e => fst (fst e) <> name) (cat_tb c) |}, RUnit)
  | PutTb d =>
    ({| cat_ks := cat_ks c; cat_tb := <[(td_keyspace d, td_name d) := d]> (cat_tb c) |}, RUnit)
  | GetTb ks tb => (c, RTb (cat_tb c !! (ks, tb)))
  | DropTb ks tb => ({| cat_ks := cat_ks c; cat_tb := base.delete (ks, tb) (cat_tb c) |}, RUnit)
  end.

(** Keyspace names must not contain the separator. *)
Definition op_clean (op : CatOp) : Prop :=
  match op with
  | PutKs d => no_bang (ks_name d)
  | GetKs name | DropKs name => no_bang name
  | PutTb d => no_bang (td_keyspace d)
  | GetTb ks _ | DropTb ks _ => no_bang ks
  end.

Section catalog.
Context `{KVLaws} `{JsonLaws}.

Definition exec_op (op : CatOp) : st Storage str CatRes :=
  match op with
  | PutKs d => put_keyspace d;; mret RUnit
  | GetKs name => o ← get_keyspace name; mret (RKs o)
  | DropKs name => _ ← delete_keyspace name; mret RUnit
  | PutTb d => put_table d;; mret RUnit
  | GetTb ks tb => o ← get_table ks tb; mret (RTb o)
  | DropTb ks tb => _ ← delete_table ks tb; mret RUnit
  end.

(** A stored document. *)
Definition stored {A} (from : bytes -> res str A) (o : option bytes) (d : option A) : Prop :=
  match d with
  | Some a => exists b, o = Some b /\ from b = Ok a
  | None => o = None
  end.

(** The queued operations of an engine concern rows only. *)
Definition rows_only (e : Engine) : Prop :=
  Forall (fun op => forall k, starts_with k DT_PREFIX = false -> touches op k = false) (pend_ops e).

(** The database of engine 0 holds the documents of the catalog. *)
Definition db_holds (m : gmap bytes bytes) (c : Cat) : Prop :=
  (forall name, no_bang name -> stored ks_from_slice (m !! ks_key name) (cat_ks c !! name)) /\
  (forall ks tb, no_bang ks -> stored tb_from_slice (m !! tb_key ks tb) (cat_tb c !! (ks, tb))).

Record represents (s : Storage) (c : Cat) : Prop := {
  rep_ok : engines_ok s;
  rep_db : exists e, st_engines s !! 0 = Some e /\ rows_only e /\ db_holds (db_view (e_db e)) c;
  rep_ks : forall name d, no_bang name -> st_keyspaces s !! name = Some d -> cat_ks c !! name = Some d;
  rep_tb : forall ks tb d, no_bang ks -> st_tables s !! (ks, tb) = Some d -> cat_tb c !! (ks, tb) = Some d;
}.

(** ** Keys *)

Lemma tb_key_inj ks tb ks' tb' : no_bang ks -> no_bang ks' ->
  tb_key ks tb = tb_key ks' tb' -> ks = ks' /\ tb = tb'.
Proof. intros H1' H2' Hk%app_inv_head. by apply bang_split_eq in Hk. Qed.
Lemma ks_key_inj a b : ks_key a = ks_key b -> a = b.
Proof. by intros Hk%app_inv_head. Qed.
Lemma ks_tb_ne name ks tb : ks_key name <> tb_key ks tb.
Proof. done. Qed.

Lemma tb_prefix_iff ks ks' tb : no_bang ks -> no_bang ks' ->
  starts_with (tb_key ks' tb) (tb_prefix ks) = true <-> ks = ks'.
Proof.
  intros Hn Hn'. rewrite starts_with_true. unfold tb_key, tb_prefix. split.
  - intros Hp%prefix_app_inv. rewrite <-(app_nil_r bang) in Hp at 1.
    by apply bang_split in Hp as [-> _].
  - intros ->. rewrite !app_assoc. by apply prefix_app_r.
Qed.

Lemma tb_prefix_range ks :
  exists e, prefix_upper_bound (tb_prefix ks) = Some e /\
    forall k, in_key_range (tb_prefix ks) e k = starts_with k (tb_prefix ks).
Proof.
  assert (tb_prefix ks = (TB_PREFIX ++ ks) ++ [Byte.x21]) as ->
    by (unfold tb_prefix; by rewrite <-!app_assoc).
  destruct (prefix_range (TB_PREFIX ++ ks) Byte.x21 [] eq_refl) as (e & He & _). exists e.
  split; [done|]. intros k.
  destruct (prefix_range (TB_PREFIX ++ ks) Byte.x21 k eq_refl) as (e' & He' & Hk).
  rewrite He in He'. by injection He' as <-.
Qed.

Lemma dt_ks_prefix_range ks :
  exists e, prefix_upper_bound (dt_ks_prefix ks) = Some e /\
    forall k, in_key_range (dt_ks_prefix ks) e k = starts_with k (dt_ks_prefix ks).
Proof.
  assert (dt_ks_prefix ks = (DT_PREFIX ++ ks) ++ [Byte.x21]) as ->
    by (unfold dt_ks_prefix; by rewrite <-!app_assoc).
  destruct (prefix_range (DT_PREFIX ++ ks) Byte.x21 [] eq_refl) as (e & He & _). exists e.
  split; [done|]. intros k.
  destruct (prefix_range (DT_PREFIX ++ ks) Byte.x21 k eq_refl) as (e' & He' & Hk).
  rewrite He in He'. by injection He' as <-.
Qed.

(** ** The primitives on engine 0 *)

(** The engines work, and engine 0 holds [m] under queued row operations. *)
Definition meta (s : Storage) (m : gmap bytes bytes) : Prop :=
  engines_ok s /\ exists e, st_engines s !! 0 = Some e /\ rows_only e /\ db_view (e_db e) = m.
(** The in-memory maps agree. *)
Definition same_maps (s s' : Storage) : Prop :=
  st_keyspaces s' = st_keyspaces s /\ st_tables s' = st_tables s.

Lemma meta_write s m ops what : meta s m ->
  exists s', engine_write 0 ops what s = (s', Ok ()) /\ meta s' (apply_ops m ops) /\ same_maps s s'.
Proof.
  intros (Hs & e & He & Hr & Hm).
  destruct (engine_write_eq s 0 e ops what He) as (e' & Heq & He' & Hv & Hp);
    [eapply Forall_lookup_1; [apply Hs|done]|].
  exists (with_engine 0 e' s). split; [done|]. split; [|done]. split; [by apply engines_ok_with|].
  exists e'. cbn. split; [apply list_lookup_insert_eq; apply Hs|]. unfold rows_only. rewrite Hp, Hv, Hm.
  done.
Qed.

Lemma meta_get s m k : meta s m -> get k s = (s, Ok (m !! k)).
Proof.
  intros (Hs & e & He & Hr & <-). unfold get. rewrite (engine_get_eq _ _ _ _ He), db_get_ok; [done|].
  eapply (Forall_lookup_1 engine_ok); [apply Hs|done].
Qed.

Lemma meta_delete_prefix s m ks : meta s m ->
  exists s' e, delete_prefix (tb_prefix ks) s = (s', Ok ()) /\
    meta s' (apply_op m (BDeleteRange (tb_prefix ks) e)) /\ same_maps s s' /\
    forall k, in_key_range (tb_prefix ks) e k = starts_with k (tb_prefix ks).
Proof.
  intros Hm. destruct (tb_prefix_range ks) as (e & He & Hk).
  destruct (meta_write s m [BDeleteRange (tb_prefix ks) e] "rocksdb delete_range failed: " Hm)
    as (s' & Hw & Hm' & Hsame).
  exists s', e. unfold delete_prefix. by rewrite He.
Qed.

Lemma meta_delete_data s m p e : meta s m ->
  prefix_upper_bound p = Some e -> starts_with p DT_PREFIX = true ->
  (forall k, in_key_range p e k = starts_with k p) ->
  exists s' ts, delete_data_prefix p s = (s', Ok ts) /\ meta s' m /\ same_maps s s'.
Proof.
  intros (Hs & e0 & He0 & Hr & Hm) He Hdt Hk.
  destruct (delete_data_prefix_spec s p e Hs He Hdt) as (l' & Hl' & Heq).
  eexists _, _. split; [exact Heq|]. split; [|done].
  destruct (Forall2_lookup_l _ _ _ _ _ Hl' He0) as (e0' & He0' & Hsend). split; [split|].
  - unfold dbs_len. cbn. rewrite <-(Forall2_length _ _ _ Hl'). apply Hs.
  - cbn. apply Forall_lookup. intros i a' Ha'.
    destruct (Forall2_lookup_r _ _ _ _ _ Hl' Ha') as (a & Ha & Hsa).
    refine (engine_ok_send _ _ _ _ _ (carries_range _ _) Hsa). eapply Forall_lookup_1; [apply Hs|done].
  - exists e0'. split; [done|]. apply send_spec in Hsend as (Hdb & Hp & _).
    split; [|by rewrite Hdb]. unfold rows_only. rewrite Hp. apply Forall_app. split; [done|].
    apply Forall_singleton. intros k Hkd. cbn. rewrite Hk.
    apply not_true_iff_false. rewrite starts_with_true. intros Hpk.
    apply not_true_iff_false in Hkd. apply Hkd, starts_with_true.
    apply starts_with_true in Hdt. by etrans.
Qed.

Lemma represents_meta s c : represents s c ->
  exists m, meta s m /\ db_holds m c.
Proof. intros [Hs (e & He & Hr & Hd) _ _]. exists (db_view (e_db e)). split; [|done]. split; [done|]. by exists e. Qed.
Lemma meta_represents s m c : meta s m -> db_holds m c ->
  (forall name d, no_bang name -> st_keyspaces s !! name = Some d -> cat_ks c !! name = Some d) ->
  (forall ks tb d, no_bang ks -> st_tables s !! (ks, tb) = Some d -> cat_tb c !! (ks, tb) = Some d) ->
  represents s c.
Proof. intros (Hs & e & He & Hr & <-) Hd H1' H2'. split; [done| |done|done]. by exists e. Qed.

(** ** The operations *)

Lemma put_keyspace_refines s c d : represents s c -> no_bang (ks_name d) ->
  exists s', put_keyspace d s = (s', Ok ()) /\ represents s' (fst (spec_op (PutKs d) c)).
Proof.
  intros Hrep Hn. destruct (represents_meta s c Hrep) as (m & Hm & Hks & Htb).
  destruct (ks_json d) as (j & Hj & Hj'). unfold put_keyspace.
  rewrite (st_bind_eq _ _ s s j) by (unfold lift; by rewrite Hj).
  destruct (meta_write s m [BPut (ks_key (ks_name d)) j] "rocksdb put failed: " Hm) as (s1 & Hw & Hm1 & Hk1 & Ht1).
  unfold put. rewrite (st_bind_eq _ _ _ _ _ Hw).
  eexists. split; [reflexivity|]. eapply meta_represents; [exact Hm1| | |]; cbn.
  - split; cbn.
    + intros name Hname. destruct (decide (name = ks_name d)) as [->|Hne].
      * rewrite !lookup_insert_eq. by exists j.
      * rewrite !lookup_insert_ne; [by apply Hks|done|]. intros Hk%ks_key_inj. by apply Hne.
    + intros ks tb Hb. rewrite lookup_insert_ne by done. by apply Htb.
  - intros name d' Hb. rewrite Hk1, !lookup_insert. case_decide; [done|]. by apply Hrep.
  - intros ks tb d' Hb. rewrite Ht1. by apply Hrep.
Qed.

Lemma put_table_refines s c d : represents s c -> no_bang (td_keyspace d) ->
  exists s', put_table d s = (s', Ok ()) /\ represents s' (fst (spec_op (PutTb d) c)).
Proof.
  intros Hrep Hn. destruct (represents_meta s c Hrep) as (m & Hm & Hks & Htb).
  destruct (tb_json d) as (j & Hj & Hj'). unfold put_table.
  rewrite (st_bind_eq _ _ s s j) by (unfold lift; by rewrite Hj).
  destruct (meta_write s m [BPut (tb_key (td_keyspace d) (td_name d)) j] "rocksdb put failed: " Hm)
    as (s1 & Hw & Hm1 & Hk1 & Ht1).
  unfold put. rewrite (st_bind_eq _ _ _ _ _ Hw).
  eexists. split; [reflexivity|]. eapply meta_represents; [exact Hm1| | |]; cbn.
  - split; cbn.
    + intros name Hb. rewrite lookup_insert_ne by done. by apply Hks.
    + intros ks tb Hb. destruct (decide ((ks, tb) = (td_keyspace d, td_name d))) as [[= -> ->]|Hne].
      * rewrite !lookup_insert_eq. by exists j.
      * rewrite !lookup_insert_ne; [by apply Htb|done|].
        intros Hk. apply tb_key_inj in Hk as [? ?]; [congruence|done..].
  - intros name d' Hb. rewrite Hk1. by apply Hrep.
  - intros ks tb d' Hb. rewrite Ht1, !lookup_insert. case_decide; [done|]. by apply Hrep.
Qed.

Lemma get_keyspace_refines s c name : represents s c -> no_bang name ->
  exists s', get_keyspace name s = (s', Ok (cat_ks c !! name)) /\ represents s' c.
Proof.
  intros Hrep Hn. unfold get_keyspace.
  rewrite (st_bind_eq _ _ s s (st_keyspaces s !! name)) by done.
  destruct (st_keyspaces s !! name) as [d|] eqn:Hc.
  { exists s. by rewrite (rep_ks _ _ Hrep _ _ Hn Hc). }
  destruct (represents_meta s c Hrep) as (m & Hm & Hks & Htb).
  rewrite (st_bind_eq _ _ _ _ _ (meta_get _ _ _ Hm)). specialize (Hks name Hn) as Hst.
  unfold stored in Hst. destruct (cat_ks c !! name) as [d|] eqn:Hd; [|by rewrite Hst; exists s].
  destruct Hst as (b & -> & Hb). rewrite (st_bind_eq _ _ s s d) by (unfold lift; by rewrite Hb).
  eexists. split; [reflexivity|]. eapply meta_represents; [exact Hm|done| |]; cbn.
  - intros n d' Hb'. rewrite lookup_insert. case_decide; [naive_solver|]. by apply Hrep.
  - apply Hrep.
Qed.

Lemma get_table_refines s c ks tb : represents s c -> no_bang ks ->
  exists s', get_table ks tb s = (s', Ok (cat_tb c !! (ks, tb))) /\ represents s' c.
Proof.
  intros Hrep Hn. unfold get_table, table_fill.
  rewrite (st_bind_eq _ _ s s (st_tables s !! (ks, tb))) by done.
  destruct (st_tables s !! (ks, tb)) as [d|] eqn:Hc.
  { exists s. by rewrite (rep_tb _ _ Hrep _ _ _ Hn Hc). }
  destruct (represents_meta s c Hrep) as (m & Hm & Hks & Htb).
  rewrite (st_bind_eq _ _ _ _ _ (meta_get _ _ _ Hm)). specialize (Htb ks tb Hn) as Hst.
  unfold stored in Hst. destruct (cat_tb c !! (ks, tb)) as [d|] eqn:Hd; [|by rewrite Hst; exists s].
  destruct Hst as (b & -> & Hb). rewrite (st_bind_eq _ _ s s d) by (unfold lift; by rewrite Hb).
  eexists. split; [reflexivity|]. eapply meta_represents; [exact Hm|done| |]; cbn.
  - apply Hrep.
  - intros ks' tb' d' Hb'. rewrite lookup_insert. case_decide; [naive_solver|]. by apply Hrep.
Qed.

Lemma delete_table_refines s c ks tb : represents s c -> no_bang ks ->
  exists s' ts, delete_table ks tb s = (s', Ok ts) /\ represents s' (fst (spec_op (DropTb ks tb) c)).
Proof.
  intros Hrep Hn. destruct (represents_meta s c Hrep) as (m & Hm & Hks & Htb).
  unfold delete_table, delete.
  destruct (meta_write s m [BDelete (tb_key ks tb)] "rocksdb delete failed: " Hm) as (s1 & Hw & Hm1 & Hk1 & Ht1).
  rewrite (st_bind_eq _ _ _ _ _ Hw). destruct (data_prefix_range ks tb) as (e & He & Hr).
  destruct (meta_delete_data s1 _ _ e Hm1 He) as (s2 & ts & Hd & Hm2 & Hk2 & Ht2);
    [apply starts_with_app|done|].
  rewrite (st_bind_eq _ _ _ _ _ Hd). eexists _, _. split; [reflexivity|].
  eapply meta_represents; [exact Hm2| | |]; cbn.
  - split; cbn.
    + intros name Hb. rewrite lookup_delete_ne by done. by apply Hks.
    + intros ks' tb' Hb. destruct (decide ((ks', tb') = (ks, tb))) as [[= -> ->]|Hne].
      * by rewrite !lookup_delete_eq.
      * rewrite !lookup_delete_ne; [by apply Htb|done|].
        intros Hk. apply tb_key_inj in Hk as [? ?]; [congruence|done..].
  - intros name d' Hb. rewrite Hk2, Hk1. by apply Hrep.
  - intros ks' tb' d' Hb. rewrite Ht2, Ht1, !lookup_delete. case_decide; [done|]. by apply Hrep.
Qed.

Lemma drop_filter_lookup (T : gmap (str * str) TableDef) name ks tb :
  filter (fun e => fst (fst e) <> name) T !! (ks, tb) = if decide (ks = name) then None else T !! (ks, tb).
Proof.
  case_decide as Hk.
  - apply map_lookup_filter_None. right. intros x _. cbn. intros Hx. by apply Hx.
  - destruct (T !! (ks, tb)) eqn:Ht.
    + apply map_lookup_filter_Some. by split.
    + apply map_lookup_filter_None. by left.
Qed.

Lemma delete_keyspace_refines s c name : represents s c -> no_bang name ->
  exists s' ts, delete_keyspace name s = (s', Ok ts) /\ represents s' (fst (spec_op (DropKs name) c)).
Proof.
  intros Hrep Hn. destruct (represents_meta s c Hrep) as (m & Hm & Hks & Htb).
  unfold delete_keyspace, delete.
  destruct (meta_write s m [BDelete (ks_key name)] "rocksdb delete failed: " Hm) as (s1 & Hw & Hm1 & Hk1 & Ht1).
  rewrite (st_bind_eq _ _ _ _ _ Hw).
  destruct (meta_delete_prefix s1 _ name Hm1) as (s2 & e2 & Hd2 & Hm2 & [Hk2 Ht2] & Hr2).
  rewrite (st_bind_eq _ _ _ _ _ Hd2). destruct (dt_ks_prefix_range name) as (e & He & Hr).
  destruct (meta_delete_data s2 _ _ e Hm2 He) as (s3 & ts & Hd & Hm3 & Hk3 & Ht3);
    [apply starts_with_app|done|].
  rewrite (st_bind_eq _ _ _ _ _ Hd). eexists _, _. split; [reflexivity|].
  eapply meta_represents; [exact Hm3| | |]; cbn [st_keyspaces st_tables set_keyspaces set_tables spec_op fst cat_ks cat_tb].
  - split; cbn [cat_ks cat_tb].
    + intros n Hb. rewrite apply_op_range_lookup, Hr2.
      replace (starts_with (ks_key n) (tb_prefix name)) with false by done.
      cbn. rewrite !lookup_delete. case_decide as Hc.
      * apply ks_key_inj in Hc. by rewrite decide_True.
      * rewrite decide_False by congruence. by apply Hks.
    + intros ks tb Hb. rewrite apply_op_range_lookup, Hr2, drop_filter_lookup.
      case_decide as Hc; destruct (starts_with (tb_key ks tb) (tb_prefix name)) eqn:Hs; try done.
      * apply not_true_iff_false in Hs. exfalso. apply Hs. by apply tb_prefix_iff.
      * apply tb_prefix_iff in Hs; [congruence|done|done].
      * cbn. rewrite lookup_delete_ne by done. by apply Htb.
  - intros n d' Hb. rewrite Hk3, Hk2, Hk1, !lookup_delete. case_decide; [done|]. by apply Hrep.
  - intros ks tb d' Hb. rewrite Ht3, Ht2, Ht1, !drop_filter_lookup. case_decide; [done|]. by apply Hrep.
Qed.

(** ** Rows and pipelines do not touch the catalog *)

(** An operation on rows. *)
Definition row_op (op : BatchOp) : Prop :=
  forall k, starts_with k DT_PREFIX = false -> touches op k = false.

Lemma represents_engine s c i e e' :
  represents s c -> st_engines s !! i = Some e -> engine_ok e' -> (rows_only e -> rows_only e') ->
  (forall k, rows_only e -> starts_with k DT_PREFIX = false ->
     db_view (e_db e') !! k = db_view (e_db e) !! k) ->
  represents (with_engine i e' s) c.
Proof.
  intros [Hs (e0 & He0 & Hr & Hd) Hk Ht] He Hok Hrows Hv.
  split; [by apply engines_ok_with| |done|done]. cbn. destruct (decide (i = 0)) as [->|Hne].
  - rewrite He in He0. injection He0 as ->. exists e'.
    split; [apply list_lookup_insert_eq; by eapply lookup_lt_Some|]. split; [by apply Hrows|].
    destruct Hd as [Hd1 Hd2]. split; intros; rewrite Hv by done; auto.
  - exists e0. by rewrite list_lookup_insert_ne.
Qed.

Lemma represents_cached s c ks f : represents s c -> represents (cached ks f s) c.
Proof.
  intros [Hs Hd Hk Ht]. unfold cached. destruct (should_cache ks); [|by split].
  split; [exact Hs|exact Hd|exact Hk|exact Ht].
Qed.

Lemma thread_represents s s' c : represents s c -> thread s s' -> represents s' c.
Proof.
  intros Hrep (i & l & Hst). apply thread_step_inv in Hst as (e & e' & He & Hp & ->).
  assert (Hok : engine_ok e) by (eapply Forall_lookup_1; [apply (rep_ok _ _ Hrep)|done]).
  pose proof (engine_ok_step _ _ _ _ Hok Hp) as Hok'.
  destruct Hok as (Hdb & _ & Hb & m & k & Htk).
  destruct (pipe_step_commits _ _ _ _ _ _ Hdb Hb Htk Hp) as (n & k' & _ & Hpe & _ & Hv).
  eapply represents_engine; [done|done|done| |]; unfold rows_only; rewrite Hpe.
  - by intros [_ ?]%Forall_app.
  - intros k0 [Hr _]%Forall_app Hk0. rewrite Hv. apply apply_ops_untouched.
    eapply Forall_impl; [exact Hr|]. eauto.
Qed.

Lemma rtc_represents s s' c : represents s c -> rtc thread s s' -> represents s' c.
Proof. intros Hrep Hr. induction Hr; eauto using thread_represents. Qed.

Lemma row_op_key (op : BatchOp) ks tb parts :
  (forall k, touches op k = bool_decide (row_key ks tb parts = k)) -> row_op op.
Proof.
  intros Ht k Hk. rewrite Ht. apply bool_decide_eq_false. intros <-.
  apply not_true_iff_false in Hk. apply Hk, starts_with_true.
  unfold row_key, data_prefix. rewrite <-app_assoc. by apply prefix_app_r.
Qed.

Lemma write_represents s c i op what : represents s c -> i < dbs_len s -> row_op op ->
  exists s', engine_write i [op] what s = (s', Ok ()) /\ represents s' c.
Proof.
  intros Hrep Hi Hop. destruct (engine_at s i) as (e & He & Hok); [apply Hrep|done|].
  destruct (engine_write_eq s i e [op] what He Hok) as (e' & Heq & He' & Hv & Hp).
  exists (with_engine i e' s). split; [done|]. eapply represents_engine; [done|done|done| |].
  - unfold rows_only. by rewrite Hp.
  - intros k _ Hk. rewrite Hv. apply (apply_op_untouched _ op). by apply Hop.
Qed.

Lemma put_row_sync_represents s c ks tb parts v : represents s c ->
  exists s', put_row_sync ks tb parts v s = (s', Ok ()) /\ represents s' c.
Proof.
  intros Hrep. unfold put_row_sync.
  rewrite (st_bind_eq _ _ s s (row_engine ks tb parts s)) by done.
  destruct (write_represents s c (row_engine ks tb parts s) (BPut (row_key ks tb parts) v)
    "rocksdb put failed: " Hrep) as (s1 & Hw & Hr1).
  - apply row_engine_lt, Hrep.
  - by eapply row_op_key.
  - rewrite (st_bind_eq _ _ _ _ _ Hw). exists (cached ks <[row_key ks tb parts := v]> s1).
    split; [done|]. by apply represents_cached.
Qed.

Lemma delete_row_sync_represents s c ks tb parts : represents s c ->
  exists s', delete_row_sync ks tb parts s = (s', Ok ()) /\ represents s' c.
Proof.
  intros Hrep. unfold delete_row_sync.
  rewrite (st_bind_eq _ _ s s (row_engine ks tb parts s)) by done.
  destruct (write_represents s c (row_engine ks tb parts s) (BDelete (row_key ks tb parts))
    "rocksdb delete failed: " Hrep) as (s1 & Hw & Hr1).
  - apply row_engine_lt, Hrep.
  - by eapply row_op_key.
  - rewrite (st_bind_eq _ _ _ _ _ Hw). exists (cached ks (base.delete (row_key ks tb parts)) s1).
    split; [done|]. by apply represents_cached.
Qed.

(** A queued row operation. *)
Lemma row_op_represents s c ks tb parts f op : represents s c -> carries op ->
  row_op (op_of (op None)) ->
  exists s' t, (on_cache ks f;; write_data_op ks tb parts op) s = (s', Ok t) /\ represents s' c.
Proof.
  intros Hrep Hop Hrow. destruct (row_op_spec s ks tb parts f op) as (e & e' & He & Hok & Hsend & Heq);
    [apply Hrep|done|].
  eexists _, _. split; [exact Heq|].
  eapply represents_engine; [by apply represents_cached|by rewrite cached_engines| | |].
  - by eapply engine_ok_send.
  - apply send_spec in Hsend as (_ & Hp & _). unfold rows_only. rewrite Hp. intros Hr.
    apply Forall_app. split; [done|]. apply Forall_singleton. by rewrite (proj2 (Hop _)).
  - apply send_spec in Hsend as (-> & _). done.
Qed.

Lemma put_row_represents s c ks tb parts v : represents s c ->
  exists s' t, put_row ks tb parts v s = (s', Ok t) /\ represents s' c.
Proof. intros Hrep. apply row_op_represents; [done|done|]. by eapply row_op_key. Qed.
Lemma delete_row_represents s c ks tb parts : represents s c ->
  exists s' t, delete_row ks tb parts s = (s', Ok t) /\ represents s' c.
Proof. intros Hrep. apply row_op_represents; [done|done|]. by eapply row_op_key. Qed.

Lemma get_row_represents s c ks tb parts : represents s c ->
  exists s' o, get_row ks tb parts s = (s', Ok o) /\ represents s' c.
Proof.
  intros Hrep. destruct (get_row_spec s ks tb parts (rep_ok _ _ Hrep)) as (e & _ & _ & ->).
  destruct (cache_lookup _ _ _); [by eexists _, _|].
  destruct (db_view _ !! _); [|by eexists _, _]. eexists _, _. split; [reflexivity|].
  by apply represents_cached.
Qed.

Lemma exec_op_refines s c op : represents s c -> op_clean op ->
  exists s', exec_op op s = (s', Ok (snd (spec_op op c))) /\ represents s' (fst (spec_op op c)).
Proof.
  intros Hrep Hc. destruct op as [d|n|n|d|ks tb|ks tb]; cbn [exec_op op_clean] in *.
  - destruct (put_keyspace_refines s c d Hrep Hc) as (s' & He & Hr). exists s'.
    by rewrite (st_bind_eq _ _ _ _ _ He).
  - destruct (get_keyspace_refines s c n Hrep Hc) as (s' & He & Hr). exists s'.
    by rewrite (st_bind_eq _ _ _ _ _ He).
  - destruct (delete_keyspace_refines s c n Hrep Hc) as (s' & ts & He & Hr). exists s'.
    by rewrite (st_bind_eq _ _ _ _ _ He).
  - destruct (put_table_refines s c d Hrep Hc) as (s' & He & Hr). exists s'.
    by rewrite (st_bind_eq _ _ _ _ _ He).
  - destruct (get_table_refines s c ks tb Hrep Hc) as (s' & He & Hr). exists s'.
    by rewrite (st_bind_eq _ _ _ _ _ He).
  - destruct (delete_table_refines s c ks tb Hrep Hc) as (s' & ts & He & Hr). exists s'.
    by rewrite (st_bind_eq _ _ _ _ _ He).
Qed.

(** C9: the catalog is a pair of maps.  Every schema operation of the storage
    layer - each of them two-phase: JSON documents on engine 0 and the
    in-memory maps, range tombstones and [retain] - behaves on any state that
    represents a catalog like the operation on two finite maps, never fails on
    a working database, and leaves a state that represents the new catalog; and
    the pipeline threads do not disturb it. *)
Theorem catalog_refines s c op :
  represents s c -> op_clean op ->
  (exists s', exec_op op s = (s', Ok (snd (spec_op op c))) /\ represents s' (fst (spec_op op c))) /\
  (forall s', rtc thread s s' -> represents s' c).
Proof.
  intros Hrep Hc. split; [by apply exec_op_refines|].
  intros s'. by apply rtc_represents.
Qed.
End catalog.

(** ** A concrete codec *)

(** Some injective encoding of the definitions as bytes, in place of JSON. *)
Fixpoint ty_tree (t : ColumnType) : gen_tree nat :=
  match t with
  | TInt => GenLeaf 0 | TBigInt => GenLeaf 1 | TSmallInt => GenLeaf 2 | TTinyInt => GenLeaf 3
  | TFloat => GenLeaf 4 | TDouble => GenLeaf 5 | TBoolean => GenLeaf 6 | TText => GenLeaf 7
  | TBlob => GenLeaf 8 | TTimestamp => GenLeaf 9 | TUuid => GenLeaf 10 | TInet => GenLeaf 11
  | TSet e => GenNode 0 [ty_tree e]
  | TList e => GenNode 1 [ty_tree e]
  | TMap k v => GenNode 2 [ty_tree k; ty_tree v]
  end.
Fixpoint tree_ty (t : gen_tree nat) : ColumnType :=
  match t with
  | GenLeaf 0 => TInt | GenLeaf 1 => TBigInt | GenLeaf 2 => TSmallInt | GenLeaf 3 => TTinyInt
  | GenLeaf 4 => TFloat | GenLeaf 5 => TDouble | GenLeaf 6 => TBoolean | GenLeaf 7 => TText
  | GenLeaf 8 => TBlob | GenLeaf 9 => TTimestamp | GenLeaf 10 => TUuid | GenLeaf _ => TInet
  | GenNode 0 [e] => TSet (tree_ty e)
  | GenNode 1 [e] => TList (tree_ty e)
  | GenNode _ [k; v] => TMap (tree_ty k) (tree_ty v)
  | GenNode _ _ => TInt
  end.
Lemma tree_ty_tree t : tree_ty (ty_tree t) = t.
Proof. induction t; cbn; congruence. Qed.
#[global] Instance ColumnType_countable : Countable ColumnType :=
  inj_countable' ty_tree tree_ty tree_ty_tree.

Definition ks_tuple (d : KeyspaceDef) : str * list (str * str) := (ks_name d, ks_replication d).
Definition tuple_ks (t : str * list (str * str)) : KeyspaceDef :=
  {| ks_name := fst t; ks_replication := snd t |}.
Definition col_tuple (c : ColumnDef) : str * ColumnType * bool * bool :=
  (col_name c, col_type c, is_partition_key c, is_clustering c).
Definition tuple_col (t : str * ColumnType * bool * bool) : ColumnDef :=
  let '(n, ty, p, c) := t in
  {| col_name := n; col_type := ty; is_partition_key := p; is_clustering := c |}.
Definition tb_tuple (d : TableDef) : str * str * list (str * ColumnType * bool * bool) * list str * list str :=
  (td_keyspace d, td_name d, col_tuple <$> td_columns d, td_partition_keys d, td_clustering_keys d).
Definition tuple_tb (t : str * str * list (str * ColumnType * bool * bool) * list str * list str) : TableDef :=
  let '(k, n, cs, p, c) := t in
  {| td_keyspace := k; td_name := n; td_columns := tuple_col <$> cs; td_partition_keys := p;
     td_clustering_keys := c |}.
Lemma tuple_tb_tuple d : tuple_tb (tb_tuple d) = d.
Proof.
  destruct d as [k n cs p c]. cbn. f_equal. rewrite <-list_fmap_compose.
  rewrite <-(list_fmap_id cs) at 2. apply list_fmap_ext. by intros ? [].
Qed.

Fixpoint pos_bits (p : positive) : bytes :=
  match p with xH => [] | xO q => Byte.x00 :: pos_bits q | xI q => Byte.x01 :: pos_bits q end.
Fixpoint bits_pos (l : bytes) : positive :=
  match l with
  | [] => xH
  | Byte.x00 :: r => xO (bits_pos r)
  | _ :: r => xI (bits_pos r)
  end.
Lemma bits_pos_bits p : bits_pos (pos_bits p) = p.
Proof. induction p; cbn; congruence. Qed.

Definition bits_json : Json :=
  {| ks_to_vec d := Ok (pos_bits (encode (ks_tuple d)));
     ks_from_slice b := ok_or (tuple_ks <$> decode (bits_pos b)) (bs "expected value");
     tb_to_vec d := Ok (pos_bits (encode (tb_tuple d)));
     tb_from_slice b := ok_or (tuple_tb <$> decode (bits_pos b)) (bs "expected value") |}.
Lemma bits_json_laws : @JsonLaws bits_json.
Proof.
  split; intros d; eexists; (split; [reflexivity|]); cbn; rewrite bits_pos_bits, decode_encode.
  - by destruct d.
  - cbn [fmap option_fmap option_map ok_or]. by rewrite tuple_tb_tuple.
Qed.

(** A storage with no schema. *)
Definition empty_storage : @Storage mem_kv :=
  {| st_engines := (fun d : gmap bytes bytes => spawn_writer (H := mem_kv) d) <$> [∅; ∅];
     st_keyspaces := ∅; st_tables := ∅; st_ast_cache := ∅; st_write_sync := true;
     st_row_cache := Some ∅ |}.
Definition empty_cat : Cat := {| cat_ks := ∅; cat_tb := ∅ |}.

Lemma empty_represents :
  represents (H0 := mem_kv_laws) (H1 := bits_json) empty_storage empty_cat.
Proof.
  split.
  - split; [cbn; lia|]. repeat (apply Forall_cons; split; [by apply engine_ok_spawn|]).
    apply Forall_nil_2.
  - eexists. split; [reflexivity|]. split; [apply Forall_nil_2|].
    split; intros; exact (lookup_empty (M := gmap bytes) _).
  - intros name d _ Hd. cbn in Hd. by rewrite lookup_empty in Hd.
  - intros ks tb d _ Hd. cbn in Hd. by rewrite lookup_empty in Hd.
Qed.

Lemma catalog_refines_witness :
  exists s', exec_op (H1 := bits_json) (PutTb demo_table) empty_storage = (s', Ok RUnit) /\
    represents (H0 := mem_kv_laws) (H1 := bits_json) s'
      {| cat_ks := ∅; cat_tb := {[(bs "ks", bs "t") := demo_table]} |}.
Proof.
  destruct (catalog_refines (H0 := mem_kv_laws) (H2 := bits_json_laws) empty_storage empty_cat
    (PutTb demo_table) empty_represents) as [Hop _]; [by_compute|].
  exact Hop.
Defined.

(** A schema lookup that overlaps a DROP TABLE can undo it in memory.  On a node
    that has not looked at the table since it was started, [get_table] misses the
    cache and reads the definition; then the table is dropped; then the lookup does
    its last act.  The document is gone, and every later lookup finds the table. *)
Theorem racing_lookup_stale :
  let s0 := set_tables ∅ (fst (put_table (H0 := bits_json) demo_table empty_storage)) in
  let read := o ← snd (get (tb_key (bs "ks") (bs "t")) s0); @tb_from_slice bits_json (default [] o) in
  let s1 := fst (delete_table (bs "ks") (bs "t") s0) in
  let s2 := fst (table_fill (bs "ks") (bs "t") demo_table s1) in
  read = Ok demo_table /\ snd (get_table (H0 := bits_json) (bs "ks") (bs "t") s1) = Ok None /\
  snd (get (tb_key (bs "ks") (bs "t")) s2) = Ok None /\
  snd (get_table (H0 := bits_json) (bs "ks") (bs "t") s2) = Ok (Some demo_table).
Proof. repeat split; vm_compute; reflexivity. Qed.
