(* ===== verification/Acked.v ===== *)
(** * Acknowledged writes while other requests run

    What a client can rely on after a write, whatever the pipeline threads do and
    whatever other requests do elsewhere.  [get_row] is not one step here: a
    read that missed the row cache goes to the database, and puts what it found
    into the cache later, when anything may have happened in between.  The steps
    of everybody else are the relation [others] on a storage and the reads that
    are under way; [stands] is the invariant of a write that nobody overwrites. *)

From S2P Require Import Prelude RustStr Ast Schema CqlValue Keys Triple Kv Pipeline Storage Rows Scans Catalog.

(** ** Operations elsewhere *)

Lemma apply_op_local (op : BatchOp) (m m' : gmap bytes bytes) k :
  m !! k = m' !! k -> apply_op m op !! k = apply_op m' op !! k.
Proof.
  intros Hm. destruct op as [k' v|k'|s e].
  - cbn. rewrite !lookup_insert. by case_decide.
  - cbn. rewrite !lookup_delete. by case_decide.
  - rewrite !apply_op_range_lookup. by destruct (in_key_range s e k).
Qed.
Lemma apply_ops_local (ops : list BatchOp) (m m' : gmap bytes bytes) k :
  m !! k = m' !! k -> apply_ops m ops !! k = apply_ops m' ops !! k.
Proof.
  revert m m'. induction ops as [|op ops IH]; intros m m' Hm; [done|].
  apply (IH (apply_op m op) (apply_op m' op)). by apply apply_op_local.
Qed.

Section engines.
Context `{KVLaws}.

(** [o] is committed under [key], and nothing queued concerns it. *)
Definition rests (e : Engine) (key : bytes) (o : option bytes) : Prop :=
  engine_ok e /\ Forall (fun op => touches op key = false) (pend_ops e) /\ db_view (e_db e) !! key = o.

Lemma rests_logical e key o : rests e key o -> logical e !! key = o.
Proof. intros (_ & Hp & <-). by apply apply_ops_untouched. Qed.
Lemma rests_step sync l e e' key o : rests e key o -> pipe_step sync l e = Some e' -> rests e' key o.
Proof.
  intros (Hok & Hp & Hv) Hs. split; [by eapply engine_ok_step|]. destruct Hok as (Hd & _ & Hb & m & k & Ht).
  destruct (pipe_step_commits _ _ _ _ _ _ Hd Hb Ht Hs) as (n & k' & _ & Hpe & _ & ->).
  rewrite Hpe, Forall_app in Hp. split; [apply Hp|]. by rewrite apply_ops_untouched by apply Hp.
Qed.
Lemma rests_send e op e' t key o : rests e key o -> carries op -> touches (op_of (op None)) key = false ->
  send e op = Ok (e', t) -> rests e' key o.
Proof.
  intros (Hok & Hp & Hv) Hop Hu Hs. split; [by eapply engine_ok_send|].
  apply send_spec in Hs as (-> & -> & _). split; [|done]. apply Forall_app. split; [done|].
  apply Forall_singleton. by rewrite (proj2 (Hop (Some t))).
Qed.
Lemma written_rests e t key o : written e t key o -> t ∈ e_done e -> rests e key o.
Proof.
  intros Hw Hd. pose proof (written_done _ _ _ _ Hw Hd) as Hg.
  destruct Hw as (Hok & _ & m & k & (Hk & _ & _ & Hdone) & _ & Hf). apply Hdone in Hd.
  split; [done|]. split; [by replace (S t - m) with 0 in Hf by lia|].
  rewrite db_get_ok in Hg by apply Hok. by injection Hg.
Qed.

(** A write beside the pipeline. *)
Lemma direct_write_inv e ops e' : engine_ok e -> direct_write e ops = Ok e' ->
  engine_ok e' /\ db_view (e_db e') = apply_ops (db_view (e_db e)) ops /\ pend_ops e' = pend_ops e /\
  e_next e' = e_next e /\ forall m k, tickets_at e m k -> tickets_at e' m k.
Proof.
  intros Hok Hw. destruct (engine_ok_direct e ops Hok) as (e1 & Hw1 & Hok' & Hv & Hp).
  rewrite Hw in Hw1. injection Hw1 as <-. do 3 (split; [done|]). unfold direct_write in Hw.
  destruct (db_write (e_db e) ops); [|done..]. by injection Hw as <-.
Qed.
Lemma rests_direct e ops e' key o : rests e key o -> Forall (fun op => touches op key = false) ops ->
  direct_write e ops = Ok e' -> rests e' key o.
Proof.
  intros (Hok & Hp & Hv) Hu Hw. destruct (direct_write_inv _ _ _ Hok Hw) as (Hok' & Hv' & Hp' & _).
  split; [done|]. rewrite Hp', Hv'. by rewrite apply_ops_untouched.
Qed.
Lemma written_direct e ops e' t key o : written e t key o -> Forall (fun op => touches op key = false) ops ->
  direct_write e ops = Ok e' -> written e' t key o.
Proof.
  intros (Hok & Hl & m & k & Ht & Hn & Hf) Hu Hw.
  destruct (direct_write_inv _ _ _ Hok Hw) as (Hok' & Hv' & Hp' & Hn' & Ht').
  split; [done|]. split.
  - unfold logical in *. rewrite Hp', Hv', <-Hl. by apply apply_ops_local, apply_ops_untouched.
  - exists m, k. rewrite Hp', Hn'. auto.
Qed.

(** The entry of [key] on engine [i] is [o], or will be once one of [tickets] is
    completed. *)
Definition standing (tickets : list WriteTicket) (i : nat) (e : Engine) (key : bytes) (o : option bytes) : Prop :=
  rests e key o \/ exists t, Some (i, t) ∈ tickets /\ written e t key o.

Lemma standing_step tickets i sync l e e' key o :
  standing tickets i e key o -> pipe_step sync l e = Some e' -> standing tickets i e' key o.
Proof. intros [Hr|(t & Ht & Hw)] Hs; [left|right; exists t]; eauto using rests_step, written_step. Qed.
Lemma standing_send tickets i e op e' t key o :
  standing tickets i e key o -> carries op -> touches (op_of (op None)) key = false ->
  send e op = Ok (e', t) -> standing tickets i e' key o.
Proof. intros [Hr|(t' & Ht & Hw)] Ho Hu Hs; [left|right; exists t']; eauto using rests_send, written_send. Qed.
Lemma standing_direct tickets i e ops e' key o :
  standing tickets i e key o -> Forall (fun op => touches op key = false) ops ->
  direct_write e ops = Ok e' -> standing tickets i e' key o.
Proof. intros [Hr|(t' & Ht & Hw)] Hu Hs; [left|right; exists t']; eauto using rests_direct, written_direct. Qed.
End engines.

(** ** Everybody else *)

Section interference.
Context `{KV} `{Json}.

(** What a client claims for itself: a row it wrote, or a table it truncated. *)
Inductive Claim := OneRow (ks tb : str) (parts : list bytes) | WholeTable (ks tb : str).
Definition claim_ks (c : Claim) : str := match c with OneRow ks _ _ | WholeTable ks _ => ks end.
Definition claim_tb (c : Claim) : str := match c with OneRow _ tb _ | WholeTable _ tb => tb end.
(** The keys claimed, and the engines (of [n]) on which they are claimed. *)
Definition covers (c : Claim) (key : bytes) : Prop :=
  match c with
  | OneRow ks tb parts => key = row_key ks tb parts
  | WholeTable ks tb => starts_with key (data_prefix ks tb) = true
  end.
Definition placed (c : Claim) (n i : nat) : Prop :=
  match c with
  | OneRow ks tb parts => i = data_engine n ks tb (first_part parts)
  | WholeTable _ _ => True
  end.

(** A [get_row] between its database access and its cache update. *)
Record Fetched := { f_ks : str; f_tb : str; f_parts : list bytes; f_got : option bytes }.
Definition f_key (r : Fetched) : bytes := row_key (f_ks r) (f_tb r) (f_parts r).

(** The requests to the storage that change it, [get_row] apart. *)
Inductive StorageOp :=
| SPutRow (ks tb : str) (parts : list bytes) (v : bytes)
| SDeleteRow (ks tb : str) (parts : list bytes)
| SPutRowSync (ks tb : str) (parts : list bytes) (v : bytes)
| SDeleteRowSync (ks tb : str) (parts : list bytes)
| STruncate (ks tb : str)
| SSchema (op : CatOp)
| SCacheStmt (query : str) (stmt : CassandraStatement).

Definition run_op (op : StorageOp) (s : Storage) : Storage :=
  match op with
  | SPutRow ks tb parts v => fst (put_row ks tb parts v s)
  | SDeleteRow ks tb parts => fst (delete_row ks tb parts s)
  | SPutRowSync ks tb parts v => fst (put_row_sync ks tb parts v s)
  | SDeleteRowSync ks tb parts => fst (delete_row_sync ks tb parts s)
  | STruncate ks tb => fst (truncate_table ks tb s)
  | SSchema op => fst (exec_op op s)
  | SCacheStmt query stmt => ast_cache_put query stmt s
  end.

(** The request leaves the claim alone: it writes other rows, truncates or drops
    other tables, drops other keyspaces (and no system keyspace: those are
    read-only), defines other tables. *)
Definition avoids (c : Claim) (prefix : bytes) : Prop :=
  forall key, covers c key -> starts_with key prefix = false.
Definition spares (c : Claim) (op : StorageOp) : Prop :=
  match op with
  | SPutRow ks tb parts _ | SDeleteRow ks tb parts
  | SPutRowSync ks tb parts _ | SDeleteRowSync ks tb parts => ~ covers c (row_key ks tb parts)
  | STruncate ks tb => avoids c (data_prefix ks tb)
  | SSchema op => op_clean op /\
    match op with
    | DropTb ks tb => avoids c (data_prefix ks tb)
    | DropKs name => avoids c (dt_ks_prefix name) /\ should_cache name = true
    | PutTb d => (td_keyspace d, td_name d) <> (claim_ks c, claim_tb c)
    | _ => True
    end
  | SCacheStmt _ _ => True
  end.

(** The row cache is not used for the claim. *)
Definition uncached (c : Claim) (s : Storage) : Prop :=
  should_cache (claim_ks c) = false \/ st_row_cache s = None.

(** What a read of [r] that goes to the database may find without harm: nothing, or
    anything if it is not claimed or there is no cache, or what is there once the
    writes of the claim are completed. *)
Definition may_find (c : Claim) (tickets : list WriteTicket) (s : Storage) (r : Fetched) : Prop :=
  covers c (f_key r) ->
  f_got r = None \/ uncached c s \/
  (settled s tickets = true /\ placed c (dbs_len s) (row_engine (f_ks r) (f_tb r) (f_parts r) s)).

(** A step of somebody else: a pipeline thread, a request that spares the claim, or
    the second or third part of a [get_row] - of any row, the claimed ones
    included.  (A read that hits the cache changes nothing.) *)
Inductive others (c : Claim) (tickets : list WriteTicket) : Storage * list Fetched -> Storage * list Fetched -> Prop :=
| oth_thread s rs i l s' : thread_step i l s = Some s' -> others c tickets (s, rs) (s', rs)
| oth_request s rs op : spares c op -> others c tickets (s, rs) (run_op op s, rs)
| oth_fetch s rs r : snd (row_fetch (f_ks r) (f_tb r) (f_parts r) s) = Ok (f_got r) ->
    may_find c tickets s r -> others c tickets (s, rs) (s, r :: rs)
| oth_fill s rs1 r rs2 :
    others c tickets (s, rs1 ++ r :: rs2)
      (fst (row_fill (f_ks r) (f_tb r) (f_parts r) (f_got r) s), rs1 ++ rs2).

(** No read under way can put an old row of the claim into the cache. *)
Definition no_stale (c : Claim) (s : Storage) (rs : list Fetched) : Prop :=
  Forall (fun r => covers c (f_key r) -> f_got r = None \/ uncached c s) rs.
End interference.

(** ** A write that nobody overwrites *)

Section standing.
Context `{KVLaws} `{JsonLaws}.
Context (c : Claim) (tickets : list WriteTicket) (o : option bytes).

(** Every claimed entry is [o] or becomes [o] with [tickets], and the row cache
    says nothing else. *)
Definition safe (s : Storage) : Prop :=
  engines_ok s /\
  (forall i e key, st_engines s !! i = Some e -> placed c (dbs_len s) i -> covers c key ->
     standing tickets i e key o) /\
  (forall key, covers c key ->
     cache_lookup (claim_ks c) key s = None \/ cache_lookup (claim_ks c) key s = o).

Definition stands (x : Storage * list Fetched) : Prop :=
  safe (fst x) /\
  Forall (fun r => covers c (f_key r) -> f_got r = None \/ f_got r = o \/ uncached c (fst x)) (snd x).

(** What no request changes. *)
Definition frame (s0 s : Storage) : Prop :=
  dbs_len s = dbs_len s0 /\ st_write_sync s = st_write_sync s0 /\
  (st_row_cache s0 = None -> st_row_cache s = None).
Definition safe_from (s0 s : Storage) : Prop := safe s /\ frame s0 s.

Lemma safe_engine s i e e' : safe s -> st_engines s !! i = Some e -> engine_ok e' ->
  (forall key, covers c key -> standing tickets i e key o -> standing tickets i e' key o) ->
  safe (with_engine i e' s).
Proof.
  intros (Hs & Hst & Hc) He Hok Hkeep. split; [by apply engines_ok_with|]. split; [|exact Hc].
  rewrite dbs_len_with. unfold with_engine. cbn. intros j ej key Hj Hpl Hcov.
  destruct (decide (i = j)) as [<-|Hne].
  - rewrite list_lookup_insert_eq in Hj by (by eapply lookup_lt_Some). injection Hj as <-. eauto.
  - rewrite list_lookup_insert_ne in Hj by done. eauto.
Qed.

Lemma safe_cache s s' : safe s -> st_engines s' = st_engines s ->
  (forall key, covers c key -> cache_lookup (claim_ks c) key s' = None \/
     cache_lookup (claim_ks c) key s' = o \/ cache_lookup (claim_ks c) key s' = cache_lookup (claim_ks c) key s) ->
  safe s'.
Proof.
  intros (Hs & Hst & Hc) He Hl. unfold safe, engines_ok, dbs_len. rewrite He. split; [done|]. split; [done|].
  intros key Hcov. destruct (Hl key Hcov) as [-> | [-> | ->]]; auto.
Qed.

Lemma safe_engine_ok s i e : safe s -> st_engines s !! i = Some e -> engine_ok e.
Proof. intros ([_ Hf] & _) He. by eapply Forall_lookup_1. Qed.

Lemma frame_with s0 s i e : frame s0 s -> frame s0 (with_engine i e s).
Proof. unfold frame. by rewrite dbs_len_with. Qed.

(** *** The primitives *)

Definition spared (op : BatchOp) : Prop := forall key, covers c key -> touches op key = false.

Lemma engine_write_safe s0 i ops what : Forall spared ops -> keeps (safe_from s0) (engine_write i ops what).
Proof.
  intros Hops s [Hs Hf]. unfold engine_write, on_engine. destruct (st_engines s !! i) as [e|] eqn:He; [|done].
  destruct (direct_write e ops) as [e'|x|] eqn:Hw; [|by rewrite set_engines_same..].
  split; [|by apply frame_with]. pose proof (safe_engine_ok s i e Hs He) as Hok.
  apply (safe_engine s i e e'); [done|done|by apply (direct_write_inv _ _ _ Hok Hw)|].
  intros key Hcov Hst. eapply standing_direct; [done| |done]. eapply Forall_impl; [exact Hops|]. eauto.
Qed.
Lemma engine_send_safe s0 i op : carries op -> spared (op_of (op None)) -> keeps (safe_from s0) (engine_send i op).
Proof.
  intros Hop Hsp s [Hs Hf]. unfold engine_send, on_engine. destruct (st_engines s !! i) as [e|] eqn:He; [|done].
  destruct (send e op) as [[e' t]|x|] eqn:Hw; [|by rewrite set_engines_same..].
  split; [|by apply frame_with]. pose proof (safe_engine_ok s i e Hs He) as Hok.
  apply (safe_engine s i e e'); [done|done|by eapply engine_ok_send|].
  intros key Hcov Hst. eapply standing_send; eauto.
Qed.
Lemma engine_get_safe s0 i key : keeps (safe_from s0) (engine_get i key).
Proof.
  intros s Hs. unfold engine_get, on_engine. destruct (st_engines s !! i) as [e|] eqn:He; [|done].
  rewrite set_engines_same by done. by destruct (db_get (e_db e) key).
Qed.
Lemma cached_safe s0 s ks f : safe_from s0 s ->
  (forall m key, covers c key -> f m !! key = m !! key \/ f m !! key = None \/ f m !! key = o \/ uncached c s) ->
  safe_from s0 (cached ks f s).
Proof.
  intros [Hs (Hd & Hw & Hn)] Hf. split.
  - apply (safe_cache s); [done|apply cached_engines|]. intros key Hcov. rewrite cache_lookup_cached.
    unfold cache_lookup. destruct (should_cache (claim_ks c)) eqn:E, (should_cache ks); cbn; auto.
    destruct (st_row_cache s) as [m|] eqn:Em; cbn; [|by auto].
    destruct (Hf m key Hcov) as [-> | [-> | [-> | [Hu | Hu]]]]; [by auto|by auto|by auto|congruence|congruence].
  - unfold frame, dbs_len. rewrite cached_engines, cached_sync. split; [done|]. split; [done|].
    intros H0'. unfold cached. specialize (Hn H0'). case_match; [|done]. cbn. by rewrite Hn.
Qed.
Lemma on_cache_safe s0 ks f : (forall m key, covers c key -> f m !! key = m !! key) ->
  keeps (safe_from s0) (on_cache ks f).
Proof.
  intros Hf s Hs. unfold on_cache, modify. apply (cached_safe s0 s ks f); [done|]. intros m key Hcov. left. auto.
Qed.
(** The in-memory maps of the schema and the statement cache. *)
Lemma modify_safe s0 (f : Storage -> Storage) :
  (forall s, st_engines (f s) = st_engines s /\ st_row_cache (f s) = st_row_cache s /\
     st_write_sync (f s) = st_write_sync s) -> keeps (safe_from s0) (modify (E:=str) f).
Proof.
  intros Hf. apply keeps_modify. intros s [Hs Hfr]. destruct (Hf s) as (He & Hc & Hw). split.
  - apply (safe_cache s); [done|done|]. intros key _. unfold cache_lookup. rewrite Hc. auto.
  - unfold frame, dbs_len in *. by rewrite He, Hc, Hw.
Qed.

Lemma clear_safe s0 p : keeps (safe_from s0) (modify (E:=str) (fun s =>
  match st_row_cache s with
  | Some _ => if starts_with p DT_PREFIX then set_row_cache (Some ∅) s else s
  | None => s
  end)).
Proof.
  apply keeps_modify. intros s Hsf. destruct (st_row_cache s) as [m|] eqn:E; [|done].
  destruct (starts_with p DT_PREFIX); [|done]. destruct Hsf as [Hs (Hd & Hw & Hn)]. split.
  - apply (safe_cache s); [done|done|]. intros key _. left. unfold cache_lookup. cbn. by case_match.
  - split; [done|]. split; [done|]. intros H0'. by rewrite Hn in E.
Qed.

(** *** Keys *)

Lemma covers_data key : covers c key -> starts_with key DT_PREFIX = true.
Proof.
  destruct c as [ks tb parts|ks tb]; cbn [covers].
  - intros ->. unfold row_key, data_prefix. rewrite <-app_assoc. apply starts_with_app.
  - rewrite !starts_with_true. intros Hp. etrans; [|exact Hp]. unfold data_prefix. by apply prefix_app_r.
Qed.
Lemma covers_not_ks key name : covers c key -> ks_key name <> key.
Proof. intros Hk%covers_data <-. done. Qed.
Lemma covers_not_tb key ks tb : covers c key -> tb_key ks tb <> key.
Proof. intros Hk%covers_data <-. done. Qed.
Lemma covers_not_tables key ks : covers c key -> starts_with key (tb_prefix ks) = false.
Proof.
  intros Hk%covers_data. apply not_true_iff_false. rewrite starts_with_true in *. intros [r ->].
  destruct Hk as [q Hq]. done.
Qed.

Lemma row_spared op ks tb parts : (forall k, touches op k = bool_decide (row_key ks tb parts = k)) ->
  ~ covers c (row_key ks tb parts) -> spared op.
Proof. intros Ht Hn key Hcov. rewrite Ht. apply bool_decide_eq_false. by intros <-. Qed.
Lemma range_spared p e : (forall k, in_key_range p e k = starts_with k p) -> avoids c p ->
  spared (BDeleteRange p e).
Proof. intros Hr Ha key Hcov. cbn. rewrite Hr. by apply Ha. Qed.

(** *** The requests *)

Lemma keeps_fst {A} X (m : st Storage str A) s : keeps X m -> X s -> X (fst (m s)).
Proof. intros Hm Hs. specialize (Hm s Hs). by destruct (m s) as [s' [a|e|]]. Qed.

Lemma row_send_safe s0 ks tb parts f op : carries op ->
  (forall m key, row_key ks tb parts <> key -> f m !! key = m !! key) ->
  (forall k, touches (op_of (op None)) k = bool_decide (row_key ks tb parts = k)) ->
  ~ covers c (row_key ks tb parts) ->
  keeps (safe_from s0) (on_cache ks f;; write_data_op ks tb parts op).
Proof.
  intros Hop Hf Ht Hn. apply keeps_bind.
  - apply on_cache_safe. intros m key Hcov. apply Hf. by intros <-.
  - intros _. apply keeps_bind; [apply keeps_gets|]. intros i. apply engine_send_safe; [done|].
    by eapply row_spared.
Qed.
Lemma row_sync_safe s0 ks tb parts f op what :
  (forall m key, row_key ks tb parts <> key -> f m !! key = m !! key) ->
  (forall k, touches op k = bool_decide (row_key ks tb parts = k)) ->
  ~ covers c (row_key ks tb parts) ->
  keeps (safe_from s0) (engine ← gets (row_engine ks tb parts); engine_write engine [op] what;; on_cache ks f).
Proof.
  intros Hf Ht Hn. apply keeps_bind; [apply keeps_gets|]. intros i. apply keeps_bind.
  - apply engine_write_safe, Forall_singleton. by eapply row_spared.
  - intros _. apply on_cache_safe. intros m key Hcov. apply Hf. by intros <-.
Qed.

Lemma delete_data_safe s0 p e : prefix_upper_bound p = Some e ->
  (forall k, in_key_range p e k = starts_with k p) -> avoids c p ->
  keeps (safe_from s0) (delete_data_prefix p).
Proof.
  intros He Hr Ha. unfold delete_data_prefix. apply keeps_bind; [apply keeps_gets|]. intros n. rewrite He.
  apply keeps_bind.
  - apply keeps_map_st. intros i. apply engine_send_safe; [apply carries_range|]. by apply range_spared.
  - intros ts. apply keeps_bind; [apply clear_safe|]. intros _. apply keeps_ret.
Qed.
Lemma truncate_safe s0 ks tb : avoids c (data_prefix ks tb) -> keeps (safe_from s0) (truncate_table ks tb).
Proof. destruct (data_prefix_range ks tb) as (e & He & Hr). by apply (delete_data_safe s0 _ e). Qed.

Lemma schema_safe s0 op : spares c (SSchema op) -> keeps (safe_from s0) (exec_op op).
Proof.
  intros [_ Hsp].
  destruct op as [d|name|name|d|ks tb|ks tb]; cbn [exec_op]; (apply keeps_bind; [|intros ?; apply keeps_ret]).
  - unfold put_keyspace, put. apply keeps_bind; [apply keeps_lift|]. intros j. apply keeps_bind.
    + apply engine_write_safe, Forall_singleton. intros k Hk. apply bool_decide_eq_false_2. by apply covers_not_ks.
    + intros _. by apply modify_safe.
  - unfold get_keyspace. apply keeps_bind; [apply keeps_gets|]. intros [?|]; [apply keeps_ret|].
    apply keeps_bind; [apply engine_get_safe|]. intros [b|]; [|apply keeps_ret].
    apply keeps_bind; [apply keeps_lift|]. intros d. apply keeps_bind; [by apply modify_safe|]. intros _. apply keeps_ret.
  - unfold delete_keyspace, delete. destruct Hsp as [Ha _]. apply keeps_bind.
    { apply engine_write_safe, Forall_singleton. intros k Hk. apply bool_decide_eq_false_2. by apply covers_not_ks. }
    intros _. apply keeps_bind.
    { unfold delete_prefix. destruct (tb_prefix_range name) as (e & -> & Hr).
      apply engine_write_safe, Forall_singleton, range_spared; [done|]. intros k Hk. by apply covers_not_tables. }
    intros _. destruct (dt_ks_prefix_range name) as (e & He & Hr).
    apply keeps_bind; [by apply (delete_data_safe s0 _ e)|]. intros ts.
    do 2 (apply keeps_bind; [by apply modify_safe|]; intros _). apply keeps_ret.
  - unfold put_table, put. apply keeps_bind; [apply keeps_lift|]. intros j. apply keeps_bind.
    + apply engine_write_safe, Forall_singleton. intros k Hk. apply bool_decide_eq_false_2. by apply covers_not_tb.
    + intros _. by apply modify_safe.
  - unfold get_table, table_fill. apply keeps_bind; [apply keeps_gets|]. intros [?|]; [apply keeps_ret|].
    apply keeps_bind; [apply engine_get_safe|]. intros [b|]; [|apply keeps_ret].
    apply keeps_bind; [apply keeps_lift|]. intros d. apply keeps_bind; [by apply modify_safe|]. intros _. apply keeps_ret.
  - unfold delete_table, delete. apply keeps_bind.
    { apply engine_write_safe, Forall_singleton. intros k Hk. apply bool_decide_eq_false_2. by apply covers_not_tb. }
    intros _. destruct (data_prefix_range ks tb) as (e & He & Hr).
    apply keeps_bind; [by apply (delete_data_safe s0 _ e)|]. intros ts.
    apply keeps_bind; [by apply modify_safe|]. intros _. apply keeps_ret.
Qed.

Lemma run_op_safe s0 s op : spares c op -> safe_from s0 s -> safe_from s0 (run_op op s).
Proof.
  intros Hsp. destruct op as [ks tb p v|ks tb p|ks tb p v|ks tb p|ks tb|op|q stmt]; cbn [run_op spares] in *.
  - apply keeps_fst, row_send_safe; [done| |done|done]. intros m key Hk. by apply lookup_insert_ne.
  - apply keeps_fst, row_send_safe; [done| |done|done]. intros m key Hk. by apply lookup_delete_ne.
  - apply keeps_fst, row_sync_safe; [|done|done]. intros m key Hk. by apply lookup_insert_ne.
  - apply keeps_fst, row_sync_safe; [|done|done]. intros m key Hk. by apply lookup_delete_ne.
  - by apply keeps_fst, truncate_safe.
  - by apply keeps_fst, schema_safe.
  - by apply (keeps_fst _ (modify (ast_cache_put q stmt))), modify_safe.
Qed.

(** *** The steps *)

Lemma frame_refl s : frame s s. Proof. done. Qed.
Lemma frame_trans s0 s1 s2 : frame s0 s1 -> frame s1 s2 -> frame s0 s2.
Proof. intros (? & ? & ?) (? & ? & ?). split; [congruence|]. split; [congruence|auto]. Qed.

Lemma thread_safe i l s s' : thread_step i l s = Some s' -> safe s -> safe_from s s'.
Proof.
  intros (e & e' & He & Hp & ->)%thread_step_inv Hs. split; [|by apply frame_with].
  apply (safe_engine s i e e'); [done|done| |].
  - eapply engine_ok_step; [by eapply safe_engine_ok|done].
  - intros key _ Hst. by eapply standing_step.
Qed.

(** Once the tickets are completed, the database itself has the claimed entries. *)
Lemma safe_rests s i e key : safe s -> st_engines s !! i = Some e -> placed c (dbs_len s) i -> covers c key ->
  settled s tickets = true -> rests e key o.
Proof.
  intros (_ & Hst & _) He Hpl Hcov Hset. destruct (Hst i e key He Hpl Hcov) as [?|(t & Ht & Hw)]; [done|].
  apply (written_rests _ _ _ _ Hw). apply forallb_Forall in Hset. rewrite Forall_forall in Hset.
  specialize (Hset _ Ht). cbn in Hset. rewrite He in Hset. by apply bool_decide_eq_true in Hset.
Qed.

Lemma fetched_found s r : safe s -> snd (row_fetch (f_ks r) (f_tb r) (f_parts r) s) = Ok (f_got r) ->
  may_find c tickets s r -> covers c (f_key r) -> f_got r = None \/ f_got r = o \/ uncached c s.
Proof.
  intros Hs Hf Hm Hcov. destruct (Hm Hcov) as [?|[?|[Hset Hpl]]]; [by auto|by auto|]. right. left.
  destruct (engine_at s (row_engine (f_ks r) (f_tb r) (f_parts r) s)) as (e & He & Hok);
    [apply Hs|apply row_engine_lt, Hs|].
  rewrite (row_fetch_eq _ _ _ _ _ Hok He) in Hf. injection Hf as <-.
  by eapply safe_rests.
Qed.

Lemma fill_safe s r : safe s ->
  (covers c (f_key r) -> f_got r = None \/ f_got r = o \/ uncached c s) ->
  safe_from s (fst (row_fill (f_ks r) (f_tb r) (f_parts r) (f_got r) s)).
Proof.
  intros Hs Hr. unfold row_fill. destruct (f_got r) as [v|]; [|by split].
  apply (cached_safe s s (f_ks r) <[f_key r := v]>); [by split|]. intros m key Hcov.
  destruct (decide (f_key r = key)) as [<-|Hne]; [|left; by apply lookup_insert_ne].
  rewrite lookup_insert_eq. destruct (Hr Hcov) as [?|[?|?]]; auto.
Qed.

Lemma uncached_frame s s' : frame s s' -> uncached c s -> uncached c s'.
Proof. intros (_ & _ & Hn) [?|?]; [by left|right; auto]. Qed.

Lemma stands_frame s s' rs : Forall (fun r => covers c (f_key r) -> f_got r = None \/ f_got r = o \/ uncached c s) rs ->
  safe_from s s' -> stands (s', rs).
Proof.
  intros Hrs [Hs Hf]. split; [done|]. eapply Forall_impl; [exact Hrs|]. intros r Hr Hcov. cbn [fst].
  destruct (Hr Hcov) as [?|[?|?]]; [by auto|by auto|]. do 2 right. by eapply uncached_frame.
Qed.

(** A step of somebody else leaves the write standing, the number of engines and
    the mode of the node. *)
Lemma stands_others x y : others c tickets x y -> stands x -> stands y /\ frame (fst x) (fst y).
Proof.
  intros Ho [Hs Hrs]. destruct Ho as [s rs i l s' Ht|s rs op Hop|s rs r Hf Hm|s rs1 r rs2]; cbn [fst snd] in *.
  - pose proof (thread_safe _ _ _ _ Ht Hs) as Hsf. split; [by eapply stands_frame|apply Hsf].
  - pose proof (run_op_safe s s op Hop (conj Hs (frame_refl s))) as Hsf. split; [by eapply stands_frame|apply Hsf].
  - split; [|done]. split; [done|]. constructor; [|done]. intros Hcov. by apply fetched_found.
  - rewrite Forall_app, Forall_cons in Hrs. destruct Hrs as (H1' & Hr & H2').
    pose proof (fill_safe s r Hs Hr) as Hsf. split; [|apply Hsf]. eapply stands_frame; [|exact Hsf].
    by apply Forall_app.
Qed.
Lemma stands_rtc x y : rtc (others c tickets) x y -> stands x -> stands y /\ frame (fst x) (fst y).
Proof.
  induction 1 as [x|x y z Hxy _ IH]; intros Hx; [by split|].
  destruct (stands_others x y Hxy Hx) as [Hy Hf]. destruct (IH Hy) as [Hz Hf']. split; [done|].
  by eapply frame_trans.
Qed.

(** A read of a claimed row once the writes are completed. *)
Lemma stands_read s rs ks tb parts : stands (s, rs) -> settled s tickets = true -> ks = claim_ks c ->
  covers c (row_key ks tb parts) -> placed c (dbs_len s) (row_engine ks tb parts s) ->
  snd (get_row ks tb parts s) = Ok o.
Proof.
  intros [Hs _] Hset -> Hcov Hpl. cbn [fst] in Hs.
  destruct (get_row_spec s (claim_ks c) tb parts) as (e & He & Hok & ->); [apply Hs|].
  pose proof (safe_rests s _ e _ Hs He Hpl Hcov Hset) as (_ & _ & Hv).
  destruct Hs as (_ & _ & Hc). destruct (Hc _ Hcov) as [-> | ->].
  - rewrite Hv. by destruct o.
  - destruct o; [done|]. by rewrite Hv.
Qed.
End standing.

(** A claim whose tickets are completed needs them no more. *)
Lemma stands_settled `{KVLaws} c tickets o s rs : settled s tickets = true ->
  stands c tickets o (s, rs) -> stands c [] o (s, rs).
Proof.
  intros Hset [Hs Hrs]. split; [|done]. cbn [fst] in *. destruct (Hs) as (Hok & _ & Hc). split; [done|]. split; [|done].
  intros i e key He Hpl Hcov. left. by eapply safe_rests.
Qed.

(** ** The schema meanwhile *)

(** The schema may change, but not the table of the claim, and the system keyspaces
    stay. *)
Definition evolves (c : Claim) (k k' : Cat) : Prop :=
  cat_tb k' !! (claim_ks c, claim_tb c) = cat_tb k !! (claim_ks c, claim_tb c) /\
  forall name, should_cache name = false -> is_Some (cat_ks k !! name) -> is_Some (cat_ks k' !! name).
#[global] Instance evolves_preorder c : PreOrder (evolves c).
Proof.
  split; [done|]. intros k1 k2 k3 [H1 H2] [H3 H4]. split; [congruence|eauto].
Qed.

Section schema.
Context `{KVLaws} `{JsonLaws}.

Definition spec_storage_op (op : StorageOp) (k : Cat) : Cat :=
  match op with SSchema op => fst (spec_op op k) | _ => k end.

Lemma covers_own c : exists key, covers c key /\ starts_with key (data_prefix (claim_ks c) (claim_tb c)) = true.
Proof.
  destruct c as [ks tb parts|ks tb].
  - exists (row_key ks tb parts). split; [done|apply starts_with_app].
  - exists (data_prefix ks tb). split; apply starts_with_true; done.
Qed.
Lemma avoids_own c : ~ avoids c (data_prefix (claim_ks c) (claim_tb c)).
Proof. intros Ha. destruct (covers_own c) as (key & Hc & Hp). by rewrite (Ha key Hc) in Hp. Qed.
Lemma avoids_own_ks c : ~ avoids c (dt_ks_prefix (claim_ks c)).
Proof.
  intros Ha. apply (avoids_own c). intros key Hc. specialize (Ha key Hc). apply not_true_iff_false.
  apply not_true_iff_false in Ha. contradict Ha. rewrite starts_with_true in *. etrans; [|exact Ha].
  unfold dt_ks_prefix, data_prefix. rewrite !app_assoc. do 2 apply prefix_app_r. done.
Qed.

Lemma spec_evolves c op k : spares c op -> evolves c k (spec_storage_op op k).
Proof.
  intros Hsp. destruct op as [ks tb p v|ks tb p|ks tb p v|ks tb p|ks tb|op|q stmt]; try done.
  destruct Hsp as [_ Hsp]. destruct op as [d|name|name|d|ks tb|ks tb]; cbn; try done.
  - split; [done|]. cbn. intros name _ Hk. rewrite lookup_insert. case_decide; eauto.
  - destruct Hsp as [Ha Hu]. split; cbn.
    + rewrite drop_filter_lookup. case_decide as Hd; [|done]. exfalso. apply (avoids_own_ks c). by rewrite Hd.
    + intros n Hn Hk. rewrite lookup_delete_ne; [done|]. intros ->. congruence.
  - split; [|done]. cbn. by rewrite lookup_insert_ne.
  - split; [|done]. cbn. rewrite lookup_delete_ne; [done|]. intros [= -> ->]. by apply (avoids_own c).
Qed.

Lemma truncate_represents s k ks tb : represents s k -> represents (fst (truncate_table ks tb s)) k.
Proof.
  intros Hrep. destruct (represents_meta s k Hrep) as (m & Hm & Hd).
  destruct (data_prefix_range ks tb) as (e & He & Hr).
  destruct (meta_delete_data s m _ e Hm He (starts_with_app _ _) Hr) as (s' & ts & Heq & Hm' & Hk & Ht).
  unfold truncate_table. rewrite Heq. cbn [fst].
  eapply meta_represents; [exact Hm'|done| |]; [rewrite Hk; apply (rep_ks _ _ Hrep)|rewrite Ht; apply (rep_tb _ _ Hrep)].
Qed.
Lemma ast_put_represents s k q stmt : represents s k -> represents (ast_cache_put q stmt s) k.
Proof. intros [Hs Hd Hk Ht]. split; [exact Hs|exact Hd|exact Hk|exact Ht]. Qed.

Lemma run_op_represents c s k op : spares c op -> represents s k ->
  represents (run_op op s) (spec_storage_op op k).
Proof.
  intros Hsp Hrep. destruct op as [ks tb p v|ks tb p|ks tb p v|ks tb p|ks tb|op|q stmt]; cbn [run_op spec_storage_op].
  - by destruct (put_row_represents s k ks tb p v Hrep) as (s' & t & -> & Hr).
  - by destruct (delete_row_represents s k ks tb p Hrep) as (s' & t & -> & Hr).
  - by destruct (put_row_sync_represents s k ks tb p v Hrep) as (s' & -> & Hr).
  - by destruct (delete_row_sync_represents s k ks tb p Hrep) as (s' & -> & Hr).
  - by apply truncate_represents.
  - by destruct (exec_op_refines s k op Hrep (proj1 Hsp)) as (s' & -> & Hr).
  - by apply ast_put_represents.
Qed.

(** The requests of others work on the schema as on two maps, and keep the table of
    the claim. *)
Lemma others_represents c tickets x y k : others c tickets x y -> represents (fst x) k ->
  exists k', represents (fst y) k' /\ evolves c k k'.
Proof.
  intros Ho Hrep. destruct Ho as [s rs i l s' Ht|s rs op Hop|s rs r Hf Hm|s rs1 r rs2]; cbn [fst] in *.
  - exists k. split; [|done]. eapply thread_represents; [done|]. by exists i, l.
  - exists (spec_storage_op op k). split; [by eapply run_op_represents|by apply spec_evolves].
  - by exists k.
  - exists k. split; [|done]. unfold row_fill. destruct (f_got r); [|done]. by apply represents_cached.
Qed.
Lemma others_rtc_represents c tickets x y k : rtc (others c tickets) x y -> represents (fst x) k ->
  exists k', represents (fst y) k' /\ evolves c k k'.
Proof.
  intros Hr. revert k. induction Hr as [x|x y z Hxy _ IH]; intros k Hk; [by exists k|].
  destruct (others_represents _ _ _ _ _ Hxy Hk) as (k1 & Hk1 & He1).
  destruct (IH k1 Hk1) as (k2 & Hk2 & He2). exists k2. split; [done|]. by etrans.
Qed.
End schema.

(** ** What an acknowledgement promises *)

Section acknowledged.
Context `{KVLaws} `{JsonLaws}.

Lemma thread_others c tickets s s' rs : rtc thread s s' -> rtc (others c tickets) (s, rs) (s', rs).
Proof. induction 1 as [|s s1 s2 (i & l & Hs) Hr IH]; [done|]. eapply rtc_l; [|exact IH]. by econstructor. Qed.

(** A whole [get_row] is such steps: of any row that is not claimed, and of a claimed
    one that it finds in the cache, or when the writes are completed. *)
Lemma get_row_others c tickets s rs ks tb parts : engines_ok s ->
  (covers c (row_key ks tb parts) -> is_Some (cache_lookup ks (row_key ks tb parts) s) \/
     (settled s tickets = true /\ placed c (dbs_len s) (row_engine ks tb parts s))) ->
  rtc (others c tickets) (s, rs) (fst (get_row ks tb parts s), rs).
Proof.
  intros Hs Hg. destruct (get_row_spec s ks tb parts Hs) as (e & He & Hok & ->).
  destruct (cache_lookup ks (row_key ks tb parts) s) as [w|] eqn:Hc; [done|].
  destruct (db_view (e_db e) !! row_key ks tb parts) as [v|] eqn:Hv; [|done]. cbn [fst].
  set (r := {| f_ks := ks; f_tb := tb; f_parts := parts; f_got := Some v |}).
  eapply rtc_l; [apply (oth_fetch c tickets s rs r)|].
  - cbn [r f_ks f_tb f_parts f_got]. by rewrite (row_fetch_eq _ _ _ _ _ Hok He), Hv.
  - intros Hcov. destruct (Hg Hcov) as [[? ?]|?]; [done|]. by do 2 right.
  - apply rtc_once. apply (oth_fill c tickets s [] r rs).
Qed.

Lemma no_stale_frame c s s' rs : frame s s' -> no_stale c s rs ->
  Forall (fun r => covers c (f_key r) -> f_got r = None \/ uncached c s') rs.
Proof.
  intros Hf Hn. eapply Forall_impl; [exact Hn|]. intros r Hr Hcov.
  destruct (Hr Hcov) as [?|?]; [by left|right; by eapply uncached_frame].
Qed.

Lemma get_row_frame s ks tb parts : engines_ok s -> frame s (fst (get_row ks tb parts s)).
Proof.
  intros Hs. destruct (get_row_spec s ks tb parts Hs) as (e & _ & _ & ->). repeat case_match; try done. cbn [fst].
  unfold frame, dbs_len. rewrite cached_engines, cached_sync. split; [done|]. split; [done|].
  intros Hn. unfold cached. case_match; [|done]. cbn. by rewrite Hn.
Qed.

(** A queued row operation succeeds and stands. *)
Lemma stands_sent s rs ks tb parts f op o : engines_ok s -> carries op ->
  (forall m, f m !! row_key ks tb parts = o) ->
  (forall m, apply_op m (op_of (op None)) !! row_key ks tb parts = o) ->
  no_stale (OneRow ks tb parts) s rs ->
  exists s1 t, (on_cache ks f;; write_data_op ks tb parts op) s = (s1, Ok t) /\
    stands (OneRow ks tb parts) [t] o (s1, rs) /\ frame s s1 /\ issued s1 t.
Proof.
  intros Hs Hop Hf Ho Hrs.
  destruct (row_op_spec s ks tb parts f op Hs Hop) as (e & e' & He & Hok & Hsend & Heq).
  set (i := row_engine ks tb parts s) in *. set (s1 := with_engine i e' (cached ks f s)) in *.
  assert (Hlen : dbs_len s1 = dbs_len s) by (unfold s1; rewrite dbs_len_with; unfold dbs_len; by rewrite cached_engines).
  assert (Hat : st_engines s1 !! i = Some e').
  { apply list_lookup_insert_eq. rewrite cached_engines. by eapply lookup_lt_Some. }
  assert (Hfr : frame s s1).
  { split; [done|]. split; [apply (cached_sync ks f s)|]. intros Hn. cbn. unfold cached. case_match; [|done].
    cbn. by rewrite Hn. }
  exists s1, (Some (i, e_next e)). split; [exact Heq|]. split; [split|split; [done|]]; cbn [fst snd].
  - split; [apply engines_ok_with; [by apply engines_ok_cached|by eapply engine_ok_send]|]. split.
    + intros j ej key Hj Hpl ->. cbn [placed] in Hpl. rewrite Hlen in Hpl. change (j = i) in Hpl. subst j.
      rewrite Hat in Hj. injection Hj as <-. right. exists (e_next e). split; [by left|]. by eapply written_sent.
    + intros key ->. cbn [claim_ks]. change (cache_lookup ks (row_key ks tb parts) s1)
        with (cache_lookup ks (row_key ks tb parts) (cached ks f s)). rewrite cache_lookup_cached.
      unfold cache_lookup. destruct (should_cache ks) eqn:E; cbn; [|by left].
      destruct (st_row_cache s); cbn; [right; apply Hf|by left].
  - eapply Forall_impl; [by eapply no_stale_frame|]. intros r Hr Hcov. cbn in *. destruct (Hr Hcov); auto.
  - exists e'. split; [done|]. apply send_spec in Hsend as (_ & _ & _ & _ & -> & _). lia.
Qed.
Lemma put_row_stands s rs ks tb parts v : engines_ok s -> no_stale (OneRow ks tb parts) s rs ->
  exists s1 t, put_row ks tb parts v s = (s1, Ok t) /\
    stands (OneRow ks tb parts) [t] (Some v) (s1, rs) /\ frame s s1 /\ issued s1 t.
Proof. intros Hs Hrs. apply stands_sent; [done|done|intros; apply lookup_insert_eq..|done]. Qed.
Lemma delete_row_stands s rs ks tb parts : engines_ok s -> no_stale (OneRow ks tb parts) s rs ->
  exists s1 t, delete_row ks tb parts s = (s1, Ok t) /\
    stands (OneRow ks tb parts) [t] None (s1, rs) /\ frame s s1 /\ issued s1 t.
Proof. intros Hs Hrs. apply stands_sent; [done|done|intros; apply lookup_delete_eq..|done]. Qed.

(** A read of the row, once its write is completed. *)
Lemma row_read ks tb parts tickets o s rs : stands (OneRow ks tb parts) tickets o (s, rs) ->
  settled s tickets = true -> snd (get_row ks tb parts s) = Ok o.
Proof. intros Hst Hset. by eapply stands_read. Qed.

Lemma settled_one s t : ticket_done s t = true -> settled s [t] = true.
Proof. intros Hd. cbn. by rewrite Hd. Qed.

(** C4: read your writes.  A row write is accepted whatever the state of the caches
    and pipelines, and once its ticket is completed - which is what the server
    waits for before it answers - every later read of the row returns the written
    bytes, whatever the pipeline threads do and whatever other requests do
    elsewhere: write other rows, truncate, drop and define other tables and
    keyspaces, read any row, this one included, in steps.  The condition is that
    nobody else writes this row or truncates or drops its table (or its keyspace),
    and that no read of this row takes an old version of it from the database
    before the write is completed and puts it into the row cache after the write
    was made: no read under way when the write is made holds one ([no_stale]),
    none finds one later ([may_find]).
    [racing_read_stale] and [cleared_cache_stale] show what happens otherwise. *)
Theorem acked_put_read s rs ks tb parts v :
  engines_ok s -> no_stale (OneRow ks tb parts) s rs ->
  exists s1 t, put_row ks tb parts v s = (s1, Ok t) /\
    forall s2 rs2, rtc (others (OneRow ks tb parts) [t]) (s1, rs) (s2, rs2) ->
      ticket_done s2 t = true -> snd (get_row ks tb parts s2) = Ok (Some v).
Proof.
  intros Hs Hrs. destruct (put_row_stands s rs ks tb parts v Hs Hrs) as (s1 & t & Heq & Hst & _).
  exists s1, t. split; [done|]. intros s2 rs2 Hr Hd. destruct (stands_rtc _ _ _ _ _ Hr Hst) as [Hst2 _].
  by eapply row_read, settled_one.
Qed.

(** An acknowledged delete is read back as an absent row, under the same
    condition. *)
Theorem acked_delete_read s rs ks tb parts :
  engines_ok s -> no_stale (OneRow ks tb parts) s rs ->
  exists s1 t, delete_row ks tb parts s = (s1, Ok t) /\
    forall s2 rs2, rtc (others (OneRow ks tb parts) [t]) (s1, rs) (s2, rs2) ->
      ticket_done s2 t = true -> snd (get_row ks tb parts s2) = Ok None.
Proof.
  intros Hs Hrs. destruct (delete_row_stands s rs ks tb parts Hs Hrs) as (s1 & t & Heq & Hst & _).
  exists s1, t. split; [done|]. intros s2 rs2 Hr Hd. destruct (stands_rtc _ _ _ _ _ Hr Hst) as [Hst2 _].
  by eapply row_read, settled_one.
Qed.

(** TRUNCATE is accepted, and the absence of every row of the table stands. *)
Lemma truncate_stands s rs ks tb : engines_ok s -> no_stale (WholeTable ks tb) s rs ->
  exists s1 ts, truncate_table ks tb s = (s1, Ok ts) /\ stands (WholeTable ks tb) ts None (s1, rs) /\
    Forall (issued s1) ts.
Proof.
  intros Hs Hrs. destruct (truncate_spec s ks tb Hs) as (e & l' & He & Hl' & Heq).
  destruct (data_prefix_range ks tb) as (e' & He' & Hrange). rewrite He in He'. injection He' as <-.
  set (s1 := set_row_cache (const ∅ <$> st_row_cache s) (set_engines l' s)) in *.
  assert (Hat : forall i a', l' !! i = Some a' -> exists a, st_engines s !! i = Some a /\ engine_ok a /\
    send a (DeleteRange (data_prefix ks tb) e) = Ok (a', e_next a)).
  { intros i a' Ha'. destruct (Forall2_lookup_r _ _ _ _ _ Hl' Ha') as (a & Ha & Hsend). exists a.
    split; [done|]. split; [|done]. eapply Forall_lookup_1; [apply Hs|done]. }
  eexists s1, _. split; [exact Heq|]. split; [split; cbn [fst snd]; [split; [|split]|]|].
  - split; [unfold dbs_len; cbn; rewrite <-(Forall2_length _ _ _ Hl'); apply Hs|].
    apply Forall_lookup. intros i a' Ha'. destruct (Hat i a' Ha') as (a & _ & Hok & Hsend).
    refine (engine_ok_send _ _ _ _ Hok (carries_range _ _) Hsend).
  - intros i a' key Ha' _ Hcov. destruct (Hat i a' Ha') as (a & Ha & Hok & Hsend). right. exists (e_next a). split.
    + apply list_elem_of_lookup. exists i. apply lookup_zip_with_Some. exists i, a. repeat split; [|done].
      apply lookup_seq. split; [done|]. by eapply lookup_lt_Some.
    + refine (written_sent _ _ _ _ _ _ Hok (carries_range _ _) Hsend _). cbn [op_of].
      rewrite apply_op_range_lookup, Hrange. by rewrite Hcov.
  - intros key _. left. unfold cache_lookup. cbn. case_match; [|done]. by destruct (st_row_cache s).
  - eapply Forall_impl; [exact Hrs|]. intros r Hr Hcov. destruct (Hr Hcov) as [?|[?|Hn]]; [by left|by do 2 right; left|].
    do 2 right. right. cbn. by rewrite Hn.
  - apply Forall_lookup. intros i [[j n]|] Hi; [|done].
    apply lookup_zip_with_Some in Hi as (j' & a & [= -> ->] & [-> _]%lookup_seq & Ha). cbn [issued].
    destruct (Forall2_lookup_l _ _ _ _ _ Hl' Ha) as (a' & Ha' & Hsend). exists a'. split; [done|].
    apply send_spec in Hsend as (_ & _ & _ & _ & -> & _). lia.
Qed.

(** While only threads run, the entries outside the table are what the earlier
    writes made them. *)
Lemma truncate_outside s ks tb s1 ts s2 : engines_ok s -> truncate_table ks tb s = (s1, Ok ts) ->
  rtc thread s1 s2 -> settled s2 ts = true ->
  Forall2 (fun e e2 => forall k, starts_with k (data_prefix ks tb) = false ->
             db_view (e_db e2) !! k = logical e !! k) (st_engines s) (st_engines s2).
Proof.
  intros Hs Ht Hr Hset. destruct (truncate_spec s ks tb Hs) as (e & l' & He & Hl' & Heq).
  rewrite Ht in Heq. injection Heq as -> ->.
  assert (Hsame : Forall2 same_work l' l').
  { apply Forall_Forall2_diag, Forall_lookup. intros i a' Ha'.
    destruct (Forall2_lookup_r _ _ _ _ _ Hl' Ha') as (a & Ha & Hsend).
    split; [|done]. refine (engine_ok_send _ _ _ _ _ (carries_range _ _) Hsend).
    eapply Forall_lookup_1; [apply Hs|done]. }
  pose proof (thread_same (set_row_cache (const ∅ <$> st_row_cache s) (set_engines l' s)) s2 l' Hsame Hr) as H2'.
  pose proof (settled_views s s2 l' _ Hs (carries_range _ _) Hl' H2' Hset) as Hv. cbn [op_of] in Hv.
  destruct (data_prefix_range ks tb) as (e' & He' & Hrange). rewrite He in He'. injection He' as <-.
  eapply Forall2_impl; [exact Hv|]. intros a a2 [_ ->] k Hk.
  by rewrite (apply_op_range_lookup (logical a)), Hrange, Hk.
Qed.

(** C27: TRUNCATE.  It is accepted whatever the state, and once its tickets are
    completed the table scans empty and point reads of its rows find nothing,
    whatever the pipeline threads do and whatever other requests do to other
    tables meanwhile.  The condition is that nobody writes rows of the table,
    drops it or truncates it again, and that no read takes a row of the table from the database before
    the TRUNCATE is completed and puts it into the row cache after it was made.
    When only the threads ran, every entry outside the table is what the engine's
    earlier writes made it, those still queued when the TRUNCATE came included. *)
Theorem truncate_empties s rs ks tb :
  engines_ok s -> no_stale (WholeTable ks tb) s rs ->
  exists s1 ts, truncate_table ks tb s = (s1, Ok ts) /\
    forall s2 rs2, rtc (others (WholeTable ks tb) ts) (s1, rs) (s2, rs2) -> settled s2 ts = true ->
      scan_rows s2 ks tb = Ok [] /\
      (forall parts, snd (get_row ks tb parts s2) = Ok None) /\
      (rtc thread s1 s2 ->
       Forall2 (fun e e2 => forall k, starts_with k (data_prefix ks tb) = false ->
                  db_view (e_db e2) !! k = logical e !! k) (st_engines s) (st_engines s2)).
Proof.
  intros Hs Hrs. destruct (truncate_stands s rs ks tb Hs Hrs) as (s1 & ts & Ht & Hst & _).
  exists s1, ts. split; [done|]. intros s2 rs2 Hr Hset. destruct (stands_rtc _ _ _ _ _ Hr Hst) as [Hst2 _].
  split; [|split].
  - rewrite scan_rows_eq by apply Hst2. f_equal. apply concat_nil_Forall, Forall_fmap, Forall_lookup.
    intros i a Ha. cbn. apply filter_none, Forall_forall. intros [k v] Hin Hk.
    apply elem_of_sorted_from in Hin as [Hin _]. cbn in Hk.
    destruct (safe_rests _ _ _ s2 i a k (proj1 Hst2) Ha I Hk Hset) as (_ & _ & Hv). congruence.
  - intros parts. eapply stands_read; [exact Hst2|done|done| |done]. apply starts_with_app.
  - intros Hth. by eapply truncate_outside.
Qed.
End acknowledged.

(** ** Examples *)

#[local] Existing Instances mem_kv mem_kv_laws.

(** A read of another row is under way. *)
Definition demo_fetched : Fetched := {| f_ks := bs "ks"; f_tb := bs "t"; f_parts := [bs "b"]; f_got := Some (bs "9") |}.
Lemma demo_fetched_elsewhere ks tb parts : row_key ks tb parts <> f_key demo_fetched ->
  no_stale (OneRow ks tb parts) demo_storage [demo_fetched].
Proof. intros Hne. apply Forall_singleton. intros Hc. by destruct Hne. Qed.

(** Another table is truncated, the threads run dry, and the other read fills the
    cache. *)
Definition demo_others (s : Storage) : Storage :=
  fst (row_fill (bs "ks") (bs "t") [bs "b"] (Some (bs "9")) (quiesce (fst (truncate_table (bs "ks") (bs "u") s)))).
Lemma demo_others_steps t s :
  rtc (others (H0 := bits_json) (OneRow (bs "ks") (bs "t") [bs "a"]) [t]) (s, [demo_fetched]) (demo_others s, []).
Proof.
  eapply rtc_l; [apply (oth_request (H0 := bits_json) _ _ s [demo_fetched] (STruncate (bs "ks") (bs "u")))|].
  - intros key ->. by_compute.
  - etrans; [apply thread_others, quiesce_thread|]. apply rtc_once.
    exact (oth_fill (H0 := bits_json) _ _ (quiesce (fst (truncate_table (bs "ks") (bs "u") s))) [] demo_fetched []).
Qed.
Definition demo_done (r : Storage * res str WriteTicket) : bool :=
  match r with (s1, Ok t) => ticket_done (demo_others s1) t | _ => false end.

Lemma acked_put_read_witness :
  exists s1 t, put_row (bs "ks") (bs "t") [bs "a"] (bs "2") demo_storage = (s1, Ok t) /\
    ticket_done (demo_others s1) t = true /\
    snd (get_row (bs "ks") (bs "t") [bs "a"] (demo_others s1)) = Ok (Some (bs "2")).
Proof.
  assert (Hd : demo_done (put_row (bs "ks") (bs "t") [bs "a"] (bs "2") demo_storage) = true)
    by (vm_compute; reflexivity).
  destruct (acked_put_read (H1 := bits_json) demo_storage [demo_fetched] (bs "ks") (bs "t") [bs "a"] (bs "2")
    demo_storage_ok) as (s1 & t & Hp & Hr); [apply demo_fetched_elsewhere; by_compute|].
  rewrite Hp in Hd. exists s1, t. split; [exact Hp|]. split; [exact Hd|].
  exact (Hr _ _ (demo_others_steps t s1) Hd).
Defined.

(** The row of [demo_storage] is deleted. *)
Lemma acked_delete_read_witness :
  exists s1 t, delete_row (bs "ks") (bs "t") [bs "a"] demo_storage = (s1, Ok t) /\
    ticket_done (demo_others s1) t = true /\
    snd (get_row (bs "ks") (bs "t") [bs "a"] demo_storage) = Ok (Some (bs "1")) /\
    snd (get_row (bs "ks") (bs "t") [bs "a"] (demo_others s1)) = Ok None.
Proof.
  assert (Hd : demo_done (delete_row (bs "ks") (bs "t") [bs "a"] demo_storage) = true)
    by (vm_compute; reflexivity).
  destruct (acked_delete_read (H1 := bits_json) demo_storage [demo_fetched] (bs "ks") (bs "t") [bs "a"]
    demo_storage_ok) as (s1 & t & Hp & Hr); [apply demo_fetched_elsewhere; by_compute|].
  rewrite Hp in Hd. exists s1, t. split; [exact Hp|]. split; [exact Hd|]. split; [vm_compute; reflexivity|].
  exact (Hr _ _ (demo_others_steps t s1) Hd).
Defined.

Lemma truncate_empties_witness :
  exists s1 ts, truncate_table (bs "ks") (bs "t") demo_storage = (s1, Ok ts) /\
    settled (quiesce s1) ts = true /\ scan_rows (quiesce s1) (bs "ks") (bs "t") = Ok [] /\
    snd (get_row (bs "ks") (bs "t") [bs "a"] (quiesce s1)) = Ok None.
Proof.
  assert (Hrs : no_stale (WholeTable (bs "ks") (bs "t")) demo_storage []) by apply Forall_nil_2.
  destruct (truncate_empties (H1 := bits_json) demo_storage [] (bs "ks") (bs "t") demo_storage_ok Hrs)
    as (s1 & ts & Ht & Hall).
  destruct (truncate_stands demo_storage [] (bs "ks") (bs "t") demo_storage_ok Hrs) as (s1' & ts' & Ht' & Hst & Hi).
  pose proof (eq_trans (eq_sym Ht) Ht') as Heq. injection Heq as <- <-.
  pose proof (quiesce_settled s1 ts (proj1 (proj1 Hst)) Hi) as Hset.
  exists s1, ts. split; [exact Ht|]. split; [exact Hset|].
  destruct (Hall (quiesce s1) [] (thread_others _ _ _ _ _ (quiesce_thread s1)) Hset) as (Hscan & Hget & _).
  split; [exact Hscan|exact (Hget [bs "a"])].
Defined.
