(* ===== verification/System.v ===== *)
(** * The system keyspaces and start-up

    Models [Storage::open] from the opened databases on, and [seed_system] of
    src/src/storage.rs: the keyspaces and tables a fresh node creates so that
    drivers can bootstrap. *)

From S2P Require Import Prelude RustStr Ast Schema CqlValue Keys Kv Pipeline Storage Rows Scans Catalog.

Definition col (name : string) (col_type : ColumnType) (is_partition_key : bool) : ColumnDef :=
  {| col_name := bs name; col_type := col_type; is_partition_key := is_partition_key;
     is_clustering := false |}.

Definition set_text : ColumnType := TSet TText.
Definition list_text : ColumnType := TList TText.
Definition map_tt : ColumnType := TMap TText TText.
Definition map_tb : ColumnType := TMap TText TBlob.

Definition local_def : TableDef :=
  {| td_keyspace := bs "system"; td_name := bs "local";
     td_columns :=
       [ col "key" TText true;
         col "bootstrapped" TText false;
         col "broadcast_address" TInet false;
         col "cluster_name" TText false;
         col "cql_version" TText false;
         col "data_center" TText false;
         col "gossip_generation" TInt false;
         col "host_id" TUuid false;
         col "listen_address" TInet false;
         col "native_protocol_version" TText false;
         col "partitioner" TText false;
         col "rack" TText false;
         col "release_version" TText false;
         col "rpc_address" TInet false;
         col "schema_version" TUuid false;
         col "tokens" (TSet TText) false ];
     td_partition_keys := [bs "key"]; td_clustering_keys := [] |}.
Definition peers_def : TableDef :=
  {| td_keyspace := bs "system"; td_name := bs "peers";
     td_columns :=
       [ col "peer" TInet true;
         col "data_center" TText false;
         col "host_id" TUuid false;
         col "preferred_ip" TInet false;
         col "rack" TText false;
         col "release_version" TText false;
         col "rpc_address" TInet false;
         col "schema_version" TUuid false;
         col "tokens" (TSet TText) false ];
     td_partition_keys := [bs "peer"]; td_clustering_keys := [] |}.
Definition sys_keyspaces : TableDef :=
  {| td_keyspace := bs "system_schema"; td_name := bs "keyspaces";
     td_columns :=
       [ col "keyspace_name" TText true;
         col "durable_writes" TBoolean false;
         col "replication" map_tt false ];
     td_partition_keys := [bs "keyspace_name"]; td_clustering_keys := [] |}.
Definition sys_tables : TableDef :=
  {| td_keyspace := bs "system_schema"; td_name := bs "tables";
     td_columns :=
       [ col "keyspace_name" TText true;
         col "table_name" TText true;
         col "bloom_filter_fp_chance" TDouble false;
         col "caching" map_tt false;
         col "comment" TText false;
         col "compaction" map_tt false;
         col "compression" map_tt false;
         col "crc_check_chance" TDouble false;
         col "dclocal_read_repair_chance" TDouble false;
         col "default_time_to_live" TInt false;
         col "extensions" map_tb false;
         col "flags" set_text false;
         col "gc_grace_seconds" TInt false;
         col "max_index_interval" TInt false;
         col "memtable_flush_period_in_ms" TInt false;
         col "min_index_interval" TInt false;
         col "read_repair_chance" TDouble false;
         col "speculative_retry" TText false ];
     td_partition_keys := [bs "keyspace_name"; bs "table_name"]; td_clustering_keys := [] |}.
Definition sys_columns : TableDef :=
  {| td_keyspace := bs "system_schema"; td_name := bs "columns";
     td_columns :=
       [ col "keyspace_name" TText true;
         col "table_name" TText true;
         col "column_name" TText true;
         col "clustering_order" TText false;
         col "column_name_bytes" TBlob false;
         col "kind" TText false;
         col "position" TInt false;
         col "type" TText false ];
     td_partition_keys := [bs "keyspace_name"; bs "table_name"; bs "column_name"]; td_clustering_keys := [] |}.
Definition sys_indexes : TableDef :=
  {| td_keyspace := bs "system_schema"; td_name := bs "indexes";
     td_columns :=
       [ col "keyspace_name" TText true;
         col "table_name" TText true;
         col "index_name" TText true;
         col "kind" TText false;
         col "options" TText false ];
     td_partition_keys := [bs "keyspace_name"; bs "table_name"; bs "index_name"]; td_clustering_keys := [] |}.
Definition sys_triggers : TableDef :=
  {| td_keyspace := bs "system_schema"; td_name := bs "triggers";
     td_columns :=
       [ col "keyspace_name" TText true;
         col "table_name" TText true;
         col "trigger_name" TText true;
         col "options" TText false ];
     td_partition_keys := [bs "keyspace_name"; bs "table_name"; bs "trigger_name"]; td_clustering_keys := [] |}.
Definition sys_types : TableDef :=
  {| td_keyspace := bs "system_schema"; td_name := bs "types";
     td_columns :=
       [ col "keyspace_name" TText true;
         col "type_name" TText true;
         col "field_names" list_text false;
         col "field_types" list_text false ];
     td_partition_keys := [bs "keyspace_name"; bs "type_name"]; td_clustering_keys := [] |}.
Definition sys_functions : TableDef :=
  {| td_keyspace := bs "system_schema"; td_name := bs "functions";
     td_columns :=
       [ col "keyspace_name" TText true;
         col "function_name" TText true;
         col "argument_names" list_text false;
         col "argument_types" list_text false;
         col "body" TText false;
         col "called_on_null_input" TBoolean false;
         col "language" TText false;
         col "return_type" TText false;
         col "deterministic" TBoolean false;
         col "monotonic" TBoolean false;
         col "monotonic_on" set_text false ];
     td_partition_keys := [bs "keyspace_name"; bs "function_name"; bs "argument_types"]; td_clustering_keys := [] |}.
Definition sys_aggregates : TableDef :=
  {| td_keyspace := bs "system_schema"; td_name := bs "aggregates";
     td_columns :=
       [ col "keyspace_name" TText true;
         col "aggregate_name" TText true;
         col "argument_types" list_text true;
         col "deterministic" TBoolean false;
         col "final_func" TText false;
         col "initcond" TText false;
         col "return_type" TText false;
         col "state_func" TText false;
         col "state_type" TText false ];
     td_partition_keys := [bs "keyspace_name"; bs "aggregate_name"; bs "argument_types"]; td_clustering_keys := [] |}.
Definition sys_views : TableDef :=
  {| td_keyspace := bs "system_schema"; td_name := bs "views";
     td_columns :=
       [ col "keyspace_name" TText true;
         col "view_name" TText true;
         col "base_table_name" TText false;
         col "include_all_columns" TBoolean false;
         col "where_clause" TText false;
         col "bloom_filter_fp_chance" TDouble false;
         col "caching" map_tt false;
         col "comment" TText false;
         col "compaction" map_tt false;
         col "compression" map_tt false;
         col "crc_check_chance" TDouble false;
         col "dclocal_read_repair_chance" TDouble false;
         col "default_time_to_live" TInt false;
         col "extensions" map_tb false;
         col "flags" set_text false;
         col "gc_grace_seconds" TInt false;
         col "max_index_interval" TInt false;
         col "memtable_flush_period_in_ms" TInt false;
         col "min_index_interval" TInt false;
         col "read_repair_chance" TDouble false;
         col "speculative_retry" TText false ];
     td_partition_keys := [bs "keyspace_name"; bs "view_name"]; td_clustering_keys := [] |}.
Definition vs_keyspaces : TableDef :=
  {| td_keyspace := bs "system_virtual_schema"; td_name := bs "keyspaces";
     td_columns :=
       [ col "keyspace_name" TText true;
         col "durable_writes" TBoolean false;
         col "replication" (TMap TText TText) false ];
     td_partition_keys := [bs "keyspace_name"]; td_clustering_keys := [] |}.

Definition localhost : IpAddr := V4 [Byte.x7f; Byte.x00; Byte.x00; Byte.x01].

(** The row of system.local; the two uuids are random. *)
Definition local_row (host_id schema_version : bytes) : list (Z * Value) :=
  [ (0%Z, VText (bs "local"));
    (1%Z, VText (bs "COMPLETED"));
    (2%Z, VInet localhost);
    (3%Z, VText (bs "RhydaDB Cluster"));
    (4%Z, VText (bs "3.4.5"));
    (5%Z, VText (bs "datacenter1"));
    (6%Z, VInt 0);
    (7%Z, VUuid host_id);
    (8%Z, VInet localhost);
    (9%Z, VText (bs "4"));
    (10%Z, VText (bs "org.apache.cassandra.dht.Murmur3Partitioner"));
    (11%Z, VText (bs "rack1"));
    (12%Z, VText (bs "4.0.7"));
    (13%Z, VInet localhost);
    (14%Z, VUuid schema_version);
    (15%Z, VSet [VText (bs "-9223372036854775808")]) ].

Definition sys_schema_defs : list TableDef :=
  [sys_keyspaces; sys_tables; sys_columns; sys_indexes; sys_triggers; sys_types; sys_functions;
   sys_aggregates; sys_views].

Section system.
Context `{KV} `{Json}.

Definition no_replication (name : string) : KeyspaceDef :=
  {| ks_name := bs name; ks_replication := [] |}.

(** What [seed_system] writes for a keyspace it does not find. *)
Definition seed_schema : st Storage str () :=
  put_keyspace (no_replication "system_schema");;
  for_each sys_schema_defs put_table.
Definition seed_virtual : st Storage str () :=
  put_keyspace (no_replication "system_virtual_schema");;
  put_table vs_keyspaces.
Definition seed_system (host_id schema_version : bytes) : st Storage str () :=
  sys ← get_keyspace (bs "system");
  match sys with
  | Some _ => mret ()
  | None =>
    put_keyspace (no_replication "system");;
    put_table local_def;;
    put_row_sync (bs "system") (bs "local") [bs "local"]
      (encode_row_columns (local_row host_id schema_version));;
    put_table peers_def
  end;;
  schema ← get_keyspace (bs "system_schema");
  match schema with
  | Some _ => mret ()
  | None => seed_schema
  end;;
  vs ← get_keyspace (bs "system_virtual_schema");
  match vs with
  | Some _ => mret ()
  | None => seed_virtual
  end.

(** [Storage::open] after the databases are open: [write_sync] is whether
    RHYDADB_SYNC is set, [cache_var] is RHYDADB_ROW_CACHE_ENTRIES. *)
Definition open_storage (dbs : list db) (write_sync : bool) (cache_var : option str) : Storage :=
  let row_cache_entries := env_num cache_var 500000 0 10000000 in
  {| st_engines := spawn_writer <$> dbs; st_keyspaces := ∅; st_tables := ∅; st_ast_cache := ∅;
     st_write_sync := write_sync;
     st_row_cache := if (row_cache_entries =? 0)%Z then None else Some ∅ |}.
Definition open (dbs : list db) (write_sync : bool) (cache_var : option str)
    (host_id schema_version : bytes) : Storage * res str () :=
  seed_system host_id schema_version (open_storage dbs write_sync cache_var).
End system.

(** ** What a node starts with *)

Definition all_tables : list TableDef := [local_def; peers_def] ++ sys_schema_defs ++ [vs_keyspaces].
Definition add_ks (c : Cat) (d : KeyspaceDef) : Cat := fst (spec_op (PutKs d) c).
Definition add_tb (c : Cat) (d : TableDef) : Cat := fst (spec_op (PutTb d) c).
Definition seeded_cat : Cat :=
  foldl add_tb (foldl add_ks empty_cat
    (no_replication <$> ["system"; "system_schema"; "system_virtual_schema"])) all_tables.

(** What [seed_system] makes of a catalog: each keyspace with its tables, when
    the keyspace is absent. *)
Definition if_absent (name : str) (f : Cat -> Cat) (c : Cat) : Cat :=
  match cat_ks c !! name with Some _ => c | None => f c end.
Definition add_system (c : Cat) : Cat :=
  add_tb (add_tb (add_ks c (no_replication "system")) local_def) peers_def.
Definition add_schema (c : Cat) : Cat :=
  foldl add_tb (add_ks c (no_replication "system_schema")) sys_schema_defs.
Definition add_virtual (c : Cat) : Cat :=
  add_tb (add_ks c (no_replication "system_virtual_schema")) vs_keyspaces.
Definition seed_cat (c : Cat) : Cat :=
  if_absent (bs "system_virtual_schema") add_virtual
    (if_absent (bs "system_schema") add_schema (if_absent (bs "system") add_system c)).

(** The three system keyspaces exist. *)
Definition has_system (c : Cat) : Prop :=
  Forall (fun n => is_Some (cat_ks c !! bs n)) ["system"; "system_schema"; "system_virtual_schema"].

Lemma seed_cat_id c : has_system c -> seed_cat c = c.
Proof.
  unfold has_system. rewrite !Forall_cons. intros ([d1 H1] & [d2 H2] & [d3 H3] & _).
  unfold seed_cat. unfold if_absent at 3. rewrite H1. unfold if_absent at 2. rewrite H2.
  unfold if_absent. by rewrite H3.
Qed.
Lemma seed_cat_empty : seed_cat empty_cat = seeded_cat.
Proof. reflexivity. Qed.

Lemma sys_defs_clean : Forall (fun d => no_bang (td_keyspace d)) all_tables.
Proof. by_compute. Qed.

Section system_lemmas.
Context `{KVLaws} `{JsonLaws}.

Lemma put_tables_refines s c defs : represents s c ->
  Forall (fun d => no_bang (td_keyspace d)) defs ->
  exists s', for_each defs put_table s = (s', Ok ()) /\ represents s' (foldl add_tb c defs).
Proof.
  intros Hrep Hd. revert s c Hrep. induction Hd as [|d defs Hd Hds IH]; intros s c Hrep.
  - by exists s.
  - destruct (put_table_refines s c d Hrep Hd) as (s1 & Hp & Hr1). cbn [for_each].
    rewrite (st_bind_eq _ _ _ _ _ Hp). apply (IH _ _ Hr1).
Qed.

(** Opened databases hold the catalog that is on the first of them. *)
Lemma opened_represents dbs sync var d c : Forall db_ok dbs -> dbs !! 0 = Some d -> db_holds (db_view d) c ->
  represents (open_storage dbs sync var) c.
Proof.
  intros Hok Hd Hc. split.
  - split; [unfold dbs_len; cbn; rewrite length_fmap; by eapply lookup_lt_Some|].
    cbn. apply Forall_fmap. eapply Forall_impl; [exact Hok|]. intros d' Hd'. by apply engine_ok_spawn.
  - exists (spawn_writer d). cbn. rewrite list_lookup_fmap, Hd. split; [done|]. split; [apply Forall_nil_2|done].
  - intros name x _ Hx. cbn in Hx. by rewrite lookup_empty in Hx.
  - intros ks tb x _ Hx. cbn in Hx. by rewrite lookup_empty in Hx.
Qed.

Lemma empty_holds : db_holds ∅ empty_cat.
Proof. split; intros; exact (lookup_empty (M := gmap bytes) _). Qed.

Lemma open_represents dbs sync var : dbs <> [] ->
  Forall (fun d => db_ok d /\ db_view d = ∅) dbs -> represents (open_storage dbs sync var) empty_cat.
Proof.
  intros Hne Hd. destruct dbs as [|d dbs]; [done|]. apply (opened_represents _ _ _ d); [|done|].
  - eapply Forall_impl; [exact Hd|]. by intros x [Hx _].
  - apply Forall_cons in Hd as [[_ ->] _]. apply empty_holds.
Qed.

(** One [if get_keyspace(name)?.is_none() { .. }] block. *)
Lemma seed_block s c name (body : st Storage str ()) f :
  represents s c -> no_bang name ->
  (forall t, represents t c -> exists t', body t = (t', Ok ()) /\ represents t' (f c)) ->
  exists s', (o ← get_keyspace name; match o with Some _ => mret () | None => body end) s = (s', Ok ()) /\
    represents s' (if_absent name f c).
Proof.
  intros Hrep Hn Hbody. destruct (get_keyspace_refines s c name Hrep Hn) as (s1 & Hg & Hr1).
  rewrite (st_bind_eq _ _ _ _ _ Hg). unfold if_absent. destruct (cat_ks c !! name) as [d|].
  - by exists s1.
  - by apply Hbody.
Qed.

(** Reading a keyspace touches neither the engines nor the row cache. *)
Lemma get_keyspace_files s c name : represents s c ->
  st_engines (fst (get_keyspace name s)) = st_engines s /\
  st_row_cache (fst (get_keyspace name s)) = st_row_cache s.
Proof.
  intros Hrep. unfold get_keyspace. rewrite (st_bind_eq _ _ s s (st_keyspaces s !! name)) by done.
  destruct (st_keyspaces s !! name); [done|].
  destruct (represents_meta s c Hrep) as (m & Hm & _). rewrite (st_bind_eq _ _ _ _ _ (meta_get _ _ _ Hm)).
  destruct (m !! ks_key name) as [b|]; [|done]. unfold lift, mbind, st_bind.
  by destruct (ks_from_slice b).
Qed.

Lemma seed_blocks s (b1 b2 b3 : st Storage str ()) n1 n2 n3 :
  (o1 ← get_keyspace n1; match o1 with Some _ => mret () | None => b1 end;;
   o2 ← get_keyspace n2; match o2 with Some _ => mret () | None => b2 end;;
   o3 ← get_keyspace n3; match o3 with Some _ => mret () | None => b3 end) s
  = ((o ← get_keyspace n1; match o with Some _ => mret () | None => b1 end);;
     (o ← get_keyspace n2; match o with Some _ => mret () | None => b2 end);;
     (o ← get_keyspace n3; match o with Some _ => mret () | None => b3 end)) s.
Proof.
  unfold mbind, st_bind. destruct (get_keyspace n1 s) as [s1 [o1|e|]]; [|done|done].
  destruct (match o1 with Some _ => mret () | None => b1 end s1) as [s2 [[]|e|]]; [|done|done].
  by destruct (get_keyspace n2 s2) as [s3 [o2|e|]].
Qed.

Lemma seed_refines s c host sv : represents s c ->
  exists s', seed_system host sv s = (s', Ok ()) /\ represents s' (seed_cat c).
Proof.
  intros Hrep. unfold seed_system. rewrite seed_blocks.
  destruct (seed_block s c (bs "system")
    (put_keyspace (no_replication "system");; put_table local_def;;
     put_row_sync (bs "system") (bs "local") [bs "local"] (encode_row_columns (local_row host sv));;
     put_table peers_def) add_system Hrep) as (s1 & E1 & R1); [by_compute| |].
  { intros t Ht. destruct (put_keyspace_refines t _ (no_replication "system") Ht) as (t1 & E1 & R1); [by_compute|].
    destruct (put_table_refines t1 _ local_def R1) as (t2 & E2 & R2); [by_compute|].
    destruct (put_row_sync_represents t2 _ (bs "system") (bs "local") [bs "local"]
      (encode_row_columns (local_row host sv)) R2) as (t3 & E3 & R3).
    destruct (put_table_refines t3 _ peers_def R3) as (t4 & E4 & R4); [by_compute|].
    exists t4. rewrite (st_bind_eq _ _ _ _ _ E1), (st_bind_eq _ _ _ _ _ E2), (st_bind_eq _ _ _ _ _ E3). done. }
  rewrite (st_bind_eq _ _ _ _ _ E1).
  destruct (seed_block s1 _ (bs "system_schema") seed_schema add_schema R1) as (s2 & E2 & R2); [by_compute| |].
  { intros t Ht. destruct (put_keyspace_refines t _ (no_replication "system_schema") Ht) as (t1 & E3 & R3); [by_compute|].
    destruct (put_tables_refines t1 _ sys_schema_defs R3) as (t2 & E4 & R4); [by_compute|].
    exists t2. unfold seed_schema. by rewrite (st_bind_eq _ _ _ _ _ E3). }
  rewrite (st_bind_eq _ _ _ _ _ E2).
  apply (seed_block s2 _ (bs "system_virtual_schema") seed_virtual add_virtual R2); [by_compute|].
  intros t Ht. destruct (put_keyspace_refines t _ (no_replication "system_virtual_schema") Ht) as (t1 & E3 & R3); [by_compute|].
  destruct (put_table_refines t1 _ vs_keyspaces R3) as (t2 & E4 & R4); [by_compute|].
  exists t2. unfold seed_virtual. by rewrite (st_bind_eq _ _ _ _ _ E3).
Qed.

(** With the three keyspaces present only the keyspace map changes. *)
Lemma seed_present s c host sv : represents s c -> has_system c ->
  exists s', seed_system host sv s = (s', Ok ()) /\ represents s' c /\
    st_engines s' = st_engines s /\ st_row_cache s' = st_row_cache s.
Proof.
  intros Hrep Hks. destruct (seed_refines s c host sv Hrep) as (s' & Hs & Hr).
  rewrite seed_cat_id in Hr by done. exists s'. split; [done|]. split; [done|].
  unfold has_system in Hks. rewrite !Forall_cons in Hks. destruct Hks as ([d1 Hk1] & [d2 Hk2] & [d3 Hk3] & _).
  clear Hr. revert Hs. unfold seed_system. rewrite seed_blocks.
  assert (Hb : forall t name (body : st Storage str ()) d, represents t c -> no_bang name ->
    cat_ks c !! name = Some d ->
    exists t', (o ← get_keyspace name; match o with Some _ => mret () | None => body end) t = (t', Ok ()) /\
      represents t' c /\ st_engines t' = st_engines t /\ st_row_cache t' = st_row_cache t).
  { intros t name body d Ht Hn Hd. destruct (get_keyspace_refines t c name Ht Hn) as (t1 & Hg & Hr1).
    rewrite (st_bind_eq _ _ _ _ _ Hg), Hd. exists t1. split; [done|]. split; [done|].
    pose proof (get_keyspace_files t c name Ht) as Hf. by rewrite Hg in Hf. }
  edestruct (Hb s (bs "system")) as (s1 & E1 & R1 & F1 & G1); [done|by_compute|done|].
  rewrite (st_bind_eq _ _ _ _ _ E1).
  edestruct (Hb s1 (bs "system_schema")) as (s2 & E2 & R2 & F2 & G2); [done|by_compute|done|].
  rewrite (st_bind_eq _ _ _ _ _ E2).
  edestruct (Hb s2 (bs "system_virtual_schema")) as (s3 & E3 & R3 & F3 & G3); [done|by_compute|done|].
  rewrite E3. intros [= <-]. split; congruence.
Qed.

(** Start-up.  Opening fresh engines succeeds and leaves exactly the three
    system keyspaces with their twelve tables; opening engines that already
    hold them, with any further schema, changes nothing. *)
Theorem open_seeds dbs sync var host sv :
  dbs <> [] -> Forall (fun d => db_ok d /\ db_view d = ∅) dbs ->
  (exists s, open dbs sync var host sv = (s, Ok ()) /\ represents s seeded_cat) /\
  (forall s c, represents s c ->
     Forall (fun n => is_Some (cat_ks c !! bs n)) ["system"; "system_schema"; "system_virtual_schema"] ->
     exists s', seed_system host sv s = (s', Ok ()) /\ represents s' c).
Proof.
  intros Hne Hd. split.
  - unfold open. rewrite <-seed_cat_empty. by apply seed_refines, open_represents.
  - intros s c Hr Hc. destruct (seed_refines s c host sv Hr) as (s' & Hs & Hr'). exists s'. by rewrite <-(seed_cat_id c Hc).
Qed.
End system_lemmas.

Lemma open_seeds_witness :
  exists s, open (H := mem_kv) (H0 := bits_json) [∅; ∅] true None [] [] = (s, Ok ()) /\
    represents (H0 := mem_kv_laws) (H1 := bits_json) s seeded_cat /\
    cat_tb seeded_cat !! (bs "system", bs "peers") = Some peers_def.
Proof.
  destruct (open_seeds (H0 := mem_kv_laws) (H2 := bits_json_laws) [∅; ∅] true None [] [])
    as [(s & Ho & Hr) _].
  - done.
  - repeat apply Forall_cons_2; [by split|by split|apply Forall_nil_2].
  - exists s. split; [exact Ho|]. split; [exact Hr|]. vm_compute. reflexivity.
Defined.

(** The seeded definitions are well-formed tables, with one exception:
    system_schema.functions lists [argument_types] among its partition keys but
    declares the column without the partition flag (system_schema.aggregates
    has it), so the flag and the key list disagree. *)
Theorem seeded_tables_wf :
  Forall table_wf (filter (fun d => td_name d <> bs "functions") all_tables) /\
  ~ table_wf sys_functions /\
  (exists c, column sys_functions (bs "argument_types") = Some c /\ is_partition_key c = false) /\
  bs "argument_types" ∈ td_partition_keys sys_functions.
Proof.
  split; [|split; [|split]].
  - apply Forall_forall. intros d. vm_compute filter. intros Hd.
    repeat (apply elem_of_cons in Hd as [->|Hd]; [unfold table_wf, key_names; cbn; repeat split; by_compute|]).
    by apply not_elem_of_nil in Hd.
  - intros (_ & _ & _ & _ & Hf & _). rewrite Forall_forall in Hf.
    destruct (Hf (col "argument_types" list_text false)) as [[_ Hp] _];
      [by apply (list_elem_of_lookup_2 _ 3)|].
    assert (Ht : is_partition_key (col "argument_types" list_text false) = true); [|done].
    apply Hp. by_compute.
  - eexists. split; [reflexivity|done].
  - by_compute.
Qed.
