(* ===== verification/Query.v ===== *)
(** * The query engine

    Models src/src/query.rs: statement execution over the storage layer.  The
    CQL parser and the literal grammars of the standard library are parameters.
    A statement runs in the state [QS]: the storage, the bind values with the
    position of the next one, and the write tickets gathered for the server. *)

From S2P Require Import Prelude RustStr Ast Schema CqlValue Keys Project Kv Pipeline Storage.

Record QueryError := { qe_code : Z; qe_message : str }.

Definition syntax_err (msg : str) : QueryError := {| qe_code := 0x2000; qe_message := msg |}.
Definition invalid_err (msg : str) : QueryError := {| qe_code := 0x2200; qe_message := msg |}.
Definition already_exists_err (keyspace table : str) : QueryError :=
  {| qe_code := 0x2400; qe_message := keyspace ++ bs "." ++ table ++ bs " already exists" |}.
Definition internal_err (e : str) : QueryError :=
  {| qe_code := 0; qe_message := bs "internal error: " ++ e |}.

Definition strip_quotes (s : str) : str := trim_end_quotes (trim_start_quotes (trim s)).

Definition SYSTEM_KEYSPACES : list str := [bs "system"; bs "system_schema"; bs "system_virtual_schema"].

Definition check_writable (keyspace : str) : res QueryError () :=
  if bool_decide (keyspace ∈ SYSTEM_KEYSPACES)
  then Err (invalid_err (bs "Modifications to keyspace '" ++ keyspace ++ bs "' are not allowed"))
  else Ok ().

Inductive SchemaChange := CREATED | DROPPED.
Inductive SchemaTarget := KEYSPACE | TABLE.

Inductive Response :=
| Rows (keyspace table : str) (cols : list (str * ColumnType)) (rows : list (list Value))
    (paging_state : option bytes)
| Void
| SetKeyspace (keyspace : str)
| SchemaChanged (change : SchemaChange) (target : SchemaTarget) (keyspace table : str).

Record PreparedInfo := {
  pi_keyspace : str;
  pi_table : str;
  pi_bind_specs : list (str * ColumnType);
  pi_pk_indexes : list Z;
  pi_result_cols : list (str * ColumnType);
}.

(** A bind value as it comes off the wire. *)
Inductive RawValue := RvNull | RvUnset | RvValue (raw : bytes).
Definition as_value (rv : RawValue) : option bytes :=
  match rv with RvValue raw => Some raw | _ => None end.

Inductive Filter := FEq (name : str) (v : Value) | FIn (name : str) (vs : list Value).

(** [limit as usize] and the like. *)
Definition as_usize (z : Z) : Z := uwrap 64 z.
(** [5000usize]. *)
Definition hard_cap : Z := 5000.

Section query.
Context `{KV} `{Json} `{UnicodeCase} `{Literals}.
(** The parser: the first statement, when the text has no error. *)
Context (parse : str -> option CassandraStatement).
(** The parser's name for a kind of statement, used in messages. *)
Context (short_name : CassandraStatement -> str).

Record QS := {
  q_storage : Storage;
  q_values : list RawValue;
  q_next : nat;
  q_gates : list WriteTicket;
}.
Abbreviation S := (st Storage QueryError).
Abbreviation Q := (st QS QueryError).

(** Storage calls inside a statement; [internal] maps their errors. *)
Definition on_storage {A} (m : S A) : Q A := fun q =>
  let '(s, r) := m (q_storage q) in
  ({| q_storage := s; q_values := q_values q; q_next := q_next q; q_gates := q_gates q |}, r).
Definition internal {A} (m : st Storage str A) : S A := st_map_err internal_err m.

Definition gates_extend (ts : list WriteTicket) : Q () :=
  modify (fun q => {| q_storage := q_storage q; q_values := q_values q; q_next := q_next q;
                      q_gates := q_gates q ++ ts |}).

(** [Binds::take]. *)
Definition take_bind (col_type : ColumnType) : Q Value := fun q =>
  match q_values q !! q_next q with
  | None => (q, Err (invalid_err (bs "Invalid amount of bind variables")))
  | Some rv =>
    ({| q_storage := q_storage q; q_values := q_values q; q_next := Datatypes.S (q_next q);
        q_gates := q_gates q |},
     match as_value rv with
     | Some raw => map_err (fun e => invalid_err (bs "Invalid bind value: " ++ e))
                     (from_raw_bytes raw col_type)
     | None => Ok VNull
     end)
  end.

(** ** The schema mirror *)

Definition put_system_schema_row (table : string) (pk : list str) (cols : list (string * Value))
    : st Storage str () :=
  def ← get_table (bs "system_schema") (bs table);
  def ← lift (ok_or def (bs "system_schema." ++ bs table ++ bs " missing"));
  row ← lift (map_res (fun nv =>
                idx ← ok_or (column_index def (bs (fst nv))) (bs "column " ++ bs (fst nv) ++ bs " missing");
                Ok (uwrap 16 (Z.of_nat idx), snd nv)) cols);
  put_row_sync (bs "system_schema") (bs table) pk (encode_row_columns row).

Definition delete_system_schema_partition (table : string) (partition_key : list bytes)
    : st Storage str () :=
  s ← gets id;
  entries ← lift (scan_partition s (bs "system_schema") (bs table) partition_key);
  for_each entries (fun kv =>
    parts ← lift (decode_key (bs "system_schema") (bs table) (fst kv));
    delete_row_sync (bs "system_schema") (bs table) parts).

(** ** Resolving names *)

Definition no_keyspace : QueryError := invalid_err (bs "No keyspace specified; use USE <keyspace>").
Definition name_keyspace (session_ks : option str) (name : FQName) : res QueryError str :=
  match fq_keyspace name with
  | Some k => Ok (norm_id k)
  | None => ok_or session_ks no_keyspace
  end.

Definition resolve_table (session_ks : option str) (name : FQName) : S (str * TableDef) :=
  keyspace ← lift (name_keyspace session_ks name);
  let table := norm_id (fq_name name) in
  o ← internal (get_table keyspace table);
  def ← lift (ok_or o (invalid_err (bs "table " ++ keyspace ++ bs "." ++ table ++ bs " does not exist")));
  mret (keyspace, def).

Definition undefined_column (name : str) : QueryError :=
  invalid_err (bs "Undefined column name " ++ name).

Fixpoint select_columns_loop (table : TableDef) (elems : list SelectElement)
    (all_columns : bool) (selected : list (str * ColumnType)) : res QueryError (bool * list (str * ColumnType)) :=
  match elems with
  | [] => Ok (all_columns, selected)
  | SelStar :: r => select_columns_loop table r true selected
  | SelColumn named :: r =>
    let name := norm_id (nm_name named) in
    c ← ok_or (column table name) (undefined_column name);
    select_columns_loop table r all_columns (selected ++ [(norm_id (alias_or_name named), col_type c)])
  | SelFunction _ :: _ => Err (invalid_err (bs "Functions in SELECT are not supported"))
  end.
Definition select_columns (table : TableDef) (elems : list SelectElement)
    : res QueryError (list (str * ColumnType)) :=
  '(all_columns, selected) ← select_columns_loop table elems false [];
  Ok (if (all_columns : bool) then (fun c => (col_name c, col_type c)) <$> td_columns table else selected).

Fixpoint collect_where_binds (table : TableDef) (where_clause : list RelationElement)
    (out : list (str * ColumnType)) : res QueryError (list (str * ColumnType)) :=
  match where_clause with
  | [] => Ok out
  | rel :: r =>
    match rel_obj rel with
    | OpColumn col =>
      let name := norm_id col in
      c ← ok_or (column table name) (undefined_column name);
      let out := match rel_value rel with
                 | OpParam _ => out ++ [(name, col_type c)]
                 | OpTuple items =>
                   out ++ omap (fun item => match item with
                                            | OpParam _ => Some (name, col_type c)
                                            | _ => None end) items
                 | _ => out
                 end in
      collect_where_binds table r out
    | _ => Err (invalid_err (bs "Only column restrictions are supported in WHERE"))
    end
  end.

Definition prepared_info (session_ks : option str) (stmt : CassandraStatement) : S PreparedInfo :=
  match stmt with
  | StInsert i =>
    '(keyspace, table) ← resolve_table session_ks (ins_table_name i);
    bind_specs ← lift (map_res (fun col_id =>
                         let name := norm_id col_id in
                         c ← ok_or (column table name) (undefined_column name);
                         Ok (name, col_type c)) (ins_columns i));
    let pk_indexes := omap (fun pk =>
                        (fun pos => uwrap 16 (Z.of_nat pos)) <$>
                        position (fun c => bool_decide (norm_id c = pk)) (ins_columns i)) (key_names table) in
    mret {| pi_keyspace := keyspace; pi_table := td_name table; pi_bind_specs := bind_specs;
            pi_pk_indexes := pk_indexes; pi_result_cols := [] |}
  | StUpdate u =>
    '(keyspace, table) ← resolve_table session_ks (upd_table_name u);
    sets ← lift (map_res (fun a =>
                   let name := norm_id (asg_column a) in
                   c ← ok_or (column table name) (undefined_column name);
                   Ok (name, col_type c)) (upd_assignments u));
    bind_specs ← lift (collect_where_binds table (upd_where u) sets);
    mret {| pi_keyspace := keyspace; pi_table := td_name table; pi_bind_specs := bind_specs;
            pi_pk_indexes := []; pi_result_cols := [] |}
  | StSelect s =>
    '(keyspace, table) ← resolve_table session_ks (sel_table_name s);
    bind_specs ← lift (collect_where_binds table (sel_where s) []);
    result_cols ← lift (select_columns table (sel_columns s));
    mret {| pi_keyspace := keyspace; pi_table := td_name table; pi_bind_specs := bind_specs;
            pi_pk_indexes := []; pi_result_cols := result_cols |}
  | StDelete d =>
    '(keyspace, table) ← resolve_table session_ks (del_table_name d);
    bind_specs ← lift (collect_where_binds table (del_where d) []);
    mret {| pi_keyspace := keyspace; pi_table := td_name table; pi_bind_specs := bind_specs;
            pi_pk_indexes := []; pi_result_cols := [] |}
  | other => throw (invalid_err (bs "Statement cannot be prepared: " ++ short_name other))
  end.

Definition syntax_error : QueryError := syntax_err (bs "line 1: syntax error in statement").
Definition parse_cached (query : str) : S CassandraStatement :=
  c ← gets (ast_cache_get query);
  match c with
  | Some stmt => mret stmt
  | None =>
    stmt ← lift (ok_or (parse query) syntax_error);
    modify (ast_cache_put query stmt);;
    mret stmt
  end.

(** ** Schema statements *)

Definition exec_use (id : Identifier) : S Response :=
  let ks := norm_id id in
  o ← internal (get_keyspace ks);
  match o with
  | None => throw (invalid_err (bs "Keyspace '" ++ ks ++ bs "' does not exist"))
  | Some _ => mret (SetKeyspace ks)
  end.

Definition exec_create_keyspace (ks : CreateKeyspace) : S Response :=
  let name := norm_id (ck_name ks) in
  o ← internal (get_keyspace name);
  match o with
  | Some _ => if ck_if_not_exists ks then mret Void else throw (already_exists_err name [])
  | None =>
    if bool_decide (name ∈ SYSTEM_KEYSPACES)
    then throw (invalid_err (bs "Cannot create keyspace '" ++ name ++ bs "'"))
    else
      let def := {| ks_name := name; ks_replication := ck_replication ks |} in
      internal (put_keyspace def);;
      let replication := (fun kv => (VText (strip_quotes (fst kv)), VText (strip_quotes (snd kv))))
                           <$> ks_replication def in
      internal (put_system_schema_row "keyspaces" [name]
        [("durable_writes", VBoolean true); ("replication", VMap replication)]);;
      mret (SchemaChanged CREATED KEYSPACE name [])
  end.

(** 0.01, 1.0, 0.1 and 0.0 as doubles. *)
Definition table_options : list (string * Value) :=
  [ ("bloom_filter_fp_chance", VDouble 0x3f847ae147ae147b);
    ("caching", VMap []);
    ("comment", VText []);
    ("compaction", VMap [(VText (bs "class"),
       VText (bs "org.apache.cassandra.db.compaction.SizeTieredCompactionStrategy"))]);
    ("compression", VMap []);
    ("crc_check_chance", VDouble 0x3ff0000000000000);
    ("dclocal_read_repair_chance", VDouble 0x3fb999999999999a);
    ("default_time_to_live", VInt 0);
    ("extensions", VMap []);
    ("flags", VSet [VText (bs "compound")]);
    ("gc_grace_seconds", VInt 864000);
    ("max_index_interval", VInt 2048);
    ("memtable_flush_period_in_ms", VInt 0);
    ("min_index_interval", VInt 128);
    ("read_repair_chance", VDouble 0);
    ("speculative_retry", VText (bs "99PERCENTILE")) ].

(** The kind, position and order of a column in system_schema.columns. *)
Definition column_kind (def : TableDef) (c : ColumnDef) : res str (string * Z * string) :=
  if is_partition_key c then
    p ← unwrap (position (fun p => bool_decide (p = col_name c)) (td_partition_keys def));
    Ok ("partition_key", swrap 32 (Z.of_nat p), "NONE")%string
  else if is_clustering c then
    p ← unwrap (position (fun p => bool_decide (p = col_name c)) (td_clustering_keys def));
    Ok ("clustering", swrap 32 (Z.of_nat p), "ASC")%string
  else Ok ("regular", (-1)%Z, "NONE")%string.

Definition mirror_table_metadata (def : TableDef) : st Storage str () :=
  put_system_schema_row "tables" [td_keyspace def; td_name def] table_options;;
  for_each (td_columns def) (fun c =>
    '(kind, position, clustering_order) ← lift (column_kind def c);
    put_system_schema_row "columns" [td_keyspace def; td_name def; col_name c]
      [ ("clustering_order", VText (bs clustering_order));
        ("column_name_bytes", VBlob (col_name c));
        ("kind", VText (bs kind));
        ("position", VInt position);
        ("type", VText (cql_string (col_type c))) ]).

Definition unmirror_table_metadata (keyspace table : str) : st Storage str () :=
  _ ← delete_row (bs "system_schema") (bs "tables") [keyspace; table];
  delete_system_schema_partition "columns" [keyspace; table].

Definition unsupported_type : QueryError :=
  invalid_err (bs "Unsupported column type; supported types: int, bigint, smallint, tinyint, float, double, boolean, text, varchar, ascii, blob, timestamp, uuid, inet").

(** CREATE TABLE, as one step: the threads and other requests act before and after
    it, not between its writes. *)
Definition exec_create_table (session_ks : option str) (t : CreateTable) : S Response :=
  keyspace ← lift (name_keyspace session_ks (ct_name t));
  let table := norm_id (fq_name (ct_name t)) in
  o ← internal (get_table keyspace table);
  match o with
  | Some _ => if ct_if_not_exists t then mret Void else throw (already_exists_err keyspace table)
  | None =>
    lift (check_writable keyspace);;
    def ← lift (ok_or (build_table_def keyspace table t) unsupported_type);
    if bool_decide (td_partition_keys def = [])
    then throw (invalid_err (bs "Primary key is required"))
    else
      internal (put_table def);;
      internal (mirror_table_metadata def);;
      mret (SchemaChanged CREATED TABLE keyspace table)
  end.

Definition exec_drop_keyspace (d : CommonDrop) : Q Response :=
  let name := norm_id (fq_name (cdr_name d)) in
  o ← on_storage (internal (get_keyspace name));
  match o with
  | None => if cdr_if_exists d then mret Void
            else throw (invalid_err (bs "Cannot drop non existing keyspace '" ++ name ++ bs "'"))
  | Some _ =>
    lift (check_writable name);;
    tickets ← on_storage (internal (delete_keyspace name));
    gates_extend tickets;;
    for_each ["keyspaces"; "tables"; "columns"]%string (fun table =>
      on_storage (internal (delete_system_schema_partition table [name])));;
    mret (SchemaChanged DROPPED KEYSPACE name [])
  end.

Definition exec_drop_table (session_ks : option str) (d : CommonDrop) : Q Response :=
  keyspace ← lift (name_keyspace session_ks (cdr_name d));
  let table := norm_id (fq_name (cdr_name d)) in
  o ← on_storage (internal (get_table keyspace table));
  match o with
  | None => if cdr_if_exists d then mret Void
            else throw (invalid_err (bs "Cannot drop non existing table '" ++ keyspace ++ bs "." ++ table ++ bs "'"))
  | Some _ =>
    lift (check_writable keyspace);;
    tickets ← on_storage (internal (delete_table keyspace table));
    gates_extend tickets;;
    on_storage (internal (unmirror_table_metadata keyspace table));;
    mret (SchemaChanged DROPPED TABLE keyspace table)
  end.

Definition exec_truncate (session_ks : option str) (name : FQName) : Q Response :=
  '(keyspace, _) ← on_storage (resolve_table session_ks name);
  lift (check_writable keyspace);;
  tickets ← on_storage (internal (truncate_table keyspace (norm_id (fq_name name))));
  gates_extend tickets;;
  mret Void.

(** ** Values and filters *)

Definition const_to_value (text : str) (col_type : ColumnType) : res QueryError Value :=
  map_err invalid_err (parse_literal text col_type).

Definition type_mismatch : QueryError := invalid_err (bs "Collection type mismatch in values").

(** The recursive calls of the source are on [Operand::Const]. *)
Definition operand_to_value (operand : Operand) (col_type : ColumnType) : Q Value :=
  match operand with
  | OpNull => mret VNull
  | OpConst text => lift (const_to_value text col_type)
  | OpParam _ => take_bind col_type
  | OpSet items =>
    match col_type with
    | TSet elem => lift (VSet <$> map_res (fun it => const_to_value it elem) items)
    | _ => throw type_mismatch
    end
  | OpList items =>
    match col_type with
    | TList elem => lift (VList <$> map_res (fun it => const_to_value it elem) items)
    | _ => throw type_mismatch
    end
  | OpMap entries =>
    match col_type with
    | TMap k_type v_type =>
      lift (VMap <$> map_res (fun kv => k ← const_to_value (fst kv) k_type;
                                        v ← const_to_value (snd kv) v_type;
                                        Ok (k, v)) entries)
    | _ => throw type_mismatch
    end
  | _ => throw (invalid_err (bs "Only literal values are supported (no bind markers)"))
  end.

Definition only_literals : QueryError := invalid_err (bs "Only literal values are supported in WHERE").

(** A literal or a bind marker. *)
Definition simple_value (operand : Operand) (col_type : ColumnType) : Q Value :=
  match operand with
  | OpConst text => lift (const_to_value text col_type)
  | OpParam _ => take_bind col_type
  | _ => throw only_literals
  end.

Definition parse_filter (table : TableDef) (rel : RelationElement) : Q Filter :=
  match rel_obj rel with
  | OpColumn id =>
    match find_first (fun c => ident_eq id (col_name c)) (td_columns table) with
    | None => throw (undefined_column (norm_id id))
    | Some def =>
      match rel_oper rel with
      | RelEqual =>
        match rel_value rel with
        | OpNull => mret (FEq (col_name def) VNull)
        | v => FEq (col_name def) <$> simple_value v (col_type def)
        end
      | RelIn =>
        match rel_value rel with
        | OpTuple items => FIn (col_name def) <$> map_st (fun it => simple_value it (col_type def)) items
        | v => (fun x => FIn (col_name def) [x]) <$> simple_value v (col_type def)
        end
      | RelOther => throw (invalid_err (bs "Only '=' and 'IN' restrictions are supported in WHERE"))
      end
    end
  | _ => throw (invalid_err (bs "Only column restrictions are supported in WHERE"))
  end.
Definition parse_filters (table : TableDef) (where_clause : list RelationElement) : Q (list Filter) :=
  map_st (parse_filter table) where_clause.

(** The first [=] restriction of a column. *)
Definition eq_value (filters : list Filter) (name : str) : option Value :=
  head (omap (fun f => match f with
                       | FEq n v => if bool_decide (n = name) then Some v else None
                       | FIn _ _ => None end) filters).

Definition key_parts_from_filters (table : TableDef) (filters : list Filter) : res QueryError (list bytes) :=
  map_res (fun name =>
    v ← ok_or (eq_value filters name)
          (invalid_err (bs "Restrictions are incomplete for key part " ++ name));
    if value_eqb v VNull
    then Err (invalid_err (bs "Invalid null value for key part " ++ name))
    else Ok (raw_bytes v)) (key_names table).

(** ** INSERT *)

(** The loop over columns and values: [resolved[idx] = Some(v)]. *)
Fixpoint resolve_values (table : TableDef) (pairs : list (Identifier * Operand))
    (resolved : list (option Value)) : Q (list (option Value)) :=
  match pairs with
  | [] => mret resolved
  | (col_id, operand) :: r =>
    match position (fun c => ident_eq col_id (col_name c)) (td_columns table) with
    | None => throw (undefined_column (norm_id col_id))
    | Some idx =>
      c ← lift (index (td_columns table) idx);
      v ← operand_to_value operand (col_type c);
      resolved' ← lift (store resolved idx (Some v));
      resolve_values table r resolved'
    end
  end.

Definition insert_key_parts (table : TableDef) (resolved : list (option Value))
    : res QueryError (list bytes) :=
  map_res (fun pk =>
    pos ← ok_or (column_index table pk) (internal_err (bs "key column missing"));
    o ← index resolved pos;
    v ← ok_or o (invalid_err (bs "Some key parts are missing: " ++ pk));
    if value_eqb v VNull
    then Err (invalid_err (bs "Invalid null value for key part " ++ pk))
    else Ok (raw_bytes v)) (key_names table).

(** The regular columns with their indexes. *)
Definition is_regular (c : ColumnDef) : bool := negb (is_partition_key c || is_clustering c).
Definition regular_idxs (table : TableDef) : list nat :=
  omap (fun ic => if is_regular (snd ic) then Some (fst ic) else None)
    (zip (seq 0 (length (td_columns table))) (td_columns table)).

Definition insert_row_columns (table : TableDef) (resolved : list (option Value))
    : res QueryError (list (Z * Value)) :=
  map_res (fun idx => o ← index resolved idx;
                      Ok (uwrap 16 (Z.of_nat idx), default VNull o)) (regular_idxs table).

Definition exec_insert (session_ks : option str) (ins : Insert) : Q Response :=
  '(keyspace, table) ← on_storage (resolve_table session_ks (ins_table_name ins));
  lift (check_writable keyspace);;
  match ins_values ins with
  | InsJson _ => throw (invalid_err (bs "INSERT JSON is not supported"))
  | InsValues operands =>
    if negb (length (ins_columns ins) =? length operands)
    then throw (syntax_err (bs "Wrong number of values provided"))
    else
      resolved ← resolve_values table (zip (ins_columns ins) operands)
                   (replicate (length (td_columns table)) None);
      key_parts ← lift (insert_key_parts table resolved);
      row_columns ← lift (insert_row_columns table resolved);
      ticket ← on_storage (internal (put_row keyspace (td_name table) key_parts
                                       (encode_row_columns row_columns)));
      gates_extend [ticket];;
      mret Void
  end.

(** ** DELETE and UPDATE *)

Definition exec_delete (session_ks : option str) (del : Ast.Delete) : Q Response :=
  '(keyspace, table) ← on_storage (resolve_table session_ks (del_table_name del));
  lift (check_writable keyspace);;
  if negb (bool_decide (del_columns del = []))
  then throw (invalid_err (bs "Column-level DELETE is not supported yet"))
  else
    filters ← parse_filters table (del_where del);
    key_parts ← lift (key_parts_from_filters table filters);
    ticket ← on_storage (internal (delete_row keyspace (td_name table) key_parts));
    gates_extend [ticket];;
    mret Void.

Definition assignment_value (table : TableDef) (a : AssignmentElement) : Q (nat * Value) :=
  if asg_operator a
  then throw (invalid_err (bs "Increment/decrement assignments are not supported"))
  else
    let name := norm_id (asg_column a) in
    c ← lift (ok_or (column table name) (undefined_column name));
    v ← operand_to_value (asg_value a) (col_type c);
    idx ← lift (unwrap (column_index table name));
    mret (idx, v).

(** [assigned[&idx]] on the map collected from the assignments. *)
Definition assigned (new_values : list (nat * Value)) (idx : nat) : res QueryError Value :=
  unwrap (list_to_map (M := gmap nat Value) (reverse new_values) !! idx).

Definition upsert_row (table : TableDef) (new_values : list (nat * Value))
    : res QueryError (list (Z * Value)) :=
  map_res (fun idx => v ← assigned new_values idx; Ok (uwrap 16 (Z.of_nat idx), v)) (regular_idxs table).

Definition merged_row (table : TableDef) (existing : option bytes) (new_values : list (nat * Value))
    : res QueryError (list (Z * Value)) :=
  row_columns ← match existing with
                | Some b => map_err internal_err (decode_row_columns b table)
                | None => Ok (replicate (length (td_columns table)) VNull)
                end;
  row_columns ← foldl (fun m iv => row ← m; store row (fst iv) (snd iv)) (Ok row_columns) new_values;
  map_res (fun idx => v ← index row_columns idx; Ok (uwrap 16 (Z.of_nat idx), v)) (regular_idxs table).

Definition exec_update (session_ks : option str) (upd : Update) : Q Response :=
  '(keyspace, table) ← on_storage (resolve_table session_ks (upd_table_name upd));
  lift (check_writable keyspace);;
  new_values ← map_st (assignment_value table) (upd_assignments upd);
  filters ← parse_filters table (upd_where upd);
  key_parts ← lift (key_parts_from_filters table filters);
  let regular_count := length (filter (fun c => is_regular c = true) (td_columns table)) in
  let covers_all_regular := (length new_values =? regular_count) && bool_decide (NoDup (fst <$> new_values)) in
  row_encoded ← (if covers_all_regular then lift (upsert_row table new_values)
                 else existing ← on_storage (internal (get_row keyspace (td_name table) key_parts));
                      lift (merged_row table existing new_values));
  ticket ← on_storage (internal (put_row keyspace (td_name table) key_parts
                                   (encode_row_columns row_encoded)));
  gates_extend [ticket];;
  mret Void.

(** ** SELECT *)

Definition filter_name (f : Filter) : str := match f with FEq n _ => n | FIn n _ => n end.

Definition eq_filters_of (table : TableDef) (filters : list Filter) : res QueryError (list (nat * Value)) :=
  map_res (fun nv => i ← unwrap (column_index table (fst nv)); Ok (i, snd nv))
    (omap (fun f => match f with FEq n v => Some (n, v) | FIn _ _ => None end) filters).
Definition in_filters_of (table : TableDef) (filters : list Filter)
    : res QueryError (list (nat * list Value)) :=
  map_res (fun nv => i ← unwrap (column_index table (fst nv)); Ok (i, snd nv))
    (omap (fun f => match f with FIn n vs => Some (n, vs) | FEq _ _ => None end) filters).

(** [point_key]: the parts of a fully restricted key. *)
Definition point_key (table : TableDef) (filters : list Filter) : option (list bytes) :=
  mapM (fun name =>
    v ← eq_value filters name;
    if value_eqb v VNull then None else Some (raw_bytes v)) (key_names table).

(** Every partition key column is restricted. *)
Definition pk_restricted (table : TableDef) (filters : list Filter) : bool :=
  forallb (fun pk => existsb (fun f => bool_decide (filter_name f = pk)) filters) (td_partition_keys table).

(** The values restricting a column, in the order of the filters. *)
Definition restricting_values (filters : list Filter) (pk : str) : list bytes :=
  filters ≫= fun f =>
    if bool_decide (filter_name f = pk)
    then match f with FEq _ v => [raw_bytes v] | FIn _ vs => raw_bytes <$> vs end
    else [].
(** The cartesian product, partition key column by column. *)
Definition partitions (table : TableDef) (filters : list Filter) : list (list bytes) :=
  foldl (fun parts pk => parts ≫= fun combo => (fun v => combo ++ [v]) <$> restricting_values filters pk)
    [[]] (td_partition_keys table).

(** The variables the scan callbacks capture. *)
Record Scan := {
  sc_rows : list (list Value);
  sc_last : option bytes;
  sc_done : bool;
  sc_err : option str;
}.

Definition reached (rows : list (list Value)) (page_limit : option Z) : bool :=
  match page_limit with Some pl => (pl <=? Z.of_nat (length rows))%Z | None => false end.

(** The callback of both scans (a table scan does not look at [done]). *)
Definition scan_entry (keyspace : str) (table : TableDef) (selected_idxs : list nat)
    (eq_filters : list (nat * Value)) (in_filters : list (nat * list Value)) (key_col_idxs : list nat)
    (page_limit : option Z) (paging_state : option bytes) (a : Scan) (k v : bytes)
    : Scan * res str bool :=
  if match paging_state with Some ps => bytes_leb k ps | None => false end then (a, Ok true) else
  if reached (sc_rows a) page_limit then
    ({| sc_rows := sc_rows a; sc_last := Some k; sc_done := true; sc_err := sc_err a |}, Ok false)
  else
    match handle_entry table selected_idxs eq_filters in_filters key_col_idxs keyspace page_limit k v
            (sc_rows a) (sc_err a) with
    | Ok (rows, err, true) =>
      if reached rows page_limit then
        ({| sc_rows := rows; sc_last := Some k; sc_done := true; sc_err := err |}, Ok false)
      else ({| sc_rows := rows; sc_last := sc_last a; sc_done := sc_done a; sc_err := err |}, Ok true)
    | Ok (rows, err, false) =>
      ({| sc_rows := rows; sc_last := sc_last a; sc_done := true; sc_err := err |}, Ok false)
    | _ => (a, Panic)
    end.

(** ['parts: for partition in partitions]. *)
Fixpoint scan_partitions (s : Storage) (keyspace : str) (table : TableDef)
    (f : Scan -> bytes -> bytes -> Scan * res str bool) (page_limit : option Z)
    (parts : list (list bytes)) (a : Scan) : Scan * res str () :=
  match parts with
  | [] => (a, Ok ())
  | partition :: r =>
    let a := {| sc_rows := sc_rows a; sc_last := sc_last a; sc_done := false; sc_err := sc_err a |} in
    match for_each_in_partition s keyspace (td_name table) partition f a with
    | (a', Ok _) =>
      if sc_done a' || bool_decide (is_Some (sc_err a')) || reached (sc_rows a') page_limit
      then (a', Ok ()) else scan_partitions s keyspace table f page_limit r a'
    | (a', o) => (a', o)
    end
  end.

(** The effective limit of a scan, and whether it is the hard cap. *)
Definition effective_page_limit (page_size limit : option Z) : option Z :=
  match as_usize <$> page_size, as_usize <$> limit with
  | Some ps, Some l => Some (Z.min ps l)
  | Some ps, None => Some ps
  | None, Some l => Some l
  | None, None => None
  end.

Definition has_more (page_size limit : option Z) (rows : list (list Value)) (last : option bytes) : bool :=
  match effective_page_limit page_size limit with
  | Some _ => match page_size with
              | Some ps => (as_usize ps <=? Z.of_nat (length rows))%Z && bool_decide (is_Some last)
              | None => false
              end
  | None => (hard_cap <=? Z.of_nat (length rows))%Z && bool_decide (is_Some last)
  end.

(** The scan of [exec_select], by partition or over the whole table. *)
Definition scan_select (s : Storage) (keyspace : str) (table : TableDef) (filters : list Filter)
    (f : Scan -> bytes -> bytes -> Scan * res str bool) (page_limit : option Z) : Scan * res str () :=
  let a := {| sc_rows := []; sc_last := None; sc_done := false; sc_err := None |} in
  if pk_restricted table filters
  then scan_partitions s keyspace table f page_limit (partitions table filters) a
  else for_each_in_table s keyspace (td_name table) f a.

(** The point lookup of [exec_select]. *)
Definition point_select (table : TableDef) (filters : list Filter) (selected_idxs key_col_idxs : list nat)
    (eq_filters : list (nat * Value)) (in_filters : list (nat * list Value))
    (keyspace : str) (key_parts : list bytes) : S (list (list Value)) :=
  o ← internal (get_row keyspace (td_name table) key_parts);
  match o with
  | None => mret []
  | Some b =>
    let fast := bool_decide (length in_filters = 0) && (length eq_filters =? length key_col_idxs)
                && bool_decide (td_clustering_keys table = []) && (length (td_partition_keys table) =? 1)
                && forallb (fun iv => bool_decide (fst iv ∈ key_col_idxs)) eq_filters in
    r ← lift (map_err internal_err
               (if fast then project_fast_point table selected_idxs key_col_idxs key_parts b []
                else project_decoded table selected_idxs eq_filters in_filters key_col_idxs key_parts b []));
    mret (fst r)
  end.

(** A table of system_virtual_schema that does not exist reads as empty. *)
Definition virtual_missing (session_ks : option str) (name : FQName) : S bool :=
  let ks := match fq_keyspace name with Some k => Some (norm_id k) | None => session_ks end in
  if bool_decide (ks = Some (bs "system_virtual_schema")) then
    o ← internal (get_table (bs "system_virtual_schema") (norm_id (fq_name name)));
    mret (match o with None => true | Some _ => false end)
  else mret false.

Definition finish_select (keyspace : str) (table : TableDef) (selected : list (str * ColumnType))
    (rows : list (list Value)) (paging_state : option bytes) : S Response :=
  mret (Rows keyspace (td_name table) selected rows paging_state).
(** The end of [exec_select], after a scan. *)
Definition scan_result (keyspace : str) (table : TableDef) (selected : list (str * ColumnType))
    (limit page_size : option Z) (sc : Scan) : S Response :=
  match sc_err sc with
  | Some e => throw (internal_err e)
  | None =>
    let next := if has_more page_size limit (sc_rows sc) (sc_last sc) then sc_last sc else None in
    finish_select keyspace table selected (sc_rows sc) next
  end.

(** [exec_select] once table, columns and filters are resolved. *)
Definition run_select (keyspace : str) (table : TableDef) (selected : list (str * ColumnType))
    (filters : list Filter) (limit page_size : option Z) (paging_state : option bytes) : S Response :=
  let page_limit := Some (default hard_cap (effective_page_limit page_size limit)) in
  selected_idxs ← lift (map_res (fun nt => unwrap (column_index table (fst nt))) selected);
  eq_filters ← lift (eq_filters_of table filters);
  in_filters ← lift (in_filters_of table filters);
  key_col_idxs ← lift (map_res (fun name => unwrap (column_index table name)) (key_names table));
  match point_key table filters with
  | Some key_parts =>
    rows ← point_select table filters selected_idxs key_col_idxs eq_filters in_filters keyspace key_parts;
    finish_select keyspace table selected rows None
  | None =>
    s ← gets id;
    let '(sc, r) := scan_select s keyspace table filters
      (scan_entry keyspace table selected_idxs eq_filters in_filters key_col_idxs page_limit paging_state)
      page_limit in
    lift (map_err internal_err r);;
    scan_result keyspace table selected limit page_size sc
  end.

Definition exec_select (session_ks : option str) (sel : Select) (page_size : option Z)
    (paging_state : option bytes) : Q Response :=
  missing ← on_storage (virtual_missing session_ks (sel_table_name sel));
  if (missing : bool)
  then mret (Rows (bs "system_virtual_schema") (norm_id (fq_name (sel_table_name sel))) [] [] None)
  else
    '(keyspace, table) ← on_storage (resolve_table session_ks (sel_table_name sel));
    selected ← lift (select_columns table (sel_columns sel));
    filters ← parse_filters table (sel_where sel);
    on_storage (run_select keyspace table selected filters (sel_limit sel) page_size paging_state).

(** ** Statements *)

Definition execute_statement (session_ks : option str) (stmt : CassandraStatement)
    (page_size : option Z) (paging_state : option bytes) : Q Response :=
  match stmt with
  | StUse id => on_storage (exec_use id)
  | StCreateKeyspace ks => on_storage (exec_create_keyspace ks)
  | StCreateTable t => on_storage (exec_create_table session_ks t)
  | StDropKeyspace d => exec_drop_keyspace d
  | StDropTable d => exec_drop_table session_ks d
  | StInsert i => exec_insert session_ks i
  | StSelect s => exec_select session_ks s page_size paging_state
  | StDelete d => exec_delete session_ks d
  | StUpdate u => exec_update session_ks u
  | StTruncate name => exec_truncate session_ks name
  | other => throw (invalid_err (bs "Statement not supported: " ++ short_name other))
  end.

(** [execute_prepared_paged]: fresh bind position, no tickets yet; the tickets
    are returned with the response and lost with an error. *)
Definition execute_prepared_paged (keyspace : option str) (stmt : CassandraStatement)
    (values : list RawValue) (page_size : option Z) (paging_state : option bytes)
    : S (Response * list WriteTicket) := fun s =>
  let '(q, r) := execute_statement keyspace stmt page_size paging_state
    {| q_storage := s; q_values := values; q_next := 0; q_gates := [] |} in
  (q_storage q, resp ← r; Ok (resp, q_gates q)).
Definition execute_prepared (keyspace : option str) (stmt : CassandraStatement) (values : list RawValue)
    : S (Response * list WriteTicket) := execute_prepared_paged keyspace stmt values None None.
Definition execute_with_values_paged (keyspace : option str) (query : str) (values : list RawValue)
    (page_size : option Z) (paging_state : option bytes) : S (Response * list WriteTicket) :=
  stmt ← parse_cached query;
  execute_prepared_paged keyspace stmt values page_size paging_state.
Definition execute_with_values (keyspace : option str) (query : str) (values : list RawValue)
    : S (Response * list WriteTicket) := execute_with_values_paged keyspace query values None None.
Definition execute (keyspace : option str) (query : str) : S (Response * list WriteTicket) :=
  execute_with_values_paged keyspace query [] None None.
End query.
