(* ===== verification/Tickets.v ===== *)
(** * Tickets: what a request may wait for

    A request waits for the tickets its statement returned.  This file shows that
    there is nothing to wait for but operations an engine really holds: every
    ticket a statement returns was issued by an engine, and an engine never
    forgets an operation.  No law of the database is needed - a write that fails
    completes its tickets like one that succeeds. *)

From S2P Require Import Prelude RustStr Triple Ast Schema CqlValue Keys Project Kv Pipeline Storage Rows Query.

Section tickets.
Context `{KV} `{Json}.

(** ** One engine *)

(** Every ticket issued is completed, pending, or in the committer's hands. *)
Definition accounted (e : Engine) : Prop := forall t, t < e_next e ->
  t ∈ e_done e \/ Some t ∈ pend_tickets e \/ exists ds, e_signal e = Some ds /\ Some t ∈ ds.

Lemma accounted_spawn d : accounted (spawn_writer d).
Proof. intros t Ht. cbn in Ht. lia. Qed.

Lemma accounted_send e op e' t : accounted e -> carries op -> send e op = Ok (e', t) ->
  accounted e' /\ e_next e' = S t /\ e_next e = t.
Proof.
  intros He Hop (_ & _ & Et & -> & En & Es & Ed & _)%send_spec. split; [|done]. intros t Ht.
  rewrite Et, Es, Ed, (proj1 (Hop _)). destruct (decide (t = e_next e)) as [->|Hne].
  - right. left. apply elem_of_app. right. by apply list_elem_of_singleton.
  - destruct (He t) as [?|[?|?]]; [lia|by left| |by right; right]. right. left. apply elem_of_app. by left.
Qed.

Lemma accounted_step sync l e e' : accounted e -> pipe_step sync l e = Some e' ->
  accounted e' /\ e_next e' = e_next e.
Proof.
  intros He Hs. pose proof (pipe_step_next _ _ _ _ Hs) as Hn. split; [|apply Hn].
  intros t Ht. destruct (He t) as [Hd|[Hp|(ds & Hs' & Hin)]]; [by rewrite (proj1 Hn) in Ht|..];
    destruct (pipe_step_effect _ _ _ _ Hs) as [_ Et _ Es Ed|b _ _ Et Es Es' Ed _|ds' _ Et _ Es Es' Ed].
  all: rewrite ?Ed, ?Et, ?Es' in *; simplify_eq; eauto.
  - left. apply elem_of_union. by left.
  - apply elem_of_app in Hp as [Hp|Hp]; eauto.
  - rewrite Es. eauto.
  - left. apply elem_of_union_r, elem_of_list_to_set, list_elem_of_omap. by exists (Some t).
Qed.

Lemma accounted_direct e ops e' : accounted e -> direct_write e ops = Ok e' ->
  accounted e' /\ e_next e' = e_next e.
Proof. intros He (d & _ & [= <-])%bind_Ok. split; [exact He|done]. Qed.

(** With nothing left to do, every ticket is completed. *)
Lemma accounted_idle e t : accounted e -> idle e -> t < e_next e -> t ∈ e_done e.
Proof.
  intros He Hi Ht. destruct (He t Ht) as [?|[Hp|(ds & Hs & _)]]; [done|..].
  - rewrite (proj2 (idle_pending e Hi)) in Hp. by apply elem_of_nil in Hp.
  - destruct Hi as (_ & _ & _ & Hn). by rewrite Hn in Hs.
Qed.

(** ** The storage *)

(** The engines are in order and have issued the tickets [ts]. *)
Definition backed (ts : list WriteTicket) (s : Storage) : Prop :=
  Forall accounted (st_engines s) /\ Forall (issued s) ts.

Lemma backed_engines ts s s' : st_engines s' = st_engines s -> backed ts s -> backed ts s'.
Proof.
  intros He [Ha Hi]. split; [by rewrite He|]. eapply Forall_impl; [exact Hi|].
  intros [[i n]|]; [|done]. cbn. by rewrite He.
Qed.
#[global] Instance backed_perm : Proper ((≡ₚ) ==> (=) ==> iff) backed.
Proof. intros ts ts' Hp s ? <-. unfold backed. by rewrite Hp. Qed.
Lemma backed_drop ts ts' s : backed (ts' ++ ts) s -> backed ts s.
Proof. intros [Ha Hi]. apply Forall_app in Hi as [_ Hi]. by split. Qed.

(** An engine moves on. *)
Lemma backed_insert ts s i e e' : backed ts s -> st_engines s !! i = Some e ->
  accounted e' -> e_next e <= e_next e' -> backed ts (set_engines (<[i := e']> (st_engines s)) s).
Proof.
  intros [Ha Hi] He He' Hn. split; [by apply Forall_insert|]. eapply Forall_impl; [exact Hi|].
  intros [[j n]|]; [|done]. intros (ej & Hj & Hlt). cbn. destruct (decide (i = j)) as [<-|Hne].
  - exists e'. rewrite list_lookup_insert_eq by (by eapply lookup_lt_Some). split; [done|].
    rewrite He in Hj. injection Hj as <-. lia.
  - exists ej. by rewrite list_lookup_insert_ne.
Qed.

Lemma backed_at ts s i e : backed ts s -> st_engines s !! i = Some e -> accounted e.
Proof. intros [Ha _]. by apply Forall_lookup_1. Qed.

(** A thread acts. *)
Lemma thread_backed ts i l s s' : backed ts s -> thread_step i l s = Some s' -> backed ts s'.
Proof.
  intros Hs (e & e' & He & Hp & ->)%thread_step_inv. apply accounted_step in Hp as [Ha Hn].
  - eapply backed_insert; [done..|]. by rewrite Hn.
  - by eapply backed_at.
Qed.

Lemma on_engine_keeps {A} ts i (f : Engine -> Engine * res str A) :
  (forall e, accounted e -> accounted (fst (f e)) /\ e_next e <= e_next (fst (f e))) ->
  keeps (backed ts) (on_engine i f).
Proof.
  intros Hf s Hs. unfold on_engine. destruct (st_engines s !! i) as [e|] eqn:He; [|done].
  destruct (Hf e) as [H1' H2']; [by eapply backed_at|]. destruct (f e) as [e' r].
  assert (backed ts (set_engines (<[i := e']> (st_engines s)) s)) by (by eapply backed_insert).
  by destruct r.
Qed.

Lemma engine_write_keeps ts i ops what : keeps (backed ts) (engine_write i ops what).
Proof.
  apply on_engine_keeps. intros e He. destruct (direct_write e ops) as [e'|x|] eqn:Hw; cbn; [|by split..].
  apply accounted_direct in Hw as [? ->]; [by split|done].
Qed.
Lemma engine_get_keeps ts i key : keeps (backed ts) (engine_get i key).
Proof. by apply on_engine_keeps. Qed.

(** Sending returns an issued ticket. *)
Lemma engine_send_issues ts i op : carries op ->
  triple (backed ts) (engine_send i op) (fun t => backed (t :: ts)) (backed ts).
Proof.
  intros Hop s Hs. unfold engine_send, on_engine. destruct (st_engines s !! i) as [e|] eqn:He; [|done].
  destruct (send e op) as [[e' t]|x|] eqn:Hsend; [|by rewrite list_insert_id by done; destruct s..].
  apply accounted_send in Hsend as (Ha & Hn & <-); [|by eapply backed_at|done].
  assert (Hb : backed ts (set_engines (<[i := e']> (st_engines s)) s))
    by (eapply backed_insert; [done..|lia]).
  split; [apply Hb|]. constructor; [|apply Hb]. exists e'. cbn.
  rewrite list_lookup_insert_eq by (by eapply lookup_lt_Some). split; [done|lia].
Qed.

#[local] Hint Resolve engine_write_keeps engine_get_keeps : triple.

Lemma modify_keeps {E} ts (f : Storage -> Storage) : (forall s, st_engines (f s) = st_engines s) ->
  keeps (backed ts) (modify (E:=E) f).
Proof. intros Hf. apply keeps_modify. intros s. by apply backed_engines. Qed.
#[local] Hint Extern 2 (triple _ (modify _) _ _) =>
  apply modify_keeps; intros ?; repeat case_match; reflexivity : triple.

Lemma on_cache_keeps ts ks f : keeps (backed ts) (on_cache ks f).
Proof. unfold on_cache. walk. Qed.
#[local] Hint Resolve on_cache_keeps : triple.

Lemma put_keeps ts k v : keeps (backed ts) (put k v). Proof. unfold put. walk. Qed.
Lemma get_keeps ts k : keeps (backed ts) (get k). Proof. unfold get. walk. Qed.
Lemma delete_keeps ts k : keeps (backed ts) (delete k). Proof. unfold delete. walk. Qed.
#[local] Hint Resolve put_keeps get_keeps delete_keeps : triple.
Lemma delete_prefix_keeps ts p : keeps (backed ts) (delete_prefix p).
Proof. unfold delete_prefix. walk. Qed.
#[local] Hint Resolve delete_prefix_keeps : triple.

Lemma put_keyspace_keeps ts d : keeps (backed ts) (put_keyspace d). Proof. unfold put_keyspace. walk. Qed.
Lemma get_keyspace_keeps ts n : keeps (backed ts) (get_keyspace n). Proof. unfold get_keyspace. walk. Qed.
Lemma put_table_keeps ts d : keeps (backed ts) (put_table d). Proof. unfold put_table. walk. Qed.
Lemma get_table_keeps ts k n : keeps (backed ts) (get_table k n). Proof. unfold get_table, table_fill. walk. Qed.
Lemma get_row_keeps ts ks tb p : keeps (backed ts) (get_row ks tb p). Proof. unfold get_row, row_fetch, row_fill. walk. Qed.
Lemma put_row_sync_keeps ts ks tb p v : keeps (backed ts) (put_row_sync ks tb p v).
Proof. unfold put_row_sync. walk. Qed.
Lemma delete_row_sync_keeps ts ks tb p : keeps (backed ts) (delete_row_sync ks tb p).
Proof. unfold delete_row_sync. walk. Qed.

(** The operations that return tickets. *)
Lemma row_op_issues ts ks tb p f op : carries op ->
  triple (backed ts) (on_cache ks f;; write_data_op ks tb p op) (fun t => backed (t :: ts)) (backed ts).
Proof.
  intros Hop. apply keeps_bind; [walk|]. intros []. unfold write_data_op. apply keeps_bind; [walk|].
  intros i. by apply engine_send_issues.
Qed.
Lemma put_row_issues ts ks tb p v :
  triple (backed ts) (put_row ks tb p v) (fun t => backed (t :: ts)) (backed ts).
Proof. by apply row_op_issues. Qed.
Lemma delete_row_issues ts ks tb p :
  triple (backed ts) (delete_row ks tb p) (fun t => backed (t :: ts)) (backed ts).
Proof. by apply row_op_issues. Qed.

Lemma map_send_issues ts (idxs : list nat) op : carries op ->
  triple (backed ts) (map_st (fun i => engine_send i op) idxs) (fun l => backed (l ++ ts)) (backed ts).
Proof.
  intros Hop. revert ts. induction idxs as [|i idxs IH]; intros ts; cbn [map_st]; [by intros s|].
  eapply triple_bind; [by apply engine_send_issues|]. intros t.
  eapply triple_bind; [|intros l s Hs; exact Hs].
  eapply triple_conseq; [apply (IH (t :: ts))|done| |].
  - intros l s. cbn. by rewrite Permutation_middle.
  - intros s. apply (backed_drop _ [t]).
Qed.

Lemma delete_rows_on_issues ts p l i :
  triple (backed (l ++ ts)) (delete_rows_on p l i) (fun l' => backed (l' ++ ts)) (backed ts).
Proof.
  intros s Hs. unfold delete_rows_on, for_each_on_engine.
  destruct (st_engines s !! i) as [e|]; [|by eapply backed_drop].
  assert (Hgen : forall items (acc : Storage * list WriteTicket), backed (snd acc ++ ts) (fst acc) ->
    backed (snd (fst (each_item p (send_delete i) acc items)) ++ ts)
           (fst (fst (each_item p (send_delete i) acc items)))).
  { clear. induction items as [|[[k v]|x|] items IH]; intros acc Hacc; cbn [each_item]; try done.
    destruct (negb (starts_with k p)); [done|]. unfold send_delete.
    pose proof (engine_send_issues (snd acc ++ ts) i (Delete k) ltac:(done) (fst acc) Hacc) as Hsend.
    destruct (engine_send i (Delete k) (fst acc)) as [s1 [t|x|]]; [apply IH|apply IH|exact Hsend]; cbn [fst snd].
    - rewrite <-app_assoc. cbn. rewrite <-Permutation_middle. exact Hsend.
    - destruct Hsend as [Ha Hi]. split; [done|]. rewrite !Forall_app in *.
      split; [split; [apply Hi|by constructor]|apply Hi]. }
  specialize (Hgen (db_iter (e_db e) p) (s, l) Hs).
  destruct (each_item p (send_delete i) (s, l) (db_iter (e_db e) p)) as [[s' l'] [[]|x|]]; cbn in *.
  - exact Hgen.
  - by eapply backed_drop.
  - by eapply backed_drop.
Qed.

Lemma delete_data_prefix_issues ts p :
  triple (backed ts) (delete_data_prefix p) (fun l => backed (l ++ ts)) (backed ts).
Proof.
  unfold delete_data_prefix. apply keeps_bind; [walk|]. intros n.
  assert (Hret : forall l, triple (backed (l ++ ts))
    (modify (fun s => match st_row_cache s with
                      | Some _ => if starts_with p DT_PREFIX then set_row_cache (Some ∅) s else s
                      | None => s
                      end);; mret l : st Storage str (list WriteTicket)) (fun l => backed (l ++ ts)) (backed ts)).
  { intros l s. apply backed_engines. by repeat case_match. }
  eapply triple_bind; [|exact Hret]. destruct (prefix_upper_bound p) as [hi|].
  - by apply map_send_issues.
  - assert (Hgen : forall idxs (m : st Storage str (list WriteTicket)),
      triple (backed ts) m (fun l => backed (l ++ ts)) (backed ts) ->
      triple (backed ts) (foldl (fun m i => l ← m; delete_rows_on p l i) m idxs)
        (fun l => backed (l ++ ts)) (backed ts)); [|by apply Hgen; intros s].
    induction idxs as [|i idxs IH]; intros m Hm; cbn [foldl]; [done|]. apply IH.
    eapply triple_bind; [exact Hm|]. intros l. apply delete_rows_on_issues.
Qed.

Lemma delete_table_issues ts ks tb :
  triple (backed ts) (delete_table ks tb) (fun l => backed (l ++ ts)) (backed ts).
Proof.
  unfold delete_table. apply keeps_bind; [walk|]. intros _.
  eapply triple_bind; [apply delete_data_prefix_issues|]. intros l s. by apply backed_engines.
Qed.
Lemma delete_keyspace_issues ts ks :
  triple (backed ts) (delete_keyspace ks) (fun l => backed (l ++ ts)) (backed ts).
Proof.
  unfold delete_keyspace. do 2 (apply keeps_bind; [walk|]; intros _).
  eapply triple_bind; [apply delete_data_prefix_issues|]. intros l s. by apply backed_engines.
Qed.

(** ** Statements *)

Context `{UnicodeCase} `{Literals}.
Context (short_name : CassandraStatement -> str).

#[local] Hint Resolve put_keyspace_keeps get_keyspace_keeps put_table_keeps get_table_keeps get_row_keeps
  put_row_sync_keeps delete_row_sync_keeps : triple.

Lemma internal_keeps {A} ts (m : st Storage str A) : keeps (backed ts) m -> keeps (backed ts) (internal m).
Proof. apply triple_map_err. Qed.
#[local] Hint Resolve internal_keeps : triple.

Lemma put_system_schema_row_keeps ts tb pk cols : keeps (backed ts) (put_system_schema_row tb pk cols).
Proof. unfold put_system_schema_row. walk. Qed.
Lemma delete_system_schema_partition_keeps ts tb pk :
  keeps (backed ts) (delete_system_schema_partition tb pk).
Proof. unfold delete_system_schema_partition. walk. Qed.
#[local] Hint Resolve put_system_schema_row_keeps delete_system_schema_partition_keeps : triple.
Lemma resolve_table_keeps ts ks n : keeps (backed ts) (resolve_table ks n).
Proof. unfold resolve_table. walk. Qed.
#[local] Hint Resolve resolve_table_keeps : triple.
Lemma prepared_info_keeps ts ks stmt : keeps (backed ts) (prepared_info short_name ks stmt).
Proof. unfold prepared_info. walk. Qed.
Lemma exec_use_keeps ts id : keeps (backed ts) (exec_use id).
Proof. unfold exec_use. walk. Qed.
Lemma exec_create_keyspace_keeps ts d : keeps (backed ts) (exec_create_keyspace d).
Proof. unfold exec_create_keyspace. walk. Qed.
Lemma mirror_table_metadata_keeps ts d : keeps (backed ts) (mirror_table_metadata d).
Proof. unfold mirror_table_metadata. walk. Qed.
#[local] Hint Resolve mirror_table_metadata_keeps : triple.
Lemma exec_create_table_keeps ts ks d : keeps (backed ts) (exec_create_table ks d).
Proof. unfold exec_create_table. walk. Qed.
Lemma unmirror_table_metadata_keeps ts ks tb : keeps (backed ts) (unmirror_table_metadata ks tb).
Proof.
  unfold unmirror_table_metadata. eapply triple_bind; [apply delete_row_issues|]. intros t.
  eapply triple_conseq; [apply (delete_system_schema_partition_keeps (t :: ts))|done|..].
  all: intros; by apply (backed_drop _ [t]).
Qed.
Lemma virtual_missing_keeps ts ks n : keeps (backed ts) (virtual_missing ks n).
Proof. unfold virtual_missing. walk. Qed.
Lemma run_select_keeps ts ks tb sel fs lim ps pst : keeps (backed ts) (run_select ks tb sel fs lim ps pst).
Proof.
  unfold run_select, point_select, scan_result, finish_select. do 4 (apply keeps_bind; [walk|]; intros ?). destruct (point_key _ _); [walk|].
  apply keeps_bind; [walk|]. intros s. destruct (scan_select _ _ _ _ _ _) as [sc r]. walk.
Qed.
#[local] Hint Resolve exec_use_keeps exec_create_keyspace_keeps exec_create_table_keeps
  unmirror_table_metadata_keeps virtual_missing_keeps run_select_keeps : triple.

(** Inside a statement: the tickets gathered so far are issued. *)
Definition held (ts : list WriteTicket) (q : QS) : Prop := backed (q_gates q ++ ts) (q_storage q).

Lemma on_storage_keeps {A} ts (m : st Storage QueryError A) :
  (forall ts, keeps (backed ts) m) -> keeps (held ts) (on_storage m).
Proof.
  intros Hm q Hq. specialize (Hm _ _ Hq). unfold on_storage. by destruct (m (q_storage q)) as [s' [a|e|]].
Qed.
#[local] Hint Resolve on_storage_keeps : triple.

(** [let t = ..?; gates.extend(t)]. *)
Lemma gathers {A B} ts (m : st Storage str A) (tk : A -> list WriteTicket) (k : A -> st QS QueryError B) :
  (forall ts, triple (backed ts) m (fun a => backed (tk a ++ ts)) (backed ts)) ->
  (forall a, keeps (held ts) (k a)) ->
  keeps (held ts) (a ← on_storage (internal m); gates_extend (tk a);; k a).
Proof.
  intros Hm Hk q Hq. specialize (Hm _ _ Hq). unfold mbind, st_bind, on_storage, internal, st_map_err.
  destruct (m (q_storage q)) as [s' [a|e|]]; [|done|done]. cbn [gates_extend modify]. apply Hk.
  unfold held. cbn. by rewrite <-app_assoc, Permutation_app_swap_app.
Qed.

Lemma take_bind_keeps ts ct : keeps (held ts) (take_bind ct).
Proof.
  intros q Hq. unfold take_bind. destruct (q_values q !! q_next q) as [rv|]; [|done].
  destruct (as_value rv); [|done]. by destruct (map_err _ _).
Qed.
#[local] Hint Resolve take_bind_keeps : triple.
Lemma operand_to_value_keeps ts o ct : keeps (held ts) (operand_to_value o ct).
Proof. unfold operand_to_value. walk. Qed.
Lemma simple_value_keeps ts o ct : keeps (held ts) (simple_value o ct).
Proof. unfold simple_value. walk. Qed.
#[local] Hint Resolve operand_to_value_keeps simple_value_keeps : triple.
Lemma parse_filters_keeps ts tb w : keeps (held ts) (parse_filters tb w).
Proof. unfold parse_filters, parse_filter. walk. Qed.
Lemma resolve_values_keeps ts tb pairs resolved : keeps (held ts) (resolve_values tb pairs resolved).
Proof.
  revert resolved. induction pairs as [|[id o] pairs IH]; intros resolved; cbn [resolve_values]; walk.
Qed.
Lemma assignment_value_keeps ts tb a : keeps (held ts) (assignment_value tb a).
Proof. unfold assignment_value. walk. Qed.
#[local] Hint Resolve parse_filters_keeps resolve_values_keeps assignment_value_keeps : triple.
#[local] Hint Extern 1 (triple _ (on_storage (internal (delete_keyspace _)) ≫= _) _ _) =>
  apply (gathers _ _ id); [intros; apply delete_keyspace_issues|intros ?] : triple.
#[local] Hint Extern 1 (triple _ (on_storage (internal (delete_table _ _)) ≫= _) _ _) =>
  apply (gathers _ _ id); [intros; apply delete_table_issues|intros ?] : triple.
#[local] Hint Extern 1 (triple _ (on_storage (internal (truncate_table _ _)) ≫= _) _ _) =>
  apply (gathers _ _ id); [intros; apply delete_data_prefix_issues|intros ?] : triple.
#[local] Hint Extern 1 (triple _ (on_storage (internal (put_row _ _ _ _)) ≫= _) _ _) =>
  apply (gathers _ _ (fun t => [t])); [intros; apply put_row_issues|intros ?] : triple.
#[local] Hint Extern 1 (triple _ (on_storage (internal (delete_row _ _ _)) ≫= _) _ _) =>
  apply (gathers _ _ (fun t => [t])); [intros; apply delete_row_issues|intros ?] : triple.

Lemma execute_statement_keeps ts ks stmt ps pst : keeps (held ts) (execute_statement short_name ks stmt ps pst).
Proof.
  unfold execute_statement, exec_drop_keyspace, exec_drop_table, exec_insert, exec_select, exec_delete,
    exec_update, exec_truncate. destruct stmt; walk.
Qed.

(** A statement returns issued tickets only. *)
Lemma execute_prepared_issues ts ks stmt vs ps pst :
  triple (backed ts) (execute_prepared_paged short_name ks stmt vs ps pst)
    (fun r => backed (snd r ++ ts)) (backed ts).
Proof.
  intros s Hs. unfold execute_prepared_paged.
  pose proof (execute_statement_keeps ts ks stmt ps pst
    {| q_storage := s; q_values := vs; q_next := 0; q_gates := [] |} Hs) as Hq.
  assert (Hd : forall q, held ts q -> backed ts (q_storage q)) by (intros q; apply backed_drop).
  destruct (execute_statement _ _ _ _ _ _) as [q [r|e|]]; cbn; [exact Hq|by apply Hd..].
Qed.
Context (parse : str -> option CassandraStatement).
Lemma parse_cached_keeps ts q : keeps (backed ts) (parse_cached parse q).
Proof. unfold parse_cached. walk. Qed.
Lemma execute_query_issues ts ks q vs ps pst :
  triple (backed ts) (execute_with_values_paged parse short_name ks q vs ps pst)
    (fun r => backed (snd r ++ ts)) (backed ts).
Proof.
  unfold execute_with_values_paged. apply keeps_bind; [apply parse_cached_keeps|]. intros stmt.
  apply execute_prepared_issues.
Qed.
End tickets.
