(* ===== verification/Wire.v ===== *)
(** * The protocol library the server relies on

    Frames and message bodies are read and written with the crate [scylla-cql],
    which is not part of the repository.  The class [Wire] is the part of it that
    src/src/protocol.rs and src/src/server.rs call; [WireLaws] is what the native
    protocol specification (version 4) says about the notations those functions
    read and write, and that decompression undoes compression.  [cql_wire] is an
    implementation that satisfies the laws. *)

From S2P Require Import Prelude RustStr Ast Schema CqlValue Keys Project Kv Pipeline Storage Query.

Inductive Compression := Lz4 | Snappy.
#[global] Instance Compression_eq_dec : EqDecision Compression.
Proof. solve_decision. Defined.

(** The response opcodes the server sends, and all request opcodes. *)
Inductive ResponseOpcode := RespError | RespReady | RespSupported | RespResult.
Inductive RequestOpcode :=
| ReqStartup | ReqOptions | ReqQuery | ReqPrepare | ReqExecute | ReqRegister | ReqBatch
| ReqAuthResponse.
#[global] Instance RequestOpcode_eq_dec : EqDecision RequestOpcode.
Proof. solve_decision. Defined.

(** What the server reads of [QueryParameters]. *)
Record QueryParameters := {
  qp_values : list RawValue;
  qp_skip_metadata : bool;
  qp_page_size : option Z;
  qp_paging_state : option bytes;
}.

(** [expect] on a result. *)
Definition expect {E F A} (m : res E A) : res F A :=
  match m with Ok a => Ok a | _ => Panic end.

(** The calls.  The writers append to a buffer. *)
Class Wire := {
  resp_u8 : ResponseOpcode -> Z;
  req_u8 : RequestOpcode -> Z;
  req_of_u8 : Z -> option RequestOpcode;
  compress : Compression -> bytes -> res str bytes;
  decompress : Compression -> bytes -> res str bytes;
  write_string : str -> bytes -> res str bytes;
  write_short_bytes : bytes -> bytes -> res str bytes;
  write_bytes : bytes -> bytes -> res str bytes;
  write_string_multimap : gmap str (list str) -> bytes -> res str bytes;
  read_long_string : bytes -> option (str * bytes);
  read_short_bytes : bytes -> option (bytes * bytes);
  read_query : bytes -> option (str * QueryParameters);
  read_params : bytes -> option QueryParameters;
  read_startup : bytes -> option (gmap str str);
}.

(** ** The notations of the specification *)

(** [short bytes], [string]: a length of two bytes. *)
Definition enc_short (s : bytes) : bytes := be 2 (Z.of_nat (length s)) ++ s.
(** [bytes], [long string]: a length of four bytes. *)
Definition enc_long (s : bytes) : bytes := be 4 (Z.of_nat (length s)) ++ s.
(** [value]: null and unset are negative lengths. *)
Definition enc_value (v : RawValue) : bytes :=
  match v with RvNull => be 4 (-1) | RvUnset => be 4 (-2) | RvValue b => enc_long b end.
Definition enc_values (vs : list RawValue) : bytes :=
  be 2 (Z.of_nat (length vs)) ++ concat (enc_value <$> vs).

Definition param_flags (p : QueryParameters) : Z :=
  (match qp_values p with [] => 0 | _ => 1 end + (if qp_skip_metadata p then 2 else 0)
   + match qp_page_size p with Some _ => 4 | None => 0 end
   + match qp_paging_state p with Some _ => 8 | None => 0 end)%Z.
(** Query parameters at consistency ONE. *)
Definition enc_params (p : QueryParameters) : bytes :=
  be 2 1 ++ [Z_to_byte (param_flags p)]
  ++ match qp_values p with [] => [] | vs => enc_values vs end
  ++ match qp_page_size p with Some n => be 4 n | None => [] end
  ++ match qp_paging_state p with Some b => enc_long b | None => [] end.

(** [string map]. *)
Definition enc_string_map (l : list (str * str)) : bytes :=
  be 2 (Z.of_nat (length l)) ++ concat ((fun kv => enc_short (fst kv) ++ enc_short (snd kv)) <$> l).

(** What fits the length prefixes. *)
Definition short_ok (s : bytes) : Prop := (Z.of_nat (length s) < 2 ^ 16)%Z.
Definition long_ok (s : bytes) : Prop := (Z.of_nat (length s) < 2 ^ 31)%Z.
Definition value_ok (v : RawValue) : Prop := match v with RvValue b => long_ok b | _ => True end.
Definition text_ok (s : str) : Prop := utf8_valid s = true.
Definition params_ok (p : QueryParameters) : Prop :=
  Forall value_ok (qp_values p) /\ (Z.of_nat (length (qp_values p)) < 2 ^ 16)%Z /\
  match qp_page_size p with Some n => in_i 32 n = true | None => True end /\
  match qp_paging_state p with Some b => long_ok b | None => True end.

#[global] Instance short_ok_dec s : Decision (short_ok s).
Proof. unfold short_ok. apply _. Defined.
#[global] Instance long_ok_dec s : Decision (long_ok s).
Proof. unfold long_ok. apply _. Defined.
#[global] Instance value_ok_dec v : Decision (value_ok v).
Proof. destruct v; cbn; apply _. Defined.
#[global] Instance text_ok_dec s : Decision (text_ok s).
Proof. unfold text_ok. apply _. Defined.
#[global] Instance params_ok_dec p : Decision (params_ok p).
Proof.
  unfold params_ok.
  assert (Decision match qp_page_size p with Some n => in_i 32 n = true | None => True end)
    by (destruct (qp_page_size p); apply _).
  assert (Decision match qp_paging_state p with Some b => long_ok b | None => True end)
    by (destruct (qp_paging_state p); apply _).
  apply _.
Defined.

Definition resp_code (o : ResponseOpcode) : Z :=
  match o with RespError => 0x00 | RespReady => 0x02 | RespSupported => 0x06 | RespResult => 0x08 end.
Definition req_code (o : RequestOpcode) : Z :=
  match o with
  | ReqStartup => 0x01 | ReqOptions => 0x05 | ReqQuery => 0x07 | ReqPrepare => 0x09
  | ReqExecute => 0x0A | ReqRegister => 0x0B | ReqBatch => 0x0D | ReqAuthResponse => 0x0F
  end.

Class WireLaws `{Wire} := {
  resp_u8_spec o : resp_u8 o = resp_code o;
  req_u8_spec o : req_u8 o = req_code o;
  req_of_u8_spec z o : req_of_u8 z = Some o <-> z = req_code o;
  compress_spec c b : long_ok b -> exists z, compress c b = Ok z /\ decompress c z = Ok b;
  write_string_spec s buf : short_ok s -> write_string s buf = Ok (buf ++ enc_short s);
  write_string_long s buf : ~ short_ok s -> exists e, write_string s buf = Err e;
  write_short_bytes_spec b buf : short_ok b -> write_short_bytes b buf = Ok (buf ++ enc_short b);
  write_bytes_spec b buf : long_ok b -> write_bytes b buf = Ok (buf ++ enc_long b);
  read_long_string_spec s r : long_ok s -> text_ok s -> read_long_string (enc_long s ++ r) = Some (s, r);
  read_short_bytes_spec b r : short_ok b -> read_short_bytes (enc_short b ++ r) = Some (b, r);
  read_params_spec p : params_ok p -> read_params (enc_params p) = Some p;
  read_query_spec q p : long_ok q -> text_ok q -> params_ok p ->
    read_query (enc_long q ++ enc_params p) = Some (q, p);
  read_startup_spec l : NoDup (fst <$> l) -> (Z.of_nat (length l) < 2 ^ 16)%Z ->
    Forall (fun kv => short_ok (fst kv) /\ text_ok (fst kv) /\ short_ok (snd kv) /\ text_ok (snd kv)) l ->
    read_startup (enc_string_map l) = Some (list_to_map l);
}.

(** ** An implementation *)

Definition get_n (n : nat) (l : bytes) : option (bytes * bytes) :=
  if length l <? n then None else Some (take n l, drop n l).
Definition get_short (l : bytes) : option (bytes * bytes) :=
  '(h, r) ← get_n 2 l; get_n (Z.to_nat (from_be h)) r.
Definition get_text (g : bytes -> option (bytes * bytes)) (l : bytes) : option (str * bytes) :=
  '(s, r) ← g l; if utf8_valid s then Some (s, r) else None.
Definition get_int (l : bytes) : option (Z * bytes) :=
  '(h, r) ← get_n 4 l; Some (from_be_signed h, r).
Definition get_long (l : bytes) : option (bytes * bytes) :=
  '(n, r) ← get_int l; if (n <? 0)%Z then None else get_n (Z.to_nat n) r.
Definition get_value (l : bytes) : option (RawValue * bytes) :=
  '(n, r) ← get_int l;
  if (n =? -1)%Z then Some (RvNull, r) else if (n =? -2)%Z then Some (RvUnset, r)
  else if (n <? 0)%Z then None else '(b, r') ← get_n (Z.to_nat n) r; Some (RvValue b, r').
Fixpoint get_list {A} (g : bytes -> option (A * bytes)) (n : nat) (l : bytes) : option (list A * bytes) :=
  match n with
  | O => Some ([], l)
  | S m => '(a, r) ← g l; '(al, r') ← get_list g m r; Some (a :: al, r')
  end.
Definition get_opt {A} (b : bool) (g : bytes -> option (A * bytes)) (l : bytes) : option (option A * bytes) :=
  if b then '(a, r) ← g l; Some (Some a, r) else Some (None, l).
Definition get_values (l : bytes) : option (list RawValue * bytes) :=
  '(h, r) ← get_n 2 l; get_list get_value (Z.to_nat (from_be h)) r.
Definition get_params (l : bytes) : option QueryParameters :=
  '(_, r) ← get_n 2 l;
  '(f, r) ← get_n 1 r;
  let f := from_be f in
  '(vs, r) ← get_opt (Z.testbit f 0) get_values r;
  '(ps, r) ← get_opt (Z.testbit f 2) get_int r;
  '(pg, _) ← get_opt (Z.testbit f 3) get_long r;
  Some {| qp_values := default [] vs; qp_skip_metadata := Z.testbit f 1; qp_page_size := ps;
          qp_paging_state := pg |}.
Definition get_query (l : bytes) : option (str * QueryParameters) :=
  '(q, r) ← get_text get_long l; p ← get_params r; Some (q, p).
Definition get_pair (l : bytes) : option (str * str * bytes) :=
  '(k, r) ← get_text get_short l; '(v, r') ← get_text get_short r; Some (k, v, r').
Definition get_string_map (l : bytes) : option (gmap str str) :=
  '(h, r) ← get_n 2 l;
  '(l, _) ← get_list get_pair (Z.to_nat (from_be h)) r;
  Some (list_to_map l).
Definition put_short (s buf : bytes) : res str bytes :=
  if bool_decide (short_ok s) then Ok (buf ++ enc_short s) else Err (bs "out of range integral type conversion attempted").
Definition put_long (s buf : bytes) : res str bytes :=
  if bool_decide (long_ok s) then Ok (buf ++ enc_long s) else Err (bs "out of range integral type conversion attempted").

Definition all_opcodes : list RequestOpcode :=
  [ReqStartup; ReqOptions; ReqQuery; ReqPrepare; ReqExecute; ReqRegister; ReqBatch; ReqAuthResponse].

(** Stored, not compressed. *)
Definition cql_wire : Wire := {|
  resp_u8 := resp_code;
  req_u8 := req_code;
  req_of_u8 z := find_first (fun o => (z =? req_code o)%Z) all_opcodes;
  compress _ b := Ok b;
  decompress _ b := Ok b;
  write_string := put_short;
  write_short_bytes := put_short;
  write_bytes := put_long;
  write_string_multimap m buf :=
    foldl (fun acc kv => b ← acc; b ← put_short (fst kv) b;
             foldl (fun acc s => b ← acc; put_short s b) (Ok (b ++ be 2 (Z.of_nat (length (snd kv))))) (snd kv))
      (Ok (buf ++ be 2 (Z.of_nat (size m)))) (map_to_list m);
  read_long_string := get_text get_long;
  read_short_bytes := get_short;
  read_query := get_query;
  read_params := get_params;
  read_startup := get_string_map;
|}.

(** ** Readers undo the notations *)

Lemma get_n_app n b r : n = length b -> get_n n (b ++ r) = Some (b, r).
Proof.
  intros ->. unfold get_n. rewrite length_app, (proj2 (Nat.ltb_ge _ _)) by lia.
  by rewrite take_app_length, drop_app_length.
Qed.

Lemma from_be_len n z : (0 <= z < 2 ^ (8 * Z.of_nat n))%Z -> from_be (be n z) = z.
Proof. intros Hz. by apply from_be_be_u, in_u_spec. Qed.

Lemma get_short_app b r : short_ok b -> get_short (enc_short b ++ r) = Some (b, r).
Proof.
  intros Hb. unfold get_short, enc_short. unfold short_ok in Hb.
  rewrite <-app_assoc, get_n_app by (by rewrite length_be). cbn [mbind option_bind].
  rewrite from_be_len by (cbn; lia). apply get_n_app. lia.
Qed.

Lemma get_int_app n r : in_i 32 n = true -> get_int (be 4 n ++ r) = Some (n, r).
Proof.
  intros Hn. unfold get_int. rewrite get_n_app by (by rewrite length_be). cbn [mbind option_bind].
  by rewrite from_be_be_i by (lia || done).
Qed.

Lemma long_ok_in_i b : long_ok b -> in_i 32 (Z.of_nat (length b)) = true.
Proof. unfold long_ok. intros Hb. apply in_i_spec. lia. Qed.

Lemma get_long_app b r : long_ok b -> get_long (enc_long b ++ r) = Some (b, r).
Proof.
  intros Hb. unfold get_long, enc_long.
  rewrite <-app_assoc, get_int_app by (by apply long_ok_in_i). cbn [mbind option_bind].
  rewrite (proj2 (Z.ltb_ge _ _)) by lia. apply get_n_app. lia.
Qed.

Lemma get_text_app g s r enc : text_ok s -> g (enc ++ r) = Some (s, r) -> get_text g (enc ++ r) = Some (s, r).
Proof. unfold text_ok, get_text. intros Ht ->. cbn [mbind option_bind]. by rewrite Ht. Qed.

Lemma get_value_app v r : value_ok v -> get_value (enc_value v ++ r) = Some (v, r).
Proof.
  unfold get_value. destruct v as [| |b]; cbn [enc_value value_ok]; intros Hv.
  - by rewrite get_int_app by done.
  - by rewrite get_int_app by done.
  - unfold enc_long. rewrite <-app_assoc, get_int_app by (by apply long_ok_in_i).
    cbn [mbind option_bind]. unfold long_ok in Hv.
    rewrite !(proj2 (Z.eqb_neq _ _)), (proj2 (Z.ltb_ge _ _)) by lia.
    by rewrite get_n_app by lia.
Qed.

Lemma get_list_app {A} (g : bytes -> option (A * bytes)) (enc : A -> bytes) l r :
  Forall (fun a => forall r, g (enc a ++ r) = Some (a, r)) l ->
  get_list g (length l) (concat (enc <$> l) ++ r) = Some (l, r).
Proof.
  induction 1 as [|a l Ha Hl IH]; [done|]. cbn [length get_list fmap list_fmap concat].
  rewrite <-app_assoc, Ha. cbn [mbind option_bind]. by rewrite IH.
Qed.

Lemma get_values_app vs r :
  Forall value_ok vs -> (Z.of_nat (length vs) < 2 ^ 16)%Z -> get_values (enc_values vs ++ r) = Some (vs, r).
Proof.
  intros Hvs Hn. unfold get_values, enc_values.
  rewrite <-app_assoc, get_n_app by (by rewrite length_be). cbn [mbind option_bind].
  rewrite from_be_len by (cbn; lia). rewrite Nat2Z.id. apply get_list_app.
  eapply Forall_impl; [done|]. cbn. intros v Hv r'. by apply get_value_app.
Qed.

Lemma param_flags_bits p :
  Z.testbit (param_flags p) 0 = (match qp_values p with [] => false | _ => true end) /\
  Z.testbit (param_flags p) 1 = qp_skip_metadata p /\
  Z.testbit (param_flags p) 2 = (match qp_page_size p with Some _ => true | None => false end) /\
  Z.testbit (param_flags p) 3 = (match qp_paging_state p with Some _ => true | None => false end) /\
  (0 <= param_flags p < 16)%Z.
Proof.
  unfold param_flags. destruct p as [[|v vs] [] [n|] [b|]]; cbn; repeat split; try done; lia.
Qed.

Lemma get_params_enc p : params_ok p -> get_params (enc_params p) = Some p.
Proof.
  intros (Hvs & Hn & Hps & Hpg). destruct (param_flags_bits p) as (B0 & B1 & B2 & B3 & Hf).
  unfold get_params, enc_params. rewrite get_n_app by (by rewrite length_be). cbn [mbind option_bind].
  rewrite get_n_app by done. cbn [mbind option_bind].
  assert (from_be [Z_to_byte (param_flags p)] = param_flags p) as ->.
  { unfold from_be. cbn [foldl]. rewrite byte_to_Z_to_byte, Z.mod_small by lia. lia. }
  rewrite B0, B1, B2, B3. clear B0 B1 B2 B3 Hf.
  destruct p as [vs sk ps pg]. cbn [qp_values qp_skip_metadata qp_page_size qp_paging_state] in *.
  assert (Hpg' : get_opt (match pg with Some _ => true | None => false end) get_long
            (match pg with Some b => enc_long b | None => [] end) = Some (pg, [])).
  { destruct pg as [b|]; [|done]. cbn [get_opt].
    by rewrite <-(app_nil_r (enc_long b)), get_long_app by done. }
  assert (Hps' : forall r, get_opt (match ps with Some _ => true | None => false end) get_int
            (match ps with Some n => be 4 n | None => [] end ++ r) = Some (ps, r)).
  { intros r. destruct ps as [n|]; [|done]. cbn [get_opt]. by rewrite get_int_app by done. }
  destruct vs as [|v vs].
  - cbn [get_opt app mbind option_bind]. rewrite Hps'. cbn [mbind option_bind]. by rewrite Hpg'.
  - cbn [get_opt]. rewrite get_values_app by done. cbn [mbind option_bind]. rewrite Hps'.
    cbn [mbind option_bind]. by rewrite Hpg'.
Qed.

Lemma get_pair_app kv r :
  short_ok (fst kv) -> text_ok (fst kv) -> short_ok (snd kv) -> text_ok (snd kv) ->
  get_pair ((enc_short (fst kv) ++ enc_short (snd kv)) ++ r) = Some (kv, r).
Proof.
  destruct kv as [k v]. cbn. intros H1 H2 H3 H4. unfold get_pair.
  rewrite <-app_assoc, (get_text_app _ k _ _ H2 (get_short_app _ _ H1)). cbn [mbind option_bind].
  by rewrite (get_text_app _ v _ _ H4 (get_short_app _ _ H3)).
Qed.

Lemma cql_wire_laws : @WireLaws cql_wire.
Proof.
  split; try done.
  - intros z o. cbn. split.
    + unfold find_first, all_opcodes. cbn. repeat case_bool_decide; simplify_eq; try done.
      all: intros; repeat case_match; simplify_eq; reflect_bools; cbn; lia.
    + intros ->. by destruct o.
  - intros c b _. by exists b.
  - intros s buf Hs. cbn. unfold put_short. by rewrite bool_decide_eq_true_2.
  - intros s buf Hs. cbn. unfold put_short. rewrite bool_decide_eq_false_2 by done. eauto.
  - intros s buf Hs. cbn. unfold put_short. by rewrite bool_decide_eq_true_2.
  - intros s buf Hs. cbn. unfold put_long. by rewrite bool_decide_eq_true_2.
  - intros s r Hs Ht. cbn. by apply get_text_app, get_long_app.
  - intros b r Hb. by apply get_short_app.
  - apply get_params_enc.
  - intros q p Hq Ht Hp. cbn. unfold get_query.
    rewrite (get_text_app _ q _ _ Ht (get_long_app _ _ Hq)). cbn [mbind option_bind].
    by rewrite get_params_enc.
  - intros l Hnd Hn Hl. cbn. unfold get_string_map, enc_string_map.
    rewrite get_n_app by (by rewrite length_be). cbn [mbind option_bind].
    rewrite from_be_len by (cbn; lia). rewrite Nat2Z.id.
    rewrite <-(app_nil_r (concat _)), get_list_app; [done|].
    eapply Forall_impl; [done|]. cbn. intros kv (? & ? & ? & ?) r. by apply get_pair_app.
Qed.
