(* ===== verification/Protocol.v ===== *)
(** * Response frames

    Models src/src/protocol.rs: the frame header and the bodies of every response
    the server sends.  The writers of the protocol library are the class [Wire];
    an [expect] on one of them is a panic of the model. *)

From S2P Require Import Prelude RustStr Ast Schema CqlValue Keys Project Kv Pipeline Storage Query Wire.

Section protocol.
Context `{Wire} {E : Type}.

Definition response_frame (version stream : Z) (opcode : ResponseOpcode) (body : bytes)
    (compression : option Compression) : res E bytes :=
  '(flags, payload) ← match compression with
                      | Some comp => compressed ← expect (compress comp body);
                                     Ok (Z.lor 0 0x01, compressed)
                      | None => Ok (0%Z, body)
                      end;
  Ok ([Z_to_byte (Z.lor version 0x80)] ++ [Z_to_byte flags] ++ be 2 stream
      ++ [Z_to_byte (resp_u8 opcode)] ++ be 4 (Z.of_nat (length payload)) ++ payload).

Definition ready (version stream : Z) (compression : option Compression) : res E bytes :=
  response_frame version stream RespReady [] compression.

Definition supported_options : gmap str (list str) :=
  <[bs "PROTOCOL_VERSIONS" := [bs "4"]]>
  (<[bs "COMPRESSION" := [bs "lz4"; bs "snappy"]]>
  (<[bs "CQL_VERSION" := [bs "3.4.5"]]> ∅)).
Definition supported (version stream : Z) (compression : option Compression) : res E bytes :=
  body ← expect (write_string_multimap supported_options []);
  response_frame version stream RespSupported body compression.

Definition error (version stream code : Z) (message : str) (compression : option Compression)
    : res E bytes :=
  body ← expect (write_string message ([] ++ be 4 code));
  response_frame version stream RespError body compression.

Definition result_void (version stream : Z) (compression : option Compression) : res E bytes :=
  response_frame version stream RespResult (be 4 0x0001) compression.

Definition result_set_keyspace (version stream : Z) (keyspace : str) (compression : option Compression)
    : res E bytes :=
  body ← expect (write_string keyspace (be 4 0x0003));
  response_frame version stream RespResult body compression.

Definition result_schema_change (version stream : Z) (change target keyspace table : str)
    (compression : option Compression) : res E bytes :=
  body ← expect (write_string change (be 4 0x0005));
  body ← expect (write_string target body);
  body ← expect (write_string keyspace body);
  body ← expect (write_string table body);
  response_frame version stream RespResult body compression.

(** The loop over column specifications. *)
Fixpoint write_specs (specs : list (str * ColumnType)) (body : bytes) : res E bytes :=
  match specs with
  | [] => Ok body
  | (name, ty) :: r => body ← expect (write_string name body); write_specs r (write_wire_type ty body)
  end.

Definition result_prepared (version stream : Z) (id : bytes) (keyspace table : str)
    (bind_specs : list (str * ColumnType)) (pk_indexes : list Z)
    (result_cols : list (str * ColumnType)) (compression : option Compression) : res E bytes :=
  body ← expect (write_short_bytes id (be 4 0x0004));
  let body := body ++ be 4 0x0001 in
  let body := body ++ be 4 (Z.of_nat (length bind_specs)) in
  let body := body ++ be 4 (Z.of_nat (length pk_indexes)) in
  let body := foldl (fun body idx => body ++ be 2 idx) body pk_indexes in
  body ← expect (write_string keyspace body);
  body ← expect (write_string table body);
  body ← write_specs bind_specs body;
  let body := body ++ be 4 0x0001 in
  let body := body ++ be 4 (Z.of_nat (length result_cols)) in
  body ← expect (write_string keyspace body);
  body ← expect (write_string table body);
  body ← write_specs result_cols body;
  response_frame version stream RespResult body compression.

Definition write_paging (paging_state : option bytes) (body : bytes) : res E bytes :=
  match paging_state with Some ps => expect (write_bytes ps body) | None => Ok body end.

(** The metadata of a rows result. *)
Definition rows_metadata (keyspace table : str) (cols : list (str * ColumnType)) (skip_metadata : bool)
    (paging_state : option bytes) (body : bytes) : res E bytes :=
  let has_more := bool_decide (is_Some paging_state) in
  if skip_metadata then
    let flags := if has_more then Z.lor 0 0x0002 else 0%Z in
    write_paging paging_state ((body ++ be 4 flags) ++ be 4 (-1))
  else
    let flags := if has_more then Z.lor 0x0001 0x0002 else 0x0001%Z in
    body ← write_paging paging_state ((body ++ be 4 flags) ++ be 4 (Z.of_nat (length cols)));
    body ← expect (write_string keyspace body);
    body ← expect (write_string table body);
    write_specs cols body.

Definition result_rows (version stream : Z) (keyspace table : str) (cols : list (str * ColumnType))
    (rows : list (list Value)) (skip_metadata : bool) (paging_state : option bytes)
    (compression : option Compression) : res E bytes :=
  body ← rows_metadata keyspace table cols skip_metadata paging_state (be 4 0x0002);
  let body := body ++ be 4 (Z.of_nat (length rows)) in
  let body := foldl (fun body row => foldl (fun body v => write_wire v body) body row) body rows in
  response_frame version stream RespResult body compression.
End protocol.
