(* ===== verification/Server.v ===== *)
(** * The server

    Models src/src/server.rs: the state a connection keeps, the handling of one
    request up to the point where it waits for its writes and from there on, and
    the three kinds of tasks of a connection - the reader, the spawned requests,
    the writer - as a labelled transition system, executable one label at a time.
    src/src/server_monoio.rs is the same program on another runtime; its request
    handling is the same text, its writer differs ([Runtime]). *)

From S2P Require Import Prelude RustStr Ast Schema CqlValue Keys Project Kv Pipeline Storage Query Wire.
From S2P Require Import Protocol.

Definition MAX_FRAME_LENGTH : Z := 64 * 1024 * 1024.
Definition PER_CONN_INFLIGHT : nat := Z.to_nat 512.
Definition WRITE_FLUSH_THRESHOLD : Z := 256 * 1024.
Definition COMPRESSION_NONE : Z := 0.

Record PreparedStmt := { ps_stmt : CassandraStatement; ps_bind_types : list ColumnType }.

Record ConnShared := {
  cs_compression : Z;
  cs_keyspace : option str;
  cs_prepared : gmap bytes PreparedStmt;
  cs_next_prepared_id : Z;
}.

Definition decode_compression (v : Z) : option Compression :=
  if (v =? 1)%Z then Some Lz4 else if (v =? 2)%Z then Some Snappy else None.

(** [ConnShared::new], and its accessors. *)
Definition new_conn : ConnShared :=
  {| cs_compression := COMPRESSION_NONE; cs_keyspace := None; cs_prepared := ∅;
     cs_next_prepared_id := 1 |}.
Definition compression (cs : ConnShared) : option Compression := decode_compression (cs_compression cs).
Definition set_compression (v : Z) (cs : ConnShared) : ConnShared :=
  {| cs_compression := v; cs_keyspace := cs_keyspace cs; cs_prepared := cs_prepared cs;
     cs_next_prepared_id := cs_next_prepared_id cs |}.
Definition set_keyspace (ks : str) (cs : ConnShared) : ConnShared :=
  {| cs_compression := cs_compression cs; cs_keyspace := Some ks; cs_prepared := cs_prepared cs;
     cs_next_prepared_id := cs_next_prepared_id cs |}.
(** [next_prepared_id.fetch_add(1)] and [prepared.insert]. *)
Definition next_id (cs : ConnShared) : bytes := be 2 (cs_next_prepared_id cs).
Definition register (p : PreparedStmt) (cs : ConnShared) : ConnShared :=
  {| cs_compression := cs_compression cs; cs_keyspace := cs_keyspace cs;
     cs_prepared := <[next_id cs := p]> (cs_prepared cs);
     cs_next_prepared_id := uwrap 16 (cs_next_prepared_id cs + 1) |}.

Definition is_session_use (body : bytes) : bool :=
  if length body <? 4 then false else
  let len := Z.to_nat (from_be (take 4 body)) in
  let q := take (Nat.min len (length body - 4)) (drop 4 body) in
  let t := if 16 <? length q then take 16 q else q in
  starts_with (to_ascii_lowercase t) (bs "use ").

Definition protocol_err (msg : str) : QueryError := {| qe_code := 0x000A; qe_message := msg |}.

Definition change_str (c : SchemaChange) : str := match c with CREATED => bs "CREATED" | DROPPED => bs "DROPPED" end.
Definition target_str (t : SchemaTarget) : str := match t with KEYSPACE => bs "KEYSPACE" | TABLE => bs "TABLE" end.

(** What [settle_then] still has to do once the writes are committed. *)
Record Pending := {
  pd_stream : Z;
  pd_compression : option Compression;
  pd_resp : Response;
  pd_session : bool;  (** a QUERY, which applies a USE to the session *)
  pd_skip_metadata : bool;
}.

(** A request is answered at once, or waits for its tickets. *)
Inductive Outcome := Reply (resp : bytes) | Settle (gates : list WriteTicket) (p : Pending).

Section server.
Context `{KV} `{Json} `{UnicodeCase} `{Literals} `{Wire}.
Context (parse : str -> option CassandraStatement).
Context (short_name : CassandraStatement -> str).

(** ** One request *)

Abbreviation SS := (Storage * ConnShared)%type.
Abbreviation R := (st SS QueryError).

Definition on_store {A} (m : st Storage QueryError A) : R A := fun s =>
  let '(s', r) := m (fst s) in ((s', snd s), r).
Definition of_conn {A} (f : ConnShared -> A) : R A := gets (fun s => f (snd s)).
Definition on_conn (f : ConnShared -> ConnShared) : R () := modify (fun s => (fst s, f (snd s))).

Definition respond (version stream : Z) (compression : option Compression)
    (result : res QueryError Response) (skip_metadata : bool) : res QueryError bytes :=
  match result with
  | Ok (Rows keyspace table cols rows paging_state) =>
    result_rows version stream keyspace table cols rows skip_metadata paging_state compression
  | Ok Void => result_void version stream compression
  | Ok (SetKeyspace ks) => result_set_keyspace version stream ks compression
  | Ok (SchemaChanged change target keyspace table) =>
    result_schema_change version stream (change_str change) (target_str target) keyspace table compression
  | Err e => Err e
  | Panic => Panic
  end.

(** [.unwrap_or_else(|e| protocol::error(..))]. *)
Definition or_error (version stream : Z) (compression : option Compression) (r : res QueryError bytes)
    : res QueryError bytes :=
  match r with
  | Err e => error version stream (qe_code e) (qe_message e) compression
  | r => r
  end.

(** The closure [respond] of [settle_then]. *)
Definition after_settle (p : Pending) : R bytes :=
  match pd_session p, pd_resp p with
  | true, SetKeyspace name => on_conn (set_keyspace name)
  | _, _ => mret ()
  end;;
  lift (or_error 4 (pd_stream p) (pd_compression p)
          (respond 4 (pd_stream p) (pd_compression p) (Ok (pd_resp p)) (pd_skip_metadata p))).

Definition settle_then (gates : list WriteTicket) (p : Pending) : R Outcome :=
  match gates with
  | [] => Reply <$> after_settle p
  | _ => mret (Settle gates p)
  end.

Definition handle_startup (body : bytes) (stream : Z) : R Outcome :=
  options ← lift (ok_or (read_startup body) (protocol_err (bs "Malformed STARTUP message")));
  match to_lowercase <$> (options !! bs "COMPRESSION") with
  | Some c =>
    if bool_decide (c = bs "lz4") then on_conn (set_compression 1)
    else if bool_decide (c = bs "snappy") then on_conn (set_compression 2)
    else throw (protocol_err (bs "Unsupported compression algorithm: " ++ c))
  | None => mret ()
  end;;
  comp ← of_conn compression;
  Reply <$> lift (ready 4 stream comp).

Definition handle_query (body : bytes) (stream : Z) (comp : option Compression) : R Outcome :=
  '(query_text, params) ← lift (ok_or (read_query body) (protocol_err (bs "Malformed QUERY message")));
  ks ← of_conn cs_keyspace;
  '(resp, gates) ← on_store (execute_with_values_paged parse short_name ks query_text (qp_values params)
                               (qp_page_size params) (qp_paging_state params));
  settle_then gates {| pd_stream := stream; pd_compression := comp; pd_resp := resp; pd_session := true;
                       pd_skip_metadata := qp_skip_metadata params |}.

Definition handle_prepare (body : bytes) (stream : Z) (comp : option Compression) : R Outcome :=
  '(query_text, _) ← lift (ok_or (read_long_string body) (protocol_err (bs "Malformed PREPARE message")));
  stmt ← on_store (st_map_err (fun e => {| qe_code := 0x2000; qe_message := qe_message e |})
                     (parse_cached parse query_text));
  session_ks ← of_conn cs_keyspace;
  info ← on_store (prepared_info short_name session_ks stmt);
  id ← of_conn next_id;
  on_conn (register {| ps_stmt := stmt; ps_bind_types := snd <$> pi_bind_specs info |});;
  Reply <$> lift (result_prepared 4 stream id (pi_keyspace info) (pi_table info) (pi_bind_specs info)
                    (pi_pk_indexes info) (pi_result_cols info) comp).

Definition bad_bind_count : QueryError := invalid_err (bs "Invalid amount of bind variables").
Definition unprepared : QueryError := invalid_err (bs "Prepared statement not found (unprepared)").

Definition handle_execute (body : bytes) (stream : Z) (comp : option Compression) : R Outcome :=
  '(id, buf) ← lift (ok_or (read_short_bytes body) (protocol_err (bs "Malformed EXECUTE message")));
  found ← of_conn (fun cs => cs_prepared cs !! id);
  prepared ← lift (ok_or found unprepared);
  params ← lift (ok_or (read_params buf) (protocol_err (bs "Malformed EXECUTE parameters")));
  if negb (length (qp_values params) =? length (ps_bind_types prepared)) then throw bad_bind_count else
  ks ← of_conn cs_keyspace;
  '(resp, gates) ← on_store (execute_prepared_paged short_name ks (ps_stmt prepared) (qp_values params)
                               (qp_page_size params) (qp_paging_state params));
  settle_then gates {| pd_stream := stream; pd_compression := comp; pd_resp := resp; pd_session := false;
                       pd_skip_metadata := qp_skip_metadata params |}.

(** [handle_request] up to its first wait. *)
Definition batch_err : QueryError := invalid_err (bs "Batches are not supported yet").
Definition auth_err : QueryError := protocol_err (bs "Authentication is not enabled").

Definition handle_request (opcode : Z) (body : bytes) (stream : Z) : R Outcome :=
  comp ← of_conn compression;
  op ← lift (ok_or (req_of_u8 opcode) (protocol_err (bs "Unknown opcode")));
  match op with
  | ReqOptions => Reply <$> lift (supported 4 stream comp)
  | ReqStartup => handle_startup body stream
  | ReqRegister => Reply <$> lift (ready 4 stream comp)
  | ReqQuery => handle_query body stream comp
  | ReqPrepare => handle_prepare body stream comp
  | ReqExecute => handle_execute body stream comp
  | ReqBatch => throw batch_err
  | ReqAuthResponse => throw auth_err
  end.

(** ** Reading frames *)

(** What the reader makes of the bytes at hand. *)
Inductive Inbound :=
| InWait                                     (** not enough bytes yet *)
| InEof                                      (** end of input between frames *)
| InBroken                                   (** [return Err(..)] without an answer *)
| InReject (stream : Z) (resp : res QueryError bytes)  (** answer, then close *)
| InRefuse (stream : Z) (resp : res QueryError bytes) (rest : bytes)  (** answer, go on *)
| InRequest (stream opcode : Z) (body rest : bytes).

Definition read_frame (cs : ConnShared) (input : bytes) (fin : bool) : Inbound :=
  if length input <? 9 then (if fin then InEof else InWait) else
  let byte_at i := from_be (take 1 (drop i input)) in
  let version := byte_at 0 in
  let flags := byte_at 1 in
  let stream := from_be_signed (take 2 (drop 2 input)) in
  let opcode := byte_at 4 in
  let len := from_be (take 4 (drop 5 input)) in
  if negb (version =? 0x04)%Z then
    InReject stream (error version stream 0x000A
      (bs "Unsupported protocol version; this server supports CQL v4") None)
  else if (MAX_FRAME_LENGTH <? len)%Z then
    InReject stream (error version stream 0x000A (bs "Frame too large") (compression cs))
  else
    let input := drop 9 input in
    let n := Z.to_nat len in
    if length input <? n then (if fin then InBroken else InWait) else
    let body := take n input in
    let rest := drop n input in
    if Z.testbit flags 0 then
      match compression cs with
      | Some comp =>
        match decompress comp body with
        | Ok plain => InRequest stream opcode plain rest
        | _ => InBroken
        end
      | None =>
        InRefuse stream (error version stream 0x000A
          (bs "Received compressed frame without negotiated compression") None) rest
      end
    else InRequest stream opcode body rest.

(** ** The tasks of a connection *)

(** A request in progress: not started, waiting for its writes, or waiting to
    hand its response to the writer. *)
Inductive Phase :=
| PhStart (opcode : Z) (body : bytes)
| PhSettle (gates : list WriteTicket) (p : Pending)
| PhSend (resp : bytes).

Inductive Reader :=
| RdFrame                                  (** reading the next frame *)
| RdInline (stream : Z) (ph : Phase)       (** a request on the reader task *)
| RdPermit (stream opcode : Z) (body : bytes)  (** [inflight.acquire_owned()] *)
| RdBye (stream : Z) (resp : bytes)        (** the last answer before the reader ends *)
| RdClosed.

(** [c_in], [c_fin]: bytes received and not read yet, and whether the peer is
    done.  [c_tasks]: spawned requests with their stream ids.  [c_resp]: the
    response channel.  [c_writer]: the writer lives.  [c_out]: bytes sent. *)
Record Conn := {
  c_in : bytes;
  c_fin : bool;
  c_state : ConnShared;
  c_reader : Reader;
  c_tasks : list (Z * Phase);
  c_resp : list bytes;
  c_writer : bool;
  c_out : bytes;
}.

Definition open_conn : Conn :=
  {| c_in := []; c_fin := false; c_state := new_conn; c_reader := RdFrame; c_tasks := [];
     c_resp := []; c_writer := true; c_out := [] |}.

Definition set_input (i : bytes) (fin : bool) (c : Conn) : Conn :=
  {| c_in := i; c_fin := fin; c_state := c_state c; c_reader := c_reader c; c_tasks := c_tasks c;
     c_resp := c_resp c; c_writer := c_writer c; c_out := c_out c |}.
Definition set_state (cs : ConnShared) (c : Conn) : Conn :=
  {| c_in := c_in c; c_fin := c_fin c; c_state := cs; c_reader := c_reader c; c_tasks := c_tasks c;
     c_resp := c_resp c; c_writer := c_writer c; c_out := c_out c |}.
Definition set_reader (r : Reader) (c : Conn) : Conn :=
  {| c_in := c_in c; c_fin := c_fin c; c_state := c_state c; c_reader := r; c_tasks := c_tasks c;
     c_resp := c_resp c; c_writer := c_writer c; c_out := c_out c |}.
Definition set_tasks (ts : list (Z * Phase)) (c : Conn) : Conn :=
  {| c_in := c_in c; c_fin := c_fin c; c_state := c_state c; c_reader := c_reader c; c_tasks := ts;
     c_resp := c_resp c; c_writer := c_writer c; c_out := c_out c |}.
Definition set_channel (resp : list bytes) (writer : bool) (out : bytes) (c : Conn) : Conn :=
  {| c_in := c_in c; c_fin := c_fin c; c_state := c_state c; c_reader := c_reader c; c_tasks := c_tasks c;
     c_resp := resp; c_writer := writer; c_out := out |}.

(** The capacity of the response channel. *)
Definition CHANNEL : nat := PER_CONN_INFLIGHT * 2.

(** [let _ = resp_tx.send(..).await]: waits while the channel is full; without a
    writer the response is dropped. *)
Definition send_resp (resp : bytes) (c : Conn) : option Conn :=
  if negb (c_writer c) then Some c
  else if length (c_resp c) <? CHANNEL
  then Some (set_channel (c_resp c ++ [resp]) true (c_out c) c) else None.

(** A step of a request: it moves on, it has handed over its response, or its
    task died in a panic. *)
Inductive Move := Next (ph : Phase) | Sent (resp : bytes) | Died.

(** [match handle_request(..).await { Ok(resp) => .., Err(e) => protocol::error(..) }]. *)
Definition conclude (stream : Z) (cs : ConnShared) (r : res QueryError Outcome) : Move :=
  match r with
  | Ok (Reply resp) => Next (PhSend resp)
  | Ok (Settle gates p) => Next (PhSettle gates p)
  | Err e =>
    match error (E:=QueryError) 4 stream (qe_code e) (qe_message e) (compression cs) with
    | Ok resp => Next (PhSend resp)
    | _ => Died
    end
  | Panic => Died
  end.

Definition advance (stream : Z) (ph : Phase) (s : Storage) (c : Conn) : option (Storage * Conn * Move) :=
  match ph with
  | PhStart opcode body =>
    let '((s', cs), r) := handle_request opcode body stream (s, c_state c) in
    Some (s', set_state cs c, conclude stream cs r)
  | PhSettle gates p =>
    if settled s gates then
      let '((s', cs), r) := after_settle p (s, c_state c) in
      Some (s', set_state cs c, conclude stream cs (Reply <$> r))
    else None
  | PhSend resp => c' ← send_resp resp c; Some (s, c', Sent resp)
  end.

(** What happens to requests, for the record. *)
Inductive Event := EvAccept (stream : Z) | EvSent (stream : Z) (resp : bytes) | EvLost (stream : Z).

(** The reader. *)
Definition reader_step (s : Storage) (c : Conn) : option (Storage * Conn * list Event) :=
  match c_reader c with
  | RdFrame =>
    match read_frame (c_state c) (c_in c) (c_fin c) with
    | InWait => None
    | InEof | InBroken => Some (s, set_reader RdClosed c, [])
    | InReject stream (Ok resp) => Some (s, set_reader (RdBye stream resp) c, [EvAccept stream])
    | InReject stream _ => Some (s, set_reader RdClosed c, [EvAccept stream; EvLost stream])
    | InRefuse stream (Ok resp) rest =>
      Some (s, set_reader (RdInline stream (PhSend resp)) (set_input rest (c_fin c) c), [EvAccept stream])
    | InRefuse stream _ rest =>
      Some (s, set_reader RdClosed (set_input rest (c_fin c) c), [EvAccept stream; EvLost stream])
    | InRequest stream opcode body rest =>
      let inline := negb (opcode =? req_u8 ReqQuery)%Z && negb (opcode =? req_u8 ReqExecute)%Z in
      let r := if inline || is_session_use body then RdInline stream (PhStart opcode body)
               else RdPermit stream opcode body in
      Some (s, set_reader r (set_input rest (c_fin c) c), [EvAccept stream])
    end
  | RdInline stream ph =>
    '(s', c', m) ← advance stream ph s c;
    match m with
    | Next ph' => Some (s', set_reader (RdInline stream ph') c', [])
    | Sent resp => Some (s', set_reader RdFrame c', [EvSent stream resp])
    | Died => Some (s', set_reader RdClosed c', [EvLost stream])
    end
  | RdPermit stream opcode body =>
    if length (c_tasks c) <? PER_CONN_INFLIGHT
    then Some (s, set_reader RdFrame (set_tasks (c_tasks c ++ [(stream, PhStart opcode body)]) c), [])
    else None
  | RdBye stream resp =>
    c' ← send_resp resp c; Some (s, set_reader RdClosed c', [EvSent stream resp])
  | RdClosed => None
  end.

(** Spawned request [j]. *)
Definition task_step (j : nat) (s : Storage) (c : Conn) : option (Storage * Conn * list Event) :=
  '(stream, ph) ← c_tasks c !! j;
  '(s', c', m) ← advance stream ph s c;
  match m with
  | Next ph' => Some (s', set_tasks (<[j := (stream, ph')]> (c_tasks c)) c', [])
  | Sent resp => Some (s', set_tasks (base.delete j (c_tasks c)) c', [EvSent stream resp])
  | Died => Some (s', set_tasks (base.delete j (c_tasks c)) c', [EvLost stream])
  end.

(** ** The writer *)

(** The inner loop: responses that are ready join until the threshold. *)
Fixpoint coalesce (queued_bytes : Z) (chan : list bytes) : list bytes * list bytes :=
  match chan with
  | [] => ([], [])
  | r :: chan' =>
    if (queued_bytes <? WRITE_FLUSH_THRESHOLD)%Z then
      let '(pending, rest) := coalesce (queued_bytes + Z.of_nat (length r)) chan' in
      (r :: pending, rest)
    else ([], chan)
  end.
Definition take_pending (chan : list bytes) : option (list bytes * list bytes) :=
  match chan with
  | [] => None
  | r :: chan' => let '(pending, rest) := coalesce (Z.of_nat (length r)) chan' in Some (r :: pending, rest)
  end.

(** What reaches the socket when the kernel takes [n] bytes.  Tokio's
    [write_half.write_vectored(&iovec)] hands over all pending buffers once and
    succeeds however many bytes are taken; the monoio server repeats [write_all]
    until every byte of every buffer is taken, or one write fails. *)
Inductive Runtime := Tokio | Monoio.
Definition flush (rt : Runtime) (n : nat) (ok : bool) (pending : list bytes) : bytes :=
  match rt, ok with
  | Monoio, true => concat pending
  | _, _ => take n (concat pending)
  end.

(** One turn of the writer; it ends when the write fails.  The turn is taken when the
    write returns, which is up to the peer: it does not while the peer takes no
    bytes ([World.own] leaves it out for such peers). *)
Definition writer_step (rt : Runtime) (n : nat) (ok : bool) (c : Conn) : option Conn :=
  if c_writer c then
    '(pending, rest) ← take_pending (c_resp c);
    let out := c_out c ++ flush rt n ok pending in
    Some (if ok then set_channel rest true out c else set_channel [] false out c)
  else None.

Inductive ConnLabel :=
| LRecv (b : bytes)
| LFin
| LReader
| LTask (j : nat)
| LWriter (n : nat) (ok : bool).

Definition conn_step (rt : Runtime) (l : ConnLabel) (s : Storage) (c : Conn)
    : option (Storage * Conn * list Event) :=
  match l with
  | LRecv b => if c_fin c then None else Some (s, set_input (c_in c ++ b) false c, [])
  | LFin => Some (s, set_input (c_in c) true c, [])
  | LReader => reader_step s c
  | LTask j => task_step j s c
  | LWriter n ok => c' ← writer_step rt n ok c; Some (s, c', [])
  end.
End server.
