(* ===== verification/Client.v ===== *)
(** * The protocol client

    The benchmark programs src/src/bin/bench.rs and src/src/bin/bench_async.rs
    carry a small client of the protocol: frames, message bodies, reading
    responses, the id of a prepared statement, and a workload of EXECUTE frames
    on random keys.  [Bench] and [BenchAsync] model that part; connections are the
    bytes that will arrive and the bytes that were sent.  [Honest] models
    src/src/bin/bench_honest.rs, which drives the storage directly. *)

From S2P Require Import Prelude RustStr.

Module Bench.
(** ** Arguments *)

Inductive Mode := Read | Write | Mixed.
#[global] Instance Mode_eq_dec : EqDecision Mode.
Proof. solve_decision. Defined.

Record Args := {
  a_addr : str;
  a_conns : Z;
  a_pipeline : Z;
  a_seconds : Z;
  a_mode : Mode;
  a_keys : Z;
  a_fill_keys : Z;
  a_value_len : Z;
}.
Definition default_args : Args :=
  {| a_addr := bs "127.0.0.1:9042"; a_conns := 8; a_pipeline := 128; a_seconds := 10; a_mode := Read;
     a_keys := 1000000; a_fill_keys := 200000; a_value_len := 64 |}.

Definition parse_mode (v : str) : res str Mode :=
  if bool_decide (v = bs "read") then Ok Read
  else if bool_decide (v = bs "write") then Ok Write
  else if bool_decide (v = bs "mixed") then Ok Mixed
  else Panic.

(** One option; [usize] and [u64] are 64 bits wide. *)
Definition set_arg (k v : str) (a : Args) : res str Args :=
  let num : res str Z := unwrap (parse_uint 64 v) in
  if bool_decide (k = bs "--addr") then
    Ok {| a_addr := v; a_conns := a_conns a; a_pipeline := a_pipeline a; a_seconds := a_seconds a;
          a_mode := a_mode a; a_keys := a_keys a; a_fill_keys := a_fill_keys a; a_value_len := a_value_len a |}
  else if bool_decide (k = bs "--conns") then
    n ← num;
    Ok {| a_addr := a_addr a; a_conns := n; a_pipeline := a_pipeline a; a_seconds := a_seconds a;
          a_mode := a_mode a; a_keys := a_keys a; a_fill_keys := a_fill_keys a; a_value_len := a_value_len a |}
  else if bool_decide (k = bs "--pipeline") then
    n ← num;
    Ok {| a_addr := a_addr a; a_conns := a_conns a; a_pipeline := n; a_seconds := a_seconds a;
          a_mode := a_mode a; a_keys := a_keys a; a_fill_keys := a_fill_keys a; a_value_len := a_value_len a |}
  else if bool_decide (k = bs "--seconds") then
    n ← num;
    Ok {| a_addr := a_addr a; a_conns := a_conns a; a_pipeline := a_pipeline a; a_seconds := n;
          a_mode := a_mode a; a_keys := a_keys a; a_fill_keys := a_fill_keys a; a_value_len := a_value_len a |}
  else if bool_decide (k = bs "--mode") then
    m ← parse_mode v;
    Ok {| a_addr := a_addr a; a_conns := a_conns a; a_pipeline := a_pipeline a; a_seconds := a_seconds a;
          a_mode := m; a_keys := a_keys a; a_fill_keys := a_fill_keys a; a_value_len := a_value_len a |}
  else if bool_decide (k = bs "--keys") then
    n ← num;
    Ok {| a_addr := a_addr a; a_conns := a_conns a; a_pipeline := a_pipeline a; a_seconds := a_seconds a;
          a_mode := a_mode a; a_keys := n; a_fill_keys := a_fill_keys a; a_value_len := a_value_len a |}
  else if bool_decide (k = bs "--fill-keys") then
    n ← num;
    Ok {| a_addr := a_addr a; a_conns := a_conns a; a_pipeline := a_pipeline a; a_seconds := a_seconds a;
          a_mode := a_mode a; a_keys := a_keys a; a_fill_keys := n; a_value_len := a_value_len a |}
  else if bool_decide (k = bs "--value-len") then
    n ← num;
    Ok {| a_addr := a_addr a; a_conns := a_conns a; a_pipeline := a_pipeline a; a_seconds := a_seconds a;
          a_mode := a_mode a; a_keys := a_keys a; a_fill_keys := a_fill_keys a; a_value_len := n |}
  else Panic.

(** [while let Some(k) = it.next() { let v = it.next().unwrap_or_else(panic); .. }]. *)
Fixpoint parse_args_loop (it : list str) (a : Args) : res str Args :=
  match it with
  | [] => Ok a
  | [_] => Panic
  | k :: v :: it' => a' ← set_arg k v a; parse_args_loop it' a'
  end.
Definition parse_args (it : list str) : res str Args := parse_args_loop it default_args.

(** ** Frames *)

Definition OPCODE_ERROR : Z := 0x00.
Definition OPCODE_READY : Z := 0x02.

Definition frame (stream opcode : Z) (body out : bytes) : bytes :=
  out ++ [Z_to_byte 0x04] ++ [Z_to_byte 0] ++ be 2 stream ++ [Z_to_byte opcode]
  ++ be 4 (Z.of_nat (length body)) ++ body.

Definition long_string (s : str) (out : bytes) : bytes :=
  (out ++ be 4 (Z.of_nat (length s))) ++ s.

Definition startup_body (out : bytes) : bytes :=
  out ++ be 2 1 ++ be 2 11 ++ bs "CQL_VERSION" ++ be 2 5 ++ bs "3.0.0".

Definition query_params_with_values (values : list bytes) (skip_meta : bool) (out : bytes) : bytes :=
  let out := out ++ be 2 0x0001 in
  let flags := if skip_meta then Z.lor 0x01 0x02 else 0x01%Z in
  let out := out ++ [Z_to_byte flags] in
  let out := out ++ be 2 (Z.of_nat (length values)) in
  foldl (fun out v => (out ++ be 4 (Z.of_nat (length v))) ++ v) out values.

(** The connection: bytes that will arrive, bytes written, the next stream id. *)
Record Conn := { cn_in : bytes; cn_out : bytes; next_stream : Z }.
Abbreviation M := (st Conn str).

(** [reader.read_exact]; at the end of the stream what was left is consumed.
    [cn_in] is everything the server sends before it closes the connection: a read
    that waits for ever on an open, silent connection is not a run of this model. *)
Definition read_exact (n : nat) : M bytes := fun c =>
  if length (cn_in c) <? n
  then ({| cn_in := []; cn_out := cn_out c; next_stream := next_stream c |}, Err (bs "failed to fill whole buffer"))
  else ({| cn_in := drop n (cn_in c); cn_out := cn_out c; next_stream := next_stream c |},
        Ok (take n (cn_in c))).
(** [sock.write_all]. *)
Definition write_all (b : bytes) : M () :=
  modify (fun c => {| cn_in := cn_in c; cn_out := cn_out c ++ b; next_stream := next_stream c |}).
(** [next_stream], then [next_stream.wrapping_add(1)]. *)
Definition take_stream : M Z := fun c =>
  ({| cn_in := cn_in c; cn_out := cn_out c; next_stream := swrap 16 (next_stream c + 1) |},
   Ok (next_stream c)).

Definition read_response : M (Z * bytes) :=
  hdr ← read_exact 9;
  let opcode := from_be (take 1 (drop 4 hdr)) in
  let len := Z.to_nat (from_be (take 4 (drop 5 hdr))) in
  body ← read_exact len;
  mret (opcode, body).

Definition connect (w : Conn) : Conn * res str () :=
  (write_all (frame 0 0x01 (startup_body []) []);;
   '(op, _) ← read_response;
   if (op =? OPCODE_READY)%Z then mret () else lift Panic)
  {| cn_in := cn_in w; cn_out := cn_out w; next_stream := 0 |}.

Definition roundtrip_query (cql : str) : M bytes :=
  let body := (long_string cql [] ++ be 2 0x0001) ++ [Z_to_byte 0x00] in
  stream ← take_stream;
  write_all (frame stream 0x07 body []);;
  '(op, payload) ← read_response;
  if (op =? OPCODE_ERROR)%Z then throw (bs "query error: " ++ from_utf8_lossy payload) else mret payload.

(** The id in a PREPARED result. *)
Definition prepared_id (payload : bytes) : res str bytes :=
  k ← slice payload 0 4;
  if negb (from_be_signed k =? 4)%Z then Panic else
  l ← slice payload 4 6;
  slice payload 6 (6 + Z.to_nat (from_be l)).

Definition prepare (cql : str) : M bytes :=
  let body := long_string cql [] in
  stream ← take_stream;
  write_all (frame stream 0x09 body []);;
  '(op, payload) ← read_response;
  if (op =? OPCODE_ERROR)%Z then throw (bs "prepare error: " ++ from_utf8_lossy payload)
  else lift (prepared_id payload).

(** ** The workload *)

Record Workload := {
  insert_id : bytes;
  select_id : bytes;
  rng : Z;
  value : bytes;
  mode : Mode;
  keys : Z;
  filled : Z;
}.

Definition set_rng (x : Z) (w : Workload) : Workload :=
  {| insert_id := insert_id w; select_id := select_id w; rng := x; value := value w; mode := mode w;
     keys := keys w; filled := filled w |}.

(** [x ^= x << 13; x ^= x >> 7; x ^= x << 17] on [u64]. *)
Definition xorshift (x : Z) : Z :=
  let x := Z.lxor x (uwrap 64 (Z.shiftl x 13)) in
  let x := Z.lxor x (Z.shiftr x 7) in
  Z.lxor x (uwrap 64 (Z.shiftl x 17)).
Definition rand (w : Workload) : Workload * Z :=
  let x := xorshift (rng w) in (set_rng x w, x).

(** [1 + rand() % n]; a zero divisor panics. *)
Definition key (w : Workload) : res str (Workload * Z) :=
  let '(w', x) := rand w in
  let n := match mode w with Write => keys w | _ => Z.max (filled w) 1 end in
  if (n =? 0)%Z then Panic else Ok (w', 1 + x mod n)%Z.

Definition execute_frame (w : Workload) (is_insert : bool) (out : bytes) (stream : Z)
    : res str (Workload * bytes) :=
  '(w', k) ← key w;
  let kbe := be 8 k in
  let id := if is_insert then insert_id w else select_id w in
  let body := be 2 (Z.of_nat (length id)) ++ id in
  let body := if is_insert then query_params_with_values [kbe; value w] false body
              else query_params_with_values [kbe] true body in
  Ok (w', frame stream 0x0A body out).

(** ** The fill phase of [main] *)

(** The inner loop: up to [pipeline] requests in one buffer.  [n] is
    [args.fill_keys - key + 1], the turns left. *)
Fixpoint fill_batch (room n : nat) (w : Workload) (next_stream : Z) (out : bytes)
    : res str (Workload * Z * bytes * nat) :=
  match room, n with
  | S room', S n' =>
    '(w', out') ← execute_frame w true out next_stream;
    fill_batch room' n' w' (Z.land (swrap 16 (next_stream + 1)) 0x7FFF) out'
  | _, _ => Ok (w, next_stream, out, n)
  end.
(** The outer loop: the buffers in the order they are written. *)
Fixpoint fill (fuel pipeline n : nat) (w : Workload) (next_stream : Z) : res str (Workload * list bytes) :=
  match n with
  | O => Ok (w, [])
  | _ =>
    match fuel with
    | O => Panic
    | S f =>
      '(w', ns, out, n') ← fill_batch pipeline n w next_stream [];
      '(w'', bufs) ← fill f pipeline n' w' ns;
      Ok (w'', out :: bufs)
    end
  end.
Definition fill_workload (ins_id : bytes) (value_len : nat) (fill_keys : Z) : Workload :=
  {| insert_id := ins_id; select_id := []; rng := 0x9E3779B97F4A7C15;
     value := replicate value_len Byte.x78; mode := Write; keys := Z.max fill_keys 1; filled := 0 |}.

(** ** The measurement of [main] *)

(** The workload of connection [cid]; the product wraps as in a release build. *)
Definition workload (a : Args) (cid : Z) (ins_id sel_id : bytes) : Workload :=
  {| insert_id := ins_id; select_id := sel_id;
     rng := Z.lxor 0x2545F4914F6CDD1D (uwrap 64 ((cid + 1) * 0x9E3779B97F4A7C15));
     value := replicate (Z.to_nat (a_value_len a)) Byte.x76; mode := a_mode a; keys := a_keys a;
     filled := Z.min (a_fill_keys a) (a_keys a) |}.
(** Whether request [i] of a batch is an INSERT. *)
Definition is_ins (m : Mode) (i : nat) : bool :=
  match m with Write => true | Read => false | Mixed => i mod 2 =? 0 end.
(** One batch: requests [i], .., [i + n - 1] in one buffer. *)
Fixpoint batch (n i : nat) (m : Mode) (w : Workload) (next_stream : Z) (out : bytes)
    : res str (Workload * Z * bytes) :=
  match n with
  | O => Ok (w, next_stream, out)
  | S n' =>
    '(w', out') ← execute_frame w (is_ins m i) out next_stream;
    batch n' (S i) m w' (swrap 16 (next_stream + 1)) out'
  end.
End Bench.

Module BenchAsync.
Export Bench(Mode(..)).

(** The same options with other defaults. *)
Definition default_args : Bench.Args :=
  {| Bench.a_addr := bs "127.0.0.1:9042"; Bench.a_conns := 128; Bench.a_pipeline := 256;
     Bench.a_seconds := 10; Bench.a_mode := Read; Bench.a_keys := 1000000; Bench.a_fill_keys := 200000;
     Bench.a_value_len := 64 |}.
Definition parse_args (it : list str) : res str Bench.Args := Bench.parse_args_loop it default_args.

Definition frame (stream opcode : Z) (body out : bytes) : bytes :=
  let out := out ++ [Z_to_byte 0x04; Z_to_byte 0] in
  let out := out ++ be 2 stream in
  let out := out ++ [Z_to_byte opcode] in
  let out := out ++ be 4 (Z.of_nat (length body)) in
  out ++ body.

Definition long_string (s : str) (out : bytes) : bytes :=
  let out := out ++ be 4 (Z.of_nat (length s)) in out ++ s.

(** A connection is read and written like one of [Bench]; it has no stream counter. *)
Abbreviation M := (st Bench.Conn str).

Definition read_response : M (Z * bytes) :=
  hdr ← Bench.read_exact 9;
  let opcode := from_be (take 1 (drop 4 hdr)) in
  let len := Z.to_nat (from_be (take 4 (drop 5 hdr))) in
  scratch ← Bench.read_exact len;
  mret (opcode, scratch).

Definition roundtrip_query (cql : str) (allow_error : bool) : M bytes :=
  let body := (long_string cql [] ++ be 2 0x0001) ++ [Z_to_byte 0x00] in
  Bench.write_all (frame 0 0x07 body []);;
  '(op, scratch) ← read_response;
  if (op =? Bench.OPCODE_ERROR)%Z && negb allow_error
  then throw (bs "query error: " ++ from_utf8_lossy scratch) else mret scratch.

Definition prepare_stmt (cql : str) : M bytes :=
  let body := long_string cql [] in
  Bench.write_all (frame 1 0x09 body []);;
  '(op, scratch) ← read_response;
  if (op =? Bench.OPCODE_ERROR)%Z then throw (bs "prepare error: " ++ from_utf8_lossy scratch) else
  kind ← lift (slice scratch 0 4);
  if negb (from_be_signed kind =? 4)%Z then lift Panic else
  l ← lift (slice scratch 4 6);
  lift (slice scratch 6 (6 + Z.to_nat (from_be l))).

(** The STARTUP of the set-up connection. *)
Definition startup : M () :=
  let body := ((([] ++ be 2 1) ++ be 2 11) ++ bs "CQL_VERSION") ++ be 2 5 in
  let body := body ++ bs "3.0.0" in
  Bench.write_all (frame 0 0x01 body []);;
  '(op, _) ← read_response;
  if (op =? Bench.OPCODE_READY)%Z then mret () else lift Panic.

Record ConnCtx := {
  insert_id : bytes;
  select_id : bytes;
  rng : Z;
  value : bytes;
  mode : Mode;
  keys : Z;
  filled : Z;
  next_stream : Z;
}.

Definition step_ctx (x stream : Z) (c : ConnCtx) : ConnCtx :=
  {| insert_id := insert_id c; select_id := select_id c; rng := x; value := value c; mode := mode c;
     keys := keys c; filled := filled c; next_stream := stream |}.

Definition is_ins (m : Mode) (i_in_batch : nat) : bool :=
  match m with Write => true | Read => false | Mixed => i_in_batch mod 2 =? 0 end.

(** Builds one EXECUTE frame; the flag says whether it is an INSERT. *)
Definition build_op (c : ConnCtx) (i_in_batch : nat) (out : bytes) : res str (ConnCtx * bytes * bool) :=
  let x := Bench.xorshift (rng c) in
  let n := match mode c with Write => keys c | _ => Z.max (filled c) 1 end in
  if (n =? 0)%Z then Panic else
  let kbe := be 8 (1 + x mod n) in
  let ins := is_ins (mode c) i_in_batch in
  let '(id, flags) := if ins then (insert_id c, 0x01%Z) else (select_id c, Z.lor 0x01 0x02) in
  let body := be 2 (Z.of_nat (length id)) in
  let body := body ++ id in
  let body := body ++ be 2 0x0001 in
  let body := body ++ [Z_to_byte flags] in
  let body := body ++ be 2 (if ins then 2 else 1) in
  let body := (body ++ be 4 8) ++ kbe in
  let body := if ins then (body ++ be 4 (Z.of_nat (length (value c)))) ++ value c else body in
  let s := next_stream c in
  Ok (step_ctx x (Z.land (swrap 16 (s + 1)) 0x7FFF) c, frame s 0x0A body out, ins).

(** The fill phase: up to [pipeline] requests in one buffer, which is sent early
    once it is longer than a mebibyte. *)
Fixpoint fill_batch (room n pending : nat) (c : ConnCtx) (out : bytes) : res str (ConnCtx * bytes * nat) :=
  match room, n with
  | S room', S n' =>
    '(c', out', _) ← build_op c pending out;
    if (1024 * 1024 <? Z.of_nat (length out'))%Z then Ok (c', out', n')
    else fill_batch room' n' (S pending) c' out'
  | _, _ => Ok (c, out, n)
  end.
Fixpoint fill (fuel pipeline n : nat) (c : ConnCtx) : res str (ConnCtx * list bytes) :=
  match n with
  | O => Ok (c, [])
  | _ =>
    match fuel with
    | O => Panic
    | S f =>
      '(c', out, n') ← fill_batch pipeline n 0 c [];
      '(c'', bufs) ← fill f pipeline n' c';
      Ok (c'', out :: bufs)
    end
  end.

(** The measurement: the context of connection [cid], and one batch. *)
Definition measure_ctx (a : Bench.Args) (cid : Z) (ins_id sel_id : bytes) : ConnCtx :=
  {| insert_id := ins_id; select_id := sel_id;
     rng := Z.lxor 0x2545F4914F6CDD1D (uwrap 64 ((cid + 7) * 0x9E3779B97F4A7C15));
     value := replicate (Z.to_nat (Bench.a_value_len a)) Byte.x76; mode := Bench.a_mode a;
     keys := Bench.a_keys a; filled := Z.max (Z.min (Bench.a_fill_keys a) (Bench.a_keys a)) 1;
     next_stream := 0 |}.
Fixpoint batch (n i : nat) (c : ConnCtx) (out : bytes) : res str (ConnCtx * bytes) :=
  match n with
  | O => Ok (c, out)
  | S n' => '(c', out', _) ← build_op c i out; batch n' (S i) c' out'
  end.
End BenchAsync.

(** ** The storage benchmark *)

Module Honest.
(** Models src/src/bin/bench_honest.rs: arguments, the generator of keys, and the
    accounting of its threads. *)
Record Args := { h_data : str; h_keys : Z; h_fill : Z; h_threads : Z; h_secs : Z }.

(** [it.next().unwrap_or_else(|| old.to_string()).parse().unwrap_or(old)]. *)
Definition lenient (v : str) (old : Z) : Z := default old (parse_uint 64 v).
Definition set_arg (k v : str) (a : Args) : option Args :=
  if bool_decide (k = bs "--data") then
    Some {| h_data := v; h_keys := h_keys a; h_fill := h_fill a; h_threads := h_threads a; h_secs := h_secs a |}
  else if bool_decide (k = bs "--keys") then
    Some {| h_data := h_data a; h_keys := lenient v (h_keys a); h_fill := h_fill a;
            h_threads := h_threads a; h_secs := h_secs a |}
  else if bool_decide (k = bs "--fill") then
    Some {| h_data := h_data a; h_keys := h_keys a; h_fill := lenient v (h_fill a);
            h_threads := h_threads a; h_secs := h_secs a |}
  else if bool_decide (k = bs "--threads") then
    Some {| h_data := h_data a; h_keys := h_keys a; h_fill := h_fill a;
            h_threads := lenient v (h_threads a); h_secs := h_secs a |}
  else if bool_decide (k = bs "--seconds") then
    Some {| h_data := h_data a; h_keys := h_keys a; h_fill := h_fill a; h_threads := h_threads a;
            h_secs := lenient v (h_secs a) |}
  else None.
(** An unknown word is skipped alone; a last option without a value changes nothing. *)
Fixpoint parse_args_loop (fuel : nat) (it : list str) (a : Args) : Args :=
  match fuel, it with
  | S f, k :: v :: it' =>
    match set_arg k v a with
    | Some a' => parse_args_loop f it' a'
    | None => parse_args_loop f (v :: it') a
    end
  | _, _ => a
  end.
(** [env]: the variable RHYDADB_DATA; [cpus]: [available_parallelism]. *)
Definition parse_args (env : option str) (cpus : option Z) (it : list str) : Args :=
  parse_args_loop (length it) it
    {| h_data := default (bs "C:\temp\rhydadb-bench-honest") env; h_keys := 1000000; h_fill := 200000;
       h_threads := default 8%Z cpus; h_secs := 10 |}.

(** The fill phase: keys 1 to min(fill, keys), a [settle] after every 1024. *)
Fixpoint fill_batches (keys tickets : list Z) : list (list Z) :=
  match keys with
  | [] => [tickets]
  | k :: keys' =>
    let tickets := tickets ++ [k] in
    if 1024 <=? length tickets then tickets :: fill_batches keys' [] else fill_batches keys' tickets
  end.
Definition fill (fill keys : Z) : list (list Z) := fill_batches (seqZ 1 (Z.min fill keys)) [].

(** The seeds of the threads, products of [u64] wrapping as in a release build. *)
Definition write_seed (tid : Z) : Z := Z.lxor 0x9E3779B97F4A7C15 (uwrap 64 (tid * 0x9E3779B97F4A7C15)).
Definition read_seed (tid : Z) : Z := Z.lxor 0x2545F4914F6CDD1D (uwrap 64 (tid * 0x9E3779B97F4A7C15)).
(** The keys a thread touches: [1 + rng % keys], turn by turn; [% 0] panics. *)
Fixpoint touched (n : nat) (rng keys : Z) : res str (list Z) :=
  match n with
  | O => Ok []
  | S n' =>
    let x := Bench.xorshift rng in
    if (keys =? 0)%Z then Panic else
    l ← touched n' x keys; Ok ((1 + x mod keys)%Z :: l)
  end.

(** What a writing thread adds to [ops] in [n] turns: 64 after every 64 tickets,
    and the rest when it drains. *)
Fixpoint write_ops (n tickets ops : nat) : nat :=
  match n with
  | O => if tickets =? 0 then ops else ops + tickets
  | S n' =>
    let tickets := S tickets in
    if 64 <=? tickets then write_ops n' 0 (ops + 64) else write_ops n' tickets ops
  end.
(** What a reading thread adds: 1024 after every 1024 reads, and the rest. *)
Fixpoint read_ops (n local_ops ops : nat) : nat :=
  match n with
  | O => ops + local_ops
  | S n' =>
    let local_ops := S local_ops in
    if local_ops mod 1024 =? 0 then read_ops n' 0 (ops + 1024) else read_ops n' local_ops ops
  end.
End Honest.
