(* ===== verification/Frames.v ===== *)
(** * Responses as a client reads them

    The readers of the protocol's result bodies, written from the specification,
    and the theorems that tie the server's writers to them and to the client's
    frame reader: headers, rows, prepared statements; and where the writers
    panic or depart from the specification. *)

From S2P Require Import Prelude RustStr Ast Schema CqlValue Keys Project Kv Pipeline Storage Query Wire.
From S2P Require Import Protocol Client.

(** ** The reference readers *)

(** A cell of a column of type [t]. *)
Definition get_cell (t : ColumnType) (l : bytes) : option (Value * bytes) :=
  '(n, _) ← get_int l;
  '(d, r) ← get_n (4 + Z.to_nat n) l;
  match from_wire d t with Ok v => Some (v, r) | _ => None end.
Fixpoint get_cells (ts : list ColumnType) (l : bytes) : option (list Value * bytes) :=
  match ts with
  | [] => Some ([], l)
  | t :: ts' => '(v, r) ← get_cell t l; '(vs, r') ← get_cells ts' r; Some (v :: vs, r')
  end.
(** A column specification under a global table specification. *)
Definition get_spec (l : bytes) : option (str * ColumnType * bytes) :=
  '(name, r) ← get_short l; '(t, r') ← read_option 2 r; Some (name, t, r').

Record RowsResult := {
  rr_table : option (str * str);
  rr_cols : list (str * ColumnType);
  rr_rows : list (list Value);
  rr_paging : option bytes;
}.

(** The body of a Rows result.  The metadata is left out when the flag
    No_metadata (0x0004) is set - or, for a reader that is not [strict], when the
    column count is negative; the columns are then the ones [known] from the
    prepared statement. *)
Definition read_rows (strict : bool) (known : list (str * ColumnType)) (l : bytes) : option RowsResult :=
  '(kind, l) ← get_int l;
  if negb (kind =? 2)%Z then None else
  '(flags, l) ← get_int l;
  '(n, l) ← get_int l;
  '(paging, l) ← get_opt (Z.testbit flags 1) get_long l;
  let skipped := if strict then Z.testbit flags 2 else (n <? 0)%Z in
  '(tb, cols, l) ←
    (if skipped then Some (None, known, l)
     else if (n <? 0)%Z then None
     else '(ks, l) ← get_short l; '(tb, l) ← get_short l;
          '(cols, l) ← get_list get_spec (Z.to_nat n) l; Some (Some (ks, tb), cols, l));
  '(cnt, l) ← get_int l;
  '(rows, l) ← get_list (get_cells (snd <$> cols)) (Z.to_nat cnt) l;
  if bool_decide (l = []) then
    Some {| rr_table := tb; rr_cols := cols; rr_rows := rows; rr_paging := paging |}
  else None.

(** ** Frames *)

Section frames.
Context `{WireLaws} {E : Type}.

(** A payload with its compression undone. *)
Definition unpack (compression : option Compression) (payload : bytes) : res str bytes :=
  match compression with Some c => decompress c payload | None => Ok payload end.

Definition header (version flags stream opcode : Z) (payload : bytes) : bytes :=
  [Z_to_byte (Z.lor version 0x80); Z_to_byte flags] ++ be 2 stream ++ [Z_to_byte opcode]
  ++ be 4 (Z.of_nat (length payload)) ++ payload.

Lemma response_frame_eq version stream op body comp : long_ok body ->
  exists payload flags,
    response_frame (E:=E) version stream op body comp
      = Ok (header version flags stream (resp_code op) payload) /\
    unpack comp payload = Ok body /\
    flags = match comp with Some _ => 1%Z | None => 0%Z end.
Proof.
  intros Hb. unfold response_frame. destruct comp as [c|].
  - destruct (compress_spec c body Hb) as (z & Hz & Hd). exists z, 1%Z.
    rewrite Hz. res_simpl. by rewrite resp_u8_spec.
  - exists body, 0%Z. res_simpl. by rewrite resp_u8_spec.
Qed.

Lemma read_exact_app n b r out ns : n = length b ->
  Bench.read_exact n {| Bench.cn_in := b ++ r; Bench.cn_out := out; Bench.next_stream := ns |}
  = ({| Bench.cn_in := r; Bench.cn_out := out; Bench.next_stream := ns |}, Ok b).
Proof.
  intros ->. unfold Bench.read_exact. cbn [Bench.cn_in Bench.cn_out Bench.next_stream]. rewrite length_app, (proj2 (Nat.ltb_ge _ _)) by lia.
  by rewrite drop_app_length, take_app_length.
Qed.

(** The client reads one frame and leaves the next one in place. *)
Lemma read_response_header version flags stream op payload rest out ns :
  (0 <= op < 256)%Z -> (Z.of_nat (length payload) < 2 ^ 32)%Z ->
  Bench.read_response {| Bench.cn_in := header version flags stream op payload ++ rest;
                         Bench.cn_out := out; Bench.next_stream := ns |}
  = ({| Bench.cn_in := rest; Bench.cn_out := out; Bench.next_stream := ns |}, Ok (op, payload)).
Proof.
  intros Hop Hlen. unfold Bench.read_response, header.
  set (h := [Z_to_byte (Z.lor version 0x80); Z_to_byte flags] ++ be 2 stream ++ [Z_to_byte op]
              ++ be 4 (Z.of_nat (length payload))).
  assert (Hh : ([Z_to_byte (Z.lor version 0x80); Z_to_byte flags] ++ be 2 stream ++ [Z_to_byte op]
    ++ be 4 (Z.of_nat (length payload)) ++ payload) ++ rest = h ++ payload ++ rest).
  { unfold h. by rewrite <-!app_assoc. }
  rewrite Hh. erewrite st_bind_eq.
  2:{ apply read_exact_app. unfold h. rewrite !length_app, !length_be. done. }
  assert (take 1 (drop 4 h) = [Z_to_byte op] /\ take 4 (drop 5 h) = be 4 (Z.of_nat (length payload)))
    as [-> ->].
  { unfold h. pose proof (length_be 2 stream) as H2.
    destruct (be 2 stream) as [|x [|y [|? ?]]]; done. }
  unfold from_be at 1. cbn [foldl]. rewrite byte_to_Z_to_byte, Z.mod_small by lia.
  rewrite from_be_len by (cbn; lia). rewrite Nat2Z.id.
  erewrite st_bind_eq by (by apply read_exact_app). done.
Qed.

(** The client reads [f] as a frame that answers with [body]: [read_response] takes
    exactly this frame off the stream, finds the opcode, and a payload that
    unpacks to the body. *)
Definition delivers (op : ResponseOpcode) (comp : option Compression) (body f : bytes) : Prop :=
  forall rest out ns, (Z.of_nat (length f) < 2 ^ 32)%Z ->
  exists payload,
    Bench.read_response {| Bench.cn_in := f ++ rest; Bench.cn_out := out; Bench.next_stream := ns |}
      = ({| Bench.cn_in := rest; Bench.cn_out := out; Bench.next_stream := ns |}, Ok (resp_code op, payload)) /\
    unpack comp payload = Ok body.

Lemma response_frame_delivers version stream op body comp : long_ok body ->
  exists f, response_frame (E:=E) version stream op body comp = Ok f /\ delivers op comp body f /\
    take 2 (drop 2 f) = be 2 stream.
Proof.
  intros Hb. destruct (response_frame_eq version stream op body comp Hb) as (p & fl & Hr & Hu & _).
  eexists. split; [exact Hr|]. split.
  - intros rest out ns Hlen. exists p. split; [|done].
    apply read_response_header; [by destruct op|].
    unfold header in Hlen. rewrite !length_app in Hlen. lia.
  - unfold header. pose proof (length_be 2 stream) as H2.
    by destruct (be 2 stream) as [|x [|y [|? ?]]].
Qed.

(** ** Rows *)

Definition spec_ok (nt : str * ColumnType) : Prop := short_ok (fst nt) /\ flat (snd nt) = true.

Lemma expect_string s buf : short_ok s -> expect (F:=E) (write_string s buf) = Ok (buf ++ enc_short s).
Proof. intros Hs. by rewrite write_string_spec. Qed.

Lemma write_wire_type_enc t buf : flat t = true ->
  exists enc, write_wire_type t buf = buf ++ enc /\
    forall r, read_option 2 (enc ++ r) = Some (t, r).
Proof.
  intros Ht. destruct (write_wire_type_read t buf [] Ht) as (enc & Henc & _). exists enc. split; [done|].
  intros r. destruct (write_wire_type_read t buf r Ht) as (enc' & Henc' & Hr).
  rewrite Henc in Henc'. by apply app_inv_head in Henc' as ->.
Qed.

Lemma write_specs_enc specs body : Forall spec_ok specs ->
  exists enc, write_specs (E:=E) specs body = Ok (body ++ enc) /\
    forall r, get_list get_spec (length specs) (enc ++ r) = Some (specs, r).
Proof.
  intros Hs. revert body. induction Hs as [|[n t] specs [Hn Ht] Hs IH]; intros body.
  { exists []. by rewrite app_nil_r. }
  cbn [write_specs fst snd] in *. rewrite expect_string by done. res_simpl.
  destruct (write_wire_type_enc t (body ++ enc_short n) Ht) as (e1 & He1 & Hr1). rewrite He1.
  destruct (IH ((body ++ enc_short n) ++ e1)) as (e2 & He2 & Hr2).
  exists (enc_short n ++ e1 ++ e2). split; [by rewrite He2, <-!app_assoc|].
  intros r. cbn [length get_list]. unfold get_spec.
  rewrite <-!app_assoc, get_short_app by done. cbn [mbind option_bind]. rewrite Hr1.
  cbn [mbind option_bind]. by rewrite Hr2.
Qed.

Lemma get_cell_app t v r : cell_ok t v = true -> fits v = true -> get_cell t (to_wire v ++ r) = Some (v, r).
Proof.
  intros Ht Hf. unfold get_cell. pose proof (from_wire_to_wire t v Ht Hf) as Hw.
  unfold fits in Hf. apply Z.ltb_lt in Hf.
  assert (v = VNull \/ has_type t v = true) as [-> | Ht'] by (destruct v; [by left|by right..]).
  - unfold to_wire in *. cbn [write_wire app] in *.
    rewrite get_int_app by done. cbn [mbind option_bind].
    rewrite get_n_app by (by rewrite length_be). cbn [mbind option_bind]. by rewrite Hw.
  - pose proof (to_wire_raw t v Ht') as Hr. pose proof (f_equal length Hr) as Hl.
    rewrite length_app, length_be in Hl.
    assert (Hi : get_int (to_wire v ++ r) = Some (Z.of_nat (length (raw_bytes v)), raw_bytes v ++ r)).
    { rewrite Hr, <-app_assoc. apply get_int_app, in_i_spec. lia. }
    rewrite Hi. cbn [mbind option_bind]. rewrite Nat2Z.id.
    rewrite get_n_app by lia. cbn [mbind option_bind]. by rewrite Hw.
Qed.

Definition row_typed (ts : list ColumnType) (row : list Value) : Prop :=
  Forall2 (fun t v => cell_ok t v = true /\ fits v = true) ts row.

Lemma get_cells_app ts row r : row_typed ts row ->
  get_cells ts (concat (to_wire <$> row) ++ r) = Some (row, r).
Proof.
  induction 1 as [|t v ts row [Ht Hf] Hrow IH]; [done|]. cbn [get_cells fmap list_fmap concat].
  rewrite <-app_assoc, get_cell_app by done. cbn [mbind option_bind]. by rewrite IH.
Qed.

Lemma write_rows_concat rows body :
  foldl (fun body row => foldl (fun body v => write_wire v body) body row) body rows
  = body ++ concat ((fun row => concat (to_wire <$> row)) <$> rows).
Proof.
  revert body. induction rows as [|row rows IH]; intros body; cbn [foldl fmap list_fmap concat];
    [by rewrite app_nil_r|].
  rewrite IH, app_assoc. f_equal. revert body.
  induction row as [|v row IHr]; intros body; cbn [foldl fmap list_fmap concat]; [by rewrite app_nil_r|].
  by rewrite IHr, write_wire_app, app_assoc.
Qed.

(** What fits a Rows result. *)
Record rows_ok (keyspace table : str) (cols : list (str * ColumnType)) (rows : list (list Value))
    (paging : option bytes) : Prop := {
  ro_keyspace : short_ok keyspace;
  ro_table : short_ok table;
  ro_cols : Forall spec_ok cols;
  ro_ncols : (Z.of_nat (length cols) < 2 ^ 31)%Z;
  ro_rows : Forall (row_typed (snd <$> cols)) rows;
  ro_nrows : (Z.of_nat (length rows) < 2 ^ 31)%Z;
  ro_paging : match paging with Some b => long_ok b | None => True end;
}.

Definition paging_bytes (paging : option bytes) : bytes :=
  match paging with Some b => enc_long b | None => [] end.
Lemma write_paging_eq paging body : match paging with Some b => long_ok b | None => True end ->
  write_paging (E:=E) paging body = Ok (body ++ paging_bytes paging).
Proof.
  destruct paging as [b|]; cbn; [|by rewrite app_nil_r]. intros Hb. by rewrite write_bytes_spec.
Qed.
Lemma get_paging paging r : match paging with Some b => long_ok b | None => True end ->
  get_opt (bool_decide (is_Some paging)) get_long (paging_bytes paging ++ r) = Some (paging, r).
Proof.
  destruct paging as [b|]; cbn; [|done]. intros Hb. by rewrite get_long_app.
Qed.

Lemma in_i_len {A} (l : list A) : (Z.of_nat (length l) < 2 ^ 31)%Z -> in_i 32 (Z.of_nat (length l)) = true.
Proof. intros Hl. apply in_i_spec. lia. Qed.

(** The body of a Rows result and what a reader makes of it. *)
Lemma result_rows_body version stream keyspace table cols rows skip paging comp :
  rows_ok keyspace table cols rows paging ->
  exists body,
    result_rows (E:=E) version stream keyspace table cols rows skip paging comp
      = response_frame version stream RespResult body comp /\
    forall strict, read_rows strict cols body
      = if strict && skip then None else
        Some {| rr_table := if skip then None else Some (keyspace, table); rr_cols := cols;
                rr_rows := rows; rr_paging := paging |}.
Proof.
  intros [Hks Htb Hcols Hnc Hrows Hnr Hpg]. unfold result_rows, rows_metadata.
  assert (Hrest : forall tb, (
    '(cnt, l) ← get_int (be 4 (Z.of_nat (length rows))
                  ++ concat ((fun row => concat (to_wire <$> row)) <$> rows));
    '(rs, l) ← get_list (get_cells (snd <$> cols)) (Z.to_nat cnt) l;
    if bool_decide (l = []) then
      Some {| rr_table := tb; rr_cols := cols; rr_rows := rs; rr_paging := paging |} else None)
    = Some {| rr_table := tb; rr_cols := cols; rr_rows := rows; rr_paging := paging |}).
  { intros tb. rewrite get_int_app by (by apply in_i_len). cbn [mbind option_bind].
    rewrite Nat2Z.id, <-(app_nil_r (concat _)), get_list_app; [done|].
    eapply Forall_impl; [exact Hrows|]. cbn. intros row Hrow r. by apply get_cells_app. }
  assert (Hfl : forall b : bool, in_i 32 (if b then Z.lor 0 2 else 0) = true /\
    in_i 32 (if b then Z.lor 1 2 else 1) = true /\
    Z.testbit (if b then Z.lor 0 2 else 0) 1 = b /\ Z.testbit (if b then Z.lor 1 2 else 1) 1 = b /\
    Z.testbit (if b then Z.lor 0 2 else 0) 2 = false /\ Z.testbit (if b then Z.lor 1 2 else 1) 2 = false)
    by (by intros []).
  destruct (Hfl (bool_decide (is_Some paging))) as (Hf1 & Hf2 & Hf3 & Hf4 & Hf5 & Hf6).
  destruct skip.
  - rewrite write_paging_eq by done. res_simpl. eexists. split; [done|]. intros strict.
    rewrite write_rows_concat. unfold read_rows.
    rewrite <-!app_assoc, get_int_app by done. cbn [mbind option_bind Z.eqb Pos.eqb negb].
    rewrite get_int_app by done. cbn [mbind option_bind]. rewrite get_int_app by done.
    cbn [mbind option_bind]. rewrite Hf3, get_paging by done. cbn [mbind option_bind Z.ltb Z.compare].
    rewrite Hf5. destruct strict; [done|apply Hrest].
  - rewrite write_paging_eq by done. res_simpl. rewrite !expect_string by done. res_simpl.
    destruct (write_specs_enc cols ((((((be 4 2 ++ be 4 (if bool_decide (is_Some paging) then Z.lor 1 2 else 1))
      ++ be 4 (Z.of_nat (length cols))) ++ paging_bytes paging) ++ enc_short keyspace) ++ enc_short table)))
      as (enc & Henc & Hget); [done|].
    rewrite !expect_string by done. res_simpl. rewrite Henc. res_simpl. eexists. split; [done|]. intros strict.
    rewrite write_rows_concat. unfold read_rows.
    rewrite <-!app_assoc, get_int_app by done. cbn [mbind option_bind Z.eqb Pos.eqb negb].
    rewrite get_int_app by done. cbn [mbind option_bind]. rewrite get_int_app by (by apply in_i_len).
    cbn [mbind option_bind]. rewrite Hf4, get_paging by done. cbn [mbind option_bind].
    rewrite Hf6, (proj2 (Z.ltb_ge _ _)), Nat2Z.id, andb_false_r by lia.
    replace (if strict then false else false) with false by (by destruct strict).
    rewrite get_short_app by done. cbn [mbind option_bind]. rewrite get_short_app by done.
    cbn [mbind option_bind]. rewrite Hget. cbn [mbind option_bind]. apply Hrest.
Qed.

(** C23: a Rows result reaches the client.  For names, types, cells and counts
    that fit the protocol, [result_rows] sends a body and never panics as long as its body is
    shorter than 2 GiB, the client takes exactly that frame off the stream, and
    its payload unpacks to the body, in which the reader finds the table, the
    columns, every row value for value, and the paging state; with the metadata
    skipped, a reader that knows the columns finds the same rows. *)
Theorem rows_reach_client version stream keyspace table cols rows (skip : bool) paging comp :
  rows_ok keyspace table cols rows paging ->
  exists body,
    read_rows false cols body
      = Some {| rr_table := if skip then None else Some (keyspace, table); rr_cols := cols;
                rr_rows := rows; rr_paging := paging |} /\
    result_rows (E:=E) version stream keyspace table cols rows skip paging comp
      = response_frame version stream RespResult body comp /\
    (long_ok body -> exists f,
      result_rows (E:=E) version stream keyspace table cols rows skip paging comp = Ok f /\
      delivers RespResult comp body f).
Proof.
  intros Hok. destruct (result_rows_body version stream _ _ _ _ skip _ comp Hok) as (body & Hb & Hr).
  exists body. split; [apply (Hr false)|]. split; [done|]. intros Hlen. rewrite Hb.
  destruct (response_frame_delivers version stream RespResult body comp Hlen) as (f & Hf & Hd & _).
  by exists f.
Qed.

(** A skipped metadata section is not announced by the flag No_metadata of the
    specification: a reader that goes by the flag rejects every such result. *)
Theorem skipped_metadata_unflagged version stream keyspace table cols rows paging comp :
  rows_ok keyspace table cols rows paging ->
  exists body,
    result_rows (E:=E) version stream keyspace table cols rows true paging comp
      = response_frame version stream RespResult body comp /\
    read_rows true cols body = None /\
    exists r, read_rows false cols body = Some r /\ rr_rows r = rows.
Proof.
  intros Hok. destruct (result_rows_body version stream _ _ _ _ true _ comp Hok) as (body & Hb & Hr).
  exists body. rewrite !Hr. cbn. eauto.
Qed.

(** ** Prepared statements *)

Lemma foldl_idx_app (idxs : list Z) body :
  foldl (fun body idx => body ++ be 2 idx) body idxs = body ++ concat (be 2 <$> idxs).
Proof.
  revert body. induction idxs as [|i idxs IH]; intros body; cbn; [by rewrite app_nil_r|].
  by rewrite IH, <-app_assoc.
Qed.

(** ** Panics *)

(** A string that does not fit a [string] makes the writer panic: an error
    message of 65536 bytes or more - and messages quote the literal that could not
    be parsed - cannot be sent, the task that builds it dies instead. *)
Theorem long_error_panics version stream code message comp :
  error (E:=E) version stream code message comp = Panic <-> ~ short_ok message.
Proof.
  unfold error. split.
  - intros He Hs. rewrite expect_string in He by done. res_simpl.
    destruct (response_frame_eq version stream RespError ((be 4 code) ++ enc_short message) comp)
      as (p & fl & Hf & _).
    { unfold long_ok, enc_short, short_ok in *. rewrite !length_app, !length_be. lia. } cbn in He. rewrite Hf in He. done.
  - intros Hl. destruct (write_string_long message ([] ++ be 4 code) Hl) as (e & He). by rewrite He.
Qed.
End frames.

Lemma rows_reach_client_witness :
  exists body f,
    result_rows (H := cql_wire) (E := str) 4 7 (bs "ks") (bs "t") [(bs "k", TInt); (bs "v", TText)]
      [[VInt 1; VText (bs "x")]; [VInt 2; VNull]] false (Some [Byte.x01]) None = Ok f /\
    delivers (H := cql_wire) RespResult None body f /\
    read_rows false [(bs "k", TInt); (bs "v", TText)] body
      = Some {| rr_table := Some (bs "ks", bs "t"); rr_cols := [(bs "k", TInt); (bs "v", TText)];
                rr_rows := [[VInt 1; VText (bs "x")]; [VInt 2; VNull]]; rr_paging := Some [Byte.x01] |}.
Proof.
  destruct (rows_reach_client (H0 := cql_wire_laws) (E := str) 4 7 (bs "ks") (bs "t")
    [(bs "k", TInt); (bs "v", TText)] [[VInt 1; VText (bs "x")]; [VInt 2; VNull]] false (Some [Byte.x01]) None)
    as (body & Hread & Hbody & Hsend).
  - split; try by_compute; repeat constructor; by_compute.
  - assert (Hlen : long_ok body).
    { assert (Hok : match result_rows (H := cql_wire) (E := str) 4 7 (bs "ks") (bs "t")
        [(bs "k", TInt); (bs "v", TText)] [[VInt 1; VText (bs "x")]; [VInt 2; VNull]] false (Some [Byte.x01]) None
        with Ok f => (Z.of_nat (length f) < 2 ^ 31)%Z | _ => False end) by (vm_compute; reflexivity).
      rewrite Hbody in Hok. unfold response_frame in Hok. res_simpl. rewrite !length_app in Hok.
      unfold long_ok. lia. }
    destruct (Hsend Hlen) as (f & Hf & Hd). exists body, f. split; [exact Hf|]. split; [exact Hd|exact Hread].
Defined.
