(* ===== verification/Select.v ===== *)
(** * What SELECT returns

    Theorems about the scans of [exec_select]: which rows a scan returns, how
    the limit cuts them, and what happens to paging. *)

From S2P Require Import Prelude RustStr Ast Schema CqlValue Keys Project Kv Pipeline Storage Rows Scans.
From S2P Require Import Query.

(** ** One entry *)

Lemma project_decoded_out table sel eqs ins keys parts v out :
  project_decoded table sel eqs ins keys parts v out
  = (fun rb => (out ++ fst rb, snd rb)) <$> project_decoded table sel eqs ins keys parts v [].
Proof.
  unfold project_decoded. destruct (decode_row_columns v table) as [row0| |]; res_simpl; [|done|done].
  destruct (fill_keys _ _ _ _ _) as [row| |]; res_simpl; [|done|done].
  destruct (pass_eq row eqs) as [[]| |]; res_simpl; [|by cbn; rewrite app_nil_r|done|done].
  destruct (pass_in row ins) as [[]| |]; res_simpl; [|by cbn; rewrite app_nil_r|done|done].
  by destruct (map_res (index row) sel).
Qed.

(** A row is emitted exactly with the flag, and alone. *)
Lemma project_decoded_one table sel eqs ins keys parts v r b :
  project_decoded table sel eqs ins keys parts v [] = Ok (r, b) ->
  if b : bool then exists row, r = [row] else r = [].
Proof.
  unfold project_decoded. intros (row0 & _ & Hp)%bind_Ok. apply bind_Ok in Hp as (row & _ & Hp).
  apply bind_Ok in Hp as ([] & _ & Hp); cbn in Hp; [|by injection Hp as <- <-].
  apply bind_Ok in Hp as ([] & _ & Hp); cbn in Hp; [|by injection Hp as <- <-].
  apply bind_Ok in Hp as (o & _ & [= <- <-]). by exists o.
Qed.

Section scan.
Context (keyspace : str) (table : TableDef) (selected_idxs : list nat)
  (eq_filters : list (nat * Value)) (in_filters : list (nat * list Value)) (key_col_idxs : list nat)
  (limit : Z).

(** What an entry contributes. *)
Definition entry (kv : bytes * bytes) : res str (list (list Value) * bool) :=
  key_parts ← decode_key keyspace (td_name table) (fst kv);
  project_decoded table selected_idxs eq_filters in_filters key_col_idxs key_parts (snd kv) [].
Definition entry_rows (kv : bytes * bytes) : list (list Value) :=
  match entry kv with Ok (r, _) => r | _ => [] end.
Definition entry_ok (kv : bytes * bytes) : Prop := exists r, entry kv = Ok r.

Definition callback := scan_entry keyspace table selected_idxs eq_filters in_filters key_col_idxs
  (Some limit) None.

Lemma handle_entry_ok k v rows err : entry_ok (k, v) ->
  exists cont, handle_entry table selected_idxs eq_filters in_filters key_col_idxs keyspace (Some limit)
    k v rows err = Ok (rows ++ entry_rows (k, v), err, cont) /\
  ((Z.of_nat (length rows) < limit)%Z ->
     cont = negb (reached (rows ++ entry_rows (k, v)) (Some limit))).
Proof.
  intros [[r b] Hr]. unfold handle_entry, entry_rows. rewrite Hr. unfold entry in Hr. cbn [fst snd] in Hr.
  apply bind_Ok in Hr as (parts & Hk & Hr). rewrite Hk. res_simpl.
  rewrite project_decoded_out, Hr. cbn. pose proof (project_decoded_one _ _ _ _ _ _ _ _ _ Hr) as Hone.
  destruct b; eexists; (split; [reflexivity|]); intros Hlt; unfold reached.
  - rewrite Z.leb_antisym. by rewrite negb_involutive.
  - subst r. rewrite app_nil_r, Z.leb_antisym, negb_involutive. symmetry. by apply Z.ltb_lt.
Qed.

(** The callback on an entry, below the limit. *)
Lemma callback_below a k v : sc_last a = None -> sc_err a = None -> entry_ok (k, v) ->
  (Z.of_nat (length (sc_rows a)) < limit)%Z ->
  let rows := sc_rows a ++ entry_rows (k, v) in
  exists d, callback a k v
    = ({| sc_rows := rows; sc_last := None; sc_done := d; sc_err := None |},
       Ok (negb (reached rows (Some limit)))) /\
    d = sc_done a || reached rows (Some limit).
Proof.
  intros Hl He Hok Hlt rows. unfold callback, scan_entry. unfold reached at 1.
  decide_test (limit <=? Z.of_nat (length (sc_rows a)))%Z false.
  destruct (handle_entry_ok k v (sc_rows a) (sc_err a) Hok) as (cont & Hh & Hc).
  specialize (Hc Hlt). rewrite Hh. fold rows in Hc |- *. rewrite Hl, He.
  destruct (reached rows (Some limit)) eqn:E; cbn [negb] in Hc; subst cont.
  - eexists. split; [reflexivity|]. by rewrite orb_true_r.
  - eexists. split; [reflexivity|]. by rewrite orb_false_r.
Qed.

Definition rows_of (l : list (bytes * bytes)) : list (list Value) := concat (entry_rows <$> l).
(** The rows are the first ones, up to the limit. *)
Definition cut (rows : list (list Value)) : list (list Value) := take (Z.to_nat limit) rows.

Lemma entry_rows_le kv : length (entry_rows kv) <= 1.
Proof.
  unfold entry_rows. destruct (entry kv) as [[r b]| |] eqn:E; [|cbn; lia|cbn; lia].
  unfold entry in E. apply bind_Ok in E as (p & _ & E%project_decoded_one).
  destruct b; [by destruct E as [row ->]|by subst r; cbn; lia].
Qed.

(** The callback as [for_each_in_table] wraps it. *)
Definition flagged : Scan * bool -> bytes -> bytes -> (Scan * bool) * res str bool :=
  fun '(a, _) k v => match callback a k v with
                     | (a', Ok c) => ((a', negb c), Ok c)
                     | (a', o) => ((a', false), o)
                     end.

Lemma items_scan p l a :
  Forall entry_ok l -> Forall (fun kv => starts_with (fst kv) p = true) l ->
  sc_last a = None -> sc_err a = None -> (Z.of_nat (length (sc_rows a)) < limit)%Z ->
  exists a', each_item p callback a (Ok <$> l) = (a', Ok ()) /\
    each_item p flagged (a, false) (Ok <$> l) = ((a', reached (sc_rows a') (Some limit)), Ok ()) /\
    sc_rows a' = cut (sc_rows a ++ rows_of l) /\ sc_last a' = None /\ sc_err a' = None /\
    sc_done a' = sc_done a || reached (sc_rows a') (Some limit).
Proof.
  intros Hok. revert a. induction Hok as [|[k v] l Hkv Hok IH]; intros a Hp Hl He Hlt.
  - exists a. cbn [fmap list_fmap each_item]. unfold cut.
    change (rows_of []) with ([] : list (list Value)). rewrite app_nil_r, take_ge by lia.
    assert (Hr : reached (sc_rows a) (Some limit) = false) by (by apply Z.leb_gt).
    rewrite Hr, orb_false_r. done.
  - apply Forall_cons in Hp as [Hpk Hp]. cbn [fmap list_fmap each_item]. cbn in Hpk. rewrite Hpk.
    cbn [negb flagged]. destruct (callback_below a k v Hl He Hkv Hlt) as (d & Hcb & Hd). rewrite Hcb.
    pose proof (entry_rows_le (k, v)) as Hone.
    change (rows_of ((k, v) :: l)) with (entry_rows (k, v) ++ rows_of l). rewrite app_assoc.
    destruct (reached (sc_rows a ++ entry_rows (k, v)) (Some limit)) eqn:E; cbn [negb].
    + eexists. split; [reflexivity|]. cbn [sc_rows sc_last sc_err sc_done]. rewrite E.
      split; [reflexivity|]. unfold reached in E. pose proof E as E'. apply Z.leb_le in E'. rewrite length_app in E'.
      assert (Hcut : sc_rows a ++ entry_rows (k, v)
        = cut ((sc_rows a ++ entry_rows (k, v)) ++ rows_of l)).
      { unfold cut. rewrite take_app_le by (rewrite length_app; lia).
        rewrite take_ge; [done|]. rewrite length_app. lia. }
      rewrite <-Hcut. repeat split. by rewrite Hd.
    + destruct (IH {| sc_rows := sc_rows a ++ entry_rows (k, v); sc_last := None; sc_done := d;
        sc_err := None |} Hp eq_refl eq_refl) as (a' & Ha' & Hf' & Hr & Hl' & He' & Hd').
      { cbn. unfold reached in E. by apply Z.leb_gt in E. }
      exists a'. split; [exact Ha'|]. split; [exact Hf'|]. cbn in Hr, Hd'. repeat split; [done|done|done|].
      rewrite Hd', Hd. by rewrite orb_false_r.
Qed.

Lemma cut_full rows more : reached (cut rows) (Some limit) = true -> cut (rows ++ more) = cut rows.
Proof.
  unfold reached, cut. intros Hr. apply Z.leb_le in Hr. rewrite length_take in Hr.
  by rewrite take_app_le by lia.
Qed.
Lemma cut_below rows : reached (cut rows) (Some limit) = false -> cut rows = rows.
Proof.
  unfold reached, cut. intros Hr. apply Z.leb_gt in Hr. rewrite length_take in Hr.
  apply take_ge. lia.
Qed.

Section storage_scan.
Context `{KVLaws} `{Json}.

(** The scan over all engines. *)
Lemma engines_scan s p engines es a : engines_ok s ->
  Forall2 (fun i e => st_engines s !! i = Some e) engines es ->
  Forall (fun e => Forall entry_ok (under p e)) es ->
  sc_last a = None -> sc_err a = None -> (Z.of_nat (length (sc_rows a)) < limit)%Z ->
  exists a', each_engine s p callback engines a = (a', Ok ()) /\
    sc_rows a' = cut (sc_rows a ++ rows_of (concat (under p <$> es))) /\
    sc_last a' = None /\ sc_err a' = None.
Proof.
  intros Hs Hes. revert a. induction Hes as [|i e engines es He Hes IH]; intros a Hok Hl Her Hlt.
  - exists a. cbn. unfold cut. by rewrite app_nil_r, take_ge by lia.
  - apply Forall_cons in Hok as [Hok Hoks].
    destruct (items_scan p (under p e) a Hok (under_prefix p e) Hl Her Hlt)
      as (a1 & _ & Hf1 & Hr1 & Hl1 & He1 & _).
    cbn [each_engine]. rewrite (engine_items _ _ _ _ _ _ He);
      [|eapply Forall_lookup_1; [apply Hs|done]].
    match goal with |- context [each_item p ?f (a, false) ?l] => change f with flagged end. rewrite Hf1.
    assert (Hsplit : rows_of (concat (under p <$> e :: es))
      = rows_of (under p e) ++ rows_of (concat (under p <$> es))).
    { unfold rows_of. cbn [fmap list_fmap concat]. by rewrite fmap_app, concat_app. }
    rewrite Hsplit, app_assoc. destruct (reached (sc_rows a1) (Some limit)) eqn:E.
    + exists a1. rewrite Hr1 in E. rewrite cut_full by done. done.
    + destruct (IH a1 Hoks Hl1 He1) as (a' & Ha' & Hr' & Hl' & He').
      { unfold reached in E. by apply Z.leb_gt in E. }
      exists a'. split; [done|]. rewrite Hr'. split; [|done]. do 2 f_equal.
      rewrite Hr1 in E |- *. by apply cut_below.
Qed.

(** The scan over partitions. *)
Lemma partitions_scan s parts a : engines_ok s ->
  Forall (fun pk => exists l, scan_partition s keyspace (td_name table) pk = Ok l /\
                    Forall entry_ok l) parts ->
  sc_last a = None -> sc_err a = None -> (Z.of_nat (length (sc_rows a)) < limit)%Z ->
  exists a' ls, scan_partitions s keyspace table callback (Some limit) parts a = (a', Ok ()) /\
    map_res (scan_partition s keyspace (td_name table)) parts = Ok ls /\
    sc_rows a' = cut (sc_rows a ++ rows_of (concat ls)) /\ sc_last a' = None /\ sc_err a' = None.
Proof.
  intros Hs Hparts. revert a. induction Hparts as [|pk parts (l & Hsc & Hok) Hparts IH]; intros a Hl Her Hlt.
  - exists a, []. cbn. unfold cut. by rewrite app_nil_r, take_ge by lia.
  - destruct (scan_partition_eq s keyspace (td_name table) pk Hs) as (e & He & Heok & Hsc').
    rewrite Hsc in Hsc'. injection Hsc' as ->.
    set (p := data_prefix keyspace (td_name table) ++ encode_key pk) in *.
    destruct (items_scan p (under p e)
      {| sc_rows := sc_rows a; sc_last := sc_last a; sc_done := false; sc_err := sc_err a |}
      Hok (under_prefix p e) Hl Her Hlt) as (a1 & Ha1 & _ & Hr1 & Hl1 & He1 & Hd1).
    cbn [scan_partitions]. unfold for_each_in_partition.
    rewrite (engine_items s (row_engine keyspace (td_name table) pk s) e) by done. fold p.
    rewrite Ha1, Hd1, He1. cbn [sc_done sc_rows] in *.
    rewrite bool_decide_eq_false_2 by (by intros [? [=]]). rewrite orb_false_r, orb_diag. cbn [orb].
    assert (Hsplit : forall ls, rows_of (concat (under p e :: ls)) = rows_of (under p e) ++ rows_of (concat ls)).
    { intros ls. unfold rows_of. cbn [concat]. by rewrite fmap_app, concat_app. }
    destruct (reached (sc_rows a1) (Some limit)) eqn:E.
    + assert (Hrest : exists ls, map_res (scan_partition s keyspace (td_name table)) parts = Ok ls).
      { clear -Hparts. induction Hparts as [|pk parts (l & Hl & _) _ [ls IH]]; [by exists []|].
        exists (l :: ls). cbn [map_res]. rewrite Hl. res_simpl. by rewrite IH. }
      destruct Hrest as [ls Hls]. exists a1, (under p e :: ls). split; [done|].
      split; [cbn [map_res]; rewrite Hsc; res_simpl; by rewrite Hls|]. split; [|done].
      rewrite Hsplit, app_assoc. rewrite Hr1 in E |- *. symmetry. by apply cut_full.
    + destruct (IH a1 Hl1 He1) as (a' & ls & Ha' & Hls & Hr' & Hl' & He').
      { unfold reached in E. by apply Z.leb_gt in E. }
      exists a', (under p e :: ls). split; [done|].
      split; [cbn [map_res]; rewrite Hsc; res_simpl; by rewrite Hls|]. split; [|done].
      rewrite Hr', Hsplit, app_assoc. do 2 f_equal. rewrite Hr1 in E |- *. by apply cut_below.
Qed.
End storage_scan.
End scan.

(** ** The scans of a SELECT *)

Section select.
Context `{KVLaws} `{Json}.

(** The stored entries a scanning SELECT visits. *)
Definition scanned (s : Storage) (keyspace : str) (table : TableDef) (filters : list Filter)
    : res str (list (bytes * bytes)) :=
  if pk_restricted table filters
  then (fun ls => concat ls) <$> map_res (scan_partition s keyspace (td_name table)) (partitions table filters)
  else scan_rows s keyspace (td_name table).

(** The column positions [exec_select] computes first. *)
Record Resolved (table : TableDef) (selected : list (str * ColumnType)) (filters : list Filter)
    (sel : list nat) (eqs : list (nat * Value)) (ins : list (nat * list Value)) (keys : list nat) : Prop := {
  res_sel : map_res (fun nt => unwrap (column_index table (fst nt))) selected = @Ok QueryError _ sel;
  res_eqs : eq_filters_of table filters = Ok eqs;
  res_ins : in_filters_of table filters = Ok ins;
  res_keys : map_res (fun name => unwrap (column_index table name)) (key_names table) = @Ok QueryError _ keys;
}.


Lemma scan_select_eq s ks table filters sel eqs ins keys limit entries :
  engines_ok s -> (0 < limit)%Z -> scanned s ks table filters = Ok entries ->
  Forall (entry_ok ks table sel eqs ins keys) entries ->
  exists a, scan_select s ks table filters (scan_entry ks table sel eqs ins keys (Some limit) None) (Some limit)
    = (a, Ok ()) /\
    sc_rows a = take (Z.to_nat limit) (rows_of ks table sel eqs ins keys entries) /\
    sc_last a = None /\ sc_err a = None.
Proof.
  intros Hs Hlim Hsc Hok. unfold scan_select, scanned in *.
  set (a0 := {| sc_rows := []; sc_last := None; sc_done := false; sc_err := None |}).
  change (scan_entry ks table sel eqs ins keys (Some limit) None)
    with (callback ks table sel eqs ins keys limit).
  destruct (pk_restricted table filters).
  - apply fmap_Ok in Hsc as (ls & Hls & ->). pose proof Hls as Hls'. apply map_res_Ok in Hls'.
    destruct (partitions_scan ks table sel eqs ins keys limit s (partitions table filters) a0)
      as (a & ls' & Ha & Hl' & Hr & Hlast & Herr); try done.
    { rewrite Forall_lookup. intros i pk Hpk.
      destruct (Forall2_lookup_l _ _ _ _ _ Hls' Hpk) as (l & Hl & Hsc). exists l. split; [done|].
      rewrite Forall_forall in Hok |- *. intros kv Hkv. apply Hok.
      apply elem_of_concat. exists l. split; [done|]. by eapply list_elem_of_lookup_2. }
    rewrite Hls in Hl'. injection Hl' as <-. by exists a.
  - rewrite scan_rows_eq in Hsc by done. injection Hsc as <-.
    destruct (table_scan s (data_prefix ks (td_name table)) (seq 0 (dbs_len s)) []) as (es & Hes & _); [done| |].
    { apply Forall_forall. intros i Hi. apply elem_of_seq in Hi. lia. }
    assert (es = st_engines s) as ->.
    { apply (engines_seq _ _ 0). eapply Forall2_impl; [exact Hes|]. cbn. intros i e. by rewrite Nat.sub_0_r. }
    destruct (engines_scan ks table sel eqs ins keys limit s (data_prefix ks (td_name table))
      (seq 0 (dbs_len s)) (st_engines s) a0) as (a & Ha & Hr & Hlast & Herr); try done; [|by exists a].
    apply Forall_forall. intros e He. rewrite Forall_forall in Hok |- *. intros kv Hkv. apply Hok.
    apply elem_of_concat. exists (under (data_prefix ks (td_name table)) e). split; [done|].
    apply list_elem_of_fmap. by exists e.
Qed.

Lemma run_select_eq s ks table selected filters limit page_size sel eqs ins keys entries :
  engines_ok s -> Resolved table selected filters sel eqs ins keys -> point_key table filters = None ->
  let n := default hard_cap (effective_page_limit page_size limit) in (0 < n)%Z ->
  scanned s ks table filters = Ok entries -> Forall (entry_ok ks table sel eqs ins keys) entries ->
  run_select ks table selected filters limit page_size None s
  = (s, Ok (Rows ks (td_name table) selected
              (take (Z.to_nat n) (rows_of ks table sel eqs ins keys entries)) None)).
Proof.
  intros Hs [R1 R2 R3 R4] Hpk n Hn Hsc Hok. unfold run_select, scan_result, finish_select. fold n.
  rewrite (st_bind_eq _ _ s s sel) by (unfold lift; by rewrite R1).
  rewrite (st_bind_eq _ _ s s eqs) by (unfold lift; by rewrite R2).
  rewrite (st_bind_eq _ _ s s ins) by (unfold lift; by rewrite R3).
  rewrite (st_bind_eq _ _ s s keys) by (unfold lift; by rewrite R4).
  rewrite Hpk. rewrite (st_bind_eq _ _ s s s) by done.
  destruct (scan_select_eq s ks table filters sel eqs ins keys n entries Hs Hn Hsc Hok)
    as (a & -> & Hr & Hl & He).
  rewrite (st_bind_eq _ _ s s ()) by done. rewrite He, Hl, Hr. unfold mret, st_ret. by case_match.
Qed.


(** Paging never continues.  A scan that fills its page stops in
    [handle_entry], before the key to resume from is recorded, so the response
    carries no paging state: a client that asked for [ps] rows per page gets
    the first [ps] of the matching rows, is told there is no further page, and
    never sees the others. *)
Theorem full_page_has_no_next s ks table selected filters ps sel eqs ins keys entries :
  engines_ok s -> Resolved table selected filters sel eqs ins keys -> point_key table filters = None ->
  scanned s ks table filters = Ok entries -> Forall (entry_ok ks table sel eqs ins keys) entries ->
  (0 < ps < 2 ^ 31)%Z -> (ps < Z.of_nat (length (rows_of ks table sel eqs ins keys entries)))%Z ->
  exists rows, run_select ks table selected filters None (Some ps) None s
    = (s, Ok (Rows ks (td_name table) selected rows None)) /\
    Z.of_nat (length rows) = ps.
Proof.
  intros Hs HR Hpk Hsc Hok Hps Hmore.
  assert (Hn : default hard_cap (effective_page_limit (Some ps) None) = ps).
  { cbn. unfold as_usize, uwrap. apply Z.mod_small. lia. }
  pose proof (run_select_eq s ks table selected filters None (Some ps) sel eqs ins keys entries Hs HR Hpk)
    as Hr. cbv zeta in Hr. rewrite Hn in Hr. eexists. split; [apply Hr; [lia|done|done]|].
  rewrite length_take. lia.
Qed.

(** Without a page size and a LIMIT a scan stops after 5000 rows and does not say
    so. *)
Theorem hard_cap_truncates s ks table selected filters sel eqs ins keys entries :
  engines_ok s -> Resolved table selected filters sel eqs ins keys -> point_key table filters = None ->
  scanned s ks table filters = Ok entries -> Forall (entry_ok ks table sel eqs ins keys) entries ->
  (5000 < Z.of_nat (length (rows_of ks table sel eqs ins keys entries)))%Z ->
  exists rows, run_select ks table selected filters None None None s
    = (s, Ok (Rows ks (td_name table) selected rows None)) /\
    Z.of_nat (length rows) = 5000%Z.
Proof.
  intros Hs HR Hpk Hsc Hok Hmore. eexists.
  split; [apply (run_select_eq s ks table selected filters None None sel eqs ins keys entries Hs HR Hpk); done|].
  change (default hard_cap (effective_page_limit None None)) with 5000%Z. rewrite length_take. lia.
Qed.
End select.

(** ** A concrete table *)

(** [SELECT v FROM ks.t] on the table of the demo storage. *)
Definition scan_table : TableDef :=
  {| td_keyspace := bs "ks"; td_name := bs "t";
     td_columns := [ {| col_name := bs "k"; col_type := TText; is_partition_key := true; is_clustering := false |};
                     {| col_name := bs "v"; col_type := TInt; is_partition_key := false; is_clustering := false |} ];
     td_partition_keys := [bs "k"]; td_clustering_keys := [] |}.
Definition scan_row (k : string) (v : Z) : bytes * bytes :=
  (row_key (bs "ks") (bs "t") [bs k], encode_row_columns [(1%Z, VInt v)]).
(** One engine with three rows. *)
Definition three_rows : @Storage mem_kv :=
  {| st_engines := [spawn_writer (H := mem_kv)
       (list_to_map [scan_row "a" 1; scan_row "b" 2; scan_row "c" 3] : gmap bytes bytes)];
     st_keyspaces := ∅; st_tables := ∅; st_ast_cache := ∅; st_write_sync := false; st_row_cache := None |}.
Lemma three_rows_ok : engines_ok (H0 := mem_kv_laws) three_rows.
Proof. split; [cbn; lia|]. apply Forall_cons. split; [by apply engine_ok_spawn|apply Forall_nil_2]. Qed.
Lemma three_resolved : Resolved scan_table [(bs "v", TInt)] [] [1] [] [] [0].
Proof. by split. Qed.
Lemma three_scanned :
  scanned three_rows (bs "ks") scan_table [] = Ok [scan_row "a" 1; scan_row "b" 2; scan_row "c" 3].
Proof. vm_compute. reflexivity. Qed.
Lemma three_entries : Forall (entry_ok (bs "ks") scan_table [1] [] [] [0])
  [scan_row "a" 1; scan_row "b" 2; scan_row "c" 3].
Proof. repeat apply Forall_cons_2; try (eexists; vm_compute; reflexivity). apply Forall_nil_2. Qed.


Lemma full_page_has_no_next_witness :
  exists rows, run_select (bs "ks") scan_table [(bs "v", TInt)] [] None (Some 2%Z) None three_rows
    = (three_rows, Ok (Rows (bs "ks") (bs "t") [(bs "v", TInt)] rows None)) /\
    Z.of_nat (length rows) = 2%Z.
Proof.
  apply (full_page_has_no_next (H0 := mem_kv_laws) three_rows (bs "ks") scan_table [(bs "v", TInt)] []
    2 [1] [] [] [0] _ three_rows_ok three_resolved eq_refl three_scanned three_entries); [lia|].
  vm_compute. reflexivity.
Defined.
