(* ===== verification/Dml.v ===== *)
(** * INSERT and SELECT, end to end

    A row written by a prepared INSERT and acknowledged is returned, value for
    value, by a point SELECT: the theorem goes through name resolution, bind
    decoding, the key and row codecs, the write pipeline, the row cache and both
    projection paths. *)

From S2P Require Import Prelude RustStr Ast Schema CqlValue Keys Project Kv Pipeline Storage Rows Scans.
From S2P Require Import Catalog Acked Query.

(** ** Rows as vectors *)

(** A bind value for a cell. *)
Definition to_raw (v : Value) : RawValue := match v with VNull => RvNull | v => RvValue (raw_bytes v) end.

Section vectors.
Context (table : TableDef) (vals : list Value).
Hypothesis table_ok : table_wf table.
Hypothesis vals_ok : Forall2 (fun c v => cell_ok (col_type c) v = true /\ fits v = true)
  (td_columns table) vals.
(** Key columns are not null and compare equal to themselves (no NaN). *)
Hypothesis keys_ok : forall i c v, td_columns table !! i = Some c -> vals !! i = Some v ->
  is_regular c = false -> value_eqb v VNull = false /\ value_eqb v v = true.

Lemma vals_length : length vals = length (td_columns table).
Proof. symmetry. by eapply Forall2_length. Qed.

Lemma val_at i c : td_columns table !! i = Some c ->
  exists v, vals !! i = Some v /\ cell_ok (col_type c) v = true /\ fits v = true.
Proof. intros Hc. destruct (Forall2_lookup_l _ _ _ _ _ vals_ok Hc) as (v & Hv & ? & ?). by exists v. Qed.

(** The position and value of a key column. *)
Definition key_at (n : str) (iv : nat * Value) : Prop :=
  column_index table n = Some (fst iv) /\ vals !! fst iv = Some (snd iv) /\
  exists c, td_columns table !! fst iv = Some c /\ col_name c = n /\ is_regular c = false /\
    has_type (col_type c) (snd iv) = true /\ fits (snd iv) = true /\
    value_eqb (snd iv) VNull = false /\ value_eqb (snd iv) (snd iv) = true.

Lemma key_flag n i c : n ∈ key_names table -> td_columns table !! i = Some c -> col_name c = n ->
  is_regular c = false.
Proof.
  intros Hn Hc Hname. destruct table_ok as (_ & _ & _ & _ & Hf & _). rewrite Forall_lookup in Hf.
  destruct (Hf _ _ Hc) as [Hp Hk]. unfold is_regular, key_names in *. rewrite Hname in Hp, Hk.
  apply elem_of_app in Hn as [Hn|Hn].
  - by rewrite (proj2 Hp Hn).
  - rewrite (proj2 Hk Hn). by rewrite orb_true_r.
Qed.

Lemma not_null_typed t v : cell_ok t v = true -> value_eqb v VNull = false -> has_type t v = true.
Proof. by destruct v. Qed.

Lemma keys_exist : exists ks, Forall2 key_at (key_names table) ks.
Proof.
  assert (Hin : Forall (fun n => n ∈ key_names table) (key_names table)) by (by apply Forall_forall).
  revert Hin. generalize (key_names table) at 2 3. intros l Hin.
  induction Hin as [|n l Hn Hin [ks IH]]; [by exists []|].
  pose proof table_ok as (_ & _ & _ & Hcols & _ & _).
  rewrite Forall_forall in Hcols. destruct (column_index_total table n (Hcols _ Hn)) as [i Hi].
  destruct (column_index_Some _ _ _ Hi) as (c & Hc & Hname & _).
  destruct (val_at i c Hc) as (v & Hv & Hcell & Hf).
  pose proof (key_flag n i c Hn Hc Hname) as Hreg. destruct (keys_ok i c v Hc Hv Hreg) as [Hnull Heq].
  exists ((i, v) :: ks). constructor; [|done]. split; [done|]. split; [done|]. exists c.
  repeat split; try done. by eapply not_null_typed.
Qed.

(** ** The stored row *)

Lemma regular_idxs_spec i :
  i ∈ regular_idxs table <-> exists c, td_columns table !! i = Some c /\ is_regular c = true.
Proof.
  unfold regular_idxs. rewrite list_elem_of_omap. split.
  - intros ([j c] & Hin & Hc). cbn in Hc. destruct (is_regular c) eqn:E; [|done]. injection Hc as ->.
    apply elem_of_lookup_zip_with in Hin as (n & x & y & [= <- <-] & Hx & Hy).
    apply lookup_seq in Hx as [-> _]. by exists c.
  - intros (c & Hc & E). exists (i, c). split; [|cbn; by rewrite E].
    apply elem_of_lookup_zip_with. exists i, i, c. repeat split; [|done].
    apply lookup_seq. split; [done|]. by eapply lookup_lt_Some.
Qed.

Lemma regular_idxs_NoDup : NoDup (regular_idxs table).
Proof.
  unfold regular_idxs. set (l := td_columns table). generalize 0.
  induction l as [|c l IH]; intros k; cbn; [constructor|].
  assert (Hk : forall j, j ∈ omap (fun ic : nat * ColumnDef => if is_regular ic.2 then Some ic.1 else None)
    (zip (seq (S k) (length l)) l) -> k < j).
  { intros j ([i d] & Hin & Hd)%list_elem_of_omap. cbn in Hd. destruct (is_regular d); [|done].
    injection Hd as ->. apply elem_of_lookup_zip_with in Hin as (n & x & y & [= <- <-] & Hx & _).
    apply lookup_seq in Hx as [-> _]. lia. }
  destruct (is_regular c); [|apply IH]. constructor; [|apply IH].
  intros Hin%Hk. lia.
Qed.

(** The columns of the row. *)
Definition reg_row : list (Z * Value) :=
  (fun i => (Z.of_nat i, default VNull (vals !! i))) <$> regular_idxs table.

Lemma reg_row_ok : Forall (col_ok table) reg_row.
Proof.
  apply Forall_fmap, Forall_forall. intros i (c & Hc & _)%regular_idxs_spec. cbn.
  destruct (val_at i c Hc) as (v & Hv & Hcell & Hf). rewrite Hv. cbn.
  destruct table_ok as (_ & _ & _ & _ & _ & Hlen). apply lookup_lt_Some in Hc as Hlt.
  split; [apply in_u_spec; cbn; lia|]. split; [done|]. exists c. cbn [fst snd]. by rewrite Nat2Z.id.
Qed.

Lemma reg_row_idx : (fun iv : Z * Value => Z.to_nat (fst iv)) <$> reg_row = regular_idxs table.
Proof.
  unfold reg_row. rewrite <-list_fmap_compose. rewrite <-(list_fmap_id (regular_idxs table)) at 2.
  apply list_fmap_ext. intros k i _. cbn. apply Nat2Z.id.
Qed.

Lemma reg_row_NoDup : NoDup (fst <$> reg_row).
Proof.
  unfold reg_row. rewrite <-list_fmap_compose. apply NoDup_fmap_2; [|apply regular_idxs_NoDup].
  intros a b Hab. cbn in Hab. lia.
Qed.

(** The decoded row before the keys are filled in. *)
Lemma place_reg i c : td_columns table !! i = Some c -> is_regular c = true ->
  place (replicate (length (td_columns table)) VNull) reg_row !! i = vals !! i.
Proof.
  intros Hc Hr. destruct (val_at i c Hc) as (v & Hv & _). rewrite Hv.
  rewrite <-(Nat2Z.id i). apply place_in.
  - rewrite reg_row_idx. apply regular_idxs_NoDup.
  - apply list_elem_of_fmap. exists i. rewrite Hv. split; [done|]. apply regular_idxs_spec.
    by exists c.
  - rewrite Nat2Z.id, length_replicate. by eapply lookup_lt_Some.
Qed.

(** ** Projections *)

Definition put_all (row : list Value) (ks : list (nat * Value)) : list Value :=
  foldl (fun r iv => <[fst iv := snd iv]> r) row ks.

Lemma length_put_all row ks : length (put_all row ks) = length row.
Proof.
  revert row. induction ks as [|iv ks IH]; intros row; [done|]. cbn.
  fold (put_all (<[fst iv := snd iv]> row) ks). by rewrite IH, length_insert.
Qed.

Lemma put_all_lookup row ks j :
  Forall (fun iv => vals !! fst iv = Some (snd iv) /\ fst iv < length row) ks ->
  put_all row ks !! j = if bool_decide (j ∈ fst <$> ks) then vals !! j else row !! j.
Proof.
  intros Hf. revert row Hf. induction ks as [|[i v] ks IH]; intros row Hf; [done|].
  apply Forall_cons in Hf as [[Hv Hi] Hf]. cbn in Hv, Hi.
  change (put_all row ((i, v) :: ks)) with (put_all (<[i := v]> row) ks).
  rewrite IH by (by setoid_rewrite length_insert).
  cbn [fmap list_fmap fst]. destruct (decide (j = i)) as [->|Hne].
  - rewrite (bool_decide_eq_true_2 (i ∈ i :: _)) by (by left). case_bool_decide; [done|].
    by rewrite list_lookup_insert_eq.
  - rewrite list_lookup_insert_ne by done.
    assert (bool_decide (j ∈ i :: (fst <$> ks)) = bool_decide (j ∈ fst <$> ks)) as ->; [|done].
    apply bool_decide_ext. rewrite elem_of_cons. split; [by intros [?|?]|by right].
Qed.

Lemma fill_keys_put row pre ks :
  Forall (fun iv => fst iv < length row /\ exists c, td_columns table !! fst iv = Some c /\
    has_type (col_type c) (snd iv) = true /\ fits (snd iv) = true) ks ->
  fill_keys table (pre ++ ((fun iv => raw_bytes (snd iv)) <$> ks)) (length pre) (fst <$> ks) row
  = Ok (put_all row ks).
Proof.
  intros Hf. revert row pre Hf. induction ks as [|[i v] ks IH]; intros row pre Hf; [done|].
  apply Forall_cons in Hf as [(Hi & c & Hc & Ht & Hfit) Hf]. cbn [fst snd] in *.
  cbn [fmap list_fmap fill_keys fst snd].
  rewrite length_app. cbn [length]. decide_test (length pre <? length pre + S (length ((fun iv : nat * Value => raw_bytes iv.2) <$> ks))) true.
  assert (Hpart : index (E := str) (pre ++ raw_bytes v :: ((fun iv : nat * Value => raw_bytes iv.2) <$> ks)) (length pre)
    = Ok (raw_bytes v)) by (unfold index; by rewrite list_lookup_middle).
  rewrite Hpart. res_simpl. unfold index. rewrite Hc. cbn [unwrap]. res_simpl. rewrite (from_raw_bytes_raw (col_type c)) by done. res_simpl.
  unfold store. decide_test (i <? length row) true. res_simpl.
  specialize (IH (<[i := v]> row) (pre ++ [raw_bytes v])).
  rewrite length_app, <-app_assoc in IH. cbn [length app] in IH. rewrite Nat.add_1_r in IH.
  rewrite IH; [done|]. by setoid_rewrite length_insert.
Qed.

Section keyed.
Context (ks : list (nat * Value)).
Hypothesis ks_at : Forall2 key_at (key_names table) ks.

Lemma ks_facts : Forall (fun iv => vals !! fst iv = Some (snd iv) /\ fst iv < length (td_columns table) /\
  exists c, td_columns table !! fst iv = Some c /\ is_regular c = false /\
    has_type (col_type c) (snd iv) = true /\ fits (snd iv) = true /\
    value_eqb (snd iv) (snd iv) = true) ks.
Proof.
  apply Forall_lookup. intros j iv Hj.
  destruct (Forall2_lookup_r _ _ _ _ _ ks_at Hj) as (n & _ & _ & Hv & c & Hc & _ & Hr & Ht & Hf & _ & Heq).
  split; [done|]. split; [by eapply lookup_lt_Some|]. by exists c.
Qed.

(** A column that is not regular is one of the key columns. *)
Lemma key_idx i c : td_columns table !! i = Some c -> is_regular c = false -> i ∈ fst <$> ks.
Proof.
  intros Hc Hr. pose proof table_ok as (Hnd & _ & _ & _ & Hf & _). rewrite Forall_lookup in Hf.
  destruct (Hf _ _ Hc) as [Hp Hk].
  assert (Hn : col_name c ∈ key_names table).
  { unfold key_names, is_regular in *. apply elem_of_app. destruct (is_partition_key c); [left; by apply Hp|].
    destruct (is_clustering c); [right; by apply Hk|done]. }
  apply list_elem_of_lookup in Hn as [j Hj].
  destruct (Forall2_lookup_l _ _ _ _ _ ks_at Hj) as (iv & Hiv & Hci & _).
  rewrite (column_index_lookup table i c Hnd Hc) in Hci. injection Hci as Hii.
  apply list_elem_of_fmap. exists iv. split; [done|]. by eapply list_elem_of_lookup_2.
Qed.

Lemma put_all_vals :
  put_all (place (replicate (length (td_columns table)) VNull) reg_row) ks = vals.
Proof.
  apply list_eq. intros j. rewrite put_all_lookup.
  - case_bool_decide as Hin; [done|]. destruct (td_columns table !! j) as [c|] eqn:Hc.
    + apply (place_reg j c Hc). destruct (is_regular c) eqn:Hr; [done|]. by destruct (Hin (key_idx j c Hc Hr)).
    + apply lookup_ge_None in Hc. rewrite (proj2 (lookup_ge_None vals j)) by (rewrite vals_length; lia).
      apply lookup_ge_None. rewrite length_place, length_replicate. lia.
  - eapply Forall_impl; [exact ks_facts|]. intros iv (Hv & Hi & _).
    by rewrite length_place, length_replicate.
Qed.

Lemma map_index_all : map_res (index (E := str) vals) (seq 0 (length (td_columns table))) = Ok vals.
Proof.
  rewrite <-vals_length. apply map_res_Ok, Forall2_same_length_lookup_2; [by rewrite length_seq|].
  intros i x y [-> _]%lookup_seq Hy. unfold index. cbn. by rewrite Hy.
Qed.

Lemma pass_eq_keys l : Forall (fun iv => iv ∈ ks) l -> pass_eq vals l = Ok true.
Proof.
  induction 1 as [|[i v] l Hin Hl IH]; [done|]. cbn [pass_eq].
  pose proof ks_facts as Hf. rewrite Forall_forall in Hf.
  destruct (Hf _ Hin) as (Hv & _ & c & _ & _ & _ & _ & Heq). cbn in Hv, Heq.
  unfold index. rewrite Hv. cbn [unwrap]. res_simpl. by rewrite Heq.
Qed.

Definition key_parts : list bytes := (fun iv => raw_bytes (snd iv)) <$> ks.

Lemma project_decoded_vals :
  project_decoded table (seq 0 (length (td_columns table))) ks [] (fst <$> ks) key_parts
    (encode_row_columns reg_row) [] = Ok ([vals], true).
Proof.
  unfold project_decoded. rewrite (decode_row_encode table reg_row reg_row_ok). res_simpl.
  fold (place (replicate (length (td_columns table)) VNull) reg_row).
  pose proof (fill_keys_put (place (replicate (length (td_columns table)) VNull) reg_row) [] ks) as Hfill.
  cbn [app length] in Hfill. unfold key_parts. rewrite Hfill.
  - rewrite put_all_vals. res_simpl. rewrite pass_eq_keys by (by apply Forall_forall). res_simpl.
    cbn [negb pass_in]. res_simpl. by rewrite map_index_all.
  - eapply Forall_impl; [exact ks_facts|]. intros iv (_ & Hi & c & Hc & _ & Ht & Hf & _).
    rewrite length_place, length_replicate. split; [done|]. by exists c.
Qed.

Lemma project_fast_vals i v : ks = [(i, v)] ->
  (Z.of_nat (length (encode_row_columns reg_row)) < 2 ^ 63)%Z ->
  project_fast_point table (seq 0 (length (td_columns table))) [i] [raw_bytes v]
    (encode_row_columns reg_row) [] = Ok ([vals], true).
Proof.
  intros Hks Hlen. pose proof ks_facts as Hf. rewrite Hks in Hf. apply Forall_cons in Hf as [Hf _].
  destruct Hf as (Hv & Hi & c & Hc & _ & Ht & Hfit & _). cbn in Hv, Hi, Hc, Ht, Hfit.
  assert (Hfull : full_row table i v reg_row = vals).
  { unfold full_row. pose proof put_all_vals as Hp. rewrite Hks in Hp. exact Hp. }
  unfold project_fast_point. rewrite (map_res_ext _ (index vals)); [by rewrite map_index_all|].
  apply Forall_forall. intros j Hj. apply elem_of_seq in Hj. rewrite <-Hfull.
  apply (fast_column_full table i c); try done; [apply reg_row_ok|apply reg_row_NoDup|lia].
Qed.
End keyed.
End vectors.

(** ** Statements *)

Lemma set_tables_same `{KV} (s : Storage) : set_tables (st_tables s) s = s.
Proof. by destruct s. Qed.

Section statements.
Context `{KVLaws} `{JsonLaws} `{UnicodeCase} `{Literals}.
Context (short_name : CassandraStatement -> str).

Lemma get_table_state s c ks tb : represents s c -> no_bang ks ->
  exists T, get_table ks tb s = (set_tables T s, Ok (cat_tb c !! (ks, tb))) /\
    represents (set_tables T s) c.
Proof.
  intros Hrep Hn. destruct (get_table_refines s c ks tb Hrep Hn) as (s' & Hg & Hr').
  assert (exists T, s' = set_tables T s) as [T ->]; [|by exists T].
  revert Hg. unfold get_table, table_fill. rewrite (st_bind_eq _ _ s s (st_tables s !! (ks, tb))) by done.
  destruct (st_tables s !! (ks, tb)).
  { intros [= <- _]. exists (st_tables s). by rewrite set_tables_same. }
  destruct (represents_meta s c Hrep) as (m & Hm & _).
  rewrite (st_bind_eq _ _ _ _ _ (meta_get _ _ _ Hm)). destruct (m !! tb_key ks tb) as [b|].
  - unfold lift. unfold mbind at 1, st_bind at 1. destruct (tb_from_slice b); [|done|done].
    intros [= <- _]. by eexists.
  - intros [= <- _]. exists (st_tables s). by rewrite set_tables_same.
Qed.

(** A fully qualified, quoted name. *)
Definition fq (ks tb : str) : FQName := {| fq_keyspace := Some (Quoted ks); fq_name := Quoted tb |}.

Lemma resolve_table_eq s c sess ks tb def : represents s c -> no_bang ks ->
  cat_tb c !! (ks, tb) = Some def ->
  exists T, resolve_table sess (fq ks tb) s = (set_tables T s, Ok (ks, def)) /\
    represents (set_tables T s) c.
Proof.
  intros Hrep Hn Hd. destruct (get_table_state s c ks tb Hrep Hn) as (T & Hg & Hr). exists T.
  split; [|done]. unfold resolve_table. rewrite (st_bind_eq _ _ s s ks) by done.
  unfold internal. rewrite (st_bind_eq _ _ s (set_tables T s) (Some def)); [done|].
  unfold st_map_err. cbn [fq_name fq norm_id]. by rewrite Hg, Hd.
Qed.

(** Running a storage computation inside a statement. *)
Lemma on_storage_eq {A} (m : st Storage QueryError A) q s' r :
  m (q_storage q) = (s', r) ->
  on_storage m q = ({| q_storage := s'; q_values := q_values q; q_next := q_next q; q_gates := q_gates q |}, r).
Proof. intros Hm. unfold on_storage. by rewrite Hm. Qed.

(** A bind value for a cell decodes to the cell. *)
Lemma take_bind_raw q ty v : q_values q !! q_next q = Some (to_raw v) ->
  cell_ok ty v = true -> fits v = true ->
  take_bind ty q = ({| q_storage := q_storage q; q_values := q_values q; q_next := S (q_next q);
                       q_gates := q_gates q |}, Ok v).
Proof.
  intros Hq Hc Hf. unfold take_bind. rewrite Hq. f_equal. unfold to_raw.
  destruct (value_eqb v VNull) eqn:E; [by destruct v|].
  assert (Ht : has_type ty v = true) by (by destruct v).
  assert (as_value (match v with VNull => RvNull | v => RvValue (raw_bytes v) end) = Some (raw_bytes v)) as ->
    by (by destruct v).
  by rewrite (from_raw_bytes_raw ty v Ht Hf).
Qed.

(** The loop of INSERT over all columns with bind markers. *)
Lemma resolve_values_binds table cols vals pre vpre q :
  td_columns table = pre ++ cols -> NoDup (col_name <$> td_columns table) ->
  Forall2 (fun c v => cell_ok (col_type c) v = true /\ fits v = true) cols vals ->
  length vpre = length pre ->
  drop (q_next q) (q_values q) = to_raw <$> vals ->
  resolve_values table (zip (Quoted <$> (col_name <$> cols)) (replicate (length cols) (OpParam [])))
    ((Some <$> vpre) ++ replicate (length cols) None) q
  = ({| q_storage := q_storage q; q_values := q_values q; q_next := q_next q + length cols;
        q_gates := q_gates q |}, Ok (Some <$> (vpre ++ vals))).
Proof.
  intros Hcols Hnd Hv. revert pre vpre q Hcols. induction Hv as [|c v cols vals [Hc Hf] Hv IH];
    intros pre vpre q Hcols Hlen Hq; cbn [fmap list_fmap zip replicate length resolve_values].
  - rewrite Nat.add_0_r, !app_nil_r. destruct q. done.
  - assert (Hpos : td_columns table !! length pre = Some c) by (by rewrite Hcols, list_lookup_middle).
    change (position (fun c0 => ident_eq (Quoted (col_name c)) (col_name c0)) (td_columns table)) with
      (position (fun c0 => bool_decide (col_name c = col_name c0)) (td_columns table)).
    assert (Hp : position (fun c0 => bool_decide (col_name c = col_name c0)) (td_columns table) = Some (length pre)).
    { rewrite <-(column_index_lookup table (length pre) c Hnd Hpos). unfold column_index.
      clear. induction (td_columns table) as [|d l IHl]; [done|]. cbn. rewrite IHl.
      by rewrite (bool_decide_ext (col_name c = col_name d) (col_name d = col_name c)). }
    rewrite Hp. unfold index. rewrite Hpos. rewrite (st_bind_eq _ _ q q c) by done.
    assert (Hhead : q_values q !! q_next q = Some (to_raw v)).
    { rewrite <-(Nat.add_0_r (q_next q)), <-lookup_drop, Hq. done. }
    cbn [operand_to_value]. rewrite (st_bind_eq _ _ _ _ _ (take_bind_raw q (col_type c) v Hhead Hc Hf)).
    unfold store. rewrite length_app, length_fmap, Hlen. cbn [length].
    decide_test (length pre <? length pre + S (length (replicate (length cols) (@None Value)))) true.
    set (q1 := {| q_storage := _ |}).
    rewrite (st_bind_eq _ _ q1 q1 ((Some <$> (vpre ++ [v])) ++ replicate (length cols) None)).
    + rewrite (IH (pre ++ [c]) (vpre ++ [v]) q1).
      * unfold q1. cbn. by rewrite <-plus_n_Sm, <-!app_assoc.
      * by rewrite <-app_assoc.
      * by rewrite !length_app, Hlen.
      * cbn. rewrite <-Nat.add_1_r, <-drop_drop, Hq. done.
    + unfold lift. do 2 f_equal. rewrite insert_app_r_alt by (rewrite length_fmap; lia).
      rewrite length_fmap, Hlen, Nat.sub_diag. cbn. by rewrite fmap_app, <-app_assoc.
Qed.

Section one_row.
Context (c : Cat) (ks : str) (table : TableDef) (vals : list Value) (keys : list (nat * Value)).
Hypothesis ks_clean : no_bang ks.
Hypothesis ks_user : ks ∉ SYSTEM_KEYSPACES.
Hypothesis table_known : cat_tb c !! (ks, td_name table) = Some table.
Hypothesis table_ok : table_wf table.
Hypothesis vals_ok : Forall2 (fun c v => cell_ok (col_type c) v = true /\ fits v = true)
  (td_columns table) vals.
Hypothesis keys_at : Forall2 (key_at table vals) (key_names table) keys.
Hypothesis row_short : (Z.of_nat (length (encode_row_columns (reg_row table vals))) < 2 ^ 63)%Z.

(** INSERT INTO ks.table (every column) VALUES (?, .., ?). *)
Definition insert_all : Insert :=
  {| ins_table_name := fq ks (td_name table);
     ins_columns := Quoted <$> (col_name <$> td_columns table);
     ins_values := InsValues (replicate (length (td_columns table)) (OpParam [])) |}.
(** SELECT * FROM ks.table WHERE k1 = ? AND .. AND kn = ?. *)
Definition select_row : Select :=
  {| sel_table_name := fq ks (td_name table); sel_columns := [SelStar];
     sel_where := (fun n => {| rel_obj := OpColumn (Quoted n); rel_oper := RelEqual;
                               rel_value := OpParam [] |}) <$> key_names table;
     sel_limit := None |}.

Lemma insert_key_parts_eq : insert_key_parts table (Some <$> vals) = Ok (key_parts keys).
Proof.
  unfold insert_key_parts, key_parts. apply map_res_Ok. apply Forall2_fmap_r.
  eapply Forall2_impl; [exact keys_at|]. intros n [i v] (Hi & Hv & cd & _ & _ & _ & _ & _ & Hnull & _).
  cbn in *. rewrite Hi. res_simpl. unfold index. rewrite list_lookup_fmap, Hv. cbn. by rewrite Hnull.
Qed.

Lemma insert_row_columns_eq : insert_row_columns table (Some <$> vals) = Ok (reg_row table vals).
Proof.
  unfold insert_row_columns, reg_row. apply map_res_Ok, Forall2_fmap_r, Forall_Forall2_diag, Forall_forall.
  intros i (cd & Hc & _)%regular_idxs_spec. destruct (val_at table vals vals_ok i cd Hc) as (v & Hv & _).
  unfold index. rewrite list_lookup_fmap, Hv.
  destruct table_ok as (_ & _ & _ & _ & _ & Hlen). apply lookup_lt_Some in Hc.
  assert (Hw : uwrap 16 (Z.of_nat i) = Z.of_nat i) by (apply Z.mod_small; lia).
  rewrite Hw. cbn. by rewrite Hv.
Qed.

Lemma exec_insert_all sess page paging s rs : represents s c ->
  no_stale (OneRow ks (td_name table) (key_parts keys)) s rs ->
  exists s1 t, execute_prepared_paged short_name sess (StInsert insert_all) (to_raw <$> vals) page paging s
    = (s1, Ok (Void, [t])) /\ represents s1 c /\
    stands (OneRow ks (td_name table) (key_parts keys)) [t] (Some (encode_row_columns (reg_row table vals))) (s1, rs) /\
    frame s s1 /\ issued s1 t.
Proof.
  intros Hrep Hrs. destruct (resolve_table_eq s c sess ks (td_name table) table Hrep ks_clean table_known)
    as (T & Hres & HrT).
  set (v := encode_row_columns (reg_row table vals)).
  destruct (put_row_stands (set_tables T s) rs ks (td_name table) (key_parts keys) v) as (s1 & t & Hput & Hst);
    [apply HrT|exact Hrs|].
  destruct (put_row_represents (set_tables T s) c ks (td_name table) (key_parts keys) v HrT)
    as (s1' & t' & Hput' & Hr1). rewrite Hput in Hput'. injection Hput' as <- <-.
  exists s1, t. split; [|done]. unfold execute_prepared_paged. cbn [execute_statement].
  unfold exec_insert. cbn [ins_table_name insert_all].
  set (q := {| q_storage := s; q_values := _; q_next := 0; q_gates := [] |}).
  rewrite (st_bind_eq _ _ _ _ _ (on_storage_eq _ q _ _ Hres)).
  set (q1 := {| q_storage := set_tables T s; q_values := _ |}).
  rewrite (st_bind_eq _ _ q1 q1 ()).
  2: { unfold lift, check_writable. by rewrite bool_decide_eq_false_2. }
  cbn [ins_values ins_columns insert_all]. rewrite !length_fmap, length_replicate, Nat.eqb_refl. cbn [negb].
  pose proof (resolve_values_binds table (td_columns table) vals [] [] q1 eq_refl) as Hrv.
  cbn [app fmap list_fmap] in Hrv. rewrite (st_bind_eq _ _ _ _ _ (Hrv (proj1 table_ok) vals_ok eq_refl eq_refl)).
  cbn [q1 q_storage q_values q_next q_gates].
  rewrite (st_bind_eq _ _ _ _ (key_parts keys)) by (unfold lift; rewrite insert_key_parts_eq; reflexivity).
  rewrite (st_bind_eq _ _ _ _ (reg_row table vals)) by (unfold lift; rewrite insert_row_columns_eq; reflexivity).
  erewrite (st_bind_eq _ _ _ _ t).
  2: { apply on_storage_eq. cbn [q_storage]. unfold internal, st_map_err. fold v. rewrite Hput. reflexivity. }
  reflexivity.
Qed.

(** The filters of [select_row]. *)
Definition key_filters : list Filter := zip_with (fun n iv => FEq n (snd iv)) (key_names table) keys.

Lemma find_quoted n i : column_index table n = Some i ->
  exists cd, td_columns table !! i = Some cd /\ col_name cd = n /\
    find_first (fun c0 => ident_eq (Quoted n) (col_name c0)) (td_columns table) = Some cd.
Proof.
  intros Hi. destruct (column_index_Some _ _ _ Hi) as (cd & Hc & Hn & Hcol). exists cd.
  split; [done|]. split; [done|]. rewrite <-Hcol. unfold column, find_first.
  cbn [ident_eq]. clear. induction (td_columns table) as [|d l IH]; [done|]. cbn.
  rewrite (bool_decide_ext (n = col_name d) (col_name d = n)) by done. by rewrite IH.
Qed.

Lemma parse_filters_keys names ks' q :
  Forall2 (key_at table vals) names ks' ->
  drop (q_next q) (q_values q) = (fun iv => to_raw (snd iv)) <$> ks' ->
  map_st (parse_filter table) ((fun n => {| rel_obj := OpColumn (Quoted n); rel_oper := RelEqual;
                                            rel_value := OpParam [] |}) <$> names) q
  = ({| q_storage := q_storage q; q_values := q_values q; q_next := q_next q + length names;
        q_gates := q_gates q |}, Ok (zip_with (fun n iv => FEq n (snd iv)) names ks')).
Proof.
  intros Hk. revert q. induction Hk as [|n [i v] names ks' Hn Hk IH]; intros q Hq.
  { cbn. rewrite Nat.add_0_r. by destruct q. }
  destruct Hn as (Hi & Hv & cd & Hcd & Hname & Hreg & Ht & Hf & Hnull & Heq). cbn [fst snd] in *.
  destruct (find_quoted n i Hi) as (cd' & Hcd' & _ & Hfind). rewrite Hcd in Hcd'. injection Hcd' as <-.
  cbn [fmap list_fmap map_st]. assert (Hhead : q_values q !! q_next q = Some (to_raw v)).
  { rewrite <-(Nat.add_0_r (q_next q)), <-lookup_drop, Hq. done. }
  assert (Hcell : cell_ok (col_type cd) v = true) by (by destruct v).
  erewrite (st_bind_eq _ _ q _ (FEq n v)).
  2: { unfold parse_filter. cbn [rel_obj rel_oper rel_value]. rewrite Hfind.
       unfold fmap, st_fmap. cbn [simple_value]. rewrite (take_bind_raw q (col_type cd) v Hhead Hcell Hf).
       by rewrite Hname. }
  erewrite st_bind_eq.
  2: { apply IH. cbn [q_next q_values]. rewrite <-Nat.add_1_r, <-drop_drop, Hq. done. }
  cbn. by rewrite <-plus_n_Sm.
Qed.

Lemma keys_names_NoDup : NoDup (key_names table).
Proof. apply table_ok. Qed.

Lemma eq_value_zip names ks' n iv j :
  NoDup names -> names !! j = Some n -> ks' !! j = Some iv ->
  eq_value (zip_with (fun n (iv : nat * Value) => FEq n (snd iv)) names ks') n = Some (snd iv).
Proof.
  unfold eq_value. revert ks' j. induction names as [|m names IH]; intros ks' j Hnd Hj Hiv; [done|].
  apply NoDup_cons in Hnd as [Hm Hnd]. destruct ks' as [|kv ks']; [done|]. cbn.
  destruct j as [|j]; cbn in Hj, Hiv.
  - injection Hj as ->. injection Hiv as ->. by rewrite bool_decide_eq_true_2.
  - rewrite bool_decide_eq_false_2; [by eapply IH|]. intros ->. apply Hm. by eapply list_elem_of_lookup_2.
Qed.

Lemma point_key_row : point_key table key_filters = Some (key_parts keys).
Proof.
  unfold point_key, key_parts. apply mapM_Some, Forall2_fmap_r, Forall2_same_length_lookup_2.
  { by eapply Forall2_length. }
  intros j n iv Hn Hiv. cbn. unfold key_filters.
  rewrite (eq_value_zip _ _ _ _ _ keys_names_NoDup Hn Hiv). cbn.
  destruct (Forall2_lookup_lr _ _ _ _ _ _ keys_at Hn Hiv) as (_ & _ & cd & _ & _ & _ & _ & _ & Hnull & _).
  by rewrite Hnull.
Qed.

Lemma eq_filters_zip names ks' : Forall2 (key_at table vals) names ks' ->
  eq_filters_of table (zip_with (fun n iv => FEq n (snd iv)) names ks') = Ok ks' /\
  in_filters_of table (zip_with (fun n iv => FEq n (snd iv)) names ks') = Ok [].
Proof.
  unfold eq_filters_of, in_filters_of. induction 1 as [|n [i v] names ks' (Hi & _) Hk [IH1 IH2]]; [done|].
  cbn in *. split; [|done]. rewrite Hi. cbn. by rewrite IH1.
Qed.
Lemma eq_filters_row : eq_filters_of table key_filters = Ok keys.
Proof. apply eq_filters_zip, keys_at. Qed.
Lemma in_filters_row : in_filters_of table key_filters = Ok [].
Proof. eapply eq_filters_zip, keys_at. Qed.
Lemma key_idxs_row :
  map_res (fun name => unwrap (column_index table name)) (key_names table) = @Ok QueryError _ (fst <$> keys).
Proof.
  apply map_res_Ok, Forall2_fmap_r. eapply Forall2_impl; [exact keys_at|]. intros n iv (Hi & _). cbn. by rewrite Hi.
Qed.
Definition all_cols : list (str * ColumnType) := (fun cd => (col_name cd, col_type cd)) <$> td_columns table.
Lemma sel_idxs_row :
  map_res (fun nt => unwrap (column_index table (fst nt))) all_cols
  = @Ok QueryError _ (seq 0 (length (td_columns table))).
Proof.
  apply map_res_Ok, Forall2_fmap_l, Forall2_same_length_lookup_2; [by rewrite length_seq|].
  intros i cd j Hc [-> _]%lookup_seq. cbn. by rewrite (column_index_lookup table i cd (proj1 table_ok) Hc).
Qed.

(** A point SELECT is the point read and its projection. *)
Lemma run_select_point page paging s s' rows :
  point_select table key_filters (seq 0 (length (td_columns table))) (fst <$> keys) keys [] ks (key_parts keys) s
    = (s', Ok rows) ->
  run_select ks table all_cols key_filters None page paging s
    = (s', Ok (Rows ks (td_name table) all_cols rows None)).
Proof.
  intros Hp. unfold run_select.
  rewrite (st_bind_eq _ _ s s _) by (unfold lift; rewrite sel_idxs_row; reflexivity).
  rewrite (st_bind_eq _ _ s s _) by (unfold lift; rewrite eq_filters_row; reflexivity).
  rewrite (st_bind_eq _ _ s s _) by (unfold lift; rewrite in_filters_row; reflexivity).
  rewrite (st_bind_eq _ _ s s _) by (unfold lift; rewrite key_idxs_row; reflexivity).
  rewrite point_key_row. by rewrite (st_bind_eq _ _ s s' rows Hp).
Qed.

Lemma point_select_row s :
  snd (get_row ks (td_name table) (key_parts keys) s) = Ok (Some (encode_row_columns (reg_row table vals))) ->
  exists s', point_select table key_filters (seq 0 (length (td_columns table))) (fst <$> keys) keys [] ks
    (key_parts keys) s = (s', Ok [vals]).
Proof.
  intros Hread.
  destruct (get_row ks (td_name table) (key_parts keys) s) as [s' o] eqn:Hg. cbn in Hread. subst o.
  exists s'. unfold point_select.
  rewrite (st_bind_eq _ _ s s' (Some (encode_row_columns (reg_row table vals))))
    by (unfold internal, st_map_err; by rewrite Hg).
  set (fast := _ && _ && _ && _ && _).
  assert (Hproj : (if fast
    then project_fast_point table (seq 0 (length (td_columns table))) (fst <$> keys) (key_parts keys)
           (encode_row_columns (reg_row table vals)) []
    else project_decoded table (seq 0 (length (td_columns table))) keys [] (fst <$> keys) (key_parts keys)
           (encode_row_columns (reg_row table vals)) []) = Ok ([vals], true));
    [|rewrite (st_bind_eq _ _ s' s' ([vals], true)) by (unfold lift; by rewrite Hproj); done].
  destruct fast eqn:Hfast; [|by apply project_decoded_vals].
  unfold fast in Hfast. rewrite !andb_true_iff in Hfast. destruct Hfast as ((((_ & _) & Hck) & Hpk) & _).
  apply bool_decide_eq_true in Hck. apply Nat.eqb_eq in Hpk.
  assert (Hone : length keys = 1).
  { rewrite <-(Forall2_length _ _ _ keys_at). unfold key_names. by rewrite Hck, app_nil_r. }
  destruct keys as [|[k v] [|]] eqn:Hkeys; try done. cbn.
  by apply (project_fast_vals table vals table_ok vals_ok [(k, v)]).
Qed.

(** The prepared point SELECT returns the rows the point read finds; resolving
    the table may fill the table cache first. *)
Lemma exec_select_keys sess page paging s rows : represents s c ->
  (forall T, exists s', point_select table key_filters (seq 0 (length (td_columns table))) (fst <$> keys) keys [] ks
    (key_parts keys) (set_tables T s) = (s', Ok rows)) ->
  exists s', execute_prepared_paged short_name sess (StSelect select_row)
      ((fun iv => to_raw (snd iv)) <$> keys) page paging s
    = (s', Ok (Rows ks (td_name table) all_cols rows None, [])).
Proof.
  intros Hrep Hp.
  destruct (resolve_table_eq s c sess ks (td_name table) table Hrep ks_clean table_known)
    as (T & Hres & HrT).
  destruct (Hp T) as (s' & Hrun%(run_select_point page paging)). exists s'.
  unfold execute_prepared_paged. cbn [execute_statement]. unfold exec_select.
  set (q := {| q_storage := s; q_values := _; q_next := 0; q_gates := [] |}).
  assert (Hvirt : virtual_missing sess (sel_table_name select_row) s = (s, Ok false)).
  { unfold virtual_missing. cbn [sel_table_name select_row fq fq_keyspace norm_id].
    rewrite bool_decide_eq_false_2; [done|]. intros [= ->]. apply ks_user. by_compute. }
  rewrite (st_bind_eq _ _ _ _ _ (on_storage_eq _ q _ _ Hvirt)). cbn iota.
  set (q0 := {| q_storage := s; q_values := q_values q |}).
  rewrite (st_bind_eq _ _ _ _ _ (on_storage_eq _ q0 _ _ Hres)).
  set (q1 := {| q_storage := set_tables T s; q_values := q_values q0 |}).
  rewrite (st_bind_eq _ _ q1 q1 all_cols) by done.
  pose proof (parse_filters_keys (key_names table) keys q1 keys_at eq_refl) as Hpf.
  unfold parse_filters. cbn [sel_where select_row]. rewrite (st_bind_eq _ _ _ _ _ Hpf).
  fold key_filters. cbn [sel_limit select_row].
  erewrite on_storage_eq; [|exact Hrun]. reflexivity.
Qed.

(** The point SELECT of a row that every read finds. *)
Lemma exec_select_read sess page paging s : represents s c ->
  (forall T, snd (get_row ks (td_name table) (key_parts keys) (set_tables T s))
     = Ok (Some (encode_row_columns (reg_row table vals)))) ->
  exists s', execute_prepared_paged short_name sess (StSelect select_row)
      ((fun iv => to_raw (snd iv)) <$> keys) page paging s
    = (s', Ok (Rows ks (td_name table) all_cols [vals] None, [])).
Proof. intros Hrep Hread. apply exec_select_keys; [done|]. intros T. apply point_select_row, Hread. Qed.

Lemma exec_select_row sess page paging s rs t : represents s c ->
  stands (OneRow ks (td_name table) (key_parts keys)) [t] (Some (encode_row_columns (reg_row table vals))) (s, rs) ->
  ticket_done s t = true ->
  exists s', execute_prepared_paged short_name sess (StSelect select_row)
      ((fun iv => to_raw (snd iv)) <$> keys) page paging s
    = (s', Ok (Rows ks (td_name table) all_cols [vals] None, [])).
Proof.
  intros Hrep Hst Hd. apply exec_select_read; [done|]. intros T.
  apply (row_read _ _ _ [t] _ (set_tables T s) rs Hst). by apply settled_one.
Qed.
End one_row.

(** C13: INSERT then SELECT.  For a well-formed user table in the catalog and
    any well-typed row whose key cells are neither null nor NaN: a prepared
    INSERT of all columns is accepted and returns one ticket, and once the
    ticket is completed the prepared point SELECT returns exactly the inserted
    values, in column order, as its only row - whatever the pipeline threads do
    and other requests do in between to other rows, other tables and keyspaces,
    and whoever reads this row, as long as no read of it carries an older stored
    version into the row cache ([no_stale], [may_find]). *)
Theorem insert_then_select s rs c ks table vals :
  represents s c -> no_bang ks -> ks ∉ SYSTEM_KEYSPACES ->
  cat_tb c !! (ks, td_name table) = Some table -> table_wf table ->
  Forall2 (fun c v => cell_ok (col_type c) v = true /\ fits v = true) (td_columns table) vals ->
  (forall i c v, td_columns table !! i = Some c -> vals !! i = Some v -> is_regular c = false ->
     value_eqb v VNull = false /\ value_eqb v v = true) ->
  (Z.of_nat (length (encode_row_columns (reg_row table vals))) < 2 ^ 63)%Z ->
  exists keys, Forall2 (key_at table vals) (key_names table) keys /\
    let row := OneRow ks (td_name table) (key_parts keys) in
    (no_stale row s rs ->
     exists s1 ticket,
       execute_prepared short_name None (StInsert (insert_all ks table)) (to_raw <$> vals) s
         = (s1, Ok (Void, [ticket])) /\
       forall s2 rs2, rtc (others row [ticket]) (s1, rs) (s2, rs2) -> ticket_done s2 ticket = true ->
         exists s3,
           execute_prepared short_name None (StSelect (select_row ks table))
             ((fun iv => to_raw (snd iv)) <$> keys) s2
           = (s3, Ok (Rows ks (td_name table) (all_cols table) [vals] None, []))).
Proof.
  intros Hrep Hn Hsys Htab Hwf Hv Hk Hlen.
  destruct (keys_exist table vals Hwf Hv Hk) as (keys & Hkeys).
  exists keys. split; [done|]. intros row Hrs.
  destruct (exec_insert_all c ks table vals keys Hn Hsys Htab Hwf Hv Hkeys None None None s rs Hrep Hrs)
    as (s1 & t & Hins & Hr1 & Hst & _).
  exists s1, t. split; [done|]. intros s2 rs2 Hoth Hd.
  destruct (others_rtc_represents _ _ _ _ _ Hoth Hr1) as (c2 & Hr2 & Htab2 & _).
  cbn [claim_ks claim_tb row] in Htab2. rewrite Htab in Htab2.
  eapply (exec_select_row c2 ks table vals keys Hn Hsys Htab2 Hwf Hv Hkeys Hlen None None None s2 rs2 t Hr2); [|done].
  by apply (stands_rtc _ _ _ _ _ Hoth).
Qed.
End statements.

Definition demo_vals : list Value := [VInt 1; VText (bs "x"); VSet [VBlob [Byte.xff]]].
Lemma demo_table_ok : table_wf demo_table.
Proof. unfold table_wf, key_names; cbn; repeat split; by_compute. Qed.
Lemma demo_vals_ok : Forall2 (fun c v => cell_ok (col_type c) v = true /\ fits v = true) (td_columns demo_table) demo_vals.
Proof. repeat constructor. Qed.
Lemma demo_vals_keys i c v : td_columns demo_table !! i = Some c -> demo_vals !! i = Some v -> is_regular c = false ->
  value_eqb v VNull = false /\ value_eqb v v = true.
Proof.
  intros Hc Hv Hr. destruct i as [|[|[|i]]]; cbn in Hc, Hv; try done.
  - injection Hv as <-. by split.
  - injection Hv as <-. by split.
  - injection Hc as <-. discriminate Hr.
Qed.

(** The INSERT, and the threads running dry. *)
Lemma insert_then_select_witness :
  exists s c keys s1 ticket s3,
    represents (H0 := mem_kv_laws) (H1 := bits_json) s c /\
    execute_prepared (H0 := bits_json) (H1 := ascii_case) (H2 := no_literals) (fun _ => []) None
      (StInsert (insert_all (bs "ks") demo_table)) (to_raw <$> demo_vals) s = (s1, Ok (Void, [ticket])) /\
    ticket_done (quiesce s1) ticket = true /\
    execute_prepared (H0 := bits_json) (H1 := ascii_case) (H2 := no_literals) (fun _ => []) None
      (StSelect (select_row (bs "ks") demo_table)) ((fun iv : nat * Value => to_raw (snd iv)) <$> keys) (quiesce s1)
      = (s3, Ok (Rows (bs "ks") (bs "t") (all_cols demo_table) [demo_vals] None, [])).
Proof.
  destruct (put_table_refines (H0 := mem_kv_laws) (H2 := bits_json_laws) empty_storage empty_cat
    demo_table empty_represents) as (s & _ & Hrep); [by_compute|].
  assert (Htab : cat_tb (fst (spec_op (PutTb demo_table) empty_cat)) !! (bs "ks", td_name demo_table) = Some demo_table)
    by exact (lookup_insert_eq (M := gmap (str * str)) _ _ _).
  destruct (insert_then_select (H0 := mem_kv_laws) (H2 := bits_json_laws) (H3 := ascii_case)
    (H4 := no_literals) (fun _ => []) s [] _ (bs "ks") demo_table demo_vals Hrep ltac:(by_compute) ltac:(by_compute) Htab
    demo_table_ok demo_vals_ok demo_vals_keys ltac:(vm_compute; reflexivity)) as (keys & Hkeys & Hins).
  destruct (Hins (Forall_nil_2 _)) as (s1 & ticket & Hi & Hsel).
  destruct (exec_insert_all (H0 := mem_kv_laws) (H1 := bits_json) (H3 := ascii_case) (H4 := no_literals)
    (fun _ => []) _ (bs "ks") demo_table demo_vals keys ltac:(by_compute) ltac:(by_compute) Htab demo_table_ok
    demo_vals_ok Hkeys None None None s [] Hrep (Forall_nil_2 _)) as (s1' & t' & Hi' & Hr1 & _ & _ & Hiss).
  pose proof (eq_trans (eq_sym Hi) Hi') as Heq. injection Heq as <- <-.
  pose proof (quiesce_done (H0 := mem_kv_laws) s1 ticket (rep_ok _ _ Hr1) Hiss) as Hd.
  destruct (Hsel (quiesce s1) [] (thread_others _ _ _ _ _ (quiesce_thread s1)) Hd) as (s3 & Hs3).
  eexists s, _, keys, s1, ticket, s3. split; [exact Hrep|]. split; [exact Hi|]. split; [exact Hd|exact Hs3].
Defined.
