(* ===== verification/Statements.v ===== *)
(** * Statements: guards, caches and equivalences

    Theorems about single statements of src/src/query.rs: the system keyspaces
    are read-only, the statement cache is transparent and bounded, the upsert
    path of UPDATE agrees with read-modify-write; and statements that do not do
    what they should. *)

From S2P Require Import Prelude RustStr Ast Schema CqlValue Keys Project Kv Pipeline Storage Rows Scans.
From S2P Require Import Catalog System Query Dml.

Section guards.
Context `{KV} `{Json} `{UnicodeCase} `{Literals}.
Context (parse : str -> option CassandraStatement) (short_name : CassandraStatement -> str).

(** No engine, row cache or ticket changed. *)
Definition frozen (s s' : Storage) : Prop :=
  st_engines s' = st_engines s /\ st_row_cache s' = st_row_cache s.
Definition qfrozen (q q' : QS) : Prop :=
  frozen (q_storage q) (q_storage q') /\ q_gates q' = q_gates q.

Lemma get_frozen key s : frozen s (fst (get key s)).
Proof.
  unfold get, engine_get, on_engine. destruct (st_engines s !! 0) as [e|] eqn:He; [|done].
  cbn. split; [|done]. cbn. by apply list_insert_id.
Qed.

Lemma bind_frozen {A B} (m : st Storage str A) (f : A -> st Storage str B) s :
  frozen s (fst (m s)) -> (forall a s', frozen s s' -> frozen s (fst (f a s'))) ->
  frozen s (fst ((m ≫= f) s)).
Proof.
  intros Hm Hf. unfold mbind, st_bind. destruct (m s) as [s' [a|e|]]; [by apply Hf|done|done].
Qed.

Lemma frozen_trans s s1 s2 : frozen s s1 -> frozen s1 s2 -> frozen s s2.
Proof. intros [H1' H2'] [H3' H4']. split; congruence. Qed.

Lemma get_table_frozen ks tb s : frozen s (fst (get_table ks tb s)).
Proof.
  unfold get_table, table_fill. apply bind_frozen; [done|]. intros o s1 Hs1. destruct o; [done|].
  eapply frozen_trans; [exact Hs1|]. apply bind_frozen; [apply get_frozen|].
  intros [b|] s2 Hs2; [|done]. eapply frozen_trans; [exact Hs2|].
  apply bind_frozen; [done|]. intros d s3 Hs3. exact Hs3.
Qed.

Lemma get_keyspace_frozen name s : frozen s (fst (get_keyspace name s)).
Proof.
  unfold get_keyspace. apply bind_frozen; [done|]. intros o s1 Hs1. destruct o; [done|].
  eapply frozen_trans; [exact Hs1|]. apply bind_frozen; [apply get_frozen|].
  intros [b|] s2 Hs2; [|done]. eapply frozen_trans; [exact Hs2|].
  apply bind_frozen; [done|]. intros d s3 Hs3. exact Hs3.
Qed.

(** The same for statements: a computation that freezes, then one that does. *)
Lemma qbind_frozen {A B} (m : st QS QueryError A) (f : A -> st QS QueryError B) q :
  qfrozen q (fst (m q)) -> (forall a q', m q = (q', Ok a) -> qfrozen q q' -> qfrozen q (fst (f a q'))) ->
  qfrozen q (fst ((m ≫= f) q)).
Proof.
  intros Hm Hf. unfold mbind, st_bind. destruct (m q) as [q' [a|e|]]; [|done|done]. by apply Hf.
Qed.

Lemma on_storage_frozen {A} (m : st Storage QueryError A) q :
  frozen (q_storage q) (fst (m (q_storage q))) -> qfrozen q (fst (on_storage m q)).
Proof. unfold on_storage. by destruct (m (q_storage q)). Qed.

Lemma internal_fst {A} (m : st Storage str A) s : fst (internal m s) = fst (m s).
Proof. unfold internal, st_map_err. by destruct (m s) as [? [?|?|]]. Qed.

Lemma resolve_frozen sess name s : frozen s (fst (resolve_table sess name s)).
Proof.
  unfold resolve_table. unfold mbind, st_bind, lift. destruct (name_keyspace sess name) as [ks|e|]; [|done|done].
  destruct (internal (get_table ks (norm_id (fq_name name))) s) as [s1 r] eqn:E.
  assert (Hs1 : frozen s s1).
  { change s1 with (fst (s1, r)). rewrite <-E, internal_fst. apply get_table_frozen. }
  destruct r as [o|e|]; [|done|done]. by destruct o.
Qed.

Lemma resolve_keyspace sess name s s' ks def :
  resolve_table sess name s = (s', Ok (ks, def)) -> name_keyspace sess name = Ok ks.
Proof.
  unfold resolve_table. intros (s1 & ks' & Hk & Hr)%st_bind_Ok. unfold lift in Hk.
  injection Hk as -> Hk. apply st_bind_Ok in Hr as (s2 & o & _ & Hr).
  apply st_bind_Ok in Hr as (s3 & d & _ & Hr). unfold mret, st_ret in Hr.
  injection Hr as _ -> _. done.
Qed.

(** The keyspace a statement would change. *)
Definition target (sess : option str) (stmt : CassandraStatement) : option str :=
  let tgt name := match name_keyspace sess name with Ok ks => Some ks | _ => None end in
  match stmt with
  | StCreateKeyspace ks => Some (norm_id (ck_name ks))
  | StCreateTable t => tgt (ct_name t)
  | StDropKeyspace d => Some (norm_id (fq_name (cdr_name d)))
  | StDropTable d => tgt (cdr_name d)
  | StInsert i => tgt (ins_table_name i)
  | StDelete d => tgt (del_table_name d)
  | StUpdate u => tgt (upd_table_name u)
  | StTruncate name => tgt name
  | _ => None
  end.

(** [resolve_table] followed by [check_writable], as every DML statement starts. *)
Lemma guarded sess name ks (f : str -> TableDef -> st QS QueryError Response) q :
  name_keyspace sess name = Ok ks -> ks ∈ SYSTEM_KEYSPACES ->
  let m := '(keyspace, table) ← on_storage (resolve_table sess name);
           lift (check_writable keyspace);; f keyspace table in
  qfrozen q (fst (m q)) /\ forall r, snd (m q) <> Ok r.
Proof.
  intros Hks Hsys m. assert (Hcw : check_writable ks = Err (invalid_err
    (bs "Modifications to keyspace '" ++ ks ++ bs "' are not allowed"))).
  { unfold check_writable. by rewrite bool_decide_eq_true_2. }
  unfold m, mbind, st_bind, on_storage. pose proof (resolve_frozen sess name (q_storage q)) as Hf.
  destruct (resolve_table sess name (q_storage q)) as [s' [[ks' def]|e|]] eqn:Hr; [|done|done].
  apply resolve_keyspace in Hr. rewrite Hks in Hr. injection Hr as <-.
  unfold lift. rewrite Hcw. done.
Qed.

(** The guards of the schema statements. *)
Lemma create_keyspace_guarded ks s : norm_id (ck_name ks) ∈ SYSTEM_KEYSPACES ->
  frozen s (fst (exec_create_keyspace ks s)) /\
  forall r, snd (exec_create_keyspace ks s) = Ok r -> r = Void.
Proof.
  intros Hsys. unfold exec_create_keyspace, mbind, st_bind.
  pose proof (get_keyspace_frozen (norm_id (ck_name ks)) s) as Hf. rewrite <-internal_fst in Hf.
  destruct (internal _ s) as [s' [[d|]|e|]]; [|by rewrite bool_decide_eq_true_2|done|done].
  destruct (ck_if_not_exists ks); split; try done. by intros r [= <-].
Qed.

Lemma create_table_guarded sess t ks s : name_keyspace sess (ct_name t) = Ok ks -> ks ∈ SYSTEM_KEYSPACES ->
  frozen s (fst (exec_create_table sess t s)) /\
  forall r, snd (exec_create_table sess t s) = Ok r -> r = Void.
Proof.
  intros Hks Hsys. unfold exec_create_table, mbind, st_bind, lift. rewrite Hks.
  pose proof (get_table_frozen ks (norm_id (fq_name (ct_name t))) s) as Hf. rewrite <-internal_fst in Hf.
  unfold check_writable. rewrite bool_decide_eq_true_2 by done.
  destruct (internal _ s) as [s' [[d|]|e|]]; [|done|done|done].
  destruct (ct_if_not_exists t); split; try done. by intros r [= <-].
Qed.

Lemma drop_keyspace_guarded d q : norm_id (fq_name (cdr_name d)) ∈ SYSTEM_KEYSPACES ->
  qfrozen q (fst (exec_drop_keyspace d q)) /\
  forall r, snd (exec_drop_keyspace d q) = Ok r -> r = Void.
Proof.
  intros Hsys. unfold exec_drop_keyspace, mbind, st_bind, on_storage, lift.
  pose proof (get_keyspace_frozen (norm_id (fq_name (cdr_name d))) (q_storage q)) as Hf.
  rewrite <-internal_fst in Hf. unfold check_writable. rewrite bool_decide_eq_true_2 by done.
  destruct (internal _ (q_storage q)) as [s' [[def|]|e|]]; [done| |done|done].
  destruct (cdr_if_exists d); split; try done. by intros r [= <-].
Qed.

Lemma drop_table_guarded sess d ks q : name_keyspace sess (cdr_name d) = Ok ks -> ks ∈ SYSTEM_KEYSPACES ->
  qfrozen q (fst (exec_drop_table sess d q)) /\
  forall r, snd (exec_drop_table sess d q) = Ok r -> r = Void.
Proof.
  intros Hks Hsys. unfold exec_drop_table, mbind, st_bind, on_storage, lift. rewrite Hks.
  pose proof (get_table_frozen ks (norm_id (fq_name (cdr_name d))) (q_storage q)) as Hf.
  rewrite <-internal_fst in Hf. unfold check_writable. rewrite bool_decide_eq_true_2 by done.
  destruct (internal _ (q_storage q)) as [s' [[def|]|e|]]; [done| |done|done].
  destruct (cdr_if_exists d); split; try done. by intros r [= <-].
Qed.

(** C32: the system keyspaces are read-only.  Whatever the state and the
    session, a statement that would change system, system_schema or
    system_virtual_schema - DML, TRUNCATE, CREATE or DROP - leaves every engine
    and the row cache as they are, queues nothing, and reports success only as
    the Void of an IF [NOT] EXISTS that has nothing to do. *)
Theorem system_keyspaces_read_only sess stmt page paging ks q :
  target sess stmt = Some ks -> ks ∈ SYSTEM_KEYSPACES ->
  qfrozen q (fst (execute_statement short_name sess stmt page paging q)) /\
  forall r, snd (execute_statement short_name sess stmt page paging q) = Ok r -> r = Void.
Proof.
  intros Ht Hsys.
  assert (Hname : forall name, match name_keyspace sess name with Ok ks => Some ks | _ => None end = Some ks ->
    name_keyspace sess name = Ok ks) by (intros name; by destruct (name_keyspace sess name); intros [= ->]).
  assert (Hlift : forall m : st Storage QueryError Response,
    frozen (q_storage q) (fst (m (q_storage q))) /\ (forall r, snd (m (q_storage q)) = Ok r -> r = Void) ->
    qfrozen q (fst (on_storage m q)) /\ forall r, snd (on_storage m q) = Ok r -> r = Void).
  { intros m [Hf Hv]. split; [by apply on_storage_frozen|]. unfold on_storage.
    by destruct (m (q_storage q)). }
  assert (Hdml : forall (m : st QS QueryError Response), qfrozen q (fst (m q)) /\ (forall r, snd (m q) <> Ok r) ->
    qfrozen q (fst (m q)) /\ forall r, snd (m q) = Ok r -> r = Void).
  { intros m [Hf Hv]. split; [done|]. intros r Hr. by destruct (Hv r). }
  destruct stmt as [| cks | t | d | d | i | | d | u | n |]; try done; cbn [execute_statement target] in *.
  - apply Hlift, create_keyspace_guarded. by injection Ht as <-.
  - apply Hlift. eapply create_table_guarded; [by apply Hname|done].
  - apply drop_keyspace_guarded. by injection Ht as <-.
  - eapply drop_table_guarded; [by apply Hname|done].
  - apply Hdml. exact (guarded sess (ins_table_name i) ks _ q (Hname _ Ht) Hsys).
  - apply Hdml. exact (guarded sess (del_table_name d) ks _ q (Hname _ Ht) Hsys).
  - apply Hdml. exact (guarded sess (upd_table_name u) ks _ q (Hname _ Ht) Hsys).
  - apply Hdml. exact (guarded sess n ks (fun keyspace _ =>
      tickets ← on_storage (internal (truncate_table keyspace (norm_id (fq_name n))));
      gates_extend tickets;; mret Void) q (Hname _ Ht) Hsys).
Qed.

(** ** The statement cache *)

(** Cached statements are what the parser would return, and the cache is
    bounded. *)
Definition ast_ok (s : Storage) : Prop :=
  (forall query stmt, st_ast_cache s !! query = Some stmt -> parse query = Some stmt) /\
  size (st_ast_cache s) <= AST_CACHE_CAPACITY.

(** What [parse_cached] returns and does. *)
Lemma parse_cached_spec query s : ast_ok s ->
  exists s', parse_cached parse query s
    = (s', match parse query with Some stmt => Ok stmt | None => Err syntax_error end) /\
    ast_ok s' /\ exists cache, s' = set_ast_cache cache s.
Proof.
  intros [Hc Hsize]. unfold parse_cached, mbind, st_bind, gets, ast_cache_get, lift.
  destruct (st_ast_cache s !! query) as [stmt|] eqn:Hq.
  { cbn. rewrite (Hc _ _ Hq). exists s. repeat split; [done|done|]. exists (st_ast_cache s). by destruct s. }
  destruct (parse query) as [stmt|] eqn:Hp; cbn.
  2: { exists s. repeat split; [done|done|]. exists (st_ast_cache s). by destruct s. }
  eexists. split; [done|]. split; [|by eexists]. unfold ast_ok, ast_cache_put. cbn.
  destruct (AST_CACHE_CAPACITY <=? size (st_ast_cache s)) eqn:E.
  - split; [intros q st; rewrite lookup_insert; case_decide; [by intros [= <-]; subst|by rewrite lookup_empty]|].
    rewrite map_size_insert_None, map_size_empty by apply lookup_empty. unfold AST_CACHE_CAPACITY. lia.
  - apply Nat.leb_gt in E. split.
    + intros q st. rewrite lookup_insert. case_decide; [by intros [= <-]; subst|apply Hc].
    + rewrite map_size_insert_None by done. lia.
Qed.

(** The statement cache is transparent and bounded: on any state it serves
    what the parser returns for the text, a syntax error included, changes
    nothing but the cache, and never holds more than 8192 statements. *)
Theorem parse_cached_transparent query s :
  ast_ok s ->
  snd (parse_cached parse query s) = match parse query with Some stmt => Ok stmt | None => Err syntax_error end /\
  ast_ok (fst (parse_cached parse query s)) /\
  exists cache, fst (parse_cached parse query s) = set_ast_cache cache s.
Proof.
  intros Hs. destruct (parse_cached_spec query s Hs) as (s' & Hp & Hs' & Hc). by rewrite Hp.
Qed.
End guards.

(** ** UPDATE *)

Lemma foldl_store table (nv : list (nat * Value)) row :
  length row = length (td_columns table) -> Forall (fun iv => fst iv < length (td_columns table)) nv ->
  foldl (fun m iv => r ← m; store (E := QueryError) r (fst iv) (snd iv)) (Ok row) nv = Ok (put_all row nv).
Proof.
  intros Hl Hf. revert row Hl. induction Hf as [|iv nv Hi Hf IH]; intros row Hl; [done|]. cbn [foldl].
  unfold mbind at 2, res_bind at 2, store at 2. rewrite Hl. rewrite (proj2 (Nat.ltb_lt _ _)) by done.
  change (put_all row (iv :: nv)) with (put_all (<[fst iv := snd iv]> row) nv).
  apply IH. by rewrite length_insert.
Qed.

Lemma put_all_in row (nv : list (nat * Value)) i v :
  NoDup (fst <$> nv) -> (i, v) ∈ nv -> i < length row -> put_all row nv !! i = Some v.
Proof.
  revert row. induction nv as [|[j w] nv IH]; intros row Hnd Hin Hi; [by apply not_elem_of_nil in Hin|].
  apply NoDup_cons in Hnd as [Hj Hnd]. cbn in Hj.
  change (put_all row ((j, w) :: nv)) with (put_all (<[j := w]> row) nv).
  apply elem_of_cons in Hin as [[= <- <-]|Hin]; [|by apply IH; [| |rewrite length_insert]].
  assert (Hkeep : forall r, put_all r nv !! i = r !! i).
  { clear -Hj. induction nv as [|[k x] nv IH]; intros r; [done|]. cbn in Hj.
    apply not_elem_of_cons in Hj as [Hne Hj].
    change (put_all r ((k, x) :: nv)) with (put_all (<[k := x]> r) nv). rewrite IH by done.
    by apply list_lookup_insert_ne. }
  rewrite Hkeep. by apply list_lookup_insert_eq.
Qed.

Lemma regular_count table :
  length (filter (fun c => is_regular c = true) (td_columns table)) = length (regular_idxs table).
Proof.
  unfold regular_idxs. set (l := td_columns table). generalize 0.
  induction l as [|c l IH]; intros k; [done|]. rewrite filter_cons.
  cbn [length seq zip zip_with omap list_omap fst snd]. specialize (IH (S k)).
  destruct (is_regular c) eqn:E; case_decide; try done; cbn [length]; by f_equal.
Qed.

Lemma upsert_merged table existing nv :
  length nv = length (filter (fun c => is_regular c = true) (td_columns table)) ->
  NoDup (fst <$> nv) -> Forall (fun iv => fst iv ∈ regular_idxs table) nv ->
  (forall b, existing = Some b -> exists out, decode_row_columns b table = Ok out) ->
  upsert_row table nv = merged_row table existing nv.
Proof.
  intros Hlen Hnd Hreg Hdec. unfold upsert_row, merged_row.
  assert (Hrow : exists row, length row = length (td_columns table) /\
    match existing with
    | Some b => map_err internal_err (decode_row_columns b table)
    | None => Ok (replicate (length (td_columns table)) VNull)
    end = Ok row).
  { destruct existing as [b|].
    - destruct (Hdec b eq_refl) as [out Hout]. exists out. rewrite Hout. split; [|done].
      pose proof (proj1 (decode_columns_spec _ _ _ 0 _ (le_n _) (row_ok_nulls table)) out Hout) as Hok.
      symmetry. by eapply Forall2_length.
    - eexists. split; [|done]. apply length_replicate. }
  destruct Hrow as (row & Hlrow & ->). res_simpl.
  rewrite (foldl_store table); [|done|].
  2: { eapply Forall_impl; [exact Hreg|]. intros iv (c & Hc & _)%regular_idxs_spec. by eapply lookup_lt_Some. }
  res_simpl. apply map_res_ext, Forall_forall. intros i Hi.
  assert (Hin : i ∈ fst <$> nv).
  { assert (Hsub : (fst <$> nv) ⊆+ regular_idxs table).
    { apply NoDup_submseteq; [done|]. intros j (iv & -> & Hj)%list_elem_of_fmap.
      rewrite Forall_forall in Hreg. by apply Hreg. }
    assert (Hperm : (fst <$> nv) ≡ₚ regular_idxs table).
    { apply submseteq_length_Permutation; [done|]. by rewrite length_fmap, Hlen, regular_count. }
    by rewrite Hperm. }
  apply list_elem_of_fmap in Hin as ([j v] & -> & Hin). cbn [fst].
  assert (Ha : assigned nv j = Ok v).
  { unfold assigned. rewrite (elem_of_list_to_map_1 (M := gmap nat) (reverse nv) j v); [done| |].
    - by rewrite fmap_reverse, reverse_Permutation.
    - by apply elem_of_reverse. }
  rewrite Ha. res_simpl. unfold index. rewrite (put_all_in row nv j v); [done|done|done|].
  rewrite Hlrow. apply regular_idxs_spec in Hi as (c & Hc & _). by eapply lookup_lt_Some.
Qed.

(** C30: the upsert path of UPDATE is read-modify-write.  When the assignments
    cover the regular columns - as many distinct columns as there are regular
    ones, none of them a key - the row built without reading equals the row
    built by decoding the stored one, whatever it is, and overwriting it. *)
Theorem upsert_is_update table existing nv :
  length nv = length (filter (fun c => is_regular c = true) (td_columns table)) ->
  NoDup (fst <$> nv) -> Forall (fun iv => fst iv ∈ regular_idxs table) nv ->
  (forall b, existing = Some b -> exists out, decode_row_columns b table = Ok out) ->
  upsert_row table nv = merged_row table existing nv.
Proof. apply upsert_merged. Qed.

Lemma upsert_is_update_witness :
  upsert_row kv_table [(2, VInt 7); (1, VBlob [])]
  = merged_row kv_table (Some (encode_row_columns [(1%Z, VBlob [Byte.x01]); (2%Z, VNull)]))
      [(2, VInt 7); (1, VBlob [])].
Proof.
  apply upsert_is_update; [reflexivity| | |].
  - by_compute.
  - by_compute.
  - intros b [= <-]. eexists. vm_compute. reflexivity.
Defined.

(** ** Concrete sessions *)

(** Identifiers and literals are ASCII; no statement text is ever parsed. *)
#[local] Existing Instance ascii_case.
#[local] Existing Instance no_literals.
#[local] Existing Instance bits_json.
#[local] Existing Instance mem_kv.

(** Two engines, two row engines' worth of schema: ks.kv, the table of a key and
    a number, and the mirror tables. *)
Definition num_table : TableDef :=
  {| td_keyspace := bs "ks"; td_name := bs "kv";
     td_columns := [ {| col_name := bs "k"; col_type := TText; is_partition_key := true; is_clustering := false |};
                     {| col_name := bs "v"; col_type := TInt; is_partition_key := false; is_clustering := false |} ];
     td_partition_keys := [bs "k"]; td_clustering_keys := [] |}.
Definition session_storage : Storage :=
  {| st_engines := (fun d : gmap bytes bytes => spawn_writer d) <$> [∅; ∅];
     st_keyspaces := ∅;
     st_tables := list_to_map ((fun d => ((td_keyspace d, td_name d), d)) <$> [num_table; sys_tables; sys_columns]);
     st_ast_cache := ∅; st_write_sync := true; st_row_cache := Some ∅ |}.
(** Threads of engine [i] take actions. *)
Definition acts (i : nat) (ls : list Label) (s : Storage) : Storage :=
  foldl (fun s l => default s (thread_step i l s)) s ls.

(** Running statements one after the other, every ticket settled after each. *)
Definition run_stmt (s : Storage) (stmt : CassandraStatement) (values : list RawValue)
    : Storage * res QueryError Response :=
  let '(s', r) := execute_prepared (fun _ => []) (Some (bs "ks")) stmt values s in
  (quiesce s', fst <$> r).

Definition id_ (s : string) : Identifier := Unquoted (bs s).
Definition tname (s : string) : FQName := {| fq_keyspace := None; fq_name := id_ s |}.
Definition k_is (text : string) : RelationElement :=
  {| rel_obj := OpColumn (id_ "k"); rel_oper := RelEqual; rel_value := OpConst (bs text) |}.
Definition ins_kv (k v : string) : CassandraStatement :=
  StInsert {| ins_table_name := tname "kv"; ins_columns := [id_ "k"; id_ "v"];
              ins_values := InsValues [OpConst (bs k); OpConst (bs v)] |}.
Definition sel_kv (elems : list SelectElement) (wh : list RelationElement) : CassandraStatement :=
  StSelect {| sel_table_name := tname "kv"; sel_columns := elems; sel_where := wh; sel_limit := None |}.

Lemma system_keyspaces_read_only_witness :
  let q := {| q_storage := session_storage; q_values := []; q_next := 0; q_gates := [] |} in
  qfrozen q (fst (execute_statement (fun _ => []) None
    (StTruncate (fq (bs "system_schema") (bs "tables"))) None None q)).
Proof.
  intros q.
  apply (system_keyspaces_read_only (fun _ => []) None (StTruncate (fq (bs "system_schema") (bs "tables")))
    None None (bs "system_schema") q); [reflexivity|by_compute].
Defined.

Lemma parse_cached_transparent_witness :
  snd (parse_cached (fun _ => Some (sel_kv [SelStar] [])) (bs "SELECT * FROM kv") session_storage)
  = Ok (sel_kv [SelStar] []).
Proof.
  apply (parse_cached_transparent (fun _ => Some (sel_kv [SelStar] []))). split.
  - intros q st Hq. cbn in Hq. by rewrite lookup_empty in Hq.
  - cbn [session_storage st_ast_cache]. rewrite map_size_empty. lia.
Defined.

(** An alias is looked up as a column.  [SELECT v AS k] returns the values
    of column [k] under the type of [v], and an alias that is no column name
    ends in a panic of the worker instead of a result. *)
Theorem select_alias_wrong :
  let s := fst (run_stmt session_storage (ins_kv "'a'" "7") []) in
  let as_ (a : string) := SelColumn {| nm_name := id_ "v"; nm_alias := Some (id_ a) |} in
  snd (run_stmt s (sel_kv [SelColumn {| nm_name := id_ "v"; nm_alias := None |}] [k_is "'a'"]) [])
    = Ok (Rows (bs "ks") (bs "kv") [(bs "v", TInt)] [[VInt 7]] None) /\
  snd (run_stmt s (sel_kv [as_ "k"] [k_is "'a'"]) [])
    = Ok (Rows (bs "ks") (bs "kv") [(bs "k", TInt)] [[VText (bs "a")]] None) /\
  snd (run_stmt s (sel_kv [as_ "x"] [k_is "'a'"]) []) = Panic.
Proof. repeat split; vm_compute; reflexivity. Qed.

(** An UPDATE that assigns a key column panics when the number of
    assignments happens to be the number of regular columns: the upsert path
    looks every regular column up among the assigned ones. *)
Theorem update_key_panics :
  snd (run_stmt session_storage
    (StUpdate {| upd_table_name := tname "kv";
                 upd_assignments := [{| asg_column := id_ "k"; asg_value := OpConst (bs "'b'"); asg_operator := false |}];
                 upd_where := [k_is "'a'"] |}) []) = Panic.
Proof. vm_compute. reflexivity. Qed.

(** DROP TABLE followed by CREATE TABLE can lose the table from the schema
    mirror.  DROP queues the removal of the row of system_schema.tables and
    forgets its ticket, so the server answers when the data is gone; CREATE then
    writes the new row past the pipeline, and the removal that is still queued
    deletes it: the table exists, and drivers no longer see it. *)
Theorem recreated_table_unmirrored :
  let drop_it := StDropTable {| cdr_name := tname "kv"; cdr_if_exists := false |} in
  let create_it := StCreateTable {| ct_if_not_exists := false; ct_name := tname "kv";
    ct_columns := [ {| cd_name := id_ "k"; cd_primary_key := true; cd_data_type := {| dt_name := DtText; dt_definition := [] |} |};
                    {| cd_name := id_ "v"; cd_primary_key := false; cd_data_type := {| dt_name := DtInt; dt_definition := [] |} |} ];
    ct_key := None |} in
  let commit_one := [CollectFirst; CollectClose; CollectFlush; CommitWrite; CommitSignal] in
  let d := execute_prepared (fun _ => []) (Some (bs "ks")) drop_it [] session_storage in
  let s1 := acts 1 commit_one (acts 0 commit_one (fst d)) in
  let r := execute_prepared (fun _ => []) (Some (bs "ks")) create_it [] s1 in
  let s2 := quiesce (fst r) in
  (rt ← snd d; Ok (settled s1 (snd rt))) = Ok true /\
  snd r = Ok (SchemaChanged CREATED TABLE (bs "ks") (bs "kv"), []) /\
  snd (get_table (bs "ks") (bs "kv") s2) = Ok (Some num_table) /\
  scan_rows (fst r) (bs "system_schema") (bs "tables") <> Ok [] /\
  scan_rows s2 (bs "system_schema") (bs "tables") = Ok [].
Proof.
  repeat split; try (vm_compute; reflexivity). vm_compute. discriminate.
Qed.
