(* ===== verification/Ddl.v ===== *)
(** * Schema statements

    USE, CREATE and DROP of src/src/query.rs against the abstract catalog of
    [Catalog]: what each statement answers and does to the catalog, on every
    branch, and that the rows of system_schema the statements keep beside it stay
    readable and say what the catalog says. *)

From S2P Require Import Prelude RustStr Triple Ast Schema CqlValue Keys Project Kv Pipeline Storage Rows Scans.
From S2P Require Import Catalog System Query Dml Statements.

(** ** The keys of the mirror *)

(** The tables of system_schema the statements write to. *)
Definition mirrored : list string := ["keyspaces"; "tables"; "columns"]%string.
Abbreviation ss := (bs "system_schema").

(** A key of these tables can be decoded. *)
Definition good_key (k : bytes) : Prop :=
  Forall (fun tb => starts_with k (data_prefix ss (bs tb)) = true ->
                    exists parts, decode_key ss (bs tb) k = Ok parts) mirrored.
Definition good_op (op : BatchOp) : Prop := match op with BPut k _ => good_key k | _ => True end.
Definition good_map (m : gmap bytes bytes) : Prop := forall k v, m !! k = Some v -> good_key k.

Lemma good_foreign k : starts_with k DT_PREFIX = false -> good_key k.
Proof.
  intros Hk. apply Forall_true. intros tb Hp. apply starts_with_true in Hp as [r ->].
  apply not_true_iff_false in Hk. destruct Hk. apply starts_with_true. unfold data_prefix.
  by do 2 apply prefix_app_r.
Qed.
Lemma ks_key_good name : good_key (ks_key name).
Proof. apply good_foreign. apply not_true_iff_false. rewrite starts_with_true. by intros [r [=]]. Qed.
Lemma tb_key_good ks tb : good_key (tb_key ks tb).
Proof. apply good_foreign. apply not_true_iff_false. rewrite starts_with_true. by intros [r [=]]. Qed.
Lemma mirrored_clean : Forall (fun tb => no_bang (bs tb)) mirrored.
Proof. by_compute. Qed.
Lemma row_key_good ks tb parts : no_bang ks -> no_bang tb -> (ks = ss -> Forall short parts) ->
  good_key (row_key ks tb parts).
Proof.
  intros Hks Htb Hs. eapply Forall_impl; [exact mirrored_clean|]. intros tb' Htb' Hp.
  apply starts_with_true in Hp. apply data_prefix_iff in Hp as [Hk <-]; [|by_compute|done..].
  exists parts. rewrite <-Hk. apply decode_row_key. by apply Hs.
Qed.

Lemma apply_ops_good m ops : good_map m -> Forall good_op ops -> good_map (apply_ops m ops).
Proof.
  intros Hm Ho. revert m Hm. induction Ho as [|op ops Hop Ho IH]; intros m Hm; [done|]. apply IH.
  intros k v. destruct op as [k' v'|k'|lo hi]; cbn [apply_op].
  - intros [[<- _]|[_ Hk]]%lookup_insert_Some; [done|by eapply Hm].
  - intros [_ Hk]%lookup_delete_Some. by eapply Hm.
  - intros [Hk _]%map_lookup_filter_Some. by eapply Hm.
Qed.

Section tidy.
Context `{KVLaws} `{JsonLaws}.

(** The engine works, and every key of the mirror it holds or will hold can be
    decoded. *)
Definition tidy (e : Engine) : Prop :=
  engine_ok e /\ good_map (db_view (e_db e)) /\ Forall good_op (pend_ops e).
Definition tidies (s : Storage) : Prop := Forall tidy (st_engines s).

Lemma tidy_direct e ops e' : tidy e -> Forall good_op ops -> direct_write e ops = Ok e' -> tidy e'.
Proof.
  intros (Hok & Hm & Hp) Ho Hw. destruct (engine_ok_direct e ops Hok) as (e1 & Hw1 & Hok1 & Hv & Hp1).
  rewrite Hw in Hw1. injection Hw1 as <-. split; [done|]. rewrite Hv, Hp1.
  split; [by apply apply_ops_good|done].
Qed.
Lemma tidy_send e op e' t : tidy e -> carries op -> good_op (op_of (op None)) -> send e op = Ok (e', t) -> tidy e'.
Proof.
  intros (Hok & Hm & Hp) Hop Hg Hs. split; [by eapply engine_ok_send|].
  apply send_spec in Hs as (-> & -> & _). split; [done|]. apply Forall_app. split; [done|].
  constructor; [|done]. by rewrite (proj2 (Hop _)).
Qed.
Lemma tidy_step sync l e e' : tidy e -> pipe_step sync l e = Some e' -> tidy e'.
Proof.
  intros (Hok & Hm & Hp) Hs. split; [by eapply engine_ok_step|].
  destruct (pipe_step_effect _ _ _ _ Hs) as [Ep _ Ed _ _|b _ Ep _ _ _ _ Ed|ds Ep _ Ed _ _ _].
  - by rewrite Ep, Ed.
  - rewrite Ep in Hp. apply Forall_app in Hp as [Hb Hp]. split; [|done].
    destruct (db_write_ok (e_db e) (fst b)) as (d' & Hw & _ & Hv); [apply Hok|]. rewrite Ed, Hw, Hv.
    by apply apply_ops_good.
  - by rewrite Ep, Ed.
Qed.

Lemma tidies_engines s s' : st_engines s' = st_engines s -> tidies s -> tidies s'.
Proof. unfold tidies. by intros ->. Qed.

Lemma on_engine_tidy {A} i (f : Engine -> Engine * res str A) :
  (forall e, tidy e -> tidy (fst (f e))) -> keeps tidies (on_engine i f).
Proof.
  intros Hf s Hs. unfold on_engine. destruct (st_engines s !! i) as [e|] eqn:He; [|done].
  specialize (Hf e (Forall_lookup_1 _ _ _ _ Hs He)). destruct (f e) as [e' r].
  assert (tidies (set_engines (<[i := e']> (st_engines s)) s)) by (by apply Forall_insert).
  by destruct r.
Qed.
Lemma engine_write_tidy i ops what : Forall good_op ops -> keeps tidies (engine_write i ops what).
Proof.
  intros Ho. apply on_engine_tidy. intros e He. destruct (direct_write e ops) as [e'|x|] eqn:Hw; cbn; [|done..].
  by eapply tidy_direct.
Qed.
Lemma engine_get_tidy i key : keeps tidies (engine_get i key).
Proof. by apply on_engine_tidy. Qed.
Lemma engine_send_tidy i op : carries op -> good_op (op_of (op None)) -> keeps tidies (engine_send i op).
Proof.
  intros Hop Hg. apply on_engine_tidy. intros e He. destruct (send e op) as [[e' t]|x|] eqn:Hs; cbn; [|done..].
  by eapply tidy_send.
Qed.
Lemma modify_tidy {E} (f : Storage -> Storage) : (forall s, st_engines (f s) = st_engines s) ->
  keeps tidies (modify (E:=E) f).
Proof. intros Hf. apply keeps_modify. intros s. by apply tidies_engines. Qed.
Lemma on_cache_tidy ks f : keeps tidies (on_cache ks f).
Proof. apply modify_tidy. intros s. by repeat case_match. Qed.
#[local] Hint Resolve engine_get_tidy on_cache_tidy : triple.
#[local] Hint Extern 2 (triple _ (modify _) _ _) =>
  apply modify_tidy; intros ?; repeat case_match; reflexivity : triple.

Lemma delete_tidy k : keeps tidies (delete k).
Proof. apply engine_write_tidy. by constructor. Qed.
Lemma get_tidy k : keeps tidies (get k). Proof. apply engine_get_tidy. Qed.
#[local] Hint Resolve delete_tidy get_tidy : triple.
Lemma delete_prefix_tidy p : keeps tidies (delete_prefix p).
Proof.
  unfold delete_prefix. destruct (prefix_upper_bound p); [|walk]. apply engine_write_tidy. by constructor.
Qed.
Lemma put_keyspace_tidy d : keeps tidies (put_keyspace d).
Proof.
  unfold put_keyspace. apply keeps_bind; [walk|]. intros j. apply keeps_bind; [|walk].
  apply engine_write_tidy. constructor; [apply ks_key_good|done].
Qed.
Lemma put_table_tidy d : keeps tidies (put_table d).
Proof.
  unfold put_table. apply keeps_bind; [walk|]. intros j. apply keeps_bind; [|walk].
  apply engine_write_tidy. constructor; [apply tb_key_good|done].
Qed.
Lemma get_keyspace_tidy n : keeps tidies (get_keyspace n). Proof. unfold get_keyspace. walk. Qed.
Lemma get_table_tidy k n : keeps tidies (get_table k n). Proof. unfold get_table, table_fill. walk. Qed.
#[local] Hint Resolve put_keyspace_tidy put_table_tidy get_keyspace_tidy get_table_tidy delete_prefix_tidy : triple.

Lemma row_op_tidy ks tb p f op : carries op -> good_op (op_of (op None)) ->
  keeps tidies (on_cache ks f;; write_data_op ks tb p op).
Proof.
  intros Hop Hg. apply keeps_bind; [walk|]. intros []. unfold write_data_op. apply keeps_bind; [walk|].
  intros i. by apply engine_send_tidy.
Qed.
Lemma put_row_tidy ks tb p v : good_key (row_key ks tb p) -> keeps tidies (put_row ks tb p v).
Proof. intros Hg. by apply row_op_tidy. Qed.
Lemma delete_row_tidy ks tb p : keeps tidies (delete_row ks tb p).
Proof. by apply row_op_tidy. Qed.
Lemma put_row_sync_tidy ks tb p v : good_key (row_key ks tb p) -> keeps tidies (put_row_sync ks tb p v).
Proof.
  intros Hg. unfold put_row_sync. apply keeps_bind; [walk|]. intros i. apply keeps_bind; [|walk].
  apply engine_write_tidy. by constructor.
Qed.
Lemma delete_row_sync_tidy ks tb p : keeps tidies (delete_row_sync ks tb p).
Proof.
  unfold delete_row_sync. apply keeps_bind; [walk|]. intros i. apply keeps_bind; [|walk].
  apply engine_write_tidy. by constructor.
Qed.
#[local] Hint Resolve delete_row_tidy delete_row_sync_tidy : triple.

Lemma delete_rows_on_tidy p l i : keeps tidies (delete_rows_on p l i).
Proof.
  intros s Hs. unfold delete_rows_on, for_each_on_engine. destruct (st_engines s !! i) as [e|]; [|done].
  assert (Hgen : forall items (acc : Storage * list WriteTicket), tidies (fst acc) ->
    tidies (fst (fst (each_item p (send_delete i) acc items)))).
  { clear. induction items as [|[[k v]|x|] items IH]; intros acc Hacc; cbn [each_item]; try done.
    destruct (negb (starts_with k p)); [done|]. unfold send_delete.
    pose proof (engine_send_tidy i (Delete k) ltac:(done) I (fst acc) Hacc) as Hsend.
    destruct (engine_send i (Delete k) (fst acc)) as [s1 [t|x|]]; [by apply IH|by apply IH|exact Hsend]. }
  specialize (Hgen (db_iter (e_db e) p) (s, l) Hs).
  by destruct (each_item p (send_delete i) (s, l) (db_iter (e_db e) p)) as [[s' l'] [[]|x|]].
Qed.
Lemma delete_data_prefix_tidy p : keeps tidies (delete_data_prefix p).
Proof.
  unfold delete_data_prefix. apply keeps_bind; [walk|]. intros n. apply keeps_bind; [|walk].
  destruct (prefix_upper_bound p) as [hi|].
  - apply keeps_map_st. intros i. by apply engine_send_tidy.
  - assert (Hgen : forall idxs (m : st Storage str (list WriteTicket)), keeps tidies m ->
      keeps tidies (foldl (fun m i => l ← m; delete_rows_on p l i) m idxs)); [|apply Hgen; walk].
    induction idxs as [|i idxs IH]; intros m Hm; cbn [foldl]; [done|]. apply IH.
    apply keeps_bind; [done|]. intros l. apply delete_rows_on_tidy.
Qed.
#[local] Hint Resolve delete_data_prefix_tidy : triple.
Lemma delete_table_tidy ks tb : keeps tidies (delete_table ks tb). Proof. unfold delete_table. walk. Qed.
Lemma delete_keyspace_tidy ks : keeps tidies (delete_keyspace ks). Proof. unfold delete_keyspace. walk. Qed.

(** Rows of the mirror. *)
Lemma put_system_schema_row_tidy tb pk cols : no_bang (bs tb) -> Forall short pk ->
  keeps tidies (put_system_schema_row tb pk cols).
Proof.
  intros Htb Hpk. unfold put_system_schema_row. do 3 (apply keeps_bind; [walk|]; intros ?).
  apply put_row_sync_tidy, row_key_good; [by_compute|done|done].
Qed.
Lemma delete_partition_tidy tb pk : keeps tidies (delete_system_schema_partition tb pk).
Proof. unfold delete_system_schema_partition. walk. Qed.
End tidy.

(** ** One row of the mirror *)

Definition mirror_defs : list TableDef := [sys_keyspaces; sys_tables; sys_columns].

Section ddl.
Context `{KVLaws} `{JsonLaws} `{UnicodeCase} `{Literals}.
Context (short_name : CassandraStatement -> str).

(** A storage that represents the catalog [c], ready for schema statements. *)
Record ready (s : Storage) (c : Cat) : Prop := {
  rd_rep : represents s c;
  rd_tidy : tidies s;
  rd_defs : Forall (fun d => cat_tb c !! (ss, td_name d) = Some d) mirror_defs;
}.

(** One row was written, the others are as they were. *)
Definition wrote (s s' : Storage) (ks tb : str) (parts : list bytes) (v : bytes) : Prop :=
  committed s' ks tb parts = Some v /\
  forall ks' tb' parts', row_key ks' tb' parts' <> row_key ks tb parts ->
    committed s' ks' tb' parts' = committed s ks' tb' parts'.

Lemma committed_engines s s' ks tb parts : st_engines s' = st_engines s ->
  committed s' ks tb parts = committed s ks tb parts.
Proof. unfold committed, row_engine, dbs_len. by intros ->. Qed.

Lemma put_row_sync_wrote s ks tb parts v : engines_ok s ->
  exists s', put_row_sync ks tb parts v s = (s', Ok ()) /\ wrote s s' ks tb parts v.
Proof.
  intros Hs. unfold put_row_sync. set (i := row_engine ks tb parts s).
  rewrite (st_bind_eq _ _ s s i) by done.
  destruct (engine_at s i) as (e & He & Hok); [done|by apply row_engine_lt|].
  destruct (engine_write_eq s i e [BPut (row_key ks tb parts) v] "rocksdb put failed: " He Hok)
    as (e' & Heq & _ & Hv & _). rewrite (st_bind_eq _ _ _ _ _ Heq). eexists. split; [reflexivity|].
  assert (Heng : st_engines (cached ks <[row_key ks tb parts := v]> (with_engine i e' s)) = <[i := e']> (st_engines s))
    by by rewrite cached_engines.
  assert (Hlen : i < length (st_engines s)) by (by eapply lookup_lt_Some).
  fold (cached ks <[row_key ks tb parts := v]> (with_engine i e' s)).
  unfold wrote, committed, row_engine, dbs_len. rewrite Heng, length_insert. split.
  - change (data_engine _ _ _ _) with i. rewrite list_lookup_insert_eq by done. cbn. rewrite Hv.
    apply lookup_insert_eq.
  - intros ks' tb' parts' Hne. set (j := data_engine _ _ _ _). destruct (decide (i = j)) as [->|Hij].
    + rewrite list_lookup_insert_eq, He by done. cbn. rewrite Hv. by apply lookup_insert_ne.
    + by rewrite list_lookup_insert_ne.
Qed.

(** The cells of a mirror row. *)
Definition mirror_row (def : TableDef) (cols : list (string * Value)) : option (list (Z * Value)) :=
  mapM (fun nv => idx ← column_index def (bs (fst nv)); Some (uwrap 16 (Z.of_nat idx), snd nv)) cols.

Lemma mirror_row_map_res def cols row : mirror_row def cols = Some row ->
  map_res (fun nv => idx ← ok_or (column_index def (bs (fst nv))) (bs "column " ++ bs (fst nv) ++ bs " missing");
                     Ok (uwrap 16 (Z.of_nat idx), snd nv)) cols = Ok row.
Proof.
  revert row. induction cols as [|nv cols IH]; intros row Hr; cbn [map_res]; [by injection Hr as <-|].
  unfold mirror_row in Hr. cbn in Hr. destruct (column_index def (bs (fst nv))) as [idx|]; [|done].
  cbn in Hr. apply bind_Some in Hr as (l & Hl & [= <-]).
  exact (f_equal (fun r => r ≫= fun bl => Ok ((uwrap 16 (Z.of_nat idx), snd nv) :: bl)) (IH l Hl)).
Qed.

Lemma schema_row_ok s c def tb pk cols row : ready s c -> def ∈ mirror_defs -> td_name def = bs tb ->
  no_bang (bs tb) -> Forall short pk -> mirror_row def cols = Some row ->
  exists s', put_system_schema_row tb pk cols s = (s', Ok ()) /\ ready s' c /\
    wrote s s' ss (bs tb) pk (encode_row_columns row).
Proof.
  intros [Hrep Htidy Hdefs] Hdef Hname Htb Hpk Hrow.
  assert (Hlook : cat_tb c !! (ss, bs tb) = Some def).
  { rewrite Forall_forall in Hdefs. rewrite <-Hname. by apply Hdefs. }
  destruct (get_table_state s c ss (bs tb) Hrep ltac:(by_compute)) as (T & Hg & Hrep1). rewrite Hlook in Hg.
  destruct (put_row_sync_represents (set_tables T s) c ss (bs tb) pk (encode_row_columns row) Hrep1) as (s' & Hp & Hrep').
  destruct (put_row_sync_wrote (set_tables T s) ss (bs tb) pk (encode_row_columns row) (rep_ok _ _ Hrep1))
    as (s'' & Hp' & Hw). rewrite Hp in Hp'. injection Hp' as <-.
  assert (Heq : put_system_schema_row tb pk cols s = (s', Ok ())).
  { unfold put_system_schema_row. rewrite (st_bind_eq _ _ _ _ _ Hg).
    rewrite (st_bind_eq _ _ _ (set_tables T s) def) by done.
    rewrite (st_bind_eq _ _ _ (set_tables T s) row); [done|]. unfold lift. by rewrite (mirror_row_map_res _ _ _ Hrow). }
  exists s'. split; [done|]. split; [|].
  - split; [done| |done]. pose proof (put_system_schema_row_tidy tb pk cols Htb Hpk s Htidy) as Ht. by rewrite Heq in Ht.
  - destruct Hw as [H1' H2']. split; [done|]. intros ks' tb' parts' Hne. rewrite H2' by done. by apply committed_engines.
Qed.

Lemma delete_rows_ok tb (entries : list (bytes * bytes)) s c : ready s c ->
  Forall (fun kv => exists parts, decode_key ss (bs tb) (fst kv) = Ok parts) entries ->
  exists s', for_each entries (fun kv => parts ← lift (decode_key ss (bs tb) (fst kv));
                                         delete_row_sync ss (bs tb) parts) s = (s', Ok ()) /\ ready s' c.
Proof.
  intros Hr Hd. revert s Hr. induction Hd as [|kv entries [parts Hp] Hd IH]; intros s Hr; cbn [for_each]; [by exists s|].
  destruct (delete_row_sync_represents s c ss (bs tb) parts (rd_rep _ _ Hr)) as (s1 & Hs1 & Hrep1).
  assert (Hr1 : ready s1 c).
  { split; [done| |apply Hr]. pose proof (delete_row_sync_tidy ss (bs tb) parts s (rd_tidy _ _ Hr)) as Ht.
    by rewrite Hs1 in Ht. }
  destruct (IH s1 Hr1) as (s' & Hs' & Hr'). exists s'. split; [|done].
  erewrite st_bind_eq; [exact Hs'|]. rewrite Hp. by erewrite st_bind_eq.
Qed.

Lemma delete_partition_ok s c tb pk : ready s c -> tb ∈ mirrored ->
  exists s', delete_system_schema_partition tb pk s = (s', Ok ()) /\ ready s' c.
Proof.
  intros Hr Htb. destruct (scan_partition_eq s ss (bs tb) pk (rep_ok _ _ (rd_rep _ _ Hr))) as (e & He & _ & Hscan).
  unfold delete_system_schema_partition. rewrite (st_bind_eq _ _ s s s) by done. unfold lift at 1. rewrite Hscan.
  rewrite (st_bind_eq _ _ s s (under (data_prefix ss (bs tb) ++ encode_key pk) e)) by done.
  apply delete_rows_ok; [done|]. apply Forall_forall. intros [k v] [Hv Hk]%elem_of_under.
  destruct (Forall_lookup_1 _ _ _ _ (rd_tidy _ _ Hr) He) as (_ & Hgood & _). specialize (Hgood k v Hv).
  unfold good_key in Hgood. rewrite Forall_forall in Hgood. apply (Hgood tb Htb).
  apply starts_with_true in Hk as [r ->]. apply starts_with_true. rewrite <-app_assoc. by apply prefix_app_r.
Qed.

(** The row of a column in system_schema.columns. *)
Definition column_cells (c : ColumnDef) (x : string * Z * string) : list (string * Value) :=
  [ ("clustering_order", VText (bs (snd x))); ("column_name_bytes", VBlob (col_name c));
    ("kind", VText (bs (fst (fst x)))); ("position", VInt (snd (fst x)));
    ("type", VText (cql_string (col_type c))) ]%string.
(** What a driver should find there: the kind of the column, its place in the key
    and its order. *)
Inductive kind_of (def : TableDef) (c : ColumnDef) : string * Z * string -> Prop :=
| kind_partition p : td_partition_keys def !! p = Some (col_name c) ->
    kind_of def c ("partition_key", Z.of_nat p, "NONE")%string
| kind_clustering p : td_clustering_keys def !! p = Some (col_name c) ->
    kind_of def c ("clustering", Z.of_nat p, "ASC")%string
| kind_regular : col_name c ∉ key_names def -> kind_of def c ("regular", (-1)%Z, "NONE")%string.
Definition column_mirrored (s : Storage) (def : TableDef) (c : ColumnDef) : Prop :=
  exists x row, kind_of def c x /\ mirror_row sys_columns (column_cells c x) = Some row /\
    committed s ss (bs "columns") [td_keyspace def; td_name def; col_name c] = Some (encode_row_columns row).
Definition table_mirrored (s : Storage) (def : TableDef) : Prop :=
  exists row, mirror_row sys_tables table_options = Some row /\
    committed s ss (bs "tables") [td_keyspace def; td_name def] = Some (encode_row_columns row).

(** The names of a table fit the keys. *)
Definition names_short (def : TableDef) : Prop :=
  short (td_keyspace def) /\ short (td_name def) /\ Forall (fun c => short (col_name c)) (td_columns def).

Lemma row_key_inj ks tb parts parts' : Forall short parts -> Forall short parts' ->
  row_key ks tb parts = row_key ks tb parts' -> parts = parts'.
Proof.
  intros Hs Hs' Hk. pose proof (decode_row_key ks tb parts Hs) as Hd. rewrite Hk, decode_row_key in Hd by done.
  by injection Hd as <-.
Qed.

Definition mirror_column (def : TableDef) (c : ColumnDef) : st Storage str () :=
  '(kind, position, clustering_order) ← lift (column_kind def c);
  put_system_schema_row "columns" [td_keyspace def; td_name def; col_name c]
    [ ("clustering_order", VText (bs clustering_order)); ("column_name_bytes", VBlob (col_name c));
      ("kind", VText (bs kind)); ("position", VInt position); ("type", VText (cql_string (col_type c))) ]%string.

Lemma mirror_column_ok def col s c : ready s c -> short (td_keyspace def) -> short (td_name def) ->
  short (col_name col) -> (exists x, column_kind def col = Ok x /\ kind_of def col x) ->
  exists s' v, mirror_column def col s = (s', Ok ()) /\ ready s' c /\ column_mirrored s' def col /\
    wrote s s' ss (bs "columns") [td_keyspace def; td_name def; col_name col] v.
Proof.
  intros Hr H1' H2' H3' ([[kind pos] order] & Hk & Hkind).
  destruct (mirror_row sys_columns (column_cells col (kind, pos, order))) as [row|] eqn:Hrow; [|by vm_compute in Hrow].
  destruct (schema_row_ok s c sys_columns "columns" [td_keyspace def; td_name def; col_name col]
    (column_cells col (kind, pos, order)) row) as (s' & Hs' & Hr' & Hw); try done.
  - do 2 right. by constructor.
  - by_compute.
  - by repeat constructor.
  - exists s', (encode_row_columns row). split; [|split; [done|split; [|done]]].
    + unfold mirror_column. rewrite (st_bind_eq _ _ s s (kind, pos, order)); [exact Hs'|].
      unfold lift. by rewrite Hk.
    + exists (kind, pos, order), row. split; [done|]. split; [done|]. apply Hw.
Qed.

Lemma mirror_columns_ok def cols s c : ready s c -> short (td_keyspace def) -> short (td_name def) ->
  Forall (fun col => short (col_name col) /\ exists x, column_kind def col = Ok x /\ kind_of def col x) cols ->
  NoDup (col_name <$> cols) ->
  exists s', for_each cols (mirror_column def) s = (s', Ok ()) /\ ready s' c /\
    Forall (column_mirrored s' def) cols /\
    forall ks tb parts,
      (forall col, col ∈ cols -> row_key ks tb parts <> row_key ss (bs "columns") [td_keyspace def; td_name def; col_name col]) ->
      committed s' ks tb parts = committed s ks tb parts.
Proof.
  intros Hr H1' H2' Hcols. revert s Hr. induction Hcols as [|col cols [Hs Hk] Hcols IH]; intros s Hr Hnd; cbn [for_each].
  { exists s. by split_and!. }
  apply NoDup_cons in Hnd as [Hnin Hnd].
  destruct (mirror_column_ok def col s c Hr H1' H2' Hs Hk) as (s1 & v & Heq & Hr1 & (x & row & Hx & Hrow & Hc) & Hw).
  destruct (IH s1 Hr1 Hnd) as (s' & Heq' & Hr' & Hm & Hrest). exists s'.
  split; [by rewrite (st_bind_eq _ _ _ _ _ Heq)|]. split; [done|]. split.
  - constructor; [|done]. exists x, row. split; [done|]. split; [done|]. rewrite Hrest; [done|].
    intros col' Hcol' He. apply row_key_inj in He; [|by repeat constructor|].
    + injection He as He. destruct Hnin. rewrite He. by apply list_elem_of_fmap_2.
    + rewrite Forall_forall in Hcols. repeat constructor; [done|done|]. by apply Hcols.
  - intros ks tb parts Hne. rewrite Hrest by (intros col' Hcol'; apply Hne; by right).
    apply Hw, Hne. by constructor.
Qed.

Lemma mirror_ok def s c : ready s c -> names_short def -> NoDup (col_name <$> td_columns def) ->
  Forall (fun col => exists x, column_kind def col = Ok x /\ kind_of def col x) (td_columns def) ->
  exists s', mirror_table_metadata def s = (s', Ok ()) /\ ready s' c /\ table_mirrored s' def /\
    Forall (column_mirrored s' def) (td_columns def).
Proof.
  intros Hr (H1' & H2' & H3') Hnd Hk.
  destruct (mirror_row sys_tables table_options) as [row|] eqn:Hrow; [|by vm_compute in Hrow].
  destruct (schema_row_ok s c sys_tables "tables" [td_keyspace def; td_name def] table_options row)
    as (s1 & Hs1 & Hr1 & Hw); [done|right; by constructor|done|by_compute|by repeat constructor|done|].
  destruct (mirror_columns_ok def (td_columns def) s1 c Hr1 H1' H2' (Forall_conj _ _ _ H3' Hk) Hnd)
    as (s' & Hs' & Hr' & Hm & Hrest). exists s'. split; [|split; [done|split; [|done]]].
  - unfold mirror_table_metadata. rewrite (st_bind_eq _ _ _ _ _ Hs1). exact Hs'.
  - exists row. split; [done|]. rewrite Hrest; [apply Hw|]. intros col _ He.
    assert (Hp : data_prefix ss (bs "columns") `prefix_of` row_key ss (bs "tables") [td_keyspace def; td_name def])
      by (rewrite He; by apply prefix_app_r).
    apply data_prefix_iff in Hp as [_ Hp]; [by vm_compute in Hp|by_compute..].
Qed.

(** A well-formed definition has the right kind for every column. *)
Lemma key_position def p q n : table_wf def -> key_names def !! p = Some n -> q <= p ->
  swrap 32 (Z.of_nat q) = Z.of_nat q.
Proof.
  intros (_ & Hnd & _ & Hcols & _ & Hlen) Hp Hq. apply lookup_lt_Some in Hp.
  assert (Hle : length (key_names def) <= length (col_name <$> td_columns def)).
  { apply submseteq_length, NoDup_submseteq; [done|]. by apply Forall_forall. }
  rewrite length_fmap in Hle. apply swrap_id; [done|]. apply in_i_spec. cbn. lia.
Qed.

Lemma column_kinds def : table_wf def ->
  Forall (fun col => exists x, column_kind def col = Ok x /\ kind_of def col x) (td_columns def).
Proof.
  intros Hwf. pose proof Hwf as (_ & _ & _ & _ & Hf & _). eapply Forall_impl; [exact Hf|]. intros c [Hp Hc].
  assert (Hpos : forall l, col_name c ∈ l ->
    exists p, position (fun p => bool_decide (p = col_name c)) l = Some p /\ l !! p = Some (col_name c)).
  { intros l Hin. destruct (position _ l) as [p|] eqn:E.
    - apply position_Some in E as (n & Hn & Heq%bool_decide_eq_true & _). exists p. by rewrite Hn, Heq.
    - apply position_None in E. rewrite Forall_forall in E. by apply E, bool_decide_eq_false in Hin. }
  unfold column_kind. destruct (is_partition_key c).
  - destruct (Hpos _ (proj1 Hp eq_refl)) as (p & -> & Hl). res_simpl. eexists. split; [done|].
    rewrite (key_position def p p (col_name c) Hwf) by (by apply lookup_app_l_Some || done). by constructor.
  - destruct (is_clustering c).
    + destruct (Hpos _ (proj1 Hc eq_refl)) as (p & -> & Hl). res_simpl. eexists. split; [done|].
      assert (Hk : key_names def !! (length (td_partition_keys def) + p) = Some (col_name c))
        by (unfold key_names; by rewrite lookup_app_r, Nat.add_comm, Nat.add_sub by lia).
      rewrite (key_position def _ p _ Hwf Hk) by lia. by constructor.
    + eexists. split; [done|]. constructor. intros [?%Hp|?%Hc]%elem_of_app; done.
Qed.

(** ** The abstract statements *)

Definition missing_keyspace (ks : str) : QueryError := invalid_err (bs "Keyspace '" ++ ks ++ bs "' does not exist").
Definition cannot_create (ks : str) : QueryError := invalid_err (bs "Cannot create keyspace '" ++ ks ++ bs "'").
Definition no_such_keyspace (ks : str) : QueryError :=
  invalid_err (bs "Cannot drop non existing keyspace '" ++ ks ++ bs "'").
Definition no_such_table (ks tb : str) : QueryError :=
  invalid_err (bs "Cannot drop non existing table '" ++ ks ++ bs "." ++ tb ++ bs "'").
Definition no_primary_key : QueryError := invalid_err (bs "Primary key is required").

(** What a schema statement answers and does to the catalog. *)
Definition ddl_spec (sess : option str) (stmt : CassandraStatement) (c : Cat) : Cat * res QueryError Response :=
  match stmt with
  | StUse id =>
    let ks := norm_id id in
    (c, match cat_ks c !! ks with Some _ => Ok (SetKeyspace ks) | None => Err (missing_keyspace ks) end)
  | StCreateKeyspace k =>
    let name := norm_id (ck_name k) in
    match cat_ks c !! name with
    | Some _ => (c, if ck_if_not_exists k then Ok Void else Err (already_exists_err name []))
    | None =>
      if bool_decide (name ∈ SYSTEM_KEYSPACES) then (c, Err (cannot_create name))
      else (add_ks c {| ks_name := name; ks_replication := ck_replication k |},
            Ok (SchemaChanged CREATED KEYSPACE name []))
    end
  | StCreateTable t =>
    match name_keyspace sess (ct_name t) with
    | Ok ks =>
      let tb := norm_id (fq_name (ct_name t)) in
      match cat_tb c !! (ks, tb), check_writable ks, build_table_def ks tb t with
      | Some _, _, _ => (c, if ct_if_not_exists t then Ok Void else Err (already_exists_err ks tb))
      | None, Err e, _ => (c, Err e)
      | None, Panic, _ => (c, Panic)
      | None, Ok _, None => (c, Err unsupported_type)
      | None, Ok _, Some def =>
        if bool_decide (td_partition_keys def = []) then (c, Err no_primary_key)
        else (add_tb c def, Ok (SchemaChanged CREATED TABLE ks tb))
      end
    | Err e => (c, Err e)
    | Panic => (c, Panic)
    end
  | StDropKeyspace d =>
    let name := norm_id (fq_name (cdr_name d)) in
    match cat_ks c !! name, check_writable name with
    | None, _ => (c, if cdr_if_exists d then Ok Void else Err (no_such_keyspace name))
    | Some _, Ok _ => (fst (spec_op (DropKs name) c), Ok (SchemaChanged DROPPED KEYSPACE name []))
    | Some _, Err e => (c, Err e)
    | Some _, Panic => (c, Panic)
    end
  | StDropTable d =>
    match name_keyspace sess (cdr_name d) with
    | Ok ks =>
      let tb := norm_id (fq_name (cdr_name d)) in
      match cat_tb c !! (ks, tb), check_writable ks with
      | None, _ => (c, if cdr_if_exists d then Ok Void else Err (no_such_table ks tb))
      | Some _, Ok _ => (fst (spec_op (DropTb ks tb) c), Ok (SchemaChanged DROPPED TABLE ks tb))
      | Some _, Err e => (c, Err e)
      | Some _, Panic => (c, Panic)
      end
    | Err e => (c, Err e)
    | Panic => (c, Panic)
    end
  | _ => (c, Panic)
  end.

(** Names without the separator that fit the keys; for CREATE TABLE, columns and
    keys as CQL allows them. *)
Definition ddl_ok (sess : option str) (stmt : CassandraStatement) : Prop :=
  match stmt with
  | StUse id => no_bang (norm_id id)
  | StCreateKeyspace k => no_bang (norm_id (ck_name k)) /\ short (norm_id (ck_name k))
  | StCreateTable t =>
    forall ks, name_keyspace sess (ct_name t) = Ok ks -> no_bang ks /\
      forall def, build_table_def ks (norm_id (fq_name (ct_name t))) t = Some def ->
        td_partition_keys def <> [] -> sane_create t /\ names_short def
  | StDropKeyspace d => no_bang (norm_id (fq_name (cdr_name d)))
  | StDropTable d => forall ks, name_keyspace sess (cdr_name d) = Ok ks -> no_bang ks
  | _ => False
  end.

(** ** Each statement *)

Lemma ready_state s s' c : ready s c -> represents s' c -> tidies s' -> ready s' c.
Proof. intros Hr Hrep Ht. split; [done|done|apply Hr]. Qed.
Lemma get_keyspace_ready s c ks : ready s c -> no_bang ks ->
  exists s', internal (get_keyspace ks) s = (s', Ok (cat_ks c !! ks)) /\ ready s' c.
Proof.
  intros Hr Hn. destruct (get_keyspace_refines s c ks (rd_rep _ _ Hr) Hn) as (s' & Hg & Hrep).
  pose proof (get_keyspace_tidy ks s (rd_tidy _ _ Hr)) as Ht. rewrite Hg in Ht. exists s'.
  split; [unfold internal, st_map_err; by rewrite Hg|]. by eapply ready_state.
Qed.
Lemma get_table_ready s c ks tb : ready s c -> no_bang ks ->
  exists s', internal (get_table ks tb) s = (s', Ok (cat_tb c !! (ks, tb))) /\ ready s' c.
Proof.
  intros Hr Hn. destruct (get_table_refines s c ks tb (rd_rep _ _ Hr) Hn) as (s' & Hg & Hrep).
  pose proof (get_table_tidy ks tb s (rd_tidy _ _ Hr)) as Ht. rewrite Hg in Ht. exists s'.
  split; [unfold internal, st_map_err; by rewrite Hg|]. by eapply ready_state.
Qed.
Lemma internal_eq {A} (m : st Storage str A) s s' a : m s = (s', Ok a) -> internal m s = (s', Ok a).
Proof. intros Hm. unfold internal, st_map_err. by rewrite Hm. Qed.

Lemma writable_cases ks : (ks ∈ SYSTEM_KEYSPACES /\ (exists e, check_writable ks = Err e)) \/
  ((ks ∉ SYSTEM_KEYSPACES) /\ check_writable ks = Ok ()).
Proof.
  unfold check_writable. case_bool_decide as Hs; [left|right]; [|done]. split; [done|]. by eexists.
Qed.
Lemma not_ss ks : ks ∉ SYSTEM_KEYSPACES -> ks <> ss.
Proof. intros Hn ->. destruct Hn. right. by constructor. Qed.

Lemma use_refines sess c s id : ready s c -> no_bang (norm_id id) ->
  exists s', exec_use id s = (s', snd (ddl_spec sess (StUse id) c)) /\ ready s' c.
Proof.
  intros Hr Hn. destruct (get_keyspace_ready s c (norm_id id) Hr Hn) as (s' & Hg & Hr'). exists s'.
  split; [|done]. unfold exec_use. rewrite (st_bind_eq _ _ _ _ _ Hg). cbn. by destruct (cat_ks c !! norm_id id).
Qed.

Lemma create_keyspace_refines sess c s k : ready s c -> ddl_ok sess (StCreateKeyspace k) ->
  exists s', exec_create_keyspace k s = (s', snd (ddl_spec sess (StCreateKeyspace k) c)) /\
    ready s' (fst (ddl_spec sess (StCreateKeyspace k) c)).
Proof.
  intros Hr [Hn Hs]. cbn [ddl_spec]. set (name := norm_id (ck_name k)) in *.
  destruct (get_keyspace_ready s c name Hr Hn) as (s1 & Hg & Hr1).
  unfold exec_create_keyspace. fold name. rewrite (st_bind_eq _ _ _ _ _ Hg).
  destruct (cat_ks c !! name) as [d|]; [exists s1; by destruct (ck_if_not_exists k)|].
  case_bool_decide as Hsys; [by exists s1|]. set (def := {| ks_name := name; ks_replication := ck_replication k |}).
  destruct (put_keyspace_refines s1 c def (rd_rep _ _ Hr1) Hn) as (s2 & Hp & Hrep2).
  assert (Hr2 : ready s2 (add_ks c def)).
  { split; [done| |apply Hr1]. pose proof (put_keyspace_tidy def s1 (rd_tidy _ _ Hr1)) as Ht. by rewrite Hp in Ht. }
  rewrite (st_bind_eq _ _ _ _ _ (internal_eq _ _ _ _ Hp)).
  set (repl := VMap _). set (cells := [("durable_writes", VBoolean true); ("replication", repl)]%string).
  destruct (mirror_row sys_keyspaces cells) as [row|] eqn:Hrow; [|by vm_compute in Hrow].
  destruct (schema_row_ok s2 (add_ks c def) sys_keyspaces "keyspaces" [name] cells row)
    as (s3 & Hs3 & Hr3 & _); [done|by constructor|done|by_compute|by repeat constructor|done|].
  exists s3. split; [|done]. by rewrite (st_bind_eq _ _ _ _ _ (internal_eq _ _ _ _ Hs3)).
Qed.

Lemma add_tb_ready s s' c def : ready s c -> td_keyspace def ∉ SYSTEM_KEYSPACES ->
  represents s' (add_tb c def) -> tidies s' -> ready s' (add_tb c def).
Proof.
  intros Hr Hn Hrep Ht. split; [done|done|]. eapply Forall_impl; [apply Hr|]. intros d Hd. cbn in *.
  rewrite lookup_insert_ne; [done|]. intros [= Hk _]. by apply not_ss in Hn.
Qed.

Lemma create_table_refines sess c s t : ready s c -> ddl_ok sess (StCreateTable t) ->
  exists s', exec_create_table sess t s = (s', snd (ddl_spec sess (StCreateTable t) c)) /\
    ready s' (fst (ddl_spec sess (StCreateTable t) c)) /\
    forall ks tb, snd (ddl_spec sess (StCreateTable t) c) = Ok (SchemaChanged CREATED TABLE ks tb) ->
      exists def, cat_tb (fst (ddl_spec sess (StCreateTable t) c)) !! (ks, tb) = Some def /\
        table_mirrored s' def /\ Forall (column_mirrored s' def) (td_columns def).
Proof.
  intros Hr Hok. cbn [ddl_spec ddl_ok] in *. unfold exec_create_table.
  destruct (name_keyspace sess (ct_name t)) as [ks|e|]; [|by exists s..]. destruct (Hok ks eq_refl) as [Hn Hdef].
  rewrite (st_bind_eq _ _ _ s ks) by done. set (tb := norm_id (fq_name (ct_name t))) in *.
  destruct (get_table_ready s c ks tb Hr Hn) as (s1 & Hg & Hr1). rewrite (st_bind_eq _ _ _ _ _ Hg).
  destruct (cat_tb c !! (ks, tb)) as [d|]; [exists s1; by destruct (ct_if_not_exists t)|].
  destruct (writable_cases ks) as [[_ [e ->]]|[Hsys ->]]; [by exists s1|]. rewrite (st_bind_eq _ _ _ s1 ()) by done.
  destruct (build_table_def ks tb t) as [def|] eqn:Hb; [|by exists s1]. rewrite (st_bind_eq _ _ _ s1 def) by done.
  case_bool_decide as Hpk; [by exists s1|]. destruct (Hdef def eq_refl Hpk) as [Hsane Hshort].
  pose proof (sane_create_wf _ _ _ _ Hsane Hb) as Hwf.
  assert (Hids : td_keyspace def = ks /\ td_name def = tb).
  { unfold build_table_def in Hb. by apply bind_Some in Hb as (cols & _ & [= <-]). }
  destruct Hids as [Hk Ht]. assert (Hn' : no_bang (td_keyspace def)) by by rewrite Hk.
  destruct (put_table_refines s1 c def (rd_rep _ _ Hr1) Hn') as (s2 & Hp & Hrep2).
  assert (Hr2 : ready s2 (add_tb c def)).
  { eapply add_tb_ready; [exact Hr1|by rewrite Hk|done|].
    pose proof (put_table_tidy def s1 (rd_tidy _ _ Hr1)) as Htd. by rewrite Hp in Htd. }
  rewrite (st_bind_eq _ _ _ _ _ (internal_eq _ _ _ _ Hp)).
  destruct (mirror_ok def s2 (add_tb c def) Hr2 Hshort (proj1 Hwf) (column_kinds def Hwf))
    as (s3 & Hm & Hr3 & Ht3 & Hc3).
  exists s3. rewrite (st_bind_eq _ _ _ _ _ (internal_eq _ _ _ _ Hm)). split; [done|]. split; [done|].
  intros ks' tb' [= <- <-]. exists def. split; [|done]. cbn. rewrite Hk, Ht. apply lookup_insert_eq.
Qed.

Lemma drop_ready s s' c c' : ready s c -> represents s' c' -> tidies s' ->
  (forall tb, cat_tb c' !! (ss, tb) = cat_tb c !! (ss, tb)) -> ready s' c'.
Proof.
  intros Hr Hrep Ht Hc. split; [done|done|]. eapply Forall_impl; [apply Hr|]. intros d Hd. cbn in *. by rewrite Hc.
Qed.

Lemma drop_partitions_ok c tbs name q : ready (q_storage q) c -> Forall (fun tb => tb ∈ mirrored) tbs ->
  exists q', for_each tbs (fun table => on_storage (internal (delete_system_schema_partition table [name]))) q
    = (q', Ok ()) /\ ready (q_storage q') c.
Proof.
  intros Hr Htbs. revert q Hr. induction Htbs as [|tb tbs Htb Htbs IH]; intros q Hr; cbn [for_each]; [by exists q|].
  destruct (delete_partition_ok (q_storage q) c tb [name] Hr Htb) as (s1 & Hs1 & Hr1).
  rewrite (st_bind_eq _ _ _ _ _ (on_storage_eq _ _ _ _ (internal_eq _ _ _ _ Hs1))). by apply IH.
Qed.

Lemma drop_keyspace_refines sess c q d : ready (q_storage q) c -> ddl_ok sess (StDropKeyspace d) ->
  exists q', exec_drop_keyspace d q = (q', snd (ddl_spec sess (StDropKeyspace d) c)) /\
    ready (q_storage q') (fst (ddl_spec sess (StDropKeyspace d) c)).
Proof.
  intros Hr Hn. cbn [ddl_spec ddl_ok] in *. set (name := norm_id (fq_name (cdr_name d))) in *.
  destruct (get_keyspace_ready (q_storage q) c name Hr Hn) as (s1 & Hg & Hr1).
  unfold exec_drop_keyspace. fold name. rewrite (st_bind_eq _ _ _ _ _ (on_storage_eq _ _ _ _ Hg)).
  destruct (cat_ks c !! name) as [k|]; [|eexists; by destruct (cdr_if_exists d)].
  destruct (writable_cases name) as [[_ [e ->]]|[Hsys ->]]; [by eexists|].
  set (q1 := {| q_storage := s1 |}). rewrite (st_bind_eq _ _ _ q1 ()) by done.
  destruct (delete_keyspace_refines s1 c name (rd_rep _ _ Hr1) Hn) as (s2 & ts & Hd & Hrep2).
  pose proof (delete_keyspace_tidy name s1 (rd_tidy _ _ Hr1)) as Ht. rewrite Hd in Ht.
  assert (Hr2 : ready s2 (fst (spec_op (DropKs name) c))).
  { eapply drop_ready; [exact Hr1|done|done|]. intros tb. cbn. rewrite drop_filter_lookup.
    rewrite decide_False; [done|]. intros Hs. by apply (not_ss name). }
  rewrite (st_bind_eq _ _ _ _ _ (on_storage_eq _ q1 _ _ (internal_eq _ _ _ _ Hd))).
  cbn [gates_extend modify]. erewrite st_bind_eq; [|reflexivity].
  destruct (drop_partitions_ok (fst (spec_op (DropKs name) c)) mirrored name
    {| q_storage := s2; q_values := q_values q1; q_next := q_next q1; q_gates := q_gates q1 ++ ts |} Hr2)
    as (q' & Hq' & Hr'); [by_compute|]. exists q'. split; [|done]. by erewrite st_bind_eq.
Qed.

Lemma drop_table_refines sess c q d : ready (q_storage q) c -> ddl_ok sess (StDropTable d) ->
  exists q', exec_drop_table sess d q = (q', snd (ddl_spec sess (StDropTable d) c)) /\
    ready (q_storage q') (fst (ddl_spec sess (StDropTable d) c)).
Proof.
  intros Hr Hok. cbn [ddl_spec ddl_ok] in *. unfold exec_drop_table.
  destruct (name_keyspace sess (cdr_name d)) as [ks|e|]; [|by exists q..]. specialize (Hok ks eq_refl).
  rewrite (st_bind_eq _ _ _ q ks) by done. set (tb := norm_id (fq_name (cdr_name d))).
  destruct (get_table_ready (q_storage q) c ks tb Hr Hok) as (s1 & Hg & Hr1).
  rewrite (st_bind_eq _ _ _ _ _ (on_storage_eq _ _ _ _ Hg)).
  destruct (cat_tb c !! (ks, tb)) as [k|]; [|eexists; by destruct (cdr_if_exists d)].
  destruct (writable_cases ks) as [[_ [e ->]]|[Hsys ->]]; [by eexists|].
  set (q1 := {| q_storage := s1 |}). rewrite (st_bind_eq _ _ _ q1 ()) by done.
  destruct (delete_table_refines s1 c ks tb (rd_rep _ _ Hr1) Hok) as (s2 & ts & Hd & Hrep2).
  pose proof (delete_table_tidy ks tb s1 (rd_tidy _ _ Hr1)) as Ht. rewrite Hd in Ht.
  assert (Hr2 : ready s2 (fst (spec_op (DropTb ks tb) c))).
  { eapply drop_ready; [exact Hr1|done|done|]. intros tb'. cbn. rewrite lookup_delete_ne; [done|].
    intros [= Hs _]. by apply (not_ss ks). }
  rewrite (st_bind_eq _ _ _ _ _ (on_storage_eq _ q1 _ _ (internal_eq _ _ _ _ Hd))).
  cbn [gates_extend modify]. erewrite st_bind_eq; [|reflexivity].
  destruct (delete_row_represents s2 (fst (spec_op (DropTb ks tb) c)) ss (bs "tables") [ks; tb] (rd_rep _ _ Hr2))
    as (s3 & t & Hs3 & Hrep3).
  pose proof (delete_row_tidy ss (bs "tables") [ks; tb] s2 (rd_tidy _ _ Hr2)) as Ht3. rewrite Hs3 in Ht3.
  destruct (delete_partition_ok s3 (fst (spec_op (DropTb ks tb) c)) "columns" [ks; tb]) as (s4 & Hs4 & Hr4);
    [by eapply ready_state|by_compute|].
  assert (Hun : unmirror_table_metadata ks tb s2 = (s4, Ok ())).
  { unfold unmirror_table_metadata. by rewrite (st_bind_eq _ _ _ _ _ Hs3). }
  erewrite st_bind_eq; [|apply on_storage_eq, internal_eq; exact Hun]. by eexists.
Qed.

Lemma thread_ready s s' c : ready s c -> thread s s' -> ready s' c.
Proof.
  intros Hr Hth. eapply ready_state; [exact Hr|by eapply thread_represents; [apply Hr|]|].
  destruct Hth as (i & l & (e & e' & He & Hp & ->)%thread_step_inv). apply Forall_insert; [apply Hr|].
  eapply tidy_step; [|exact Hp]. eapply Forall_lookup_1; [apply Hr|exact He].
Qed.

(** C10: schema statements refine the abstract catalog.  On a storage that
    represents a catalog, USE, CREATE and DROP of keyspaces and tables answer
    exactly as [ddl_spec] says on every branch - existing and missing names,
    IF [NOT] EXISTS, protected keyspaces, unsupported types, missing keys - and
    leave a storage that represents the new catalog and is ready for the next
    statement, whatever the pipeline threads do in between. *)
Theorem ddl_refines sess stmt page paging c q : ready (q_storage q) c -> ddl_ok sess stmt ->
  (exists q', execute_statement short_name sess stmt page paging q = (q', snd (ddl_spec sess stmt c)) /\
     ready (q_storage q') (fst (ddl_spec sess stmt c))) /\
  (forall s', rtc thread (q_storage q) s' -> ready s' c).
Proof.
  intros Hr Hok. split.
  - assert (Hlift : forall m : st Storage QueryError Response,
      (exists s', m (q_storage q) = (s', snd (ddl_spec sess stmt c)) /\ ready s' (fst (ddl_spec sess stmt c))) ->
      exists q', on_storage m q = (q', snd (ddl_spec sess stmt c)) /\ ready (q_storage q') (fst (ddl_spec sess stmt c))).
    { intros m (s' & Hm & Hr'). eexists. split; [by apply on_storage_eq|done]. }
    destruct stmt as [id|k|t|d|d| | | | | |]; try done; cbn [execute_statement].
    + apply Hlift. by apply use_refines.
    + apply Hlift. by apply create_keyspace_refines.
    + apply Hlift. destruct (create_table_refines sess c (q_storage q) t Hr Hok) as (s' & H1' & H2' & _). by exists s'.
    + by apply drop_keyspace_refines.
    + by apply drop_table_refines.
  - intros s' Hs'. revert Hr. induction Hs' as [s|s s1 s' Hth Hrest IH]; intros Hr; [done|].
    apply IH. by eapply thread_ready.
Qed.

(** C21: a table that was created is described in system_schema.  When CREATE TABLE
    reports success, the committed rows of system_schema.tables and
    system_schema.columns hold, under the names of the table and of every column,
    the options, kinds, positions, clustering orders and types of the definition
    the catalog has - at once, with no ticket to wait for, so a driver that reads
    them back after the response sees the table. *)
Theorem created_table_described sess t c s : ready s c -> ddl_ok sess (StCreateTable t) ->
  exists s', exec_create_table sess t s = (s', snd (ddl_spec sess (StCreateTable t) c)) /\
    forall ks tb, snd (ddl_spec sess (StCreateTable t) c) = Ok (SchemaChanged CREATED TABLE ks tb) ->
      exists def, cat_tb (fst (ddl_spec sess (StCreateTable t) c)) !! (ks, tb) = Some def /\
        table_mirrored s' def /\ Forall (column_mirrored s' def) (td_columns def).
Proof.
  intros Hr Hok. destruct (create_table_refines sess c s t Hr Hok) as (s' & Heq & _ & Hm). by exists s'.
Qed.

(** CREATE TABLE does not ask for its keyspace: in a keyspace that does not exist
    it succeeds, and leaves a table that DROP KEYSPACE refuses to remove. *)
Theorem table_without_keyspace sess t c s ks def :
  ready s c -> ddl_ok sess (StCreateTable t) -> name_keyspace sess (ct_name t) = Ok ks ->
  cat_ks c !! ks = None -> cat_tb c !! (ks, norm_id (fq_name (ct_name t))) = None ->
  ks ∉ SYSTEM_KEYSPACES -> build_table_def ks (norm_id (fq_name (ct_name t))) t = Some def ->
  td_partition_keys def <> [] ->
  exists s', exec_create_table sess t s = (s', Ok (SchemaChanged CREATED TABLE ks (norm_id (fq_name (ct_name t))))) /\
    ready s' (add_tb c def) /\
    forall d, norm_id (fq_name (cdr_name d)) = ks -> cdr_if_exists d = false ->
      ddl_spec sess (StDropKeyspace d) (add_tb c def) = (add_tb c def, Err (no_such_keyspace ks)).
Proof.
  intros Hr Hok Hks Hno Htb Hsys Hb Hpk. destruct (create_table_refines sess c s t Hr Hok) as (s' & Heq & Hr' & _).
  cbn [ddl_spec] in *. rewrite Hks in Heq, Hr'. rewrite Htb, Hb in Heq, Hr'.
  destruct (writable_cases ks) as [[? _]|[_ Hw]]; [done|]. rewrite Hw in Heq, Hr'.
  rewrite bool_decide_eq_false_2 in Heq, Hr' by done. exists s'. split; [done|]. split; [done|].
  intros d -> Hd. cbn. by rewrite Hno, Hd.
Qed.

(** A node that has just started is ready. *)
#[local] Hint Resolve get_keyspace_tidy put_keyspace_tidy put_table_tidy : triple.
Lemma open_ready dbs sync var host sv : dbs <> [] -> Forall (fun d => db_ok d /\ db_view d = ∅) dbs ->
  exists s, open dbs sync var host sv = (s, Ok ()) /\ ready s seeded_cat.
Proof.
  intros Hne Hd. destruct (seed_refines _ _ host sv (open_represents dbs sync var Hne Hd)) as (s & Hs & Hrep).
  exists s. split; [done|]. split; [done| |by repeat constructor].
  assert (Hlocal : forall v, keeps tidies (put_row_sync (bs "system") (bs "local") [bs "local"] v))
    by (intros v; apply put_row_sync_tidy, row_key_good; [by_compute..|by_compute]).
  assert (Hk : keeps tidies (seed_system host sv)) by (unfold seed_system, seed_schema, seed_virtual; walk).
  assert (Ho : tidies (open_storage dbs sync var)).
  { apply Forall_fmap. eapply Forall_impl; [exact Hd|]. intros d [Hdb Hv]. split; [by apply engine_ok_spawn|].
    split; [|by constructor]. intros k v. cbn. by rewrite Hv, lookup_empty. }
  specialize (Hk _ Ho). by rewrite Hs in Hk.
Qed.
End ddl.

Definition demo_session : option str := Some (bs "ks").
Definition demo_stmt : CassandraStatement := StCreateTable demo_create.
Definition demo_qs (s : Storage (H := mem_kv)) : QS := {| q_storage := s; q_values := []; q_next := 0; q_gates := [] |}.

Lemma demo_stmt_ok : ddl_ok (H3 := ascii_case) demo_session demo_stmt.
Proof.
  intros ks [= <-]. split; [by_compute|]. intros def Hd _. split.
  - unfold sane_create. cbn. repeat split; by_compute.
  - vm_compute in Hd. injection Hd as <-. split_and!; by_compute.
Qed.

Lemma ddl_refines_witness : exists s q, open (H := mem_kv) (H0 := bits_json) [∅; ∅] true None [] [] = (s, Ok ()) /\
  execute_statement (H0 := bits_json) (H1 := ascii_case) (H2 := no_literals) (fun _ => []) demo_session demo_stmt None None (demo_qs s)
  = (q, Ok (SchemaChanged CREATED TABLE (bs "ks") (bs "t"))).
Proof.
  destruct (open_ready (H0 := mem_kv_laws) (H2 := bits_json_laws) [∅; ∅] true None [] []) as (s & Ho & Hr);
    [done|by repeat constructor|].
  destruct (ddl_refines (H2 := bits_json_laws) (H3 := ascii_case) (H4 := no_literals) (fun _ => []) demo_session demo_stmt None None seeded_cat (demo_qs s)
    Hr demo_stmt_ok) as [(q & Hq & _) _].
  exists s, q. split; [exact Ho|]. exact Hq.
Defined.

Lemma created_table_described_witness : exists s s',
  exec_create_table (H0 := bits_json) (H1 := ascii_case) demo_session demo_create s
    = (s', Ok (SchemaChanged CREATED TABLE (bs "ks") (bs "t"))) /\
  table_mirrored (H0 := mem_kv_laws) s' demo_table.
Proof.
  destruct (open_ready (H0 := mem_kv_laws) (H2 := bits_json_laws) [∅; ∅] true None [] []) as (s & Ho & Hr);
    [done|by repeat constructor|].
  destruct (created_table_described (H2 := bits_json_laws) (H3 := ascii_case) demo_session demo_create seeded_cat s Hr demo_stmt_ok)
    as (s' & Hs' & Hm).
  exists s, s'. split; [exact Hs'|]. destruct (Hm (bs "ks") (bs "t") eq_refl) as (def & Hdef & Ht & _).
  assert (Hd : def = demo_table) by (vm_compute in Hdef; injection Hdef as <-; reflexivity).
  rewrite <-Hd. exact Ht.
Defined.
