(* ===== verification/Mutate.v ===== *)
(** * UPDATE and DELETE, end to end

    The counterpart of [Dml] for the statements that change rows: a prepared
    UPDATE of some columns and a prepared DELETE, acknowledged, are what a point
    SELECT then shows - through bind decoding, the read-modify-write or upsert
    path, the codecs, the pipeline and the row cache. *)

From S2P Require Import Prelude RustStr Ast Schema CqlValue Keys Project Kv Pipeline Storage Rows Scans.
From S2P Require Import Catalog Acked Query Dml Statements.

(** ** Overwritten rows *)

Lemma put_all_out row (nv : list (nat * Value)) i : i ∉ fst <$> nv -> put_all row nv !! i = row !! i.
Proof.
  revert row. induction nv as [|[j v] nv IH]; intros row Hi; [done|]. cbn in Hi. apply not_elem_of_cons in Hi as [Hne Hi].
  change (put_all row ((j, v) :: nv)) with (put_all (<[j := v]> row) nv). rewrite IH by done.
  by apply list_lookup_insert_ne.
Qed.

(** The cells of [nv] are new values of distinct regular columns. *)
Definition assigns (table : TableDef) (nv : list (nat * Value)) : Prop :=
  NoDup (fst <$> nv) /\
  Forall (fun iv => exists cd, td_columns table !! fst iv = Some cd /\ is_regular cd = true /\
                    cell_ok (col_type cd) (snd iv) = true /\ fits (snd iv) = true) nv.

Lemma assigns_at table nv i v : assigns table nv -> (i, v) ∈ nv ->
  exists cd, td_columns table !! i = Some cd /\ is_regular cd = true /\ cell_ok (col_type cd) v = true /\ fits v = true.
Proof. intros [_ Hf] Hin. rewrite Forall_forall in Hf. exact (Hf _ Hin). Qed.

Section overwritten.
Context (table : TableDef) (vals : list Value) (nv : list (nat * Value)).
Hypothesis table_ok : table_wf table.
Hypothesis vals_ok : Forall2 (fun c v => cell_ok (col_type c) v = true /\ fits v = true) (td_columns table) vals.
Hypothesis nv_ok : assigns table nv.

Lemma put_all_cases i :
  (exists v, (i, v) ∈ nv /\ put_all vals nv !! i = Some v) \/ ((i ∉ fst <$> nv) /\ put_all vals nv !! i = vals !! i).
Proof.
  destruct (decide (i ∈ fst <$> nv)) as [Hin|Hin]; [left|right; split; [done|by apply put_all_out]].
  apply list_elem_of_fmap in Hin as ([j v] & -> & Hin). exists v. split; [done|].
  apply put_all_in; [apply nv_ok|done|]. destruct (assigns_at _ _ _ _ nv_ok Hin) as (cd & Hcd & _).
  rewrite (vals_length table vals vals_ok). by eapply lookup_lt_Some.
Qed.

(** The new row is well typed, and its key cells are the old ones. *)
Lemma put_all_typed : Forall2 (fun c v => cell_ok (col_type c) v = true /\ fits v = true) (td_columns table) (put_all vals nv).
Proof.
  apply Forall2_same_length_lookup_2; [by rewrite length_put_all, (vals_length table vals vals_ok)|].
  intros i cd v Hcd Hv. destruct (put_all_cases i) as [(w & Hin & Hw)|[_ Hw]]; rewrite Hw in Hv.
  - injection Hv as ->. destruct (assigns_at _ _ _ _ nv_ok Hin) as (cd' & Hcd' & _ & H1 & H2).
    rewrite Hcd in Hcd'. by injection Hcd' as <-.
  - by destruct (Forall2_lookup_lr _ _ _ _ _ _ vals_ok Hcd Hv).
Qed.

Lemma put_all_key n iv : key_at table vals n iv -> key_at table (put_all vals nv) n iv.
Proof.
  intros (Hi & Hv & cd & Hcd & Hn & Hreg & Hrest). split; [done|]. split; [|by exists cd].
  destruct (put_all_cases (fst iv)) as [(w & Hin & _)|[_ Hw]]; [|by rewrite Hw].
  destruct (assigns_at _ _ _ _ nv_ok Hin) as (cd' & Hcd' & Hreg' & _). rewrite Hcd in Hcd'.
  injection Hcd' as <-. by rewrite Hreg in Hreg'.
Qed.

(** What an UPDATE may find: the encoded row, or none, which reads as nulls. *)
Definition found (o : option bytes) : Prop :=
  o = Some (encode_row_columns (reg_row table vals)) \/
  (o = None /\ forall i cd, td_columns table !! i = Some cd -> is_regular cd = true -> vals !! i = Some VNull).

Lemma merged_row_eq o : found o -> merged_row table o nv = Ok (reg_row table (put_all vals nv)).
Proof.
  intros Ho. unfold merged_row. set (n := length (td_columns table)).
  assert (Hbase : exists row, length row = n /\
    (forall i cd, td_columns table !! i = Some cd -> is_regular cd = true -> row !! i = vals !! i) /\
    match o with
    | Some b => map_err internal_err (decode_row_columns b table)
    | None => Ok (replicate n VNull)
    end = Ok row).
  { destruct Ho as [->|[-> Hnull]].
    - exists (place (replicate n VNull) (reg_row table vals)). split; [by rewrite length_place, length_replicate|].
      split; [intros; by eapply place_reg|]. by rewrite (decode_row_encode table _ (reg_row_ok table vals table_ok vals_ok)).
    - exists (replicate n VNull). split; [apply length_replicate|]. split; [|done]. intros i cd Hcd Hreg.
      rewrite (Hnull i cd Hcd Hreg). apply lookup_replicate_2. by eapply lookup_lt_Some. }
  destruct Hbase as (row & Hl & Hrow & ->). res_simpl. rewrite (foldl_store table); [|done|].
  2: { eapply Forall_impl; [apply nv_ok|]. intros iv (cd & Hcd & _). by eapply lookup_lt_Some. }
  res_simpl. unfold reg_row. apply map_res_Ok, Forall2_fmap_r, Forall_Forall2_diag, Forall_forall.
  intros i (cd & Hcd & Hreg)%regular_idxs_spec.
  assert (Hi : put_all row nv !! i = put_all vals nv !! i).
  { destruct (put_all_cases i) as [(w & Hin & Hw)|[Hin Hw]]; rewrite Hw.
    - apply put_all_in; [apply nv_ok|done|]. rewrite Hl. by eapply lookup_lt_Some.
    - rewrite put_all_out by done. by eapply Hrow. }
  destruct (Forall2_lookup_l _ _ _ _ _ put_all_typed Hcd) as (v & Hv & _).
  unfold index. rewrite Hi, Hv. destruct table_ok as (_ & _ & _ & _ & _ & Hlen). apply lookup_lt_Some in Hcd.
  assert (Hw : uwrap 16 (Z.of_nat i) = Z.of_nat i) by (apply Z.mod_small; lia). cbn. by rewrite Hw, Hv.
Qed.

(** Both paths of UPDATE store the new row. *)
Lemma update_row_eq o : found o ->
  (if (length nv =? length (filter (fun c => is_regular c = true) (td_columns table)))
      && bool_decide (NoDup (fst <$> nv))
   then upsert_row table nv else merged_row table o nv) = Ok (reg_row table (put_all vals nv)).
Proof.
  intros Ho. destruct (_ && _) eqn:Hall; [|by apply merged_row_eq].
  apply andb_true_iff in Hall as [Hlen%Nat.eqb_eq _]. rewrite <-(merged_row_eq o Ho). apply upsert_merged; [done|apply nv_ok|..].
  - eapply Forall_impl; [apply nv_ok|]. intros iv (cd & Hcd & Hreg & _). apply regular_idxs_spec. by exists cd.
  - intros b ->. destruct Ho as [[= ->]|[? _]]; [|done].
    rewrite (decode_row_encode table _ (reg_row_ok table vals table_ok vals_ok)). by eexists.
Qed.
End overwritten.

(** ** Statements *)

Section mutations.
Context `{KVLaws} `{JsonLaws} `{UnicodeCase} `{Literals}.
Context (short_name : CassandraStatement -> str).

(** Reads do not look at the table cache. *)
Lemma get_row_tables T s ks tb parts : engines_ok s ->
  snd (get_row ks tb parts (set_tables T s)) = snd (get_row ks tb parts s).
Proof.
  intros Hs. destruct (get_row_spec s ks tb parts Hs) as (e & He & _ & ->).
  destruct (get_row_spec (set_tables T s) ks tb parts Hs) as (e' & He' & _ & ->).
  change (st_engines s !! row_engine ks tb parts s = Some e') in He'. rewrite He in He'. injection He' as <-.
  change (cache_lookup ks ?k (set_tables T s)) with (cache_lookup ks k s). by repeat case_match.
Qed.

Section one_row.
Context (c : Cat) (ks : str) (table : TableDef) (vals : list Value) (keys : list (nat * Value)).
Hypothesis ks_clean : no_bang ks.
Hypothesis ks_user : ks ∉ SYSTEM_KEYSPACES.
Hypothesis table_known : cat_tb c !! (ks, td_name table) = Some table.
Hypothesis table_ok : table_wf table.
Hypothesis keys_at : Forall2 (key_at table vals) (key_names table) keys.
Let row := OneRow ks (td_name table) (key_parts keys).

(** WHERE k1 = ? AND .. AND kn = ?. *)
Definition where_keys : list RelationElement := sel_where (select_row ks table).
(** DELETE FROM ks.table WHERE .. *)
Definition delete_one : Ast.Delete :=
  {| del_columns := []; del_table_name := fq ks (td_name table); del_where := where_keys |}.
(** UPDATE ks.table SET c1 = ?, .. WHERE .., for the columns at [idxs]. *)
Definition set_param (i : nat) : AssignmentElement :=
  {| asg_column := Quoted (default [] (col_name <$> td_columns table !! i));
     asg_value := OpParam []; asg_operator := false |}.
Definition update_one (idxs : list nat) : Update :=
  {| upd_table_name := fq ks (td_name table); upd_assignments := set_param <$> idxs; upd_where := where_keys |}.

Lemma key_parts_row : key_parts_from_filters table (key_filters table keys) = Ok (key_parts keys).
Proof.
  unfold key_parts_from_filters, key_parts. apply map_res_Ok, Forall2_fmap_r, Forall2_same_length_lookup_2.
  { by eapply Forall2_length. }
  intros j n iv Hn Hiv. cbn. unfold key_filters.
  rewrite (eq_value_zip _ _ _ _ _ (keys_names_NoDup table table_ok) Hn Hiv). cbn.
  destruct (Forall2_lookup_lr _ _ _ _ _ _ keys_at Hn Hiv) as (_ & _ & cd & _ & _ & _ & _ & _ & Hnull & _).
  by rewrite Hnull.
Qed.

Lemma where_keys_parsed q : drop (q_next q) (q_values q) = (fun iv => to_raw (snd iv)) <$> keys ->
  parse_filters table where_keys q
  = ({| q_storage := q_storage q; q_values := q_values q; q_next := q_next q + length (key_names table);
        q_gates := q_gates q |}, Ok (key_filters table keys)).
Proof. apply parse_filters_keys with (vals := vals). exact keys_at. Qed.

(** DELETE removes the row: its tombstone stands from here on. *)
Lemma exec_delete_one sess page paging s rs : represents s c -> no_stale row s rs ->
  exists s1 t, execute_prepared_paged short_name sess (StDelete delete_one)
      ((fun iv => to_raw (snd iv)) <$> keys) page paging s
    = (s1, Ok (Void, [t])) /\ represents s1 c /\ stands row [t] None (s1, rs) /\ frame s s1 /\ issued s1 t.
Proof.
  intros Hrep Hrs. destruct (resolve_table_eq s c sess ks (td_name table) table Hrep ks_clean table_known)
    as (T & Hres & HrT).
  destruct (delete_row_stands (set_tables T s) rs ks (td_name table) (key_parts keys)) as (s1 & t & Hdel & Hst);
    [apply HrT|exact Hrs|].
  destruct (delete_row_represents (set_tables T s) c ks (td_name table) (key_parts keys) HrT)
    as (s1' & t' & Hdel' & Hr1). rewrite Hdel in Hdel'. injection Hdel' as <- <-.
  exists s1, t. split; [|done]. unfold execute_prepared_paged. cbn [execute_statement].
  unfold exec_delete. cbn [del_table_name delete_one].
  set (q := {| q_storage := s; q_values := _; q_next := 0; q_gates := [] |}).
  rewrite (st_bind_eq _ _ _ _ _ (on_storage_eq _ q _ _ Hres)).
  set (q1 := {| q_storage := set_tables T s; q_values := _ |}).
  rewrite (st_bind_eq _ _ q1 q1 ()) by (unfold lift, check_writable; by rewrite bool_decide_eq_false_2).
  cbn [del_columns del_where delete_one]. rewrite bool_decide_eq_true_2 by done. cbn [negb].
  rewrite (st_bind_eq _ _ _ _ _ (where_keys_parsed q1 eq_refl)).
  rewrite (st_bind_eq _ _ _ _ (key_parts keys)) by (unfold lift; rewrite key_parts_row; reflexivity).
  erewrite (st_bind_eq _ _ _ _ t).
  2: { apply on_storage_eq. cbn [q_storage q1]. unfold internal, st_map_err. rewrite Hdel. reflexivity. }
  reflexivity.
Qed.

(** No row: the point SELECT returns none. *)
Lemma exec_select_none sess page paging s rs t : represents s c ->
  stands row [t] None (s, rs) -> ticket_done s t = true ->
  exists s', execute_prepared_paged short_name sess (StSelect (select_row ks table))
      ((fun iv => to_raw (snd iv)) <$> keys) page paging s
    = (s', Ok (Rows ks (td_name table) (all_cols table) [] None, [])).
Proof.
  intros Hrep Hst Hd. apply exec_select_keys with (c := c) (vals := vals); try done. intros T.
  pose proof (row_read _ _ _ [t] _ (set_tables T s) rs Hst (settled_one _ _ Hd)) as Hread.
  destruct (get_row ks (td_name table) (key_parts keys) (set_tables T s)) as [s' o] eqn:Hg. cbn in Hread. subst o.
  exists s'. unfold point_select. by rewrite (st_bind_eq _ _ _ s' None) by (unfold internal, st_map_err; by rewrite Hg).
Qed.

(** The assignments consume the first bind values. *)
Lemma assignments_bound nv rest q : assigns table nv ->
  drop (q_next q) (q_values q) = ((fun iv => to_raw (snd iv)) <$> nv) ++ rest ->
  map_st (assignment_value table) (set_param <$> (fst <$> nv)) q
  = ({| q_storage := q_storage q; q_values := q_values q; q_next := q_next q + length nv;
        q_gates := q_gates q |}, Ok nv).
Proof.
  intros [_ Hf]. revert q. induction Hf as [|[i v] nv (cd & Hcd & _ & Hcell & Hfit) Hf IH]; intros q Hq.
  { cbn. rewrite Nat.add_0_r. by destruct q. }
  cbn [fst snd] in *. pose proof (column_index_lookup table i cd (proj1 table_ok) Hcd) as Hi.
  destruct (column_index_Some _ _ _ Hi) as (cd' & Hcd' & _ & Hcol). rewrite Hcd in Hcd'. injection Hcd' as <-.
  assert (Hhead : q_values q !! q_next q = Some (to_raw v)).
  { rewrite <-(Nat.add_0_r (q_next q)), <-lookup_drop, Hq. done. }
  cbn [fmap list_fmap map_st fst]. erewrite (st_bind_eq _ _ q _ (i, v)).
  2: { unfold assignment_value, set_param. cbn [asg_operator asg_column asg_value norm_id]. rewrite Hcd. cbn [fmap option_fmap option_map default].
       unfold lift. cbn [default from_option id]. rewrite Hcol. rewrite (st_bind_eq _ _ q q cd) by done.
       cbn [operand_to_value]. rewrite (st_bind_eq _ _ _ _ _ (take_bind_raw q (col_type cd) v Hhead Hcell Hfit)).
       erewrite st_bind_eq by (rewrite Hi; reflexivity). reflexivity. }
  erewrite st_bind_eq.
  2: { apply IH. cbn [q_next q_values]. rewrite <-Nat.add_1_r, <-drop_drop, Hq. done. }
  cbn. by rewrite <-plus_n_Sm.
Qed.

Section update.
Context (nv : list (nat * Value)).
Hypothesis vals_ok : Forall2 (fun c v => cell_ok (col_type c) v = true /\ fits v = true) (td_columns table) vals.
Hypothesis nv_ok : assigns table nv.

(** Reading the row, when UPDATE does, and computing the new one. *)
Lemma update_row_read o s q : represents s c -> q_storage q = s ->
  snd (get_row ks (td_name table) (key_parts keys) s) = Ok o -> found table vals o ->
  exists s', represents s' c /\ frame s s' /\
  (if (length nv =? length (filter (fun c => is_regular c = true) (td_columns table)))
      && bool_decide (NoDup (fst <$> nv))
   then lift (upsert_row table nv)
   else existing ← on_storage (internal (get_row ks (td_name table) (key_parts keys)));
        lift (merged_row table existing nv)) q
  = ({| q_storage := s'; q_values := q_values q; q_next := q_next q; q_gates := q_gates q |},
     Ok (reg_row table (put_all vals nv))).
Proof.
  intros Hrep <- Hget Hfound.
  pose proof (update_row_eq table vals nv table_ok vals_ok nv_ok o Hfound) as Hrow.
  destruct (_ && _).
  { exists (q_storage q). split; [done|]. split; [done|]. unfold lift. rewrite Hrow. by destruct q. }
  destruct (get_row_represents (q_storage q) c ks (td_name table) (key_parts keys) Hrep) as (s' & o' & Hg & Hr').
  pose proof (get_row_frame (q_storage q) ks (td_name table) (key_parts keys) (rep_ok _ _ Hrep)) as Hfr.
  rewrite Hg in Hget, Hfr. injection Hget as ->. exists s'. split; [done|]. split; [done|].
  erewrite (st_bind_eq _ _ _ _ o).
  2: { apply on_storage_eq. unfold internal, st_map_err. rewrite Hg. reflexivity. }
  unfold lift. by rewrite Hrow.
Qed.

(** UPDATE writes the overwritten row. *)
Lemma exec_update_one sess page paging s rs o : represents s c -> no_stale row s rs ->
  snd (get_row ks (td_name table) (key_parts keys) s) = Ok o -> found table vals o ->
  exists s1 t, execute_prepared_paged short_name sess (StUpdate (update_one (fst <$> nv)))
      ((to_raw ∘ snd <$> nv) ++ (to_raw ∘ snd <$> keys)) page paging s
    = (s1, Ok (Void, [t])) /\ represents s1 c /\
    stands row [t] (Some (encode_row_columns (reg_row table (put_all vals nv)))) (s1, rs) /\ issued s1 t.
Proof.
  intros Hrep Hrs Hget Hfound.
  destruct (resolve_table_eq s c sess ks (td_name table) table Hrep ks_clean table_known) as (T & Hres & HrT).
  rewrite <-(get_row_tables T) in Hget by apply Hrep.
  set (q := {| q_storage := s; q_values := (to_raw ∘ snd <$> nv) ++ (to_raw ∘ snd <$> keys); q_next := 0; q_gates := [] |}).
  set (q1 := {| q_storage := set_tables T s; q_values := q_values q; q_next := 0; q_gates := [] |}).
  set (q3 := {| q_storage := set_tables T s; q_values := q_values q;
                q_next := length nv + length (key_names table); q_gates := [] |}).
  destruct (update_row_read o (set_tables T s) q3 HrT eq_refl Hget Hfound) as (s' & Hr' & Hfr & Hrow).
  set (v := encode_row_columns (reg_row table (put_all vals nv))).
  destruct (put_row_stands s' rs ks (td_name table) (key_parts keys) v) as (s1 & t & Hput & Hst & _ & Hiss);
    [apply Hr'|by eapply no_stale_frame|].
  destruct (put_row_represents s' c ks (td_name table) (key_parts keys) v Hr') as (s1' & t' & Hput' & Hr1).
  rewrite Hput in Hput'. injection Hput' as <- <-.
  exists s1, t. split; [|done]. unfold execute_prepared_paged. cbn [execute_statement].
  unfold exec_update. cbn [upd_table_name update_one upd_assignments upd_where]. fold q.
  rewrite (st_bind_eq _ _ _ _ _ (on_storage_eq _ q _ _ Hres)).
  change {| q_storage := set_tables T s; q_values := q_values q; q_next := q_next q; q_gates := q_gates q |} with q1.
  rewrite (st_bind_eq _ _ q1 q1 ()) by (unfold lift, check_writable; by rewrite bool_decide_eq_false_2).
  rewrite (st_bind_eq _ _ _ _ _ (assignments_bound nv (to_raw ∘ snd <$> keys) q1 nv_ok eq_refl)).
  erewrite st_bind_eq.
  2: { apply where_keys_parsed. cbn [q_next q_values q1 q Nat.add]. rewrite drop_app_length'; [done|]. by rewrite length_fmap. }
  cbn [q_next q_values q_storage q_gates q1 Nat.add]. fold q3.
  rewrite (st_bind_eq _ _ _ _ (key_parts keys)) by (unfold lift; rewrite key_parts_row; reflexivity).
  cbv zeta. rewrite (st_bind_eq _ _ _ _ _ Hrow).
  erewrite (st_bind_eq _ _ _ _ t).
  2: { apply on_storage_eq. cbn [q_storage]. unfold internal, st_map_err. fold v. rewrite Hput. reflexivity. }
  reflexivity.
Qed.
End update.
End one_row.

(** C14: UPDATE then SELECT.  Let the row with these key cells be absent (then
    its regular cells count as null) or stored as [vals], and let [nv] assign
    well-typed values to distinct regular columns.  Then a prepared UPDATE of
    those columns - whether it reads the old row first or, when every regular
    column is assigned, skips the read - is accepted with one ticket, and once
    that is completed the prepared point SELECT returns the old row with exactly
    the assigned cells replaced - whatever the pipeline threads do and other
    requests do in between to other rows, other tables and keyspaces, and whoever
    reads this row, as long as no read of it carries the old version from the
    database into the row cache ([no_stale], [may_find]). *)
Theorem update_then_select s rs c ks table vals keys nv o :
  let row := OneRow ks (td_name table) (key_parts keys) in
  represents s c -> no_stale row s rs -> no_bang ks -> ks ∉ SYSTEM_KEYSPACES ->
  cat_tb c !! (ks, td_name table) = Some table -> table_wf table ->
  Forall2 (fun c v => cell_ok (col_type c) v = true /\ fits v = true) (td_columns table) vals ->
  Forall2 (key_at table vals) (key_names table) keys -> assigns table nv ->
  (Z.of_nat (length (encode_row_columns (reg_row table (put_all vals nv)))) < 2 ^ 63)%Z ->
  snd (get_row ks (td_name table) (key_parts keys) s) = Ok o -> found table vals o ->
  exists s1 ticket,
    execute_prepared short_name None (StUpdate (update_one ks table (fst <$> nv)))
      ((to_raw ∘ snd <$> nv) ++ (to_raw ∘ snd <$> keys)) s = (s1, Ok (Void, [ticket])) /\
    forall s2 rs2, rtc (others row [ticket]) (s1, rs) (s2, rs2) -> ticket_done s2 ticket = true ->
      exists s3,
        execute_prepared short_name None (StSelect (select_row ks table)) (to_raw ∘ snd <$> keys) s2
        = (s3, Ok (Rows ks (td_name table) (all_cols table) [put_all vals nv] None, [])).
Proof.
  intros row Hrep Hrs Hn Hsys Htab Hwf Hv Hkeys Hnv Hlen Hget Hfound.
  destruct (exec_update_one c ks table vals keys Hn Hsys Htab Hwf Hkeys nv Hv Hnv None None None s rs o
    Hrep Hrs Hget Hfound) as (s1 & t & Hupd & Hr1 & Hst & _).
  exists s1, t. split; [exact Hupd|]. intros s2 rs2 Hoth Hd.
  destruct (others_rtc_represents _ _ _ _ _ Hoth Hr1) as (c2 & Hr2 & Htab2 & _).
  cbn [claim_ks claim_tb row] in Htab2. rewrite Htab in Htab2.
  apply (exec_select_row short_name c2 ks table (put_all vals nv) keys Hn Hsys Htab2 Hwf) with (rs := rs2) (t := t);
    try done.
  - by apply put_all_typed.
  - eapply Forall2_impl; [exact Hkeys|]. intros n iv. by apply put_all_key.
  - by apply (stands_rtc _ _ _ _ _ Hoth).
Qed.

(** C15: DELETE then SELECT.  A prepared DELETE of a row by its full key is
    accepted with one ticket whether or not the row exists, and once that is
    completed the prepared point SELECT returns no row - whatever the pipeline
    threads do and other requests do in between to other rows, other tables and
    keyspaces, as long as nobody writes the row and no read of it finds it in the
    database before the delete is completed and puts it back into the row cache
    ([no_stale], [may_find]): the condition that fails in
    [deleted_row_resurrected]. *)
Theorem delete_then_select s rs c ks table vals keys :
  let row := OneRow ks (td_name table) (key_parts keys) in
  represents s c -> no_stale row s rs -> no_bang ks -> ks ∉ SYSTEM_KEYSPACES ->
  cat_tb c !! (ks, td_name table) = Some table -> table_wf table ->
  Forall2 (key_at table vals) (key_names table) keys ->
  exists s1 ticket,
    execute_prepared short_name None (StDelete (delete_one ks table)) (to_raw ∘ snd <$> keys) s
      = (s1, Ok (Void, [ticket])) /\
    forall s2 rs2, rtc (others row [ticket]) (s1, rs) (s2, rs2) -> ticket_done s2 ticket = true ->
      exists s3,
        execute_prepared short_name None (StSelect (select_row ks table)) (to_raw ∘ snd <$> keys) s2
        = (s3, Ok (Rows ks (td_name table) (all_cols table) [] None, [])).
Proof.
  intros row Hrep Hrs Hn Hsys Htab Hwf Hkeys.
  destruct (exec_delete_one c ks table vals keys Hn Hsys Htab Hwf Hkeys None None None s rs Hrep Hrs)
    as (s1 & t & Hdel & Hr1 & Hst & _).
  exists s1, t. split; [exact Hdel|]. intros s2 rs2 Hoth Hd.
  destruct (others_rtc_represents _ _ _ _ _ Hoth Hr1) as (c2 & Hr2 & Htab2 & _).
  cbn [claim_ks claim_tb row] in Htab2. rewrite Htab in Htab2.
  apply (exec_select_none c2 ks table vals keys Hn Hsys Htab2 Hwf Hkeys) with (rs := rs2) (t := t); [done| |done].
  by apply (stands_rtc _ _ _ _ _ Hoth).
Qed.
End mutations.

(** ** Examples *)

(** CREATE TABLE ks.w (k int PRIMARY KEY, a int, b text). *)
Definition wide_table : TableDef :=
  {| td_keyspace := bs "ks"; td_name := bs "w";
     td_columns :=
       [ {| col_name := bs "k"; col_type := TInt; is_partition_key := true; is_clustering := false |};
         {| col_name := bs "a"; col_type := TInt; is_partition_key := false; is_clustering := false |};
         {| col_name := bs "b"; col_type := TText; is_partition_key := false; is_clustering := false |} ];
     td_partition_keys := [bs "k"]; td_clustering_keys := [] |}.
Definition wide_storage : @Storage mem_kv := fst (put_table (H0 := bits_json) wide_table empty_storage).
Definition wide_cat : Cat := {| cat_ks := ∅; cat_tb := <[(bs "ks", bs "w") := wide_table]> ∅ |}.

Lemma wide_represents : represents (H0 := mem_kv_laws) (H1 := bits_json) wide_storage wide_cat.
Proof.
  destruct (put_table_refines (H0 := mem_kv_laws) (H2 := bits_json_laws) empty_storage empty_cat
    wide_table empty_represents) as (s & Heq & Hrep); [by_compute|].
  unfold wide_storage. by rewrite Heq.
Qed.
Lemma wide_wf : table_wf wide_table.
Proof. unfold table_wf, key_names; cbn; repeat split; by_compute. Qed.
Lemma wide_keys v w : Forall2 (key_at wide_table [VInt 1; v; w]) (key_names wide_table) [(0, VInt 1)].
Proof.
  repeat constructor. eexists. split; [reflexivity|]. by repeat split.
Qed.

Abbreviation wide_exec := (execute_prepared (H := mem_kv) (H0 := bits_json) (H1 := ascii_case) (H2 := no_literals)
  (fun _ => []) None).
Lemma wide_known : cat_tb wide_cat !! (bs "ks", td_name wide_table) = Some wide_table.
Proof. exact (lookup_insert_eq (M := gmap (str * str)) _ _ _). Qed.
Lemma wide_assigns : assigns wide_table [(1, VInt 5)].
Proof. split; [by_compute|]. repeat constructor. eexists. split; [reflexivity|]. by repeat split. Qed.
Lemma wide_absent : found wide_table [VInt 1; VNull; VNull] None.
Proof.
  right. split; [reflexivity|]. intros i cd Hcd Hr. destruct i as [|[|[|i]]]; cbn in *; try done.
  injection Hcd as <-. discriminate Hr.
Qed.

Lemma update_then_select_witness :
  exists s1 ticket s3,
    wide_exec (StUpdate (update_one (bs "ks") wide_table [1])) [to_raw (VInt 5); to_raw (VInt 1)] wide_storage
      = (s1, Ok (Void, [ticket])) /\
    ticket_done (quiesce s1) ticket = true /\
    wide_exec (StSelect (select_row (bs "ks") wide_table)) [to_raw (VInt 1)] (quiesce s1)
      = (s3, Ok (Rows (bs "ks") (bs "w") (all_cols wide_table) [[VInt 1; VInt 5; VNull]] None, [])).
Proof.
  assert (Hget : snd (get_row (bs "ks") (td_name wide_table) (key_parts [(0, VInt 1)]) wide_storage) = Ok None)
    by (vm_compute; reflexivity).
  assert (Hv : Forall2 (fun c v => cell_ok (col_type c) v = true /\ fits v = true) (td_columns wide_table)
    [VInt 1; VNull; VNull]) by repeat constructor.
  destruct (update_then_select (H0 := mem_kv_laws) (H2 := bits_json_laws) (H3 := ascii_case)
    (H4 := no_literals) (fun _ => []) wide_storage [] wide_cat (bs "ks") wide_table [VInt 1; VNull; VNull]
    [(0, VInt 1)] [(1, VInt 5)] None wide_represents (Forall_nil_2 _) ltac:(by_compute) ltac:(by_compute) wide_known
    wide_wf Hv (wide_keys _ _) wide_assigns ltac:(vm_compute; reflexivity) Hget wide_absent) as (s1 & ticket & Hupd & Hsel).
  destruct (exec_update_one (H0 := mem_kv_laws) (H1 := bits_json) (H3 := ascii_case) (H4 := no_literals) (fun _ => [])
    wide_cat (bs "ks") wide_table [VInt 1; VNull; VNull] [(0, VInt 1)] ltac:(by_compute) ltac:(by_compute) wide_known
    wide_wf (wide_keys _ _) [(1, VInt 5)] Hv wide_assigns None None None wide_storage [] None wide_represents
    (Forall_nil_2 _) Hget wide_absent) as (s1' & t' & Hupd' & Hr1 & _ & Hiss).
  pose proof (eq_trans (eq_sym Hupd) Hupd') as Heq. injection Heq as <- <-.
  pose proof (quiesce_done (H0 := mem_kv_laws) s1 ticket (rep_ok _ _ Hr1) Hiss) as Hd.
  destruct (Hsel (quiesce s1) [] (thread_others _ _ _ _ _ (quiesce_thread s1)) Hd) as (s3 & Hs3).
  exists s1, ticket, s3. split; [exact Hupd|]. split; [exact Hd|exact Hs3].
Defined.

(** A node with a row: [wide_storage] after an INSERT of [1, 7, x] that is
    completed. *)
Definition wide_vals : list Value := [VInt 1; VInt 7; VText (bs "x")].
Definition wide_full : @Storage mem_kv :=
  quiesce (fst (wide_exec (StInsert (insert_all (bs "ks") wide_table)) (to_raw <$> wide_vals) wide_storage)).
Lemma wide_full_ok :
  represents (H0 := mem_kv_laws) (H1 := bits_json) wide_full wide_cat /\
  exists s, wide_exec (StSelect (select_row (bs "ks") wide_table)) [to_raw (VInt 1)] wide_full
    = (s, Ok (Rows (bs "ks") (bs "w") (all_cols wide_table) [wide_vals] None, [])).
Proof.
  assert (Hv : Forall2 (fun c v => cell_ok (col_type c) v = true /\ fits v = true) (td_columns wide_table)
    wide_vals) by repeat constructor.
  destruct (exec_insert_all (H0 := mem_kv_laws) (H1 := bits_json) (H3 := ascii_case) (H4 := no_literals)
    (fun _ => []) wide_cat (bs "ks") wide_table wide_vals [(0, VInt 1)] ltac:(by_compute) ltac:(by_compute) wide_known
    wide_wf Hv (wide_keys _ _) None None None wide_storage [] wide_represents (Forall_nil_2 _))
    as (s1 & t & Hi & Hr1 & Hst & _ & Hiss).
  change (wide_exec (StInsert (insert_all (bs "ks") wide_table)) (to_raw <$> wide_vals) wide_storage
    = (s1, Ok (Void, [t]))) in Hi.
  assert (Hq : wide_full = quiesce s1) by (unfold wide_full; by rewrite Hi). rewrite Hq.
  pose proof (thread_others (H1 := bits_json) (OneRow (bs "ks") (bs "w") (key_parts [(0, VInt 1)])) [t] s1 (quiesce s1) []
    (quiesce_thread s1)) as Hoth.
  assert (Hrq : represents (H0 := mem_kv_laws) (H1 := bits_json) (quiesce s1) wide_cat).
  { eapply (rtc_represents (H0 := mem_kv_laws)); [exact Hr1|apply quiesce_thread]. }
  split; [exact Hrq|].
  apply (exec_select_row (H0 := mem_kv_laws) (H1 := bits_json) (H3 := ascii_case) (H4 := no_literals) (fun _ => [])
    wide_cat (bs "ks") wide_table wide_vals [(0, VInt 1)] ltac:(by_compute) ltac:(by_compute) wide_known wide_wf Hv
    (wide_keys _ _) ltac:(vm_compute; reflexivity) None None None (quiesce s1) [] t Hrq).
  - apply (stands_rtc (H0 := mem_kv_laws) _ _ _ _ _ Hoth Hst).
  - exact (quiesce_done (H0 := mem_kv_laws) s1 t (rep_ok _ _ Hr1) Hiss).
Qed.

Lemma delete_then_select_witness :
  exists s0 s1 ticket s3,
    wide_exec (StSelect (select_row (bs "ks") wide_table)) [to_raw (VInt 1)] wide_full
      = (s0, Ok (Rows (bs "ks") (bs "w") (all_cols wide_table) [wide_vals] None, [])) /\
    wide_exec (StDelete (delete_one (bs "ks") wide_table)) [to_raw (VInt 1)] wide_full = (s1, Ok (Void, [ticket])) /\
    ticket_done (quiesce s1) ticket = true /\
    wide_exec (StSelect (select_row (bs "ks") wide_table)) [to_raw (VInt 1)] (quiesce s1)
      = (s3, Ok (Rows (bs "ks") (bs "w") (all_cols wide_table) [] None, [])).
Proof.
  destruct wide_full_ok as (Hrep & s0 & Hs0).
  destruct (delete_then_select (H0 := mem_kv_laws) (H2 := bits_json_laws) (H3 := ascii_case)
    (H4 := no_literals) (fun _ => []) wide_full [] wide_cat (bs "ks") wide_table wide_vals
    [(0, VInt 1)] Hrep (Forall_nil_2 _) ltac:(by_compute) ltac:(by_compute) wide_known wide_wf (wide_keys _ _))
    as (s1 & ticket & Hdel & Hsel).
  destruct (exec_delete_one (H0 := mem_kv_laws) (H1 := bits_json) (H3 := ascii_case) (H4 := no_literals) (fun _ => [])
    wide_cat (bs "ks") wide_table wide_vals [(0, VInt 1)] ltac:(by_compute) ltac:(by_compute) wide_known wide_wf
    (wide_keys _ _) None None None wide_full [] Hrep (Forall_nil_2 _)) as (s1' & t' & Hdel' & Hr1 & _ & _ & Hiss).
  pose proof (eq_trans (eq_sym Hdel) Hdel') as Heq. injection Heq as <- <-.
  pose proof (quiesce_done (H0 := mem_kv_laws) s1 ticket (rep_ok _ _ Hr1) Hiss) as Hd.
  destruct (Hsel (quiesce s1) [] (thread_others _ _ _ _ _ (quiesce_thread s1)) Hd) as (s3 & Hs3).
  exists s0, s1, ticket, s3. split; [exact Hs0|]. split; [exact Hdel|]. split; [exact Hd|exact Hs3].
Defined.
