(* ===== verification/Health.v ===== *)
(** * The health endpoint

    Models the request handling of src/src/health.rs: one read of at most 4096
    bytes, the routing of its first line, and the HTTP response. *)

From S2P Require Import Prelude RustStr.

Definition quote_mark : str := [Byte.x22].
Definition lf : str := [Byte.x0a].
Definition crlf : str := [Byte.x0d; Byte.x0a].
(** A JSON string of the source. *)
Definition jstr (s : str) : str := quote_mark ++ s ++ quote_mark.

Definition health_body (uptime : Z) : str :=
  bs "{" ++ jstr (bs "status") ++ bs ":" ++ jstr (bs "ok") ++ bs "," ++ jstr (bs "uptime_sec")
  ++ bs ":" ++ show_u uptime ++ bs "}".
Definition metrics_body (uptime : Z) : str :=
  bs "# HELP rhydadb_up Whether the server is up" ++ lf ++ bs "# TYPE rhydadb_up gauge" ++ lf
  ++ bs "rhydadb_up 1" ++ lf ++ bs "# HELP rhydadb_uptime_seconds Uptime" ++ lf
  ++ bs "# TYPE rhydadb_uptime_seconds counter" ++ lf
  ++ bs "rhydadb_uptime_seconds " ++ show_u uptime ++ lf.
Definition status_body (what : str) : str :=
  bs "{" ++ jstr (bs "status") ++ bs ":" ++ jstr what ++ bs "}".

(** Status, body and content type for a request line. *)
Definition route (uptime : Z) (line : str) : Z * str * str :=
  if starts_with line (bs "GET /health") || starts_with line (bs "GET /ready") then
    (200%Z, health_body uptime, bs "application/json")
  else if starts_with line (bs "GET /metrics") then
    (200%Z, metrics_body uptime, bs "text/plain; version=0.0.4")
  else if starts_with line (bs "GET /") then
    (404%Z, status_body (bs "not_found"), bs "application/json")
  else (400%Z, status_body (bs "bad_request"), bs "application/json").

Definition http_response (status : Z) (body ctype : str) : str :=
  bs "HTTP/1.1 " ++ show_u status ++ bs " "
  ++ (if (status =? 200)%Z then bs "OK" else if (status =? 404)%Z then bs "Not Found" else bs "Bad Request")
  ++ crlf ++ bs "Content-Type: " ++ ctype ++ crlf
  ++ bs "Content-Length: " ++ show_u (Z.of_nat (length body)) ++ crlf
  ++ bs "Connection: close" ++ crlf ++ crlf ++ body.

(** The answer to the bytes of the first read. *)
Definition health_reply (uptime : Z) (buf : bytes) : str :=
  let req := from_utf8_lossy (take 4096 buf) in
  let line := default [] (first_line req) in
  let '(status, body, ctype) := route uptime line in
  http_response status body ctype.

Lemma take_starts_with n l p : length p <= n -> starts_with (take n l) p = starts_with l p.
Proof.
  intros Hn. unfold starts_with. apply bool_decide_ext. split.
  - intros Hp. etrans; [exact Hp|]. exists (drop n l). by rewrite take_drop.
  - intros Hp. by apply prefix_take.
Qed.

Lemma line_starts_with buf p : all_ascii p = true -> no_line_end p = true -> length p <= 16 ->
  starts_with (default [] (first_line (from_utf8_lossy (take 4096 buf)))) p = starts_with buf p.
Proof.
  intros Ha Hl Hn. rewrite first_line_starts_with, lossy_starts_with, take_starts_with by (done || lia). done.
Qed.

(** The endpoint answers by the first bytes of the request, whatever follows
    them: replacing invalid UTF-8, cutting the first line off and the limit of
    4096 bytes make no difference to the routing, so every request - malformed or
    binary input included - gets the answer of its raw prefix. *)
Theorem health_routes_by_prefix uptime buf :
  health_reply uptime buf
  = let '(status, body, ctype) := route uptime buf in http_response status body ctype.
Proof.
  unfold health_reply, route. rewrite !line_starts_with by (done || (apply Nat.leb_le; reflexivity)). done.
Qed.

(** ** The accept loop *)

(** What [listener.accept()] returns: an error, or a connection with the uptime
    at that moment and what its first read gives. *)
Inductive Accepted := AcceptFailed | Opened (uptime : Z) (first_read : option bytes).

(** The spawned task: a failed read is not answered. *)
Definition health_task (uptime : Z) (first_read : option bytes) : option str := health_reply uptime <$> first_read.
(** [run]: a failed accept is skipped; [bound] is whether the address could be bound. *)
Fixpoint health_loop (accepts : list Accepted) : list (option str) :=
  match accepts with
  | [] => []
  | AcceptFailed :: rest => health_loop rest
  | Opened uptime first_read :: rest => health_task uptime first_read :: health_loop rest
  end.
Definition health_run (bound : bool) (accepts : list Accepted) : list (option str) :=
  if bound then health_loop accepts else [].

Definition opened (a : Accepted) : option (Z * option bytes) :=
  match a with AcceptFailed => None | Opened u r => Some (u, r) end.

(** Failing accepts and reads of other connections change no answer: each opened
    connection is answered by the prefix of its own bytes. *)
Theorem health_run_answers accepts :
  health_run true accepts
  = (fun ur => (fun buf => let '(status, body, ctype) := route (fst ur) buf in http_response status body ctype)
               <$> snd ur) <$> omap opened accepts.
Proof.
  cbn. induction accepts as [|[|u r] l IH]; cbn; [done|exact IH|]. f_equal; [|exact IH].
  destruct r as [buf|]; cbn; [|done]. by rewrite health_routes_by_prefix.
Qed.
