(* ===== verification/Session.v ===== *)
(** * Sessions: requests as clients send them

    Theorems about the request handlers of src/src/server.rs, driven by the frames
    and bodies of the client programs: what a client encodes is what the server
    reads, prepared statements and their ids, and a whole session - PREPARE,
    EXECUTE of an INSERT, EXECUTE of a SELECT - at the level of bytes. *)

From S2P Require Import Prelude RustStr Ast Schema CqlValue Keys Project Kv Pipeline Storage Rows.
From S2P Require Import Catalog Acked Query Wire Protocol Server Client Frames Dml Statements.

(** ** Requests on the wire *)

(** The body of an EXECUTE. *)
Definition execute_body (id : bytes) (p : QueryParameters) : bytes := enc_short id ++ enc_params p.

(** The parameters the client programs send. *)
Definition client_params (values : list bytes) (skip : bool) : QueryParameters :=
  {| qp_values := RvValue <$> values; qp_skip_metadata := skip; qp_page_size := None;
     qp_paging_state := None |}.

Lemma foldl_values_app values out :
  foldl (fun out v => (out ++ be 4 (Z.of_nat (length v))) ++ v) out values
  = out ++ concat (enc_value <$> (RvValue <$> values)).
Proof.
  revert out. induction values as [|v values IH]; intros out; cbn [foldl fmap list_fmap concat].
  { by rewrite app_nil_r. }
  rewrite IH. cbn [enc_value]. unfold enc_long. by rewrite <-!app_assoc.
Qed.

(** The client's parameters are the protocol's. *)
Lemma query_params_enc values skip body : values <> [] ->
  Bench.query_params_with_values values skip body = body ++ enc_params (client_params values skip).
Proof.
  intros Hne. unfold Bench.query_params_with_values. rewrite foldl_values_app.
  unfold enc_params, client_params, param_flags, enc_values.
  cbn [qp_values qp_skip_metadata qp_page_size qp_paging_state].
  destruct values as [|v values]; [done|]. cbn [fmap list_fmap].
  rewrite !app_nil_r. cbn [length]. rewrite length_fmap, <-!app_assoc.
  by destruct skip.
Qed.

Section requests.
Context `{WireLaws}.

Lemma byte_at_frame stream op body rest :
  let f := Bench.frame stream op body [] ++ rest in
  (9 <= length f)%nat /\ take 1 (drop 0 f) = [Z_to_byte 4] /\ take 1 (drop 1 f) = [Z_to_byte 0] /\
  take 2 (drop 2 f) = be 2 stream /\ take 1 (drop 4 f) = [Z_to_byte op] /\
  take 4 (drop 5 f) = be 4 (Z.of_nat (length body)) /\ drop 9 f = body ++ rest.
Proof.
  cbn zeta. unfold Bench.frame. pose proof (length_be 2 stream) as H2.
  pose proof (length_be 4 (Z.of_nat (length body))) as H4.
  destruct (be 2 stream) as [|x [|y [|? ?]]]; try done.
  destruct (be 4 _) as [|a [|b [|c [|d [|? ?]]]]]; try done.
  repeat split. cbn. lia.
Qed.

Lemma from_be_byte z : (0 <= z < 256)%Z -> from_be [Z_to_byte z] = z.
Proof.
  intros Hz. unfold from_be. cbn [foldl]. rewrite byte_to_Z_to_byte, Z.mod_small by lia. lia.
Qed.

(** The server takes exactly one frame of the client off its input. *)
Lemma read_frame_client cs stream op body rest fin :
  in_i 16 stream = true -> (0 <= op < 256)%Z -> (Z.of_nat (length body) <= MAX_FRAME_LENGTH)%Z ->
  read_frame cs (Bench.frame stream op body [] ++ rest) fin = InRequest stream op body rest.
Proof.
  intros Hs Hop Hlen. unfold read_frame, MAX_FRAME_LENGTH in *.
  destruct (byte_at_frame stream op body rest) as (H9 & -> & -> & -> & -> & -> & ->).
  rewrite (proj2 (Nat.ltb_ge _ _)) by done.
  rewrite !from_be_byte by lia. rewrite from_be_be_i, from_be_len by (lia || done || (cbn; lia)).
  cbn [Z.eqb Pos.eqb negb]. rewrite (proj2 (Z.ltb_ge _ _)) by lia.
  rewrite Nat2Z.id, length_app, (proj2 (Nat.ltb_ge _ _)) by lia.
  rewrite Z.testbit_0_l, take_app_length, drop_app_length. done.
Qed.
End requests.

(** ** Prepared statements *)

(** Ids are the registration count, modulo 2^16. *)
Definition registered (ps : list PreparedStmt) (cs : ConnShared) : ConnShared :=
  foldl (fun cs p => register p cs) cs ps.

Definition id_ok (cs : ConnShared) : Prop := in_u 16 (cs_next_prepared_id cs) = true.

Lemma register_id_ok p cs : id_ok (register p cs).
Proof. apply in_u_spec. cbn. unfold uwrap. apply Z.mod_pos_bound. lia. Qed.

Lemma be2_inj a b : in_u 16 a = true -> in_u 16 b = true -> be 2 a = be 2 b -> a = b.
Proof.
  intros Ha Hb Hab. apply (f_equal from_be) in Hab. by rewrite !from_be_be_u in Hab.
Qed.

Lemma registered_next ps cs : id_ok cs ->
  cs_next_prepared_id (registered ps cs) = uwrap 16 (cs_next_prepared_id cs + Z.of_nat (length ps)).
Proof.
  revert cs. induction ps as [|p ps IH]; intros cs Hcs; cbn [registered foldl length].
  - apply in_u_spec in Hcs. unfold uwrap. rewrite Z.add_0_r. symmetry. by apply Z.mod_small.
  - fold (registered ps (register p cs)). rewrite IH by apply register_id_ok. cbn [register cs_next_prepared_id].
    unfold uwrap. rewrite Zplus_mod_idemp_l. f_equal. lia.
Qed.

(** A registration other than of the same id leaves a statement alone. *)
Lemma register_lookup p cs id : next_id cs <> id -> cs_prepared (register p cs) !! id = cs_prepared cs !! id.
Proof. intros Hid. cbn. by rewrite lookup_insert_ne. Qed.

Section sessions.
Context `{KV} `{Json} `{UnicodeCase} `{Literals} `{Wire}.
Context (parse : str -> option CassandraStatement) (short_name : CassandraStatement -> str).

Abbreviation SS := (Storage * ConnShared)%type.
Abbreviation request := (handle_request parse short_name).

Lemma on_store_bind {A B} (m : st Storage QueryError A) (f : A -> st SS QueryError B) s cs :
  (on_store m ≫= f) (s, cs)
  = match m s with
    | (s', Ok a) => f a (s', cs)
    | (s', Err e) => ((s', cs), Err e)
    | (s', Panic) => ((s', cs), Panic)
    end.
Proof. unfold mbind, st_bind, on_store. cbn [fst snd]. by destruct (m s) as [s' [a|e|]]. Qed.

(** The prepared statements of a connection are the same. *)
Definition same_prepared (cs cs' : ConnShared) : Prop :=
  cs_prepared cs' = cs_prepared cs /\ cs_next_prepared_id cs' = cs_next_prepared_id cs.
Definition preserves {A} (m : st SS QueryError A) : Prop :=
  forall s, same_prepared (snd s) (snd (fst (m s))).

#[global] Instance same_prepared_preorder : PreOrder same_prepared.
Proof. split; [by split|]. intros a b c [H1' H2'] [H3' H4']. split; congruence. Qed.

Lemma preserves_bind {A B} (m : st SS QueryError A) (f : A -> st SS QueryError B) :
  preserves m -> (forall a, preserves (f a)) -> preserves (m ≫= f).
Proof.
  intros Hm Hf s. specialize (Hm s). unfold mbind, st_bind. destruct (m s) as [s1 [a|e|]]; [|done|done].
  cbn in Hm. by etrans; [|apply Hf].
Qed.
Lemma preserves_fmap {A B} (m : st SS QueryError A) (f : A -> B) : preserves m -> preserves (f <$> m).
Proof.
  intros Hm s. specialize (Hm s). unfold fmap, st_fmap. by destruct (m s) as [s1 [a|e|]].
Qed.
Lemma preserves_ret {A} (a : A) : preserves (mret a). Proof. by intros s. Qed.
Lemma preserves_lift {A} (r : res QueryError A) : preserves (lift r). Proof. by intros s. Qed.
Lemma preserves_lift_Ok {A B} r (a : A) (f : A -> st SS QueryError B) :
  r = Ok a -> preserves (f a) -> preserves (lift r ≫= f).
Proof. intros -> Hf s. by rewrite (st_bind_eq _ _ _ s a). Qed.
Lemma preserves_throw {A} e : preserves (throw (A:=A) e). Proof. by intros s. Qed.
Lemma preserves_of_conn {A} (f : ConnShared -> A) : preserves (of_conn f). Proof. by intros s. Qed.
Lemma preserves_on_store {A} (m : st Storage QueryError A) : preserves (on_store m).
Proof. intros [s cs]. unfold on_store. cbn. by destruct (m s). Qed.
Lemma preserves_keyspace ks : preserves (on_conn (set_keyspace ks)). Proof. by intros s. Qed.
Lemma preserves_compression v : preserves (on_conn (set_compression v)). Proof. by intros s. Qed.
#[local] Hint Resolve preserves_ret preserves_lift preserves_throw preserves_of_conn preserves_on_store
  preserves_keyspace preserves_compression preserves_fmap : rhyda.
#[local] Hint Extern 5 (preserves (mbind _ _)) => apply preserves_bind : rhyda.
#[local] Hint Extern 6 (preserves (match ?x with _ => _ end)) => destruct x : rhyda.

Lemma after_settle_preserves p : preserves (after_settle p).
Proof. unfold after_settle. eauto 8 with rhyda. Qed.
Lemma settle_then_preserves gates p : preserves (settle_then gates p).
Proof. unfold settle_then. destruct gates; eauto using after_settle_preserves with rhyda. Qed.
#[local] Hint Resolve settle_then_preserves : rhyda.
Lemma handle_startup_preserves body stream : preserves (handle_startup body stream).
Proof. unfold handle_startup. repeat (apply preserves_bind; intros); eauto 8 with rhyda. Qed.
Lemma handle_query_preserves body stream comp : preserves (handle_query parse short_name body stream comp).
Proof.
  unfold handle_query. apply preserves_bind; [eauto with rhyda|]. intros [q p].
  repeat (apply preserves_bind; [eauto with rhyda|]; intros). case_match. eauto with rhyda.
Qed.
Lemma handle_execute_preserves body stream comp : preserves (handle_execute short_name body stream comp).
Proof.
  unfold handle_execute. apply preserves_bind; [eauto with rhyda|]. intros [id buf].
  do 3 (apply preserves_bind; [eauto with rhyda|]; intros). case_match; [eauto with rhyda|].
  do 2 (apply preserves_bind; [eauto with rhyda|]; intros). case_match. eauto with rhyda.
Qed.

(** What a request does to the prepared statements: nothing, or it registers one
    under the next id. *)
Lemma handle_request_prepared op body stream s cs s' cs' r :
  request op body stream (s, cs) = ((s', cs'), r) ->
  same_prepared cs cs' \/ exists p, cs' = register p cs.
Proof.
  intros Hr. destruct (decide (req_of_u8 op = Some ReqPrepare)) as [Hp|Hp].
  - revert Hr. unfold handle_request. rewrite (st_bind_eq _ _ _ (s, cs) (compression cs)) by done.
    rewrite Hp. rewrite (st_bind_eq _ _ _ (s, cs) ReqPrepare) by done. unfold handle_prepare.
    destruct (read_long_string body) as [[q rest]|]; [|by intros [= <- <- <-]; left].
    rewrite (st_bind_eq _ _ _ (s, cs) (q, rest)) by done. cbn iota.
    rewrite on_store_bind.
    match goal with |- context [st_map_err ?f ?m s] => destruct (st_map_err f m s) as [s1 [stmt|e|]] end;
      [|by intros [= <- <- <-]; left|by intros [= <- <- <-]; left].
    rewrite (st_bind_eq _ _ _ (s1, cs) (cs_keyspace cs)), on_store_bind by done.
    destruct (prepared_info _ _ _ s1) as [s2 [info|e|]]; [|by intros [= <- <- <-]; left|by intros [= <- <- <-]; left].
    rewrite (st_bind_eq _ _ _ (s2, cs) (next_id cs)) by done.
    cbn [of_conn on_conn modify st_bind lift fmap st_fmap fst snd]. intros Hf. right. eexists.
    destruct (result_prepared _ _ _ _ _ _ _ _ _); cbn in Hf; by injection Hf as <- <- <-.
  - left. assert (Hpre : preserves (request op body stream)); [|specialize (Hpre (s, cs)); by rewrite Hr in Hpre].
    unfold handle_request. apply preserves_bind; [eauto with rhyda|]. intros comp.
    destruct (req_of_u8 op) as [o|]; [|by intros ?]. apply (preserves_lift_Ok _ o); [done|].
    destruct o; try done; eauto using handle_startup_preserves, handle_query_preserves,
      handle_execute_preserves with rhyda.
Qed.
(** [n] requests, with any storage before each of them, and any number of
    completed waits take the connection from one state to another. *)
Inductive served : nat -> ConnShared -> ConnShared -> Prop :=
| served_nil cs : served 0 cs cs
| served_request n op body stream s cs1 s' cs2 r cs3 :
    request op body stream (s, cs1) = ((s', cs2), r) -> served n cs2 cs3 -> served (S n) cs1 cs3
| served_settle n p s cs1 s' cs2 r cs3 :
    after_settle p (s, cs1) = ((s', cs2), r) -> served n cs2 cs3 -> served n cs1 cs3.

Lemma register_same p cs cs' : same_prepared cs cs' -> same_prepared (register p cs) (register p cs').
Proof. intros [H1' H2']. unfold register, next_id. split; cbn; by rewrite ?H1', ?H2'. Qed.
Lemma registered_same ps cs cs' : same_prepared cs cs' -> same_prepared (registered ps cs) (registered ps cs').
Proof.
  revert cs cs'. induction ps as [|p ps IH]; intros cs cs' Hs; cbn; [done|]. by apply IH, register_same.
Qed.

Lemma served_registered n cs cs' : served n cs cs' ->
  exists ps, length ps <= n /\ same_prepared (registered ps cs) cs'.
Proof.
  induction 1 as [cs|n op body stream s cs1 s' cs2 r cs3 Hr Hs (ps & Hlen & IH)
                 |n p s cs1 s' cs2 r cs3 Hr Hs (ps & Hlen & IH)].
  - exists []. split; [done|]. apply same_prepared_preorder.
  - destruct (handle_request_prepared _ _ _ _ _ _ _ _ Hr) as [Hsame|[p ->]].
    + exists ps. split; [lia|]. etrans; [by apply registered_same|done].
    + exists (p :: ps). cbn. split; [lia|done].
  - exists ps. split; [done|]. pose proof (after_settle_preserves p (s, cs1)) as Hp. rewrite Hr in Hp.
    etrans; [by apply registered_same|done].
Qed.

(** A statement keeps its id until 65536 statements were registered after it. *)
Lemma registered_lookup p ps cs : id_ok cs -> (Z.of_nat (length ps) < 2 ^ 16)%Z ->
  cs_prepared (registered ps (register p cs)) !! next_id cs = Some p.
Proof.
  intros Hcs. induction ps as [|p' ps IH] using rev_ind; intros Hlen.
  { cbn. apply lookup_insert_eq. }
  rewrite length_app in Hlen. cbn [length] in Hlen.
  unfold registered. rewrite foldl_app. cbn [foldl]. fold (registered ps (register p cs)).
  rewrite register_lookup; [apply IH; lia|]. unfold next_id. intros Hid. apply be2_inj in Hid.
  - rewrite registered_next in Hid by apply register_id_ok. cbn [register cs_next_prepared_id] in Hid.
    apply in_u_spec in Hcs. unfold uwrap in Hid. rewrite Zplus_mod_idemp_l in Hid.
    set (z := cs_next_prepared_id cs) in *. set (k := Z.of_nat (length ps)) in *.
    assert (Hd : ((z + 1 + k - z) mod 2 ^ 16 = 0)%Z)
      by (rewrite Zminus_mod, Hid, (Z.mod_small z) by lia; by rewrite Z.sub_diag).
    replace (z + 1 + k - z)%Z with (1 + k)%Z in Hd by lia. rewrite Z.mod_small in Hd by lia. lia.
  - rewrite registered_next by apply register_id_ok. apply in_u_spec, Z.mod_pos_bound. lia.
  - done.
Qed.

End sessions.

Section prepared.
Context `{KV} `{Json} `{UnicodeCase} `{Literals} `{WireLaws}.
Context (parse : str -> option CassandraStatement) (short_name : CassandraStatement -> str).

Abbreviation SS := (Storage * ConnShared)%type.
Abbreviation request := (handle_request parse short_name).

Lemma request_known o body stream s cs :
  request (req_code o) body stream (s, cs)
  = match o with
    | ReqOptions => Reply <$> lift (supported 4 stream (compression cs))
    | ReqStartup => handle_startup body stream
    | ReqRegister => Reply <$> lift (ready 4 stream (compression cs))
    | ReqQuery => handle_query parse short_name body stream (compression cs)
    | ReqPrepare => handle_prepare parse short_name body stream (compression cs)
    | ReqExecute => handle_execute short_name body stream (compression cs)
    | ReqBatch => throw (invalid_err (bs "Batches are not supported yet"))
    | ReqAuthResponse => throw (protocol_err (bs "Authentication is not enabled"))
    end (s, cs).
Proof.
  unfold handle_request. rewrite (st_bind_eq _ _ _ (s, cs) (compression cs)) by done.
  by rewrite (proj2 (req_of_u8_spec (req_code o) o) eq_refl), (st_bind_eq _ _ _ (s, cs) o).
Qed.

(** Running a prepared statement and answering. *)
Definition run_prepared (stmt : CassandraStatement) (p : QueryParameters) (stream : Z)
    (cs : ConnShared) : st SS QueryError Outcome :=
  '(resp, gates) ← on_store (execute_prepared_paged short_name (cs_keyspace cs) stmt (qp_values p)
                               (qp_page_size p) (qp_paging_state p));
  settle_then gates {| pd_stream := stream; pd_compression := compression cs; pd_resp := resp;
                       pd_session := false; pd_skip_metadata := qp_skip_metadata p |}.

Lemma request_execute id p ps stream s cs :
  short_ok id -> params_ok p -> cs_prepared cs !! id = Some ps ->
  length (qp_values p) = length (ps_bind_types ps) ->
  request (req_code ReqExecute) (execute_body id p) stream (s, cs) = run_prepared (ps_stmt ps) p stream cs (s, cs).
Proof.
  intros Hid Hp Hps Hlen. rewrite request_known. unfold handle_execute, execute_body.
  rewrite read_short_bytes_spec by done. rewrite (st_bind_eq _ _ _ (s, cs) (id, enc_params p)) by done.
  cbn iota. rewrite (st_bind_eq _ _ _ (s, cs) (Some ps)) by (unfold of_conn, gets; cbn; by rewrite Hps).
  rewrite (st_bind_eq _ _ _ (s, cs) ps) by done. rewrite read_params_spec by done.
  rewrite (st_bind_eq _ _ _ (s, cs) p) by done. rewrite Hlen, Nat.eqb_refl. cbn [negb].
  by rewrite (st_bind_eq _ _ _ (s, cs) (cs_keyspace cs)).
Qed.

Lemma expect_string_inv {E} s buf b : expect (F:=E) (write_string s buf) = Ok b -> b = buf ++ enc_short s.
Proof.
  destruct (decide (short_ok s)) as [Hs|Hs].
  - rewrite write_string_spec by done. by intros [= <-].
  - by destruct (write_string_long s buf Hs) as (e & ->).
Qed.
Lemma write_wire_type_app t buf : exists r, write_wire_type t buf = buf ++ r.
Proof. unfold write_wire_type. destruct t; rewrite <-?app_assoc; eauto. Qed.
Lemma write_specs_inv {E} specs body b : write_specs (E:=E) specs body = Ok b -> exists r, b = body ++ r.
Proof.
  revert body. induction specs as [|[n t] specs IH]; intros body; cbn [write_specs].
  { intros [= <-]. exists []. by rewrite app_nil_r. }
  intros (b' & ->%expect_string_inv & Hb)%bind_Ok. apply IH in Hb as (r & ->).
  destruct (write_wire_type_app t (body ++ enc_short n)) as (e & ->). rewrite <-!app_assoc. eauto.
Qed.

(** Whatever PREPARED result is sent, the client finds the id in it. *)
Lemma prepared_id_app {E} id r : short_ok id -> Bench.prepared_id (be 4 4 ++ enc_short id ++ r) = @Ok str _ id /\
  forall b, expect (F:=E) (write_short_bytes id (be 4 0x0004)) = Ok b -> b = be 4 4 ++ enc_short id.
Proof.
  intros Hid. split.
  - unfold Bench.prepared_id, enc_short. rewrite <-app_assoc. unfold short_ok in Hid.
    assert (Hk : forall r, slice (E:=str) (be 4 4 ++ r) 0 4 = Ok (be 4 4))
      by (intros r'; by apply (slice_app [] (be 4 4))).
    rewrite Hk. res_simpl.
    rewrite from_be_be_i by (lia || done). cbn [Z.eqb Pos.eqb negb].
    rewrite (slice_app (be 4 4) (be 2 _)) by (by rewrite ?length_be). res_simpl.
    rewrite from_be_len by (cbn; lia). rewrite Nat2Z.id.
    rewrite app_assoc. apply slice_app; rewrite length_app, !length_be; lia.
  - intros b. rewrite write_short_bytes_spec by done. by intros [= <-].
Qed.

Lemma result_prepared_inv {E} version stream id keyspace table binds pks cols comp f : short_ok id ->
  result_prepared (E:=E) version stream id keyspace table binds pks cols comp = Ok f ->
  exists body, response_frame (E:=E) version stream RespResult body comp = Ok f /\
    Bench.prepared_id body = Ok id.
Proof.
  intros Hid. unfold result_prepared.
  intros (b0 & Hb0 & Hf)%bind_Ok. apply (prepared_id_app (E:=E) id []) in Hb0 as ->; [|done].
  rewrite foldl_idx_app in Hf.
  apply bind_Ok in Hf as (b1 & ->%expect_string_inv & Hf).
  apply bind_Ok in Hf as (b2 & ->%expect_string_inv & Hf).
  apply bind_Ok in Hf as (b3 & (r1 & ->)%write_specs_inv & Hf).
  apply bind_Ok in Hf as (b4 & ->%expect_string_inv & Hf).
  apply bind_Ok in Hf as (b5 & ->%expect_string_inv & Hf).
  apply bind_Ok in Hf as (b6 & (r2 & ->)%write_specs_inv & Hf).
  eexists. split; [exact Hf|]. rewrite <-!app_assoc. by apply (prepared_id_app (E:=E)).
Qed.

Lemma result_prepared_sent {E} version stream id keyspace table binds pks cols comp :
  short_ok id -> short_ok keyspace -> short_ok table -> Forall spec_ok binds -> Forall spec_ok cols ->
  exists body,
    result_prepared (E:=E) version stream id keyspace table binds pks cols comp
      = response_frame version stream RespResult body comp /\
    Bench.prepared_id body = Ok id.
Proof.
  intros Hid Hks Htb Hbi Hco. unfold result_prepared.
  rewrite write_short_bytes_spec by done. cbn [expect]. res_simpl.
  rewrite foldl_idx_app. do 2 (rewrite expect_string by done; res_simpl).
  edestruct (write_specs_enc (E:=E) binds) as (e1 & He1 & _); [done|]. rewrite He1. res_simpl.
  do 2 (rewrite expect_string by done; res_simpl).
  edestruct (write_specs_enc (E:=E) cols) as (e2 & He2 & _); [done|]. rewrite He2. res_simpl.
  eexists. split; [done|]. rewrite <-!app_assoc. by apply (prepared_id_app (E:=E)).
Qed.

(** A PREPARE of a statement that parses. *)
Lemma request_prepare q stmt stream s cs :
  ast_ok parse s -> long_ok q -> text_ok q -> parse q = Some stmt ->
  exists s', ast_ok parse s' /\ (exists cache, s' = set_ast_cache cache s) /\
  request (req_code ReqPrepare) (enc_long q) stream (s, cs)
  = match prepared_info short_name (cs_keyspace cs) stmt s' with
    | (s2, Ok info) =>
      ((s2, register {| ps_stmt := stmt; ps_bind_types := snd <$> pi_bind_specs info |} cs),
       Reply <$> result_prepared 4 stream (next_id cs) (pi_keyspace info) (pi_table info)
                   (pi_bind_specs info) (pi_pk_indexes info) (pi_result_cols info) (compression cs))
    | (s2, Err e) => ((s2, cs), Err e)
    | (s2, Panic) => ((s2, cs), Panic)
    end.
Proof.
  intros Hast Hlen Htext Hparse. destruct (parse_cached_spec parse q s Hast) as (s' & Hpc & Hast' & Hcache).
  rewrite Hparse in Hpc. exists s'. split; [done|]. split; [done|]. rewrite request_known.
  unfold handle_prepare. rewrite <-(app_nil_r (enc_long q)), read_long_string_spec by done.
  rewrite (st_bind_eq _ _ _ (s, cs) (q, [])) by done. cbn iota.
  rewrite on_store_bind. unfold st_map_err. rewrite Hpc.
  rewrite (st_bind_eq _ _ _ (s', cs) (cs_keyspace cs)), on_store_bind by done.
  destruct (prepared_info _ _ _ s') as [s2 [info|e|]]; [|done|done].
  rewrite (st_bind_eq _ _ _ (s2, cs) (next_id cs)) by done.
  unfold on_conn, modify. unfold mbind, st_bind. cbn [fst snd]. unfold fmap, st_fmap, lift.
  by destruct (result_prepared _ _ _ _ _ _ _ _ _).
Qed.

Lemma next_id_short cs : short_ok (next_id cs).
Proof. unfold short_ok, next_id. rewrite length_be. lia. Qed.

(** C22: prepared statements.  When a PREPARE of a text is answered with a
    result, the client finds an id in that result, and an EXECUTE of the id with
    the number of values the prepared result announces runs the statement the parser returned for the
    text - in the keyspace of the session at that time - after any sequence of up
    to 65535 further requests of the connection, whatever they are and whatever
    happened to the storage meanwhile. *)
Theorem prepare_then_execute q stmt stream s cs s1 cs1 f n cs2 :
  ast_ok parse s -> id_ok cs -> long_ok q -> text_ok q -> parse q = Some stmt ->
  request (req_code ReqPrepare) (enc_long q) stream (s, cs) = ((s1, cs1), Ok (Reply f)) ->
  served parse short_name n cs1 cs2 -> (Z.of_nat n < 2 ^ 16)%Z ->
  exists id body info cache,
    prepared_info short_name (cs_keyspace cs) stmt (set_ast_cache cache s) = (s1, Ok info) /\
    response_frame (E:=QueryError) 4 stream RespResult body (compression cs) = Ok f /\
    (long_ok body -> delivers RespResult (compression cs) body f) /\
    Bench.prepared_id body = Ok id /\
    forall p stream' s2, params_ok p -> length (qp_values p) = length (pi_bind_specs info) ->
      request (req_code ReqExecute) (execute_body id p) stream' (s2, cs2)
      = run_prepared stmt p stream' cs2 (s2, cs2).
Proof.
  intros Hast Hid Hlen Htext Hparse Hreq Hserved Hn.
  destruct (request_prepare q stmt stream s cs Hast Hlen Htext Hparse) as (s' & _ & [cache ->] & Heq).
  rewrite Hreq in Heq. destruct (prepared_info _ _ _ _) as [s3 [info|e|]] eqn:Hinfo; [|done|done].
  injection Heq as -> -> Hf. symmetry in Hf. apply fmap_Ok in Hf as (f' & Hf & [= ->]).
  apply result_prepared_inv in Hf as (body & Hbody & Hpid); [|apply next_id_short].
  set (ps := {| ps_stmt := stmt; ps_bind_types := _ |}) in *.
  exists (next_id cs), body, info, cache. split; [done|]. split; [done|]. split; [|split; [done|]].
  - intros Hb. destruct (response_frame_delivers (E:=QueryError) 4 stream RespResult body (compression cs) Hb)
      as (f & Hf & Hd & _). rewrite Hbody in Hf. by injection Hf as ->.
  - intros p stream' s2 Hp Hvals. apply (request_execute _ _ ps); [apply next_id_short|done| |by cbn; rewrite length_fmap].
    destruct (served_registered _ _ _ _ _ Hserved) as (l & Hl & Hsame & _). rewrite Hsame.
    apply registered_lookup; [done|lia].
Qed.

(** Ids run out: the 65536th registration after a statement gets its id, and
    EXECUTE of that id then runs the later statement. *)
Theorem prepared_id_reused p ps q cs : id_ok cs -> Z.of_nat (length ps) = (2 ^ 16 - 1)%Z ->
  next_id (registered ps (register p cs)) = next_id cs /\
  cs_prepared (registered ps (register p cs)) !! next_id cs = Some p /\
  cs_prepared (register q (registered ps (register p cs))) !! next_id cs = Some q.
Proof.
  intros Hid Hlen.
  assert (Hn : next_id (registered ps (register p cs)) = next_id cs).
  { unfold next_id. f_equal. rewrite registered_next by apply register_id_ok. cbn [register cs_next_prepared_id].
    unfold uwrap. rewrite Zplus_mod_idemp_l, Hlen. apply in_u_spec in Hid.
    replace (_ + 1 + (2 ^ 16 - 1))%Z with (cs_next_prepared_id cs + 1 * 2 ^ 16)%Z by lia.
    rewrite Z.mod_add by lia. by apply Z.mod_small. }
  split; [done|]. split; [apply registered_lookup; [done|lia]|]. cbn. rewrite Hn. apply lookup_insert_eq.
Qed.
End prepared.

(** ** A session *)

Section one_session.
Context `{KVLaws} `{JsonLaws} `{UnicodeCase} `{Literals} `{WireLaws}.
Context (parse : str -> option CassandraStatement) (short_name : CassandraStatement -> str).

Abbreviation request := (handle_request parse short_name).

(** The request is answered with a result of this [body]; as long as the body is
    shorter than 2 GiB, the answer is a frame in which the client finds it. *)
Definition answers (comp : option Compression) (body : bytes) (r : res QueryError Outcome) : Prop :=
  (exists version stream, r = Reply <$> response_frame version stream RespResult body comp) /\
  (long_ok body -> exists f, r = Ok (Reply f) /\ delivers RespResult comp body f).

Lemma response_answers version stream body comp :
  answers comp body (Reply <$> response_frame version stream RespResult body comp).
Proof.
  split; [by eexists _, _|]. intros Hb.
  destruct (response_frame_delivers (E:=QueryError) version stream RespResult body comp Hb)
    as (f & -> & Hd & _). by exists f.
Qed.

Lemma ast_represents s c cache : represents s c -> represents (set_ast_cache cache s) c.
Proof. intros [H1' H2' H3' H4']. by split. Qed.

Section one_table.
Context (c : Cat) (ks : str) (table : TableDef).
Hypothesis ks_clean : no_bang ks.
Hypothesis table_known : cat_tb c !! (ks, td_name table) = Some table.
Hypothesis table_ok : table_wf table.

Lemma column_of_name n i cd : td_columns table !! i = Some cd -> col_name cd = n -> column table n = Some cd.
Proof.
  intros Hc <-. pose proof (column_index_lookup table i cd (proj1 table_ok) Hc) as Hi.
  destruct (column_index_Some _ _ _ Hi) as (cd' & Hc' & _ & Hcol). rewrite Hc in Hc'. by injection Hc' as ->.
Qed.

(** [prepared_info] succeeds with [info] and may only fill the table map. *)
Definition prepares (stmt : CassandraStatement) (info : PreparedInfo) : Prop :=
  forall sess s, represents s c ->
  exists T, prepared_info short_name sess stmt s = (set_tables T s, Ok info) /\ represents (set_tables T s) c.

Lemma prepared_insert :
  exists pks, prepares (StInsert (insert_all ks table))
    {| pi_keyspace := ks; pi_table := td_name table; pi_bind_specs := all_cols table;
       pi_pk_indexes := pks; pi_result_cols := [] |}.
Proof.
  eexists. intros sess s Hrep. destruct (resolve_table_eq s c sess ks (td_name table) table Hrep ks_clean table_known)
    as (T & Hres & HrT). exists T. split; [|done]. unfold prepared_info. cbn [ins_table_name insert_all].
  rewrite (st_bind_eq _ _ _ _ _ Hres). cbn iota.
  rewrite (st_bind_eq _ _ _ (set_tables T s) (all_cols table)); [reflexivity|].
  unfold lift. f_equal. cbn [ins_columns insert_all]. apply map_res_Ok. unfold all_cols.
  rewrite <-list_fmap_compose. apply Forall2_fmap, Forall_Forall2_diag, Forall_lookup. intros i cd Hc. cbn.
  by rewrite (column_of_name _ i cd Hc eq_refl).
Qed.

Lemma where_binds_keys names out :
  Forall (fun n => n ∈ col_name <$> td_columns table) names ->
  exists specs, collect_where_binds table ((fun n => {| rel_obj := OpColumn (Quoted n); rel_oper := RelEqual;
      rel_value := OpParam [] |}) <$> names) out = Ok (out ++ specs) /\
    length specs = length names /\ Forall (fun sp => sp ∈ all_cols table) specs.
Proof.
  intros Hn. revert out. induction Hn as [|n names Hn Hns IH]; intros out.
  { exists []. by rewrite app_nil_r. }
  apply list_elem_of_fmap in Hn as (cd & -> & [i Hc]%list_elem_of_lookup).
  destruct (IH (out ++ [(col_name cd, col_type cd)])) as (specs & Hs & Hl & Hf).
  exists ((col_name cd, col_type cd) :: specs). cbn [fmap list_fmap collect_where_binds rel_obj rel_value norm_id].
  rewrite (column_of_name _ i cd Hc eq_refl). cbn [ok_or]. res_simpl. rewrite Hs, <-app_assoc.
  split; [done|]. cbn [length]. split; [by rewrite Hl|]. constructor; [|done].
  apply list_elem_of_fmap. exists cd. split; [done|]. by eapply list_elem_of_lookup_2.
Qed.

Lemma prepared_select :
  exists specs, length specs = length (key_names table) /\ Forall (fun sp => sp ∈ all_cols table) specs /\
    prepares (StSelect (select_row ks table))
      {| pi_keyspace := ks; pi_table := td_name table; pi_bind_specs := specs;
         pi_pk_indexes := []; pi_result_cols := all_cols table |}.
Proof.
  destruct (where_binds_keys (key_names table) []) as (specs & Hs & Hl & Hf); [apply table_ok|].
  exists specs. split; [done|]. split; [done|]. intros sess s Hrep.
  destruct (resolve_table_eq s c sess ks (td_name table) table Hrep ks_clean table_known) as (T & Hres & HrT).
  exists T. split; [|done]. unfold prepared_info. cbn [sel_table_name select_row].
  rewrite (st_bind_eq _ _ _ _ _ Hres). cbn iota.
  rewrite (st_bind_eq _ _ _ (set_tables T s) specs)
    by (unfold lift; cbn [sel_where select_row]; by rewrite Hs).
  reflexivity.
Qed.

Section fits.
Hypothesis ks_short : short_ok ks.
Hypothesis table_short : short_ok (td_name table).
Hypothesis cols_ok : Forall spec_ok (all_cols table).

Lemma prepare_answers q stmt info stream s cs :
  long_ok q -> text_ok q -> parse q = Some stmt -> represents s c -> ast_ok parse s ->
  prepares stmt info -> pi_keyspace info = ks -> pi_table info = td_name table ->
  Forall spec_ok (pi_bind_specs info) -> Forall spec_ok (pi_result_cols info) ->
  exists s' body r,
    represents s' c /\ ast_ok parse s' /\
    Bench.prepared_id body = Ok (next_id cs) /\ answers (compression cs) body r /\
    request (req_code ReqPrepare) (enc_long q) stream (s, cs)
      = ((s', register {| ps_stmt := stmt; ps_bind_types := snd <$> pi_bind_specs info |} cs), r).
Proof.
  intros Hlen Htext Hparse Hrep Hast Hinfo Hk Ht Hb Hr.
  destruct (request_prepare parse short_name q stmt stream s cs Hast Hlen Htext Hparse)
    as (s' & Hast' & [cache ->] & Heq).
  destruct (Hinfo (cs_keyspace cs) _ (ast_represents s c cache Hrep)) as (T & HT & HrT).
  rewrite HT, Hk, Ht in Heq.
  destruct (result_prepared_sent (E:=QueryError) 4 stream (next_id cs) ks (td_name table) (pi_bind_specs info)
    (pi_pk_indexes info) (pi_result_cols info) (compression cs)) as (body & Hbody & Hid);
    [apply next_id_short|done..|]. rewrite Hbody in Heq.
  eexists _, body, _. split; [exact HrT|]. split; [by apply Hast'|]. split; [done|].
  split; [|exact Heq]. apply response_answers.
Qed.

Context (vals : list Value) (keys : list (nat * Value)).
Hypothesis ks_user : ks ∉ SYSTEM_KEYSPACES.
Hypothesis vals_ok : Forall2 (fun c v => cell_ok (col_type c) v = true /\ fits v = true)
  (td_columns table) vals.
Hypothesis keys_at : Forall2 (key_at table vals) (key_names table) keys.
Hypothesis row_short : (Z.of_nat (length (encode_row_columns (reg_row table vals))) < 2 ^ 63)%Z.
Let row := OneRow ks (td_name table) (key_parts keys).

(** EXECUTE of the INSERT: it waits for one ticket, then answers with a void result. *)
Lemma execute_insert p stream s rs cs : represents s c -> no_stale row s rs -> qp_values p = to_raw <$> vals ->
  exists s' t pend, run_prepared short_name (StInsert (insert_all ks table)) p stream cs (s, cs)
    = ((s', cs), Ok (Settle [t] pend)) /\ represents s' c /\
    stands row [t] (Some (encode_row_columns (reg_row table vals))) (s', rs) /\ issued s' t /\
    forall sc, after_settle pend sc
      = (sc, response_frame 4 stream RespResult (be 4 0x0001) (compression cs)).
Proof.
  intros Hrep Hrs Hv.
  destruct (exec_insert_all short_name c ks table vals keys ks_clean ks_user table_known table_ok vals_ok keys_at
    (cs_keyspace cs) (qp_page_size p) (qp_paging_state p) s rs Hrep Hrs) as (s' & t & Hins & Hr & Hst & _ & Hiss).
  exists s', t. eexists. split; [|split; [done|split; [done|split; [done|]]]].
  - unfold run_prepared. rewrite on_store_bind, Hv, Hins. reflexivity.
  - intros sc. unfold after_settle. cbn [pd_session pd_resp pd_stream pd_compression pd_skip_metadata].
    rewrite (st_bind_eq _ _ _ sc ()) by done. unfold lift, or_error, respond, result_void. f_equal.
    by destruct (response_frame_delivers (E:=QueryError) 4 stream RespResult (be 4 1) (compression cs))
      as (f & -> & _).
Qed.

Lemma settle_reply p sc : pd_session p = false ->
  (Reply <$> after_settle p) sc
  = (sc, Reply <$> or_error 4 (pd_stream p) (pd_compression p)
           (respond 4 (pd_stream p) (pd_compression p) (Ok (pd_resp p)) (pd_skip_metadata p))).
Proof.
  intros Hp. unfold fmap, st_fmap, after_settle. rewrite Hp.
  rewrite (st_bind_eq _ _ _ sc ()) by done. unfold lift. by destruct (or_error _ _ _ _).
Qed.

Lemma row_rows_ok : rows_ok ks (td_name table) (all_cols table) [vals] None.
Proof.
  split; try done.
  - unfold all_cols. rewrite length_fmap. destruct table_ok as (_ & _ & _ & _ & _ & Hl). lia.
  - constructor; [|done]. unfold row_typed, all_cols. rewrite <-list_fmap_compose.
    apply Forall2_fmap_l. exact vals_ok.
Qed.

(** EXECUTE of the SELECT, once the write is settled. *)
Lemma execute_select p stream s rs cs t : represents s c ->
  stands row [t] (Some (encode_row_columns (reg_row table vals))) (s, rs) ->
  ticket_done s t = true -> qp_values p = (fun iv => to_raw (snd iv)) <$> keys ->
  exists s' body r, run_prepared short_name (StSelect (select_row ks table)) p stream cs (s, cs)
    = ((s', cs), r) /\ answers (compression cs) body r /\
    read_rows false (all_cols table) body
      = Some {| rr_table := if qp_skip_metadata p then None else Some (ks, td_name table);
                rr_cols := all_cols table; rr_rows := [vals]; rr_paging := None |}.
Proof.
  intros Hrep Hst Hd Hv.
  destruct (exec_select_row short_name c ks table vals keys ks_clean ks_user table_known table_ok vals_ok keys_at
    row_short (cs_keyspace cs) (qp_page_size p) (qp_paging_state p) s rs t Hrep Hst Hd) as (s' & Hsel).
  destruct (result_rows_body (E:=QueryError) 4 stream _ _ _ _ (qp_skip_metadata p) _ (compression cs) row_rows_ok)
    as (body & Hbody & Hread).
  eexists s', body, _. split; [|split; [|apply (Hread false)]].
  - unfold run_prepared. rewrite on_store_bind, Hv, Hsel. unfold settle_then. by apply settle_reply.
  - cbn [pd_stream pd_compression pd_resp pd_skip_metadata respond]. rewrite Hbody.
    assert (Hor : or_error 4 stream (compression cs) (response_frame 4 stream RespResult body (compression cs))
      = response_frame 4 stream RespResult body (compression cs)).
    { unfold response_frame. destruct (compression cs) as [cm|]; [|done]. by destruct (compress cm body). }
    rewrite Hor. apply response_answers.
Qed.
End fits.
End one_table.

(** C2: a session on the wire.  A client prepares an INSERT of all columns and a
    point SELECT of a user table, takes the two ids from the answers, and executes
    the INSERT with a well-typed row: the server waits for one ticket and answers
    with a void result once it is completed; the EXECUTE of the SELECT with the key
    of the row is then answered with a Rows result in which the client finds the
    columns of the table and exactly the inserted row, value for value.  Every
    answer is a frame the client reads, compressed or not.  In between the pipeline
    threads run and other requests do what they like to other rows, other tables
    and keyspaces, and read this row too, as long as nobody else writes it,
    truncates or drops its table, and no read of it carries an older stored version
    into the row cache ([no_stale], [may_find]). *)
Theorem session_insert_select s c cs ks table vals qi qs stream1 stream2 :
  represents s c -> ast_ok parse s -> id_ok cs -> no_bang ks -> ks ∉ SYSTEM_KEYSPACES ->
  cat_tb c !! (ks, td_name table) = Some table -> table_wf table ->
  short_ok ks -> short_ok (td_name table) -> Forall spec_ok (all_cols table) ->
  Forall2 (fun c v => cell_ok (col_type c) v = true /\ fits v = true) (td_columns table) vals ->
  (forall i c v, td_columns table !! i = Some c -> vals !! i = Some v -> is_regular c = false ->
     value_eqb v VNull = false /\ value_eqb v v = true) ->
  (Z.of_nat (length (encode_row_columns (reg_row table vals))) < 2 ^ 63)%Z ->
  long_ok qi -> text_ok qi -> parse qi = Some (StInsert (insert_all ks table)) ->
  long_ok qs -> text_ok qs -> parse qs = Some (StSelect (select_row ks table)) ->
  exists keys s1 cs1 r1 body1 id1 s2 cs2 r2 body2 id2,
    Forall2 (key_at table vals) (key_names table) keys /\
    request (req_code ReqPrepare) (enc_long qi) stream1 (s, cs) = ((s1, cs1), r1) /\
    answers (compression cs) body1 r1 /\ Bench.prepared_id body1 = Ok id1 /\
    request (req_code ReqPrepare) (enc_long qs) stream2 (s1, cs1) = ((s2, cs2), r2) /\
    answers (compression cs) body2 r2 /\ Bench.prepared_id body2 = Ok id2 /\
    let row := OneRow ks (td_name table) (key_parts keys) in
    forall p stream3 rs, params_ok p -> qp_values p = to_raw <$> vals -> no_stale row s2 rs ->
    exists s3 ticket pend,
      request (req_code ReqExecute) (execute_body id1 p) stream3 (s2, cs2)
        = ((s3, cs2), Ok (Settle [ticket] pend)) /\ rtc thread s3 (quiesce s3) /\
      settled (quiesce s3) [ticket] = true /\
      forall s4 rs4, rtc (others row [ticket]) (s3, rs) (s4, rs4) -> settled s4 [ticket] = true ->
        (exists r4, after_settle pend (s4, cs2) = ((s4, cs2), r4) /\
           answers (compression cs) (be 4 0x0001) (Reply <$> r4)) /\
        forall p' stream4, params_ok p' -> qp_values p' = (fun iv => to_raw (snd iv)) <$> keys ->
        exists s5 r5 body,
          request (req_code ReqExecute) (execute_body id2 p') stream4 (s4, cs2) = ((s5, cs2), r5) /\
          answers (compression cs) body r5 /\
          read_rows false (all_cols table) body
            = Some {| rr_table := if qp_skip_metadata p' then None else Some (ks, td_name table);
                      rr_cols := all_cols table; rr_rows := [vals]; rr_paging := None |}.
Proof.
  intros Hrep Hast Hid Hn Hsys Htab Hwf Hks Htb Hcols Hv Hk Hrow Hqi Hti Hpi Hqs Hts Hps.
  destruct (keys_exist table vals Hwf Hv Hk) as (keys & Hkeys).
  destruct (prepared_insert c ks table Hn Htab Hwf) as (pks & Hpri).
  destruct (prepared_select c ks table Hn Htab Hwf) as (specs & Hl & Hspecs & Hprs).
  assert (Hspecs' : Forall spec_ok specs).
  { eapply Forall_impl; [exact Hspecs|]. intros sp Hsp. by eapply Forall_forall in Hcols. }
  edestruct (prepare_answers c ks table Hks Htb qi _ _ stream1 s cs Hqi Hti Hpi Hrep Hast Hpri)
    as (s1 & body1 & r1 & Hr1 & Ha1 & Hid1 & Han1 & Hreq1); [done..|].
  set (p1 := {| ps_stmt := _; ps_bind_types := _ |}) in Hreq1.
  edestruct (prepare_answers c ks table Hks Htb qs _ _ stream2 s1 (register p1 cs) Hqs Hts Hps Hr1 Ha1 Hprs)
    as (s2 & body2 & r2 & Hr2 & Ha2 & Hid2 & Han2 & Hreq2); [done..|].
  set (p2 := {| ps_stmt := StSelect _; ps_bind_types := _ |}) in Hreq2.
  exists keys, s1, (register p1 cs), r1, body1, (next_id cs), s2, (registered [p2] (register p1 cs)), r2, body2,
    (next_id (register p1 cs)).
  do 7 (split; [done|]). intros row p stream3 rs Hp Hpv Hrs.
  destruct (execute_insert c ks table Hn Htab Hwf vals keys Hsys Hv Hkeys p stream3 s2 rs
    (registered [p2] (register p1 cs)) Hr2 Hrs Hpv) as (s3 & t & pend & Hrun & Hr3 & Hst & Hiss & Hafter).
  exists s3, t, pend. split.
  { rewrite <-Hrun. apply (request_execute parse short_name _ _ p1); [apply next_id_short|done| |].
    - by apply registered_lookup.
    - cbn. unfold all_cols. rewrite Hpv, !length_fmap. symmetry. by eapply Forall2_length. }
  split; [apply quiesce_thread|]. split; [apply settled_one, quiesce_done; [apply Hr3|done]|]. intros s4 rs4 Hoth Hset.
  destruct (others_rtc_represents _ _ _ _ _ Hoth Hr3) as (c4 & Hr4 & Htab4 & _).
  cbn [claim_ks claim_tb row] in Htab4. rewrite Htab in Htab4.
  assert (Hd : ticket_done s4 t = true) by (cbn in Hset; by rewrite andb_true_r in Hset).
  split; [eexists; split; [apply Hafter|apply response_answers]|].
  intros p' stream4 Hp' Hpv'.
  destruct (execute_select c4 ks table Hn Htab4 Hwf Hks Htb Hcols vals keys Hsys Hv Hkeys Hrow p' stream4 s4 rs4
    (registered [p2] (register p1 cs)) t Hr4) as (s5 & body & r5 & Hrun5 & Hans & Hread); [|done|done|].
  { by apply (stands_rtc _ _ _ _ _ Hoth). }
  exists s5, r5, body. split; [|by split].
  rewrite <-Hrun5. apply (request_execute parse short_name _ _ p2); [apply next_id_short|done| |].
  - cbn. apply lookup_insert_eq.
  - cbn. rewrite Hpv', !length_fmap, Hl. symmetry. by eapply Forall2_length.
Qed.
End one_session.

(** ** A concrete session *)

Definition demo_insert : str := bs "INSERT INTO ks.t (..) VALUES (?, ?, ?)".
Definition demo_select : str := bs "SELECT * FROM ks.t WHERE ..".
Definition demo_statements (q : str) : option CassandraStatement :=
  if bool_decide (q = demo_insert) then Some (StInsert (insert_all (bs "ks") demo_table))
  else if bool_decide (q = demo_select) then Some (StSelect (select_row (bs "ks") demo_table))
  else None.
Definition demo_store : @Storage mem_kv := fst (put_table (H0 := bits_json) demo_table empty_storage).

Abbreviation demo_request := (handle_request (H := mem_kv) (H0 := bits_json) (H1 := ascii_case)
  (H2 := no_literals) (H3 := cql_wire) demo_statements (fun _ => [])).

Lemma demo_store_represents : exists c, represents (H0 := mem_kv_laws) (H1 := bits_json) demo_store c /\
  cat_tb c !! (bs "ks", bs "t") = Some demo_table.
Proof.
  destruct (put_table_refines (H0 := mem_kv_laws) (H2 := bits_json_laws) empty_storage empty_cat demo_table
    empty_represents) as (s & Hput & Hrep); [by_compute|].
  unfold demo_store. rewrite Hput. eexists. split; [exact Hrep|].
  exact (lookup_insert_eq (M := gmap (str * str)) _ _ _).
Qed.
Lemma demo_ast_ok : ast_ok demo_statements demo_store.
Proof. split; [|vm_compute; lia]. intros q stmt. vm_compute. intros Hq. discriminate Hq. Qed.

Definition plain_params (values : list RawValue) : QueryParameters :=
  {| qp_values := values; qp_skip_metadata := false; qp_page_size := None; qp_paging_state := None |}.

Lemma session_insert_select_witness :
  exists keys s2 cs2 id1 id2 s3 ticket pend,
    demo_request (req_code ReqExecute) (execute_body id1 (plain_params (to_raw <$> demo_vals))) 3 (s2, cs2)
      = ((s3, cs2), Ok (Settle [ticket] pend)) /\
    settled (quiesce s3) [ticket] = true /\
    (exists s5 r5 body,
       demo_request (req_code ReqExecute)
         (execute_body id2 (plain_params ((fun iv : nat * Value => to_raw (snd iv)) <$> keys))) 4 (quiesce s3, cs2)
         = ((s5, cs2), r5) /\
       answers (H5 := cql_wire) None body r5 /\
       read_rows false (all_cols demo_table) body
         = Some {| rr_table := Some (bs "ks", bs "t"); rr_cols := all_cols demo_table; rr_rows := [demo_vals];
                   rr_paging := None |}).
Proof.
  destruct demo_store_represents as (c & Hrep & Htab).
  destruct (session_insert_select (H0 := mem_kv_laws) (H2 := bits_json_laws) (H3 := ascii_case) (H4 := no_literals)
    (H6 := cql_wire_laws) demo_statements (fun _ => []) demo_store c new_conn (bs "ks") demo_table demo_vals
    demo_insert demo_select 1 2 Hrep demo_ast_ok)
    as (keys & s1 & cs1 & r1 & body1 & id1 & s2 & cs2 & r2 & body2 & id2 & Hkeys & _ & _ & _ & _ & _ & _ & Hexec).
  - reflexivity.
  - by_compute.
  - by_compute.
  - exact Htab.
  - exact demo_table_ok.
  - by_compute.
  - by_compute.
  - repeat constructor.
  - exact demo_vals_ok.
  - exact demo_vals_keys.
  - vm_compute. reflexivity.
  - by_compute.
  - by_compute.
  - reflexivity.
  - by_compute.
  - by_compute.
  - reflexivity.
  - destruct (Hexec (plain_params (to_raw <$> demo_vals)) 3%Z []) as (s3 & ticket & pend & Hreq & Hth & Hset & Hdone);
      [by_compute|reflexivity|apply Forall_nil_2|].
    exists keys, s2, cs2, id1, id2, s3, ticket, pend. split; [exact Hreq|]. split; [exact Hset|].
    destruct (Hdone (quiesce s3) [] (thread_others _ _ _ _ _ Hth) Hset) as [_ Hsel].
    destruct (Hsel (plain_params ((fun iv : nat * Value => to_raw (snd iv)) <$> keys)) 4%Z)
      as (s5 & r5 & body & Hr5 & Ha5 & Hread); [|reflexivity|].
    + split; [|split; [|split; exact I]]; cbn [qp_values plain_params].
      * apply Forall_fmap, Forall_lookup. intros j iv Hj.
        destruct (Forall2_lookup_r _ _ _ _ _ Hkeys Hj) as (n & _ & _ & Hv & _).
        destruct iv as [[|[|[|i]]] v]; cbn in Hv; try discriminate Hv; injection Hv as <-; by_compute.
      * rewrite length_fmap, <-(Forall2_length _ _ _ Hkeys). by_compute.
    + exists s5, r5, body. split; [exact Hr5|]. split; [exact Ha5|exact Hread].
Defined.

Lemma prepare_then_execute_witness :
  exists s1 cs1 f id body,
    demo_request (req_code ReqPrepare) (enc_long demo_select) 1 (demo_store, new_conn) = ((s1, cs1), Ok (Reply f)) /\
    Bench.prepared_id body = Ok id /\
    forall p stream s2, params_ok p -> length (qp_values p) = 2 ->
      demo_request (req_code ReqExecute) (execute_body id p) stream (s2, cs1)
      = run_prepared (H := mem_kv) (H0 := bits_json) (H1 := ascii_case) (H2 := no_literals) (H3 := cql_wire)
          (fun _ => []) (StSelect (select_row (bs "ks") demo_table)) p stream cs1 (s2, cs1).
Proof.
  destruct (demo_request (req_code ReqPrepare) (enc_long demo_select) 1 (demo_store, new_conn))
    as [[s1 cs1] r] eqn:Hreq.
  assert (Hr : match r with Ok (Reply _) => true | _ => false end = true).
  { change r with (snd ((s1, cs1), r)). rewrite <-Hreq. vm_compute. reflexivity. }
  destruct r as [[f|gates p]|e|]; try discriminate Hr.
  destruct (prepare_then_execute (H := mem_kv) (H0 := bits_json) (H1 := ascii_case) (H2 := no_literals)
    (H4 := cql_wire_laws) demo_statements (fun _ => []) demo_select (StSelect (select_row (bs "ks") demo_table)) 1
    demo_store new_conn s1 cs1 f 0 cs1 demo_ast_ok) as (id & body & info & cache & Hinfo & _ & _ & Hid & Hexec).
  - reflexivity.
  - by_compute.
  - by_compute.
  - reflexivity.
  - exact Hreq.
  - apply served_nil.
  - lia.
  - exists s1, cs1, f, id, body. split; [reflexivity|]. split; [exact Hid|].
    intros p stream s2 Hp Hl. apply Hexec; [exact Hp|]. rewrite Hl.
    assert (Hn : match snd (prepared_info (H := mem_kv) (H0 := bits_json) (H1 := ascii_case) (fun _ => []) None
        (StSelect (select_row (bs "ks") demo_table)) (set_ast_cache cache demo_store)) with
      | Ok info => length (pi_bind_specs info) = 2 | _ => False end) by (vm_compute; reflexivity).
    cbn [cs_keyspace new_conn] in Hinfo. rewrite Hinfo in Hn. cbn in Hn. symmetry. exact Hn.
Defined.
