(* ===== verification/Conn.v ===== *)
(** * Connections: what every client can rely on

    Theorems about the transition system of [Server], the reader, the spawned
    requests and the writer of one connection.  Runs let the storage be anything
    at every step, so they cover whatever other connections and the pipeline
    threads do. *)

From S2P Require Import Prelude RustStr Ast Schema CqlValue Keys Project Kv Pipeline Storage Rows.
From S2P Require Import Catalog Query Wire Protocol Server Client Frames Dml Statements Session.

(** ** What a run shows *)

(** Streams accepted, streams answered or lost, responses sent. *)
Definition accepted (ev : list Event) : list Z :=
  omap (fun e => match e with EvAccept st => Some st | _ => None end) ev.
Definition finished (ev : list Event) : list Z :=
  omap (fun e => match e with EvSent st _ | EvLost st => Some st | _ => None end) ev.
Definition lost (ev : list Event) : list Z :=
  omap (fun e => match e with EvLost st => Some st | _ => None end) ev.
Definition responses (ev : list Event) : list bytes :=
  omap (fun e => match e with EvSent _ f => Some f | _ => None end) ev.

(** Requests in progress. *)
Definition reader_streams (r : Reader) : list Z :=
  match r with
  | RdInline st _ | RdPermit st _ _ | RdBye st _ => [st]
  | RdFrame | RdClosed => []
  end.
Definition pending (c : Conn) : list Z := reader_streams (c_reader c) ++ (fst <$> c_tasks c).

Section runs.
Context `{KV} `{Json} `{UnicodeCase} `{Literals} `{Wire}.
Context (parse : str -> option CassandraStatement) (short_name : CassandraStatement -> str).
Context (rt : Runtime).

(** A response frame with this stream id. *)
Definition for_stream (stream : Z) (f : bytes) : Prop :=
  exists version flags op payload, f = header version flags stream (resp_u8 op) payload.
Lemma for_stream_bytes stream f : for_stream stream f -> take 2 (drop 2 f) = be 2 stream.
Proof.
  intros (version & flags & op & payload & ->). unfold header. pose proof (length_be 2 stream) as Hl.
  by destruct (be 2 stream) as [|a [|b [|? ?]]].
Qed.

Abbreviation step := (conn_step parse short_name rt).
Abbreviation request := (handle_request parse short_name).

Inductive conn_run (c : Conn) : list Event -> Conn -> Prop :=
| run_nil : conn_run c [] c
| run_step ev c1 l s s' c2 ev' :
    conn_run c ev c1 -> step l s c1 = Some (s', c2, ev') -> conn_run c (ev ++ ev') c2.

(** Steps in a given order. *)
Fixpoint run_labels (ls : list ConnLabel) (s : Storage) (c : Conn) : option (Storage * Conn * list Event) :=
  match ls with
  | [] => Some (s, c, [])
  | l :: ls' =>
    '(s1, c1, ev) ← step l s c;
    '(s2, c2, ev') ← run_labels ls' s1 c1;
    Some (s2, c2, ev ++ ev')
  end.

Lemma run_labels_run ls s c s' c' ev : run_labels ls s c = Some (s', c', ev) -> conn_run c ev c'.
Proof.
  enough (Hgen : forall c0 ev0, conn_run c0 ev0 c -> run_labels ls s c = Some (s', c', ev) ->
    conn_run c0 (ev0 ++ ev) c') by exact (Hgen c [] (run_nil c)).
  revert s c ev. induction ls as [|l ls IH]; intros s c ev c0 ev0 Hrun; cbn [run_labels].
  - intros [= <- <- <-]. by rewrite app_nil_r.
  - intros ([[s1 c1] ev1] & Hs & ([[s2 c2] ev2] & Hr & [= <- <- <-])%bind_Some)%bind_Some.
    rewrite app_assoc. eapply IH; [|exact Hr]. by eapply run_step.
Qed.

(** What one step of a request may change. *)
Lemma advance_inv stream ph s c s' c' m : advance parse short_name stream ph s c = Some (s', c', m) ->
  c_tasks c' = c_tasks c /\ c_reader c' = c_reader c /\
  match m with
  | Sent resp => ph = PhSend resp /\ send_resp resp c = Some c'
  | _ => c_resp c' = c_resp c /\ c_writer c' = c_writer c /\ c_out c' = c_out c /\
         (forall resp, ph <> PhSend resp)
  end.
Proof.
  destruct ph as [op body|gates p|resp]; cbn [advance].
  - destruct (request op body stream (s, c_state c)) as [[s1 cs] r]. intros [= <- <- <-].
    split; [done|]. split; [done|]. unfold conclude. by repeat case_match.
  - destruct (settled s gates); [|done]. destruct (after_settle p (s, c_state c)) as [[s1 cs] r].
    intros [= <- <- <-]. split; [done|]. split; [done|]. unfold conclude. by repeat case_match.
  - intros (c1 & Hs & [= <- <- <-])%bind_Some. revert Hs. unfold send_resp.
    destruct (negb (c_writer c)) eqn:E1; [by intros [= <-]|].
    destruct (length (c_resp c) <? CHANNEL) eqn:E2; [|done]. by intros [= <-].
Qed.

Lemma send_resp_inv resp c c' : send_resp resp c = Some c' ->
  c_tasks c' = c_tasks c /\ c_reader c' = c_reader c /\ c_writer c' = c_writer c /\ c_out c' = c_out c /\
  (c_resp c' = if c_writer c then c_resp c ++ [resp] else c_resp c) /\
  (c_writer c = true -> length (c_resp c) < CHANNEL).
Proof.
  unfold send_resp. destruct (c_writer c) eqn:Hw; cbn [negb].
  - destruct (length (c_resp c) <? CHANNEL) eqn:E; [|done]. apply Nat.ltb_lt in E. by intros [= <-].
  - by intros [= <-].
Qed.

(** Case analysis on the reader, with the facts about the step. *)
Lemma reader_step_inv s c s' c' ev : reader_step parse short_name s c = Some (s', c', ev) ->
  accepted ev ++ reader_streams (c_reader c) ++ (fst <$> c_tasks c)
    ≡ₚ finished ev ++ reader_streams (c_reader c') ++ (fst <$> c_tasks c').
Proof.
  unfold reader_step. destruct (c_reader c) as [|stream ph|stream op body|stream resp|] eqn:Hr.
  - destruct (read_frame (c_state c) (c_in c) (c_fin c)) as [| | |stream r|stream r rest|stream op body rest];
      [done|by intros [= <- <- <-]..| | |].
    + destruct r; by intros [= <- <- <-].
    + destruct r; by intros [= <- <- <-].
    + intros [= <- <- <-]. by destruct (_ || _).
  - intros ([[s1 c1] m] & Ha & Hm)%bind_Some. apply advance_inv in Ha as (Ht & _ & _).
    destruct m; injection Hm as <- <- <-; cbn; by rewrite Ht.
  - destruct (length (c_tasks c) <? PER_CONN_INFLIGHT); [|done]. intros [= <- <- <-]. cbn.
    rewrite fmap_app. cbn. by rewrite Permutation_cons_append.
  - intros (c1 & (Ht & _)%send_resp_inv & [= <- <- <-])%bind_Some. cbn. by rewrite Ht.
  - done.
Qed.

Lemma task_step_inv j s c s' c' ev : task_step parse short_name j s c = Some (s', c', ev) ->
  accepted ev ++ reader_streams (c_reader c) ++ (fst <$> c_tasks c)
    ≡ₚ finished ev ++ reader_streams (c_reader c') ++ (fst <$> c_tasks c').
Proof.
  unfold task_step. intros ([stream ph] & Hj & ([[s1 c1] m] & Ha & Hm)%bind_Some)%bind_Some.
  apply advance_inv in Ha as (Ht & Hr & _).
  assert (Hdel : (fst <$> c_tasks c) ≡ₚ stream :: (fst <$> base.delete j (c_tasks c))).
  { rewrite (delete_Permutation _ _ _ Hj) at 1. done. }
  destruct m as [ph'|resp|]; injection Hm as <- <- <-; cbn; rewrite Hr.
  - rewrite list_fmap_insert. cbn. by rewrite list_insert_id by (by rewrite list_lookup_fmap, Hj).
  - rewrite Hdel. by rewrite Permutation_middle.
  - rewrite Hdel. by rewrite Permutation_middle.
Qed.

Lemma writer_step_inv n ok c c' : writer_step rt n ok c = Some c' ->
  c_reader c' = c_reader c /\ c_tasks c' = c_tasks c.
Proof.
  unfold writer_step. destruct (c_writer c); [|done]. intros ([pend rest] & _ & Hw)%bind_Some.
  destruct ok; by injection Hw as <-.
Qed.

Lemma step_pending l s c s' c' ev : step l s c = Some (s', c', ev) ->
  accepted ev ++ pending c ≡ₚ finished ev ++ pending c'.
Proof.
  unfold pending. destruct l as [b| | |j|n ok]; cbn [conn_step].
  - destruct (c_fin c); [done|]. by intros [= <- <- <-].
  - by intros [= <- <- <-].
  - apply reader_step_inv.
  - apply task_step_inv.
  - intros (c1 & (Hr & Ht)%writer_step_inv & [= <- <- <-])%bind_Some. by rewrite Hr, Ht.
Qed.

Lemma run_pending ev c : conn_run open_conn ev c -> accepted ev ≡ₚ finished ev ++ pending c.
Proof.
  unfold accepted, finished. induction 1 as [|ev c1 l s s' c2 ev' Hrun IH Hstep]; [done|].
  rewrite !omap_app, IH. apply step_pending in Hstep. unfold accepted, finished in Hstep.
  rewrite <-!(assoc_L (++)). f_equiv. by rewrite (Permutation_app_comm (pending c1)).
Qed.

(** C7: one answer per request.  At every point of every run of a connection, the
    stream ids of the accepted requests are, as a multiset, those that were
    answered or lost together with those of the requests still in progress: no
    request is answered twice, none is forgotten. *)
Theorem one_answer_per_request ev c : conn_run open_conn ev c ->
  accepted ev ≡ₚ finished ev ++ pending c.
Proof. apply run_pending. Qed.

(** ** Stream ids *)

(** Every response built for [stream] carries it. *)
Definition framed {E} (stream : Z) (r : res E bytes) : Prop := forall f, r = Ok f -> for_stream stream f.

Lemma framed_bind {E A} stream (m : res E A) (f : A -> res E bytes) :
  (forall a, framed stream (f a)) -> framed stream (m ≫= f).
Proof. intros Hf b (a & _ & Ha)%bind_Ok. by eapply Hf. Qed.
Lemma framed_response {E} version stream op body comp :
  framed stream (response_frame (E:=E) version stream op body comp).
Proof.
  unfold response_frame. apply framed_bind. intros [flags payload] f Hf.
  exists version, flags, op, payload. by injection Hf as <-.
Qed.
#[local] Hint Resolve framed_response : rhyda.
#[local] Hint Extern 5 (framed _ (mbind _ _)) => apply framed_bind; intros : rhyda.

Lemma framed_ready {E} version stream comp : framed stream (ready (E:=E) version stream comp).
Proof. unfold ready. eauto with rhyda. Qed.
Lemma framed_supported {E} version stream comp : framed stream (supported (E:=E) version stream comp).
Proof. unfold supported. eauto with rhyda. Qed.
Lemma framed_error {E} version stream code msg comp :
  framed stream (error (E:=E) version stream code msg comp).
Proof. unfold error. eauto with rhyda. Qed.
Lemma framed_prepared {E} version stream id ks tb binds pks cols comp :
  framed stream (result_prepared (E:=E) version stream id ks tb binds pks cols comp).
Proof. unfold result_prepared. eauto 10 with rhyda. Qed.
#[local] Hint Resolve framed_ready framed_supported framed_error framed_prepared : rhyda.

Lemma framed_respond stream comp resp skip :
  framed stream (or_error 4 stream comp (respond 4 stream comp (Ok resp) skip)).
Proof.
  assert (Hr : framed stream (respond 4 stream comp (Ok resp) skip)).
  { destruct resp; cbn [respond]; unfold result_rows, result_void, result_set_keyspace, result_schema_change;
      eauto 8 with rhyda. }
  unfold or_error. destruct (respond _ _ _ _ _) as [f|e|]; [done|apply framed_error|done].
Qed.

(** What a request may come to. *)
Definition ok_outcome (stream : Z) (r : res QueryError Outcome) : Prop :=
  match r with
  | Ok (Reply f) => for_stream stream f
  | Ok (Settle _ p) => pd_stream p = stream
  | _ => True
  end.
Definition outcomes {S} (stream : Z) (m : st S QueryError Outcome) : Prop :=
  forall s, ok_outcome stream (snd (m s)).

Lemma outcomes_bind {S A} stream (m : st S QueryError A) (f : A -> st S QueryError Outcome) :
  (forall a, outcomes stream (f a)) -> outcomes stream (m ≫= f).
Proof.
  intros Hf s. unfold mbind, st_bind. destruct (m s) as [s1 [a|e|]]; [apply Hf|done|done].
Qed.
Lemma outcomes_throw {S} stream e : outcomes (S:=S) stream (throw e). Proof. by intros s. Qed.
Lemma outcomes_reply {S} stream r : framed stream r -> outcomes (S:=S) stream (Reply <$> lift r).
Proof. intros Hr s. unfold fmap, st_fmap, lift. destruct r; [by apply Hr|done|done]. Qed.

Lemma after_settle_framed p s : framed (pd_stream p) (snd (after_settle p s)).
Proof.
  unfold after_settle, mbind, st_bind, lift. destruct (pd_session p), (pd_resp p); apply framed_respond.
Qed.
Lemma settle_then_outcomes gates p : outcomes (pd_stream p) (settle_then gates p).
Proof.
  intros s. destruct gates; [|done]. cbn [settle_then]. pose proof (after_settle_framed p s) as Hf.
  unfold fmap, st_fmap. destruct (after_settle p s) as [s1 [f|e|]]; [by apply Hf|done|done].
Qed.
#[local] Hint Resolve outcomes_throw outcomes_reply : rhyda.
#[local] Hint Extern 5 (outcomes _ (mbind _ _)) => apply outcomes_bind; intros : rhyda.

Lemma request_outcomes op body stream : outcomes stream (request op body stream).
Proof.
  unfold handle_request, handle_startup, handle_query, handle_prepare, handle_execute.
  apply outcomes_bind; intros comp. apply outcomes_bind; intros o. destruct o; eauto with rhyda.
  - apply outcomes_bind; intros [q p]. do 2 (apply outcomes_bind; intros). case_match.
    eapply settle_then_outcomes.
  - apply outcomes_bind; intros [q p]. eauto 8 with rhyda.
  - apply outcomes_bind; intros [q p]. do 3 (apply outcomes_bind; intros). case_match; [eauto with rhyda|].
    do 2 (apply outcomes_bind; intros). case_match. eapply settle_then_outcomes.
Qed.

(** ** The invariant of a connection *)

Definition phase_ok (stream : Z) (ph : Phase) : Prop :=
  match ph with
  | PhStart _ _ => True
  | PhSettle _ p => pd_stream p = stream
  | PhSend f => for_stream stream f
  end.
Definition move_ok (stream : Z) (m : Move) : Prop :=
  match m with Next ph => phase_ok stream ph | Sent f => for_stream stream f | Died => True end.
Definition reader_ok (r : Reader) : Prop :=
  match r with
  | RdInline st ph => phase_ok st ph
  | RdBye st f => for_stream st f
  | _ => True
  end.
Definition event_ok (e : Event) : Prop :=
  match e with EvSent st f => for_stream st f | _ => True end.

Record conn_ok (c : Conn) : Prop := {
  co_reader : reader_ok (c_reader c);
  co_tasks : Forall (fun t => phase_ok (fst t) (snd t)) (c_tasks c);
  co_inflight : length (c_tasks c) <= PER_CONN_INFLIGHT;
  co_channel : length (c_resp c) <= CHANNEL;
}.

Lemma conclude_ok stream cs r : ok_outcome stream r -> move_ok stream (conclude stream cs r).
Proof.
  destruct r as [[f|gates p]|e|]; try done. intros _. cbn.
  destruct (error _ _ _ _ _) as [f|e'|] eqn:Hf; [|done|done]. by eapply framed_error.
Qed.

Lemma advance_ok stream ph s c s' c' m : advance parse short_name stream ph s c = Some (s', c', m) ->
  phase_ok stream ph -> length (c_resp c) <= CHANNEL ->
  move_ok stream m /\ length (c_resp c') <= CHANNEL.
Proof.
  intros Ha Hph Hlen. pose proof (advance_inv _ _ _ _ _ _ _ Ha) as (_ & _ & Hm).
  destruct ph as [op body|gates p|resp]; cbn [advance] in Ha.
  - destruct (request op body stream (s, c_state c)) as [[s1 cs] r] eqn:Hr. injection Ha as <- <- <-.
    split; [|done]. apply conclude_ok. pose proof (request_outcomes op body stream (s, c_state c)) as Ho.
    by rewrite Hr in Ho.
  - destruct (settled s gates); [|done].
    destruct (after_settle p (s, c_state c)) as [[s1 cs] r] eqn:Hr. injection Ha as <- <- <-.
    split; [|done]. apply conclude_ok. pose proof (after_settle_framed p (s, c_state c)) as Hf.
    rewrite Hr in Hf. cbn in Hph, Hf. subst. destruct r; [by apply Hf|done|done].
  - apply bind_Some in Ha as (c1 & Hs & [= <- <- <-]). split; [done|].
    apply send_resp_inv in Hs as (_ & _ & _ & _ & -> & Hc). destruct (c_writer c); [|done].
    rewrite length_app. cbn. specialize (Hc eq_refl). lia.
Qed.

Lemma send_resp_room resp c c' : send_resp resp c = Some c' -> length (c_resp c) <= CHANNEL ->
  length (c_resp c') <= CHANNEL.
Proof.
  intros (_ & _ & _ & _ & -> & Hc)%send_resp_inv Hl. destruct (c_writer c); [|done].
  rewrite length_app. cbn. specialize (Hc eq_refl). lia.
Qed.

Lemma read_frame_framed cs input fin stream r :
  (read_frame cs input fin = InReject stream r \/ exists rest, read_frame cs input fin = InRefuse stream r rest) ->
  framed stream r.
Proof.
  unfold read_frame. intros Hr.
  destruct Hr as [Hr|[rest Hr]]; revert Hr; repeat case_match; intros Hr; simplify_eq; apply framed_error.
Qed.

Lemma reader_step_ok s c s' c' ev : reader_step parse short_name s c = Some (s', c', ev) ->
  conn_ok c -> conn_ok c' /\ Forall event_ok ev.
Proof.
  unfold reader_step. intros Hs [Hrd Hts Hin Hch]. destruct (c_reader c) as [|stream ph|stream op body|stream resp|].
  - pose proof (read_frame_framed (c_state c) (c_in c) (c_fin c)) as Hf.
    destruct (read_frame (c_state c) (c_in c) (c_fin c)) as [| | |stream r|stream r rest|stream op body rest].
    + done.
    + injection Hs as <- <- <-. by split.
    + injection Hs as <- <- <-. by split.
    + specialize (Hf _ _ (or_introl eq_refl)).
      destruct r; injection Hs as <- <- <-; (split; [split; try done; by apply Hf|by repeat constructor]).
    + specialize (Hf _ _ (or_intror (ex_intro _ rest eq_refl))).
      destruct r; injection Hs as <- <- <-; (split; [split; try done; by apply Hf|by repeat constructor]).
    + injection Hs as <- <- <-. split; [|by repeat constructor]. split; try done. cbn. by destruct (_ || _).
  - apply bind_Some in Hs as ([[s1 c1] m] & Ha & Hm).
    pose proof (advance_ok _ _ _ _ _ _ _ Ha Hrd Hch) as [Hmo Hc1].
    apply advance_inv in Ha as (Ht & _ & _).
    destruct m; injection Hm as <- <- <-; (split; [split; cbn; by rewrite ?Ht|by repeat constructor]).
  - destruct (length (c_tasks c) <? PER_CONN_INFLIGHT) eqn:E; [|done]. injection Hs as <- <- <-.
    apply Nat.ltb_lt in E. split; [|done]. split; cbn; try done.
    + apply Forall_app. split; [done|]. by repeat constructor.
    + rewrite length_app. cbn. lia.
  - apply bind_Some in Hs as (c1 & Hsend & [= <- <- <-]). pose proof (send_resp_room _ _ _ Hsend Hch) as Hroom.
    apply send_resp_inv in Hsend as (Ht & _). split; [split; cbn; by rewrite ?Ht|by repeat constructor].
  - done.
Qed.

Lemma task_step_ok j s c s' c' ev : task_step parse short_name j s c = Some (s', c', ev) ->
  conn_ok c -> conn_ok c' /\ Forall event_ok ev.
Proof.
  unfold task_step. intros ([stream ph] & Hj & ([[s1 c1] m] & Ha & Hm)%bind_Some)%bind_Some [Hrd Hts Hin Hch].
  assert (Hph : phase_ok stream ph) by exact (Forall_lookup_1 _ _ _ _ Hts Hj).
  pose proof (advance_ok _ _ _ _ _ _ _ Ha Hph Hch) as [Hmo Hc1].
  apply advance_inv in Ha as (Ht & Hr & _).
  pose proof (length_delete (c_tasks c) j ltac:(by eexists)) as Hdel.
  destruct m; injection Hm as <- <- <-; (split; [split; cbn; rewrite ?Hr; try done|by repeat constructor]).
  - by apply Forall_insert.
  - by rewrite length_insert.
  - by apply Forall_delete.
  - lia.
  - by apply Forall_delete.
  - lia.
Qed.

(** ** The writer *)

Lemma coalesce_split q chan : uncurry (++) (coalesce q chan) = chan.
Proof.
  revert q. induction chan as [|r chan IH]; intros q; cbn; [done|].
  destruct (q <? WRITE_FLUSH_THRESHOLD)%Z; [|done]. specialize (IH (q + Z.of_nat (length r))%Z).
  destruct (coalesce _ chan) as [pend rest]. cbn in *. by rewrite IH.
Qed.
Lemma take_pending_split chan pend rest : take_pending chan = Some (pend, rest) ->
  chan = pend ++ rest /\ pend <> [].
Proof.
  destruct chan as [|r chan]; [done|]. cbn. pose proof (coalesce_split (Z.of_nat (length r)) chan) as Hs.
  destruct (coalesce _ chan) as [p' r']. cbn in Hs. intros [= <- <-]. by rewrite <-Hs.
Qed.

Lemma writer_step_ok n ok c c' : writer_step rt n ok c = Some c' -> conn_ok c -> conn_ok c'.
Proof.
  unfold writer_step. destruct (c_writer c); [|done].
  intros ([pend rest] & (Hs & _)%take_pending_split & Hw)%bind_Some [Hrd Hts Hin Hch].
  rewrite Hs, length_app in Hch.
  destruct ok; injection Hw as <-; split; cbn; try done; lia.
Qed.

Lemma step_ok l s c s' c' ev : step l s c = Some (s', c', ev) -> conn_ok c -> conn_ok c' /\ Forall event_ok ev.
Proof.
  destruct l as [b| | |j|n ok]; cbn [conn_step].
  - destruct (c_fin c); [done|]. intros [= <- <- <-] [? ? ? ?]. split; [by split|done].
  - intros [= <- <- <-] [? ? ? ?]. split; [by split|done].
  - apply reader_step_ok.
  - apply task_step_ok.
  - intros (c1 & Hw & [= <- <- <-])%bind_Some Hok. split; [by eapply writer_step_ok|done].
Qed.

Lemma open_ok : conn_ok open_conn.
Proof. split; cbn; try done; lia. Qed.

Lemma run_ok ev c : conn_run open_conn ev c -> conn_ok c /\ Forall event_ok ev.
Proof.
  induction 1 as [|ev c1 l s s' c2 ev' Hrun [IH1 IH2] Hstep]; [split; [apply open_ok|done]|].
  destruct (step_ok _ _ _ _ _ _ Hstep IH1). split; [done|]. by apply Forall_app.
Qed.

(** C20: in every run, every response handed to the writer carries, in bytes two
    and three of its frame, the stream id of the request it answers - so a client
    can tell answers that overtake each other apart -, at most 512 requests run at
    a time and at most 1024 responses wait for the writer. *)
Theorem responses_carry_stream ev c : conn_run open_conn ev c ->
  (forall stream f, EvSent stream f ∈ ev -> take 2 (drop 2 f) = be 2 stream) /\
  length (c_tasks c) <= PER_CONN_INFLIGHT /\ length (c_resp c) <= CHANNEL.
Proof.
  intros [[_ _ Hin Hch] Hev]%run_ok. split; [|done]. intros stream f Hf.
  rewrite Forall_forall in Hev. by apply for_stream_bytes, (Hev _ Hf).
Qed.

(** Sending and writing, as far as the bytes are concerned. *)
Definition stream_bytes (c : Conn) : bytes := c_out c ++ concat (c_resp c).

Lemma advance_bytes stream ph s c s' c' m : advance parse short_name stream ph s c = Some (s', c', m) ->
  c_writer c' = c_writer c /\
  (c_writer c = true -> stream_bytes c' = stream_bytes c ++ match m with Sent f => f | _ => [] end).
Proof.
  unfold stream_bytes. intros (_ & _ & Hm)%advance_inv. destruct m as [ph'|f|].
  - destruct Hm as (-> & -> & -> & _). by rewrite app_nil_r.
  - destruct Hm as (_ & (_ & _ & -> & -> & -> & _)%send_resp_inv). split; [done|]. intros ->.
    by rewrite concat_app, <-app_assoc; cbn; rewrite app_nil_r.
  - destruct Hm as (-> & -> & -> & _). by rewrite app_nil_r.
Qed.

Lemma step_bytes l s c s' c' ev : rt = Monoio -> step l s c = Some (s', c', ev) -> c_writer c' = true ->
  c_writer c = true /\ stream_bytes c' = stream_bytes c ++ concat (responses ev).
Proof.
  intros Hrt. destruct l as [b| | |j|n ok]; cbn [conn_step].
  - destruct (c_fin c); [done|]. intros [= <- <- <-] Hw. by rewrite app_nil_r.
  - intros [= <- <- <-] Hw. by rewrite app_nil_r.
  - unfold reader_step. destruct (c_reader c) as [|stream ph|stream op body|stream resp|].
    + destruct (read_frame _ _ _); intros Hs Hw; repeat case_match; simplify_eq; cbn in Hw; by rewrite app_nil_r.
    + intros ([[s1 c1] m] & Ha & Hm)%bind_Some Hw. apply advance_bytes in Ha as [Hww Hb].
      assert (Hw1 : c_writer c1 = true) by (destruct m; injection Hm as <- <- <-; exact Hw).
      rewrite Hww in Hw1. specialize (Hb Hw1). split; [done|].
      destruct m; injection Hm as <- <- <-; cbn; rewrite ?app_nil_r in *; exact Hb.
    + destruct (_ <? _); [|done]. intros [= <- <- <-] Hw. by rewrite app_nil_r.
    + intros (c1 & Hs & [= <- <- <-])%bind_Some Hw. cbn in Hw.
      apply send_resp_inv in Hs as (_ & _ & Hww & Ho & Hr & _). rewrite Hww in Hw. split; [done|].
      unfold stream_bytes. cbn. by rewrite Ho, Hr, Hw, concat_app, <-app_assoc.
    + done.
  - unfold task_step. intros ([stream ph] & _ & ([[s1 c1] m] & Ha & Hm)%bind_Some)%bind_Some Hw.
    apply advance_bytes in Ha as [Hww Hb].
    assert (Hw1 : c_writer c1 = true) by (destruct m; injection Hm as <- <- <-; exact Hw).
    rewrite Hww in Hw1. specialize (Hb Hw1). split; [done|].
    destruct m; injection Hm as <- <- <-; cbn; rewrite ?app_nil_r in *; exact Hb.
  - intros (c1 & Hs & [= <- <- <-])%bind_Some Hw. revert Hs. unfold writer_step.
    destruct (c_writer c); [|done]. intros ([pend rest] & (Hs & _)%take_pending_split & Hm)%bind_Some.
    destruct ok; injection Hm as <-; [|done]. split; [done|]. unfold stream_bytes. cbn.
    by rewrite Hrt, Hs, concat_app, <-!app_assoc, app_nil_r.
Qed.

Lemma run_bytes ev c : rt = Monoio -> conn_run open_conn ev c -> c_writer c = true ->
  stream_bytes c = concat (responses ev).
Proof.
  intros Hrt. induction 1 as [|ev c1 l s s' c2 ev' Hrun IH Hstep]; [done|]. intros Hw.
  destruct (step_bytes _ _ _ _ _ _ Hrt Hstep Hw) as [Hw1 ->]. rewrite (IH Hw1).
  unfold responses. by rewrite omap_app, concat_app.
Qed.

(** ** Progress *)

Definition phase_weight (ph : Phase) : nat :=
  match ph with PhStart _ _ => 4 | PhSettle _ _ => 3 | PhSend _ => 2 end.
Definition reader_weight (r : Reader) : nat :=
  match r with
  | RdInline _ ph => phase_weight ph
  | RdPermit _ _ _ => 5
  | RdBye _ _ => 2
  | RdFrame | RdClosed => 0
  end.
Definition tasks_weight (ts : list (Z * Phase)) : nat := sum_list_with (fun t => phase_weight (snd t)) ts.
#[local] Arguments tasks_weight : simpl never.
(** Steps left until all requests in progress are answered and written. *)
Definition weight (c : Conn) : nat :=
  reader_weight (c_reader c) + tasks_weight (c_tasks c) + length (c_resp c).

Definition phase_gates (ph : Phase) : list WriteTicket :=
  match ph with PhSettle gates _ => gates | _ => [] end.
(** The tickets the connection waits for. *)
Definition awaited (c : Conn) : list WriteTicket :=
  (match c_reader c with RdInline _ ph => phase_gates ph | _ => [] end)
  ++ (c_tasks c ≫= fun t => phase_gates (snd t)).

Lemma conclude_weight stream cs r :
  match conclude stream cs r with
  | Next ph => phase_weight ph < 4 /\ ((forall gates p, r <> Ok (Settle gates p)) -> phase_weight ph < 3)
  | Sent _ => False
  | Died => True
  end.
Proof.
  destruct r as [[f|gates p]|e|]; cbn [conclude].
  - cbn. lia.
  - split; [cbn; lia|]. intros Hr. by destruct (Hr gates p).
  - destruct (error _ _ _ _ _); cbn; [lia|done|done].
  - done.
Qed.

Lemma advance_weight stream ph s c s' c' m : advance parse short_name stream ph s c = Some (s', c', m) ->
  match m with Next ph' => phase_weight ph' | _ => 0 end + length (c_resp c')
  < phase_weight ph + length (c_resp c).
Proof.
  intros Ha. pose proof (advance_inv _ _ _ _ _ _ _ Ha) as (_ & _ & Hm).
  destruct m as [ph'|f|].
  - destruct Hm as (-> & _). apply Nat.add_lt_mono_r. destruct ph as [op body|gates p|resp]; cbn [advance] in Ha.
    + destruct (request op body stream (s, c_state c)) as [[s1 cs] r]. injection Ha as _ _ Hc.
      pose proof (conclude_weight stream cs r) as Hw. rewrite Hc in Hw. apply Hw.
    + destruct (settled s gates); [|done]. destruct (after_settle p (s, c_state c)) as [[s1 cs] r].
      injection Ha as _ _ Hc. pose proof (conclude_weight stream cs (Reply <$> r)) as Hw. rewrite Hc in Hw.
      cbn. apply (proj2 Hw). intros. by destruct r.
    + by apply bind_Some in Ha as (c1 & _ & [=]).
  - destruct Hm as (-> & (_ & _ & _ & _ & -> & _)%send_resp_inv). cbn.
    destruct (c_writer c); rewrite ?length_app; cbn; lia.
  - destruct Hm as (-> & _). destruct ph; cbn; lia.
Qed.

Lemma send_progress resp c : (exists c', send_resp resp c = Some c') \/ (c_writer c = true /\ c_resp c <> []).
Proof.
  unfold send_resp. destruct (c_writer c); cbn [negb]; [|by left; eexists].
  destruct (length (c_resp c) <? CHANNEL) eqn:E; [by left; eexists|]. right. split; [done|].
  apply Nat.ltb_ge in E. intros Hn. rewrite Hn in E. cbv in E. lia.
Qed.

Lemma advance_progress stream ph s c : settled s (phase_gates ph) = true ->
  (exists r, advance parse short_name stream ph s c = Some r) \/ (c_writer c = true /\ c_resp c <> []).
Proof.
  destruct ph as [op body|gates p|resp]; cbn [advance phase_gates]; intros Hs.
  - left. destruct (request op body stream (s, c_state c)) as [[s1 cs] r]. by eexists.
  - rewrite Hs. left. destruct (after_settle p (s, c_state c)) as [[s1 cs] r]. by eexists.
  - destruct (send_progress resp c) as [[c' ->]|Hw]; [left; by eexists|by right].
Qed.

Lemma writer_progress s c : c_writer c = true -> c_resp c <> [] ->
  exists c', step (LWriter 0 true) s c = Some (s, c', []) /\ weight c' < weight c.
Proof.
  intros Hw Hne. cbn [conn_step]. unfold writer_step. rewrite Hw.
  destruct (take_pending (c_resp c)) as [[pend rest]|] eqn:Ht; [|by destruct (c_resp c) as [|x l]; [|cbn in Ht; case_match]].
  eexists. split; [done|]. apply take_pending_split in Ht as [Hs Hp]. unfold weight. cbn. rewrite Hs, length_app.
  destruct pend; [done|]. cbn. lia.
Qed.

Lemma tasks_weight_insert ts j t t' : ts !! j = Some t ->
  tasks_weight (<[j := t']> ts) + phase_weight (snd t) = tasks_weight ts + phase_weight (snd t').
Proof. apply (sum_list_insert (fun t => phase_weight (snd t))). Qed.
Lemma tasks_weight_delete ts j t : ts !! j = Some t ->
  tasks_weight (base.delete j ts) + phase_weight (snd t) = tasks_weight ts.
Proof. apply (sum_list_delete (fun t => phase_weight (snd t))). Qed.

(** The labels that are the server's own steps. *)
Definition internal (l : ConnLabel) : bool := match l with LRecv _ | LFin => false | _ => true end.

Lemma task_progress j t s c : c_tasks c !! j = Some t -> settled s (phase_gates (snd t)) = true ->
  exists l s' c' ev, internal l = true /\ step l s c = Some (s', c', ev) /\ weight c' < weight c.
Proof.
  intros Hj Hs. destruct t as [stream ph].
  destruct (advance_progress stream ph s c Hs) as [[[[s' c1] m] Ha]|[Hw Hne]].
  2: { destruct (writer_progress s c Hw Hne) as (c' & Hc & Hlt). by exists (LWriter 0 true), s, c', []. }
  pose proof (advance_weight _ _ _ _ _ _ _ Ha) as Hlt.
  pose proof (advance_inv _ _ _ _ _ _ _ Ha) as (Ht & Hr & _). exists (LTask j), s'.
  cbn [conn_step]. unfold task_step. rewrite Hj. cbn [mbind option_bind]. rewrite Ha. cbn [mbind option_bind].
  pose proof (tasks_weight_delete _ _ _ Hj) as Hdel. unfold weight. cbn [snd] in *.
  destruct m as [ph'|f|]; (eexists _, _; split; [done|]; split; [reflexivity|]; cbn; rewrite Hr; try lia).
  pose proof (tasks_weight_insert _ _ _ (stream, ph') Hj) as Hins. cbn [snd] in Hins. lia.
Qed.

Lemma settled_app s l1 l2 : settled s (l1 ++ l2) = settled s l1 && settled s l2.
Proof. apply forallb_app. Qed.

Lemma settled_bind s (ts : list (Z * Phase)) j t :
  settled s (ts ≫= fun t => phase_gates (snd t)) = true -> ts !! j = Some t ->
  settled s (phase_gates (snd t)) = true.
Proof.
  revert j. induction ts as [|u ts IH]; intros j Hs Hj; [done|].
  change (settled s (phase_gates (snd u) ++ (ts ≫= fun t => phase_gates (snd t))) = true) in Hs.
  rewrite settled_app in Hs. apply andb_true_iff in Hs as [Hu Hs].
  destruct j as [|j]; [by injection Hj as ->|by eapply IH].
Qed.

Lemma tasks_progress s c : settled s (awaited c) = true -> c_tasks c <> [] ->
  exists l s' c' ev, internal l = true /\ step l s c = Some (s', c', ev) /\ weight c' < weight c.
Proof.
  unfold awaited. rewrite settled_app. intros [_ Hs]%andb_true_iff Hne.
  destruct (c_tasks c) as [|t ts] eqn:Ht; [done|]. apply (task_progress 0 t); [by rewrite Ht|].
  by apply (settled_bind s (t :: ts) 0).
Qed.

Lemma inflight_pos ts : PER_CONN_INFLIGHT <= length (ts : list (Z * Phase)) -> ts <> [].
Proof. intros Hl ->. cbv in Hl. lia. Qed.

Lemma reader_progress s c : settled s (awaited c) = true -> reader_streams (c_reader c) <> [] ->
  exists l s' c' ev, internal l = true /\ step l s c = Some (s', c', ev) /\ weight c' < weight c.
Proof.
  intros Hs Hne. pose proof (tasks_progress s c Hs) as Htasks.
  unfold awaited in Hs. rewrite settled_app in Hs. apply andb_true_iff in Hs as [Hs _].
  assert (Hwr : c_writer c = true /\ c_resp c <> [] ->
    exists l s' c' ev, internal l = true /\ step l s c = Some (s', c', ev) /\ weight c' < weight c).
  { intros [Hw Hr]. destruct (writer_progress s c Hw Hr) as (c' & Hc & Hlt). by exists (LWriter 0 true), s, c', []. }
  destruct (c_reader c) as [|stream ph|stream op body|stream resp|] eqn:Hrd; try done.
  - destruct (advance_progress stream ph s c Hs) as [[[[s' c1] m] Ha]|Hw]; [|by apply Hwr].
    pose proof (advance_weight _ _ _ _ _ _ _ Ha) as Hlt.
    pose proof (advance_inv _ _ _ _ _ _ _ Ha) as (Ht & _ & _). exists LReader, s'.
    cbn [conn_step]. unfold reader_step. rewrite Hrd, Ha. cbn [mbind option_bind]. unfold weight. rewrite Hrd.
    destruct m as [ph'|f|]; (eexists _, _; split; [done|]; split; [reflexivity|]; cbn; rewrite Ht; lia).
  - destruct (length (c_tasks c) <? PER_CONN_INFLIGHT) eqn:E.
    + exists LReader, s. eexists _, _. split; [done|]. cbn [conn_step]. unfold reader_step. rewrite Hrd, E.
      split; [reflexivity|]. unfold weight, tasks_weight. rewrite Hrd. cbn. rewrite sum_list_with_app. cbn. lia.
    + apply Htasks. apply Nat.ltb_ge in E. by apply inflight_pos.
  - destruct (send_progress resp c) as [[c1 Hsend]|Hw]; [|by apply Hwr].
    exists LReader, s. eexists _, _. split; [done|]. cbn [conn_step]. unfold reader_step. rewrite Hrd, Hsend.
    split; [reflexivity|]. apply send_resp_inv in Hsend as (Ht & _ & _ & _ & Hr & _).
    unfold weight. rewrite Hrd. cbn. rewrite Ht, Hr. destruct (c_writer c); rewrite ?length_app; cbn; lia.
Qed.

(** Twenty for a byte not read yet: more than the work it may start. *)
Definition reader_budget (r : Reader) : nat := match r with RdBye _ _ | RdClosed => 0 | _ => 10 end.
Definition cost (c : Conn) : nat := 20 * length (c_in c) + reader_budget (c_reader c) + weight c.

Lemma read_frame_consumes cs input fin :
  match read_frame cs input fin with
  | InRefuse _ _ rest | InRequest _ _ _ rest => length rest < length input
  | _ => True
  end.
Proof.
  unfold read_frame. destruct (length input <? 9) eqn:E; [by destruct fin|]. apply Nat.ltb_ge in E.
  assert (Hr : forall n, length (drop n (drop 9 input)) < length input)
    by (intros n; rewrite !length_drop; lia).
  repeat case_match; try done; simplify_eq; apply Hr.
Qed.

Lemma send_resp_input resp c c' : send_resp resp c = Some c' -> c_in c' = c_in c.
Proof. unfold send_resp. repeat case_match; by intros [= <-]. Qed.
Lemma advance_input stream ph s c s' c' m :
  advance parse short_name stream ph s c = Some (s', c', m) -> c_in c' = c_in c.
Proof.
  destruct ph as [op body|gates p|resp]; cbn [advance].
  - destruct (handle_request _ _ _ _ _ _) as [[s1 cs] r]. by intros [= <- <- <-].
  - destruct (settled s gates); [|done]. destruct (after_settle _ _) as [[s1 cs] r]. by intros [= <- <- <-].
  - intros (c1 & Hs & [= <- <- <-])%bind_Some. by eapply send_resp_input.
Qed.

#[local] Arguments Nat.mul : simpl never.
Lemma reader_cost s c s' c' ev : reader_step parse short_name s c = Some (s', c', ev) -> cost c' < cost c.
Proof.
  unfold reader_step, cost, weight. destruct (c_reader c) as [|stream ph|stream op body|stream resp|].
  - pose proof (read_frame_consumes (c_state c) (c_in c) (c_fin c)) as Hc.
    destruct (read_frame (c_state c) (c_in c) (c_fin c)) as [| | |st r|st r rest|st op body rest]; [done|..].
    1-2: intros [= <- <- <-]; cbn; lia.
    + destruct r; intros [= <- <- <-]; cbn; lia.
    + destruct r; intros [= <- <- <-]; cbn; lia.
    + destruct (_ || _); intros [= <- <- <-]; cbn; lia.
  - intros ([[s1 c1] m] & Ha & Hm)%bind_Some. pose proof (advance_weight _ _ _ _ _ _ _ Ha) as Hw.
    pose proof (advance_input _ _ _ _ _ _ _ Ha) as Hin.
    apply advance_inv in Ha as (Ht & _ & _).
    destruct m; injection Hm as <- <- <-; cbn; rewrite Ht, Hin; lia.
  - destruct (_ <? _); [|done]. intros [= <- <- <-]. unfold tasks_weight. cbn.
    rewrite sum_list_with_app. cbn. lia.
  - intros (c1 & Hs & [= <- <- <-])%bind_Some. pose proof (send_resp_input _ _ _ Hs) as Hin.
    apply send_resp_inv in Hs as (Ht & _ & _ & _ & Hr & _). cbn. rewrite Ht, Hin, Hr.
    destruct (c_writer c); rewrite ?length_app; cbn; lia.
  - done.
Qed.

Lemma task_cost j s c s' c' ev : task_step parse short_name j s c = Some (s', c', ev) -> cost c' < cost c.
Proof.
  unfold task_step. intros ([stream ph] & Hj & ([[s1 c1] m] & Ha & Hm)%bind_Some)%bind_Some.
  pose proof (advance_weight _ _ _ _ _ _ _ Ha) as Hw. pose proof (advance_input _ _ _ _ _ _ _ Ha) as Hin.
  apply advance_inv in Ha as (_ & Hr & _). pose proof (tasks_weight_delete _ _ _ Hj) as Hdel.
  unfold cost, weight. cbn [snd] in *.
  destruct m as [ph'|f|]; injection Hm as <- <- <-; cbn; rewrite Hr, Hin; try lia.
  pose proof (tasks_weight_insert _ _ _ (stream, ph') Hj) as Hins. cbn [snd] in Hins. lia.
Qed.

Lemma writer_cost n ok c c' : writer_step rt n ok c = Some c' -> cost c' < cost c.
Proof.
  unfold writer_step. destruct (c_writer c); [|done].
  intros ([pend rest] & [Hs Hp]%take_pending_split & Hw)%bind_Some.
  assert (Hlt : length rest < length (c_resp c)) by (rewrite Hs, length_app; destruct pend; [done|cbn; lia]).
  unfold cost, weight. destruct ok; injection Hw as <-; cbn; lia.
Qed.

Lemma conn_step_cost l s c s' c' ev : internal l = true ->
  conn_step parse short_name rt l s c = Some (s', c', ev) -> cost c' < cost c.
Proof.
  destruct l as [b| | |j|n ok]; [done|done|intros _..]; cbn [conn_step].
  - apply reader_cost.
  - apply task_cost.
  - intros (c1 & Hw & [= <- <- <-])%bind_Some. by eapply writer_cost.
Qed.

(** C19: no connection gets stuck.  As long as a request of it is in progress, the
    writes it waits for are committed and its peer takes the bytes it is sent, some
    task of the connection can take a step that lowers [weight], which is at most
    3077 in any reachable state: the limits on running requests and on waiting
    responses cannot block each other.  And whichever of its tasks steps, enabled
    in whatever state of the storage, lowers [cost], which counts the bytes not
    read yet as well: the tasks of a connection cannot go on for ever without
    input.  (That the peer takes the bytes is the step of the writer, [LWriter].) *)
Theorem connection_progress ev c s : conn_run open_conn ev c -> pending c <> [] ->
  settled s (awaited c) = true ->
  weight c <= 3077 /\
  (exists l s' c' ev', internal l = true /\ step l s c = Some (s', c', ev') /\ weight c' < weight c) /\
  (forall l s0 s' c' ev', internal l = true -> step l s0 c = Some (s', c', ev') -> cost c' < cost c).
Proof.
  intros [[_ _ Hin Hch] _]%run_ok Hp Hs. split; [|split].
  - unfold weight, tasks_weight.
    pose proof (sum_list_bound (fun t : Z * Phase => phase_weight (snd t)) 4 (c_tasks c)) as Hb.
    assert (Hr : reader_weight (c_reader c) <= 5) by (destruct (c_reader c) as [|? ph| | |]; cbn; try destruct ph; cbn; lia).
    unfold CHANNEL in Hch. unfold PER_CONN_INFLIGHT in *.
    assert (Z.to_nat 512 = 512) as E by done. rewrite E in *.
    specialize (Hb ltac:(intros [? ph]; destruct ph; cbn; lia)). lia.
  - unfold pending in Hp. destruct (reader_streams (c_reader c)) as [|x l] eqn:Hr.
    + apply tasks_progress; [done|]. intros Ht. by rewrite Ht in Hp.
    + apply reader_progress; [done|]. by rewrite Hr.
  - intros l s0 s' c' ev'. apply conn_step_cost.
Qed.
End runs.

(** ** What the client reads *)

(** [n] responses, one after the other. *)
Fixpoint read_all (n : nat) : st Bench.Conn str (list (Z * bytes)) :=
  match n with
  | O => mret []
  | S m => r ← Bench.read_response; rs ← read_all m; mret (r :: rs)
  end.

Section clients.
Context `{KV} `{Json} `{UnicodeCase} `{Literals} `{WireLaws}.
Context (parse : str -> option CassandraStatement) (short_name : CassandraStatement -> str).

Lemma read_all_frames fs out ns :
  Forall (fun f => (exists stream, for_stream stream f) /\ (Z.of_nat (length f) < 2 ^ 32)%Z) fs ->
  exists msgs,
    read_all (length fs) {| Bench.cn_in := concat fs; Bench.cn_out := out; Bench.next_stream := ns |}
      = ({| Bench.cn_in := []; Bench.cn_out := out; Bench.next_stream := ns |}, Ok msgs) /\
    Forall2 (fun f m => exists version flags stream, f = header version flags stream (fst m) (snd m)) fs msgs.
Proof.
  induction 1 as [|f fs [(stream & version & flags & op & payload & Hf) Hlen] Hfs (msgs & IH & Hm)].
  { by exists []. }
  exists ((resp_u8 op, payload) :: msgs). split; [|constructor; [by exists version, flags, stream|done]].
  cbn [length read_all concat]. rewrite Hf.
  erewrite st_bind_eq; [by erewrite st_bind_eq|].
  apply read_response_header; [rewrite resp_u8_spec; by destruct op|].
  rewrite Hf in Hlen. unfold header in Hlen. rewrite !length_app in Hlen. lia.
Qed.

(** C26: nothing is lost, repeated or reordered on the way out of the monoio
    server.  As long as its writer lives, the bytes written and the responses
    still in the channel are exactly the responses handed over, in that order;
    and when the channel is empty the client reads them off the socket one by
    one, each as one frame, with nothing left over. *)
Theorem monoio_output ev c : conn_run parse short_name Monoio open_conn ev c -> c_writer c = true ->
  c_out c ++ concat (c_resp c) = concat (responses ev) /\
  (c_resp c = [] -> Forall (fun f => Z.of_nat (length f) < 2 ^ 32)%Z (responses ev) -> forall out ns,
   exists msgs,
     read_all (length (responses ev)) {| Bench.cn_in := c_out c; Bench.cn_out := out; Bench.next_stream := ns |}
       = ({| Bench.cn_in := []; Bench.cn_out := out; Bench.next_stream := ns |}, Ok msgs) /\
     Forall2 (fun f m => exists version flags stream, f = header version flags stream (fst m) (snd m))
       (responses ev) msgs).
Proof.
  intros Hrun Hw. pose proof (run_bytes _ _ _ _ _ eq_refl Hrun Hw) as Hb. split; [exact Hb|].
  intros Hr Hlen out ns. unfold stream_bytes in Hb. rewrite Hr, app_nil_r in Hb. rewrite Hb.
  apply read_all_frames. apply Forall_conj; [|done].
  apply run_ok in Hrun as [_ Hev]. clear -Hev. induction Hev as [|e ev He Hev IH]; [done|].
  destruct e; cbn; [done| |done]. constructor; [by eexists|done].
Qed.

(** The tokio server does lose bytes: when the kernel takes only part of the
    pending responses, the rest of them is dropped, the writer lives on, and the
    bytes that follow are no longer aligned with frames. *)
Theorem tokio_short_write n c pend rest :
  c_writer c = true -> take_pending (c_resp c) = Some (pend, rest) -> n < length (concat pend) ->
  exists c', writer_step Tokio n true c = Some c' /\ c_writer c' = true /\ c_resp c' = rest /\
    c_out c' = c_out c ++ take n (concat pend) /\
    length (stream_bytes c') < length (stream_bytes c).
Proof.
  intros Hw Ht Hn. unfold writer_step. rewrite Hw, Ht. cbn [mbind option_bind]. eexists.
  split; [reflexivity|]. split; [done|]. split; [done|]. split; [done|].
  apply take_pending_split in Ht as [Hs _]. unfold stream_bytes. cbn. rewrite Hs, concat_app, !length_app, length_take.
  lia.
Qed.

(** ** Panics *)

(** An error with a message of 65536 bytes or more is never sent: the task that
    should answer dies. *)
Lemma conclude_died stream cs e : conclude stream cs (Err e) = Died <-> ~ short_ok (qe_message e).
Proof.
  cbn [conclude]. destruct (decide (short_ok (qe_message e))) as [Hs|Hs].
  - unfold error. rewrite expect_string by done. res_simpl.
    destruct (response_frame_delivers (E:=QueryError) 4 stream RespError
      (([] ++ be 4 (qe_code e)) ++ enc_short (qe_message e)) (compression cs)) as (f & -> & _); [|done].
    unfold long_ok, enc_short, short_ok in *. rewrite !length_app, !length_be. cbn. lia.
  - unfold error. destruct (write_string_long (qe_message e) ([] ++ be 4 (qe_code e)) Hs) as (err & ->). done.
Qed.

(** C40: a STARTUP that asks for an unknown compression with a name of 65501 bytes
    or more is not refused with an error: building the message panics on the
    reader task, the request is lost and the connection never reads again. *)
Theorem startup_kills_reader stream v c s :
  c_reader c = RdInline stream (PhStart (req_code ReqStartup) (enc_string_map [(bs "COMPRESSION", v)])) ->
  short_ok v -> text_ok v ->
  to_lowercase v <> bs "lz4" -> to_lowercase v <> bs "snappy" -> (65501 <= Z.of_nat (length (to_lowercase v)))%Z ->
  exists c', conn_step parse short_name Tokio LReader s c = Some (s, c', [EvLost stream]) /\
    c_reader c' = RdClosed /\ c_resp c' = c_resp c.
Proof.
  intros Hrd Hv Ht Hl1 Hl2 Hlen. cbn [conn_step]. unfold reader_step. rewrite Hrd. cbn [advance].
  rewrite (request_known parse short_name ReqStartup). unfold handle_startup.
  rewrite read_startup_spec; [|apply NoDup_singleton|done|by repeat constructor].
  rewrite (st_bind_eq _ _ _ (s, c_state c) (list_to_map [(bs "COMPRESSION", v)])) by done.
  assert (Hlk : (list_to_map [(bs "COMPRESSION", v)] : gmap str str) !! bs "COMPRESSION" = Some v)
    by apply lookup_insert_eq.
  rewrite Hlk. cbn [fmap option_fmap option_map].
  rewrite !bool_decide_eq_false_2 by done. 
  rewrite (st_bind_Err _ _ _ (s, c_state c) (protocol_err (bs "Unsupported compression algorithm: " ++ to_lowercase v)))
    by done.
  rewrite (proj2 (conclude_died stream (c_state c) _)).
  - eexists. split; [reflexivity|]. done.
  - unfold short_ok. cbn [qe_message protocol_err]. rewrite length_app.
    assert (length (bs "Unsupported compression algorithm: ") = 35) as -> by done. lia.
Qed.
End clients.

(** ** USE *)

Section keyspaces.
Context `{KVLaws} `{JsonLaws} `{UnicodeCase} `{Literals} `{WireLaws}.
Context (parse : str -> option CassandraStatement) (short_name : CassandraStatement -> str).

(** The text of a QUERY is recognised as a USE by its first four bytes. *)
Lemma is_session_use_text q r : long_ok q ->
  is_session_use (enc_long q ++ r) = starts_with (to_ascii_lowercase (take 16 q)) (bs "use ").
Proof.
  intros Hq. unfold is_session_use, enc_long, long_ok in *. rewrite <-app_assoc, !length_app, length_be.
  rewrite (proj2 (Nat.ltb_ge _ _)) by lia.
  rewrite take_app_length', drop_app_length' by (by rewrite length_be).
  rewrite from_be_len by (cbn; lia). rewrite Nat2Z.id.
  replace (Nat.min (length q) (4 + (length q + length r) - 4)) with (length q) by lia.
  rewrite take_app_length. destruct (16 <? length q) eqn:E; [done|].
  apply Nat.ltb_ge in E. by rewrite take_ge.
Qed.

(** A QUERY frame, as a client sends it. *)
Definition query_frame (stream : Z) (q : str) (p : QueryParameters) : bytes :=
  Bench.frame stream (req_code ReqQuery) (enc_long q ++ enc_params p) [].

Lemma read_query_frame cs stream q p rest fin : in_i 16 stream = true ->
  (Z.of_nat (length (enc_long q ++ enc_params p)) <= MAX_FRAME_LENGTH)%Z ->
  read_frame cs (query_frame stream q p ++ rest) fin
  = InRequest stream (req_code ReqQuery) (enc_long q ++ enc_params p) rest.
Proof. intros Hs Hlen. by apply read_frame_client. Qed.

Lemma exec_use_eq s c id d sess vs page paging : represents s c -> no_bang (norm_id id) ->
  cat_ks c !! norm_id id = Some d ->
  exists s', execute_prepared_paged short_name sess (StUse id) vs page paging s
    = (s', Ok (SetKeyspace (norm_id id), [])).
Proof.
  intros Hrep Hn Hd. destruct (get_keyspace_refines s c (norm_id id) Hrep Hn) as (s' & Hg & _). exists s'.
  unfold execute_prepared_paged. cbn [execute_statement].
  erewrite (on_storage_eq _ _ s' (Ok (SetKeyspace (norm_id id)))); [reflexivity|].
  unfold exec_use. cbn [q_storage]. rewrite (st_bind_eq _ _ s s' (Some d)); [done|].
  unfold Query.internal, st_map_err. by rewrite Hg, Hd.
Qed.

(** A QUERY whose text parses. *)
Lemma request_query q stmt p stream s cs :
  ast_ok parse s -> long_ok q -> text_ok q -> params_ok p -> parse q = Some stmt ->
  exists s', ast_ok parse s' /\ (exists cache, s' = set_ast_cache cache s) /\
  handle_request parse short_name (req_code ReqQuery) (enc_long q ++ enc_params p) stream (s, cs)
  = ('(resp, gates) ← on_store (execute_prepared_paged short_name (cs_keyspace cs) stmt (qp_values p)
                                  (qp_page_size p) (qp_paging_state p));
     settle_then gates {| pd_stream := stream; pd_compression := compression cs; pd_resp := resp;
                          pd_session := true; pd_skip_metadata := qp_skip_metadata p |}) (s', cs).
Proof.
  intros Hast Hlen Htext Hp Hparse. destruct (parse_cached_spec parse q s Hast) as (s' & Hpc & Hast' & Hcache).
  rewrite Hparse in Hpc. exists s'. split; [done|]. split; [done|]. rewrite request_known. unfold handle_query.
  rewrite read_query_spec by done. rewrite (st_bind_eq _ _ _ (s, cs) (q, p)) by done. cbn iota.
  rewrite (st_bind_eq _ _ _ (s, cs) (cs_keyspace cs)), !on_store_bind by done.
  unfold execute_with_values_paged. by rewrite (st_bind_eq _ _ _ _ _ Hpc).
Qed.

(** C31: USE takes effect before the next frame.  A QUERY whose text begins with
    "USE " in any case is kept on the reader task, so that no later frame is read
    before it is done; and when its keyspace exists, the very step that executes
    it - whatever the spawned requests and the storage did since it was accepted -
    sets the keyspace of the session, with the answer still to be sent and the
    rest of the input untouched. *)
Theorem use_before_next_frame cat s c stream id d q p rest :
  represents s cat -> ast_ok parse s -> no_bang (norm_id id) -> cat_ks cat !! norm_id id = Some d ->
  short_ok (norm_id id) -> long_ok q -> text_ok q -> params_ok p -> parse q = Some (StUse id) ->
  starts_with (to_ascii_lowercase (take 16 q)) (bs "use ") = true -> in_i 16 stream = true ->
  (Z.of_nat (length (enc_long q ++ enc_params p)) <= MAX_FRAME_LENGTH)%Z ->
  c_reader c = RdFrame -> c_in c = query_frame stream q p ++ rest ->
  exists c1, (forall s0, reader_step parse short_name s0 c = Some (s0, c1, [EvAccept stream])) /\
    c_in c1 = rest /\
    forall c1', c_reader c1' = c_reader c1 -> c_in c1' = rest ->
    exists s2 c2 f, reader_step parse short_name s c1' = Some (s2, c2, []) /\
      c_reader c2 = RdInline stream (PhSend f) /\ c_in c2 = rest /\
      cs_keyspace (c_state c2) = Some (norm_id id).
Proof.
  intros Hrep Hast Hn Hd Hks Hq Htext Hp Hparse Huse Hst Hlen Hrd Hin.
  set (body := enc_long q ++ enc_params p).
  exists (set_reader (RdInline stream (PhStart (req_code ReqQuery) body)) (set_input rest (c_fin c) c)).
  split; [|split; [done|]].
  - intros s0. unfold reader_step. rewrite Hrd, Hin, read_query_frame by done.
    fold body. unfold body at 1. by rewrite is_session_use_text, Huse, orb_true_r by done.
  - intros c1' Hrd' Hin'. cbn [c_reader set_reader] in Hrd'. unfold reader_step. rewrite Hrd'. cbn [advance].
    destruct (request_query q (StUse id) p stream s (c_state c1') Hast Hq Htext Hp Hparse) as (s1 & _ & [ch ->] & Hreq).
    fold body in Hreq. rewrite Hreq, on_store_bind.
    destruct (exec_use_eq _ cat id d (cs_keyspace (c_state c1')) (qp_values p) (qp_page_size p) (qp_paging_state p)
      (ast_represents s cat ch Hrep) Hn Hd) as (s2 & ->). cbn [settle_then].
    unfold after_settle, fmap, st_fmap. cbn [pd_session pd_resp pd_stream pd_compression pd_skip_metadata].
    unfold on_conn, modify, mbind at 1, st_bind at 1, lift. cbn [fst snd respond]. unfold result_set_keyspace.
    rewrite expect_string by done. res_simpl.
    destruct (response_frame_delivers (E:=QueryError) 4 stream RespResult (be 4 3 ++ enc_short (norm_id id))
      (compression (c_state c1'))) as (f & Hf & _).
    { unfold long_ok, enc_short, short_ok in *. rewrite !length_app, !length_be. lia. }
    rewrite Hf. cbn [or_error conclude]. eexists s2, _, f. split; [reflexivity|]. done.
Qed.

(** A QUERY that is not recognised as a USE is spawned. *)
Lemma query_spawned s c stream q p rest :
  long_ok q -> starts_with (to_ascii_lowercase (take 16 q)) (bs "use ") = false -> in_i 16 stream = true ->
  (Z.of_nat (length (enc_long q ++ enc_params p)) <= MAX_FRAME_LENGTH)%Z ->
  c_reader c = RdFrame -> c_in c = query_frame stream q p ++ rest -> length (c_tasks c) < PER_CONN_INFLIGHT ->
  exists c', run_labels parse short_name Tokio [LReader; LReader] s c = Some (s, c', [EvAccept stream]) /\
    c_reader c' = RdFrame /\ c_in c' = rest /\ c_state c' = c_state c /\
    c_tasks c' = c_tasks c ++ [(stream, PhStart (req_code ReqQuery) (enc_long q ++ enc_params p))].
Proof.
  intros Hq Huse Hst Hlen Hrd Hin Hts. set (body := enc_long q ++ enc_params p).
  set (c1 := set_reader (RdPermit stream (req_code ReqQuery) body) (set_input rest (c_fin c) c)).
  assert (H1' : conn_step parse short_name Tokio LReader s c = Some (s, c1, [EvAccept stream])).
  { cbn [conn_step]. unfold reader_step. rewrite Hrd, Hin, read_query_frame by done. fold body. unfold body at 1.
    by rewrite req_u8_spec, Z.eqb_refl, is_session_use_text, Huse by done. }
  set (c2 := set_reader RdFrame (set_tasks (c_tasks c ++ [(stream, PhStart (req_code ReqQuery) body)]) c1)).
  assert (H2' : conn_step parse short_name Tokio LReader s c1 = Some (s, c2, [])).
  { cbn [conn_step]. unfold reader_step. cbn [c1 c_reader set_reader set_input c_tasks].
    by rewrite (proj2 (Nat.ltb_lt _ _) Hts). }
  exists c2. cbn [run_labels]. rewrite H1'. cbn [mbind option_bind]. rewrite H2'. done.
Qed.

(** The recognition looks at the first bytes only.  " USE b", with a space in
    front, is a USE for the parser and not for the reader: it is spawned like any
    other statement, the next QUERY is read before it has run, and can be executed
    first - in the old keyspace. *)
Theorem indented_use_overtaken s c stream1 stream2 q2 p1 p2 rest :
  let body1 := enc_long (bs " USE b") ++ enc_params p1 in
  let body2 := enc_long q2 ++ enc_params p2 in
  long_ok q2 -> starts_with (to_ascii_lowercase (take 16 q2)) (bs "use ") = false ->
  in_i 16 stream1 = true -> in_i 16 stream2 = true ->
  (Z.of_nat (length body1) <= MAX_FRAME_LENGTH)%Z -> (Z.of_nat (length body2) <= MAX_FRAME_LENGTH)%Z ->
  c_reader c = RdFrame -> c_tasks c = [] ->
  c_in c = query_frame stream1 (bs " USE b") p1 ++ query_frame stream2 q2 p2 ++ rest ->
  exists c1 c2 ev s2,
    run_labels parse short_name Tokio [LReader; LReader] s c = Some (s, c1, [EvAccept stream1]) /\
    run_labels parse short_name Tokio [LReader; LReader] s c1 = Some (s, c2, [EvAccept stream2]) /\
    c_tasks c2 = [(stream1, PhStart (req_code ReqQuery) body1); (stream2, PhStart (req_code ReqQuery) body2)] /\
    c_state c2 = c_state c /\
    option_map fst (conn_step parse short_name Tokio (LTask 1) s c2) = Some (s2, ev) /\
    s2 = fst (fst (handle_request parse short_name (req_code ReqQuery) body2 stream2 (s, c_state c))).
Proof.
  intros body1 body2 Hq Huse Hst1 Hst2 Hl1 Hl2 Hrd Hts Hin.
  destruct (query_spawned s c stream1 (bs " USE b") p1 (query_frame stream2 q2 p2 ++ rest))
    as (c1 & Hr1 & Hrd1 & Hin1 & Hs1 & Ht1); [done..|by rewrite Hts; apply Nat.ltb_lt|].
  destruct (query_spawned s c1 stream2 q2 p2 rest) as (c2 & Hr2 & Hrd2 & Hin2 & Hs2 & Ht2);
    [done..|by rewrite Ht1, Hts; apply Nat.ltb_lt|].
  rewrite Ht1, Hts in Ht2. rewrite Hs1 in Hs2. exists c1, c2. cbn [conn_step]. unfold task_step. rewrite Ht2.
  cbn [lookup list_lookup app mbind option_bind advance]. rewrite Hs2.
  destruct (handle_request parse short_name (req_code ReqQuery) body2 stream2 (s, c_state c)) as [[s' cs] r] eqn:Hreq.
  fold body2. rewrite Hreq. cbn [mbind option_bind]. destruct (conclude stream2 cs r); cbn [option_map fst].
  all: eexists _, s'; repeat (split; [done|]); done.
Qed.
End keyspaces.

(** ** A connection *)

(** A parser of one statement, and a connection on which a client asks for the
    options (stream 7) and sends that statement (stream 9). *)
Definition demo_use : str := bs "USE ks".
Definition demo_parse (q : str) : option CassandraStatement :=
  if bool_decide (q = demo_use) then Some (StUse (Quoted (bs "ks"))) else None.
Definition no_params : QueryParameters :=
  {| qp_values := []; qp_skip_metadata := false; qp_page_size := None; qp_paging_state := None |}.
Definition demo_input : bytes :=
  Bench.frame 7 (req_code ReqOptions) [] [] ++ query_frame 9 demo_use no_params.

Abbreviation demo_run rt := (conn_run (H := mem_kv) (H0 := bits_json) (H1 := ascii_case) (H2 := no_literals)
  (H3 := cql_wire) demo_parse (fun _ => []) rt).
Abbreviation demo_labels rt := (run_labels (H := mem_kv) (H0 := bits_json) (H1 := ascii_case) (H2 := no_literals)
  (H3 := cql_wire) demo_parse (fun _ => []) rt).

(** The options are answered and written, the statement is accepted. *)
Definition served_labels : list ConnLabel :=
  [LRecv demo_input; LReader; LReader; LReader; LWriter 5 true; LReader].

Lemma demo_served rt : exists s c ev, demo_labels rt served_labels empty_storage open_conn = Some (s, c, ev) /\
  demo_run rt open_conn ev c /\ accepted ev = [7; 9]%Z /\ pending c = [9%Z] /\ awaited c = [] /\
  c_writer c = true /\ c_resp c = [] /\ length (responses ev) = 1 /\
  Forall (fun f => Z.of_nat (length f) < 2 ^ 32)%Z (responses ev).
Proof.
  assert (Hc : option_map (fun x => (accepted (snd x), pending (snd (fst x)), awaited (snd (fst x)),
      c_writer (snd (fst x)), c_resp (snd (fst x)), length (responses (snd x)),
      forallb (fun f => Z.of_nat (length f) <? 2 ^ 32)%Z (responses (snd x))))
    (demo_labels rt served_labels empty_storage open_conn)
    = Some ([7; 9]%Z, [9%Z], [], true, [], 1, true)) by (destruct rt; vm_compute; reflexivity).
  destruct (demo_labels rt served_labels empty_storage open_conn) as [[[s c] ev]|] eqn:Hr; [|discriminate Hc].
  cbn [option_map fst snd] in Hc. injection Hc as H1 H2 H3 H4 H5 H6 H7.
  exists s, c, ev. split; [done|]. split; [by eapply run_labels_run|]. repeat (split; [done|]).
  apply forallb_Forall in H7. eapply Forall_impl; [exact H7|]. intros f Hf. by apply Z.ltb_lt.
Qed.

Lemma one_answer_per_request_witness :
  exists ev c, demo_run Tokio open_conn ev c /\ accepted ev = [7; 9]%Z /\ accepted ev ≡ₚ finished ev ++ pending c.
Proof.
  destruct (demo_served Tokio) as (s & c & ev & _ & Hrun & Ha & _). exists ev, c.
  split; [exact Hrun|]. split; [exact Ha|]. eapply one_answer_per_request. exact Hrun.
Defined.

Lemma responses_carry_stream_witness :
  exists ev c, demo_run Tokio open_conn ev c /\ length (responses ev) = 1 /\
    forall stream f, EvSent stream f ∈ ev -> take 2 (drop 2 f) = be 2 stream.
Proof.
  destruct (demo_served Tokio) as (s & c & ev & _ & Hrun & _ & _ & _ & _ & _ & Hn & _). exists ev, c.
  split; [exact Hrun|]. split; [exact Hn|].
  destruct (responses_carry_stream demo_parse (fun _ => []) Tokio ev c Hrun) as [Hs _]. exact Hs.
Defined.

Lemma monoio_output_witness :
  exists ev c, demo_run Monoio open_conn ev c /\ length (responses ev) = 1 /\
    c_out c ++ concat (c_resp c) = concat (responses ev) /\
    exists msgs, snd (read_all 1 {| Bench.cn_in := c_out c; Bench.cn_out := []; Bench.next_stream := 0 |}) = Ok msgs.
Proof.
  destruct (demo_served Monoio) as (s & c & ev & _ & Hrun & _ & _ & _ & Hw & He & Hn & Hlen). exists ev, c.
  split; [exact Hrun|]. split; [exact Hn|].
  destruct (monoio_output (H4 := cql_wire_laws) demo_parse (fun _ => []) ev c Hrun Hw) as [Hout Hread].
  split; [exact Hout|]. destruct (Hread He Hlen [] 0%Z) as (msgs & Hm & _). rewrite Hn in Hm.
  exists msgs. rewrite Hm. reflexivity.
Defined.

Lemma connection_progress_witness :
  exists ev c, demo_run Tokio open_conn ev c /\ pending c = [9%Z] /\
    exists l s' c' ev', internal l = true /\
      conn_step (H := mem_kv) (H0 := bits_json) (H1 := ascii_case) (H2 := no_literals) (H3 := cql_wire)
        demo_parse (fun _ => []) Tokio l empty_storage c = Some (s', c', ev') /\ weight c' < weight c.
Proof.
  destruct (demo_served Tokio) as (s & c & ev & _ & Hrun & _ & Hp & Haw & _). exists ev, c.
  split; [exact Hrun|]. split; [exact Hp|].
  destruct (connection_progress demo_parse (fun _ => []) Tokio ev c empty_storage Hrun) as (_ & Hstep & _).
  - rewrite Hp. discriminate.
  - rewrite Haw. reflexivity.
  - exact Hstep.
Defined.

Definition demo_ks : KeyspaceDef := {| ks_name := bs "ks"; ks_replication := [] |}.

Lemma use_before_next_frame_witness :
  exists s c c1, c_in c = query_frame 9 demo_use no_params ++ bs "rest" /\
    reader_step (H := mem_kv) (H0 := bits_json) (H1 := ascii_case) (H2 := no_literals) (H3 := cql_wire)
      demo_parse (fun _ => []) s c = Some (s, c1, [EvAccept 9]) /\
    exists s2 c2, reader_step (H := mem_kv) (H0 := bits_json) (H1 := ascii_case) (H2 := no_literals)
        (H3 := cql_wire) demo_parse (fun _ => []) s c1 = Some (s2, c2, []) /\
      cs_keyspace (c_state c2) = Some (bs "ks").
Proof.
  destruct (put_keyspace_refines (H0 := mem_kv_laws) (H2 := bits_json_laws) empty_storage empty_cat demo_ks
    empty_represents) as (s & Hput & Hrep); [by_compute|].
  assert (Hs : s = fst (put_keyspace (H0 := bits_json) demo_ks empty_storage)) by (rewrite Hput; reflexivity).
  destruct (use_before_next_frame (H0 := mem_kv_laws) (H1 := bits_json) (H3 := ascii_case)
    (H4 := no_literals) (H6 := cql_wire_laws) demo_parse (fun _ => []) _ s
    (set_input (query_frame 9 demo_use no_params ++ bs "rest") false open_conn) 9 (Quoted (bs "ks")) demo_ks
    demo_use no_params (bs "rest") Hrep) as (c1 & Hacc & Hin & Hnext).
  - rewrite Hs. split; [|vm_compute; lia]. intros q stmt. vm_compute. intros Hq. discriminate Hq.
  - by_compute.
  - exact (lookup_insert_eq (M := gmap str) _ _ _).
  - by_compute.
  - by_compute.
  - by_compute.
  - by_compute.
  - reflexivity.
  - reflexivity.
  - reflexivity.
  - by_compute.
  - reflexivity.
  - reflexivity.
  - destruct (Hnext c1 eq_refl Hin) as (s2 & c2 & f & Hstep & _ & _ & Hks).
    eexists s, _, c1. split; [|split; [exact (Hacc s)|exists s2, c2; split; [exact Hstep|exact Hks]]]. reflexivity.
Defined.

(** A name of 65501 bytes. *)
Definition long_name : str := replicate (Z.to_nat 65501) Byte.x78.

Lemma startup_kills_reader_witness :
  exists c c', c_reader c = RdInline 3 (PhStart (req_code ReqStartup) (enc_string_map [(bs "COMPRESSION", long_name)])) /\
    conn_step (H := mem_kv) (H0 := bits_json) (H1 := ascii_case) (H2 := no_literals) (H3 := cql_wire)
      demo_parse (fun _ => []) Tokio LReader empty_storage c = Some (empty_storage, c', [EvLost 3]) /\
    c_reader c' = RdClosed.
Proof.
  set (c := set_reader (RdInline 3 (PhStart (req_code ReqStartup)
    (enc_string_map [(bs "COMPRESSION", long_name)]))) open_conn).
  destruct (startup_kills_reader (H1 := ascii_case) (H2 := no_literals) (H0 := bits_json) (H4 := cql_wire_laws)
    demo_parse (fun _ => []) 3 long_name c empty_storage) as (c' & Hstep & Hrd & _).
  - reflexivity.
  - by_compute.
  - by_compute.
  - by_compute.
  - by_compute.
  - by_compute.
  - exists c, c'. split; [reflexivity|]. split; [exact Hstep|exact Hrd].
Defined.
