(* ===== verification/World.v ===== *)
(** * The running server

    Models the accept loops [run] of src/src/server.rs and [per_core_listener] of
    src/src/server_monoio.rs: the connections that were accepted, all on one
    storage, with the pipeline threads of the engines beside them.  Every
    interleaving of their steps is a run.  The theorems carry over what [Conn]
    shows of one connection, and show that the server as a whole comes to rest
    only when everything is answered. *)

From S2P Require Import Prelude RustStr Triple Ast Schema CqlValue Keys Project Kv Pipeline Storage Rows.
From S2P Require Import Catalog System Query Tickets Wire Protocol Server Client Session Conn.

Section world.
Context `{KV} `{Json} `{UnicodeCase} `{Literals} `{Wire}.
Context (parse : str -> option CassandraStatement) (short_name : CassandraStatement -> str).
Context (rt : Runtime).

(** [w_loops]: the accept loops, and whether each still runs - one in [run], one
    per driver thread in [run_blocking].  [w_owner]: the loop that accepted each
    connection. *)
Record World := { w_store : Storage; w_loops : list bool; w_owner : list nat; w_conns : list Conn }.

(** A server that has not accepted anything yet. *)
Definition serve (loops : list bool) (s : Storage) : World :=
  {| w_store := s; w_loops := loops; w_owner := []; w_conns := [] |}.

(** The runtime of connection [i] is there. *)
Definition alive (i : nat) (w : World) : bool :=
  bool_decide ((w_owner w !! i ≫= fun k => w_loops w !! k) = Some true).

Inductive WorldLabel :=
| WAccept (k : nat)                (** [listener.accept()] returns a connection *)
| WAcceptError (k : nat)           (** ... or an error: [?] leaves the loop *)
| WConn (i : nat) (l : ConnLabel)  (** a task or the peer of connection [i] *)
| WThread (i : nat) (l : Label).   (** a pipeline thread of engine [i] *)

(** The events of connection [i]. *)
Definition tagged (i : nat) (ev : list Event) : list (nat * Event) := (fun e => (i, e)) <$> ev.

(** A task panicked. *)
Definition panics (ev : list Event) : bool :=
  existsb (fun e => match e with EvLost _ => true | _ => false end) ev.

(** The loops after a step of connection [i].  Tokio catches a panic at the task;
    monoio does not, so it unwinds through [block_on] and ends the thread. *)
Definition loops_after (i : nat) (ev : list Event) (w : World) : list bool :=
  match rt, w_owner w !! i with
  | Monoio, Some k => if panics ev then <[k := false]> (w_loops w) else w_loops w
  | _, _ => w_loops w
  end.

(** When a loop ends, its [block_on] returns (or unwinds) and the runtime drops every
    task: the connections it accepted are not [alive] any more and take no step. *)
Definition world_step (l : WorldLabel) (w : World) : option (World * list (nat * Event)) :=
  match l with
  | WAccept k =>
    if bool_decide (w_loops w !! k = Some true)
    then Some ({| w_store := w_store w; w_loops := w_loops w; w_owner := w_owner w ++ [k];
                  w_conns := w_conns w ++ [open_conn] |}, [])
    else None
  | WAcceptError k =>
    if bool_decide (w_loops w !! k = Some true)
    then Some ({| w_store := w_store w; w_loops := <[k := false]> (w_loops w); w_owner := w_owner w;
                  w_conns := w_conns w |}, [])
    else None
  | WConn i l =>
    if alive i w then
      c ← w_conns w !! i;
      '(s', c', ev) ← conn_step parse short_name rt l (w_store w) c;
      Some ({| w_store := s'; w_loops := loops_after i ev w; w_owner := w_owner w;
               w_conns := <[i := c']> (w_conns w) |}, tagged i ev)
    else None
  | WThread i l =>
    s' ← thread_step i l (w_store w);
    Some ({| w_store := s'; w_loops := w_loops w; w_owner := w_owner w; w_conns := w_conns w |}, [])
  end.

Inductive world_run (w : World) : list (nat * Event) -> World -> Prop :=
| wrun_nil : world_run w [] w
| wrun_step ev w1 l w2 ev' :
    world_run w ev w1 -> world_step l w1 = Some (w2, ev') -> world_run w (ev ++ ev') w2.

(** The server's own steps: no peer sends, connects or disconnects, and the peers of
    the connections [stalled] take no bytes, so that a write to them never
    returns. *)
Definition own (stalled : list nat) (l : WorldLabel) : bool :=
  match l with
  | WAccept _ | WAcceptError _ => false
  | WConn i (LWriter _ _) => negb (bool_decide (i ∈ stalled))
  | WConn _ l => internal l
  | WThread _ _ => true
  end.
Definition own_step (stalled : list nat) (w w' : World) : Prop :=
  exists l ev, own stalled l = true /\ world_step l w = Some (w', ev).
Lemma own_internal stalled i l : own stalled (WConn i l) = true -> internal l = true.
Proof. by destruct l. Qed.

(** ** Each connection on its own *)

Definition events_of (i : nat) (ev : list (nat * Event)) : list Event :=
  omap (fun je => if decide (fst je = i) then Some (snd je) else None) ev.

Lemma events_of_app i ev ev' : events_of i (ev ++ ev') = events_of i ev ++ events_of i ev'.
Proof. apply omap_app. Qed.
Lemma events_of_tagged i ev : events_of i (tagged i ev) = ev.
Proof.
  unfold events_of, tagged. induction ev as [|e ev IH]; [done|]. cbn. rewrite decide_True by done. by rewrite IH.
Qed.
Lemma events_of_other i j ev : i <> j -> events_of i (tagged j ev) = [].
Proof.
  intros Hij. unfold events_of, tagged. induction ev as [|e ev IH]; [done|]. cbn.
  by rewrite decide_False by done.
Qed.

(** What the labels may do to a world. *)
Lemma world_step_inv l w w' ev : world_step l w = Some (w', ev) ->
  (exists k, l = WAccept k /\ w_store w' = w_store w /\ w_conns w' = w_conns w ++ [open_conn] /\ ev = []) \/
  (exists k, l = WAcceptError k /\ w_store w' = w_store w /\ w_conns w' = w_conns w /\ ev = []) \/
  (exists i l' c c' ev', l = WConn i l' /\ w_conns w !! i = Some c /\
     conn_step parse short_name rt l' (w_store w) c = Some (w_store w', c', ev') /\
     w_conns w' = <[i := c']> (w_conns w) /\ ev = tagged i ev') \/
  (exists i l', l = WThread i l' /\ thread_step i l' (w_store w) = Some (w_store w') /\
     w_conns w' = w_conns w /\ ev = []).
Proof.
  destruct l as [k|k|i l|i l]; cbn [world_step].
  - case_bool_decide; [|done]. intros [= <- <-]. left. by exists k.
  - case_bool_decide; [|done]. intros [= <- <-]. right. left. by exists k.
  - destruct (alive i w); [|done].
    intros (c & Hc & ([[s' c'] ev'] & Hs & [= <- <-])%bind_Some)%bind_Some. do 2 right. left.
    by exists i, l, c, c', ev'.
  - intros (s' & Hs & [= <- <-])%bind_Some. do 3 right. by exists i, l.
Qed.
Ltac world_cases Hs :=
  destruct (world_step_inv _ _ _ _ Hs) as [(k & -> & Hst & Hw & ->)|[(k & -> & Hst & Hw & ->)|
    [(i & l' & c & c' & e & -> & Hi & Hc & Hw & ->)|(i & l' & -> & Ht & Hw & ->)]]].

Lemma world_run_conn loops s0 ev w : world_run (serve loops s0) ev w ->
  (forall i c, w_conns w !! i = Some c -> conn_run parse short_name rt open_conn (events_of i ev) c) /\
  (forall i, length (w_conns w) <= i -> events_of i ev = []).
Proof.
  induction 1 as [|ev w1 l w2 ev' Hrun (Hcs & Hn) Hstep]; [done|]. world_cases Hstep; rewrite Hw, ?app_nil_r.
  - split.
    + intros i c [Hi|[Hi Hx]]%lookup_app_Some; [by apply Hcs|].
      destruct (i - length (w_conns w1)) as [|m] eqn:Hk; [|done]. injection Hx as <-.
      rewrite Hn by done. constructor.
    + intros i Hi. apply Hn. rewrite length_app in Hi. lia.
  - done.
  - rewrite length_insert. pose proof (lookup_lt_Some _ _ _ Hi) as Hlt. split.
    + intros j cj Hj. rewrite events_of_app. destruct (decide (i = j)) as [<-|Hij].
      * rewrite list_lookup_insert_eq in Hj by done. injection Hj as <-. rewrite events_of_tagged.
        econstructor; [by apply Hcs|exact Hc].
      * rewrite list_lookup_insert_ne in Hj by done. rewrite events_of_other, app_nil_r by done. by apply Hcs.
    + intros j Hj. rewrite events_of_app, events_of_other, app_nil_r by lia. by apply Hn.
  - done.
Qed.

(** ** Every run of the server's own steps ends *)

(** Connections first, then the pipelines: a request may hand any number of
    operations to them. *)
Definition conns_cost (w : World) : nat := sum_list_with cost (w_conns w).
Definition threads_work (w : World) : nat := sum_list_with work (st_engines (w_store w)).

Lemma own_step_cost stalled w w' : own_step stalled w w' ->
  conns_cost w' < conns_cost w \/ (conns_cost w' = conns_cost w /\ threads_work w' < threads_work w).
Proof.
  intros (l & ev & Hown & Hs). world_cases Hs; [done|done|..].
  - left. unfold conns_cost. rewrite Hw. pose proof (sum_list_insert cost _ _ _ c' Hi) as Hsum.
    pose proof (conn_step_cost _ _ _ _ _ _ _ _ _ (own_internal _ _ _ Hown) Hc) as Hlt. lia.
  - right. unfold conns_cost, threads_work. rewrite Hw. split; [done|].
    apply thread_step_inv in Ht as (e & e' & He & Hp & ->). unfold with_engine. cbn.
    pose proof (sum_list_insert work _ _ _ e' He) as Hsum. apply pipe_step_work in Hp. lia.
Qed.

Lemma own_steps_end stalled w : sn (own_step stalled) w.
Proof.
  enough (Hgen : forall n m w, conns_cost w = n -> threads_work w = m -> sn (own_step stalled) w) by eauto.
  induction n as [n IHn] using lt_wf_ind. induction m as [m IHm] using lt_wf_ind. intros w1 <- <-.
  constructor. intros w2 [Hlt|[Heq Hlt]]%own_step_cost; [by eapply IHn|by eapply IHm].
Qed.

(** ** Nothing is waited for in vain *)

Definition outcome_gates (o : Outcome) : list WriteTicket :=
  match o with Reply _ => [] | Settle gates _ => gates end.
Definition store_backed (ts : list WriteTicket) (s : Storage * ConnShared) : Prop := backed ts (fst s).

Lemma on_store_triple {A} ts (m : st Storage QueryError A) (Q : A -> Storage -> Prop) :
  triple (backed ts) m Q (backed ts) ->
  triple (store_backed ts) (on_store m) (fun a s => Q a (fst s)) (store_backed ts).
Proof.
  intros Hm [s cs] Hs. specialize (Hm s Hs). unfold on_store. cbn [fst snd].
  by destruct (m s) as [s' [a|e|]].
Qed.
Lemma on_store_keeps {A} ts (m : st Storage QueryError A) :
  keeps (backed ts) m -> keeps (store_backed ts) (on_store m).
Proof. apply on_store_triple. Qed.
Lemma on_conn_keeps ts f : keeps (store_backed ts) (on_conn f). Proof. by intros [s cs]. Qed.
Lemma of_conn_keeps {A} ts (f : ConnShared -> A) : keeps (store_backed ts) (of_conn f). Proof. by intros [s cs]. Qed.
#[local] Hint Resolve on_conn_keeps of_conn_keeps : triple.

Lemma after_settle_keeps ts p : keeps (store_backed ts) (after_settle p).
Proof. unfold after_settle. walk. Qed.

Abbreviation answers ts m := (triple (store_backed ts) m
  (fun o s => backed (outcome_gates o ++ ts) (fst s)) (store_backed ts)).
Lemma reply_answers ts (m : st (Storage * ConnShared) QueryError bytes) :
  keeps (store_backed ts) m -> answers ts (Reply <$> m).
Proof. intros Hm. by eapply triple_fmap. Qed.
Lemma settle_then_answers ts gates p :
  triple (fun s => backed (gates ++ ts) (fst s)) (settle_then gates p)
    (fun o s => backed (outcome_gates o ++ ts) (fst s)) (store_backed ts).
Proof. destruct gates as [|g gates]; [apply reply_answers, after_settle_keeps|by intros s]. Qed.

Lemma handle_request_answers ts op body stream : answers ts (handle_request parse short_name op body stream).
Proof.
  unfold handle_request, handle_startup, handle_query, handle_prepare, handle_execute.
  apply keeps_bind; [walk|]. intros comp. apply keeps_bind; [walk|]. intros o.
  destruct o; try (by intros s); try (apply reply_answers; walk).
  - do 2 (apply keeps_bind; [walk|]; intros ?). apply keeps_bind; [walk|]. intros c. apply reply_answers. walk.
  - apply keeps_bind; [walk|]. intros [q p]. apply keeps_bind; [walk|]. intros ks.
    eapply triple_bind; [apply on_store_triple, execute_query_issues|].
    intros [resp gates]. apply settle_then_answers.
  - apply keeps_bind; [walk|]. intros [q b].
    apply keeps_bind; [apply on_store_keeps, triple_map_err, parse_cached_keeps|]. intros stmt.
    apply keeps_bind; [walk|]. intros ks.
    apply keeps_bind; [apply on_store_keeps, prepared_info_keeps|]. intros info.
    do 2 (apply keeps_bind; [walk|]; intros ?). apply reply_answers. walk.
  - apply keeps_bind; [walk|]. intros [id b]. do 3 (apply keeps_bind; [walk|]; intros ?).
    case_match; [by intros s|]. apply keeps_bind; [walk|]. intros ks.
    eapply triple_bind; [apply on_store_triple, execute_prepared_issues|].
    intros [resp gates]. apply settle_then_answers.
Qed.

Definition move_gates (m : Move) : list WriteTicket := match m with Next ph => phase_gates ph | _ => [] end.

Lemma conclude_gates stream cs r :
  move_gates (conclude stream cs r) = match r with Ok o => outcome_gates o | _ => [] end.
Proof. destruct r as [[f|gates p]|e|]; cbn; [done|done| |done]. by case_match. Qed.

Lemma advance_backed ts stream ph s c s' c' m : backed (phase_gates ph ++ ts) s ->
  advance parse short_name stream ph s c = Some (s', c', m) -> backed (move_gates m ++ ts) s'.
Proof.
  destruct ph as [op body|gates p|resp]; cbn [advance phase_gates]; intros Hs.
  - pose proof (handle_request_answers ts op body stream (s, c_state c) Hs) as Hr.
    destruct (handle_request _ _ _ _ _ _) as [[s1 cs] r]. intros [= <- <- <-]. rewrite conclude_gates.
    by destruct r.
  - destruct (settled s gates); [|done].
    pose proof (after_settle_keeps ts p (s, c_state c)) as Hr. cbn in Hr.
    destruct (after_settle p (s, c_state c)) as [[s1 cs] r]. intros [= <- <- <-]. rewrite conclude_gates.
    assert (Hb : backed ts s) by (by eapply backed_drop).
    specialize (Hr Hb). by destruct r.
  - by intros (c1 & _ & [= <- <- <-])%bind_Some.
Qed.

Lemma reader_backed ts s c s' c' ev : backed (awaited c ++ ts) s ->
  reader_step parse short_name s c = Some (s', c', ev) -> backed (awaited c' ++ ts) s'.
Proof.
  unfold reader_step, awaited. intros Hs.
  destruct (c_reader c) as [|stream ph|stream op body|stream resp|].
  - destruct (read_frame _ _ _) as [| | |st r|st r rest|st op body rest]; [done|..].
    1-2: by intros [= <- <- <-].
    + destruct r; by intros [= <- <- <-].
    + destruct r; by intros [= <- <- <-].
    + destruct (_ || _); by intros [= <- <- <-].
  - rewrite <-app_assoc in Hs. intros ([[s1 c1] m] & Ha & Hm)%bind_Some.
    pose proof (advance_backed _ _ _ _ _ _ _ _ Hs Ha) as Hb. apply advance_inv in Ha as (Ht & _ & _).
    rewrite app_assoc in Hb. destruct m; injection Hm as <- <- <-; cbn; by rewrite Ht.
  - destruct (_ <? _); [|done]. intros [= <- <- <-]. cbn. rewrite bind_app. cbn. by rewrite app_nil_r.
  - intros (c1 & Hr & [= <- <- <-])%bind_Some. apply send_resp_inv in Hr as (Ht & _). cbn. by rewrite Ht.
  - done.
Qed.

Lemma task_backed ts j s c s' c' ev : backed (awaited c ++ ts) s ->
  task_step parse short_name j s c = Some (s', c', ev) -> backed (awaited c' ++ ts) s'.
Proof.
  unfold task_step, awaited. intros Hs ([stream ph] & Hj & ([[s1 c1] m] & Ha & Hm)%bind_Some)%bind_Some.
  set (rd := match c_reader c with RdInline _ ph => phase_gates ph | _ => [] end) in *.
  set (gs := fun t : Z * Phase => phase_gates (snd t)) in *.
  pose proof (advance_inv _ _ _ _ _ _ _ _ _ Ha) as (_ & Hr & _).
  assert (Hex : forall ph', exists rest, (c_tasks c ≫= gs) ≡ₚ phase_gates ph ++ rest /\
    (<[j := (stream, ph')]> (c_tasks c) ≫= gs) ≡ₚ phase_gates ph' ++ rest)
    by (intros ph'; exact (bind_insert gs _ _ _ (stream, ph') Hj)).
  assert (Hd : (c_tasks c ≫= gs) ≡ₚ phase_gates ph ++ (base.delete j (c_tasks c) ≫= gs))
    by (by rewrite (delete_Permutation _ _ _ Hj) at 1).
  assert (Hgo : forall rest, (c_tasks c ≫= gs) ≡ₚ phase_gates ph ++ rest ->
    backed (move_gates m ++ (rd ++ rest ++ ts)) s1).
  { intros rest Hp. eapply advance_backed; [|exact Ha].
    by rewrite Hp, <-!app_assoc, Permutation_app_swap_app in Hs. }
  destruct m as [ph'|f|]; injection Hm as <- <- <-; cbn; rewrite Hr; fold rd gs.
  - destruct (Hex ph') as (rest & H1' & H2'). specialize (Hgo _ H1').
    by rewrite H2', <-!app_assoc, Permutation_app_swap_app.
  - specialize (Hgo _ Hd). by rewrite <-app_assoc.
  - specialize (Hgo _ Hd). by rewrite <-app_assoc.
Qed.

Lemma conn_backed ts l s c s' c' ev : backed (awaited c ++ ts) s ->
  conn_step parse short_name rt l s c = Some (s', c', ev) -> backed (awaited c' ++ ts) s'.
Proof.
  intros Hs. destruct l as [b| | |j|n ok]; cbn [conn_step].
  - destruct (c_fin c); [done|]. by intros [= <- <- <-].
  - by intros [= <- <- <-].
  - by apply reader_backed.
  - by apply task_backed.
  - intros (c1 & [Hr Ht]%writer_step_inv & [= <- <- <-])%bind_Some. unfold awaited in *. by rewrite Hr, Ht.
Qed.

(** All tickets anybody waits for. *)
Definition waits (w : World) : list WriteTicket := w_conns w ≫= awaited.

Lemma world_backed loops s0 ev w : backed [] s0 -> world_run (serve loops s0) ev w -> backed (waits w) (w_store w).
Proof.
  intros Hs0. induction 1 as [|ev w1 l w2 ev' Hrun IH Hstep]; [done|]. unfold waits in *.
  world_cases Hstep; rewrite Hw.
  - rewrite Hst, bind_app. cbn. by rewrite app_nil_r.
  - by rewrite Hst.
  - destruct (bind_insert awaited _ _ _ c' Hi) as (rest & H1' & H2').
    rewrite H2'. eapply conn_backed; [|exact Hc]. by rewrite <-H1'.
  - by eapply thread_backed.
Qed.

(** ** Rest *)

Section rest.
Context (stalled : list nat).
Abbreviation own_step := (own_step stalled).

Lemma rest_engines w i e : nf own_step w -> st_engines (w_store w) !! i = Some e -> idle e.
Proof.
  intros Hnf He. apply next_label_idle. destruct (next_label e) as [l|] eqn:Hl; [|done]. destruct Hnf.
  destruct (next_label_enabled (st_write_sync (w_store w)) e l Hl) as [e' Hp].
  eexists _, (WThread i l), _. split; [done|]. cbn [world_step]. unfold thread_step. rewrite He. cbn [mbind option_bind].
  rewrite Hp. reflexivity.
Qed.

Lemma rest_settled w ts : nf own_step w -> backed ts (w_store w) -> settled (w_store w) ts = true.
Proof.
  intros Hnf [Ha Hi]. apply forallb_forall. intros t Ht. rewrite Forall_forall in Hi.
  specialize (Hi t (proj2 (list_elem_of_In _ _) Ht)). destruct t as [[i n]|]; [|done].
  destruct Hi as (e & He & Hn). cbn. rewrite He. apply bool_decide_eq_true_2. apply accounted_idle; [|by eapply rest_engines|done].
  by eapply Forall_lookup_1.
Qed.

Lemma rest_conn w i c l : nf own_step w -> i ∉ stalled -> alive i w = true -> w_conns w !! i = Some c ->
  internal l = true -> conn_step parse short_name rt l (w_store w) c = None.
Proof.
  intros Hnf Hst Hal Hi Hl. destruct (conn_step _ _ _ _ _ _) as [[[s' c'] ev]|] eqn:Hs; [|done]. destruct Hnf.
  eexists _, (WConn i l), _. split.
  - destruct l; try done. cbn. by rewrite bool_decide_eq_false_2.
  - cbn [world_step]. rewrite Hal, Hi. cbn [mbind option_bind]. rewrite Hs. reflexivity.
Qed.

(** Nothing in progress, nothing left to write, and the reader wants more bytes
    or is done. *)
Definition at_rest (c : Conn) : Prop :=
  pending c = [] /\ (c_writer c = true -> c_resp c = []) /\
  (c_reader c = RdClosed \/ (c_reader c = RdFrame /\ read_frame (c_state c) (c_in c) (c_fin c) = InWait)).

Lemma rest_at_rest w i c : nf own_step w -> i ∉ stalled -> alive i w = true -> backed (waits w) (w_store w) ->
  w_conns w !! i = Some c -> at_rest c.
Proof.
  intros Hnf Hst Hal Hb Hi. set (s := w_store w).
  assert (Hno : forall l s' c' ev, internal l = true -> conn_step parse short_name rt l s c <> Some (s', c', ev))
    by (intros l s' c' ev Hl; pose proof (rest_conn w i c l Hnf Hst Hal Hi Hl) as Hn; fold s in Hn; congruence).
  assert (Hset : settled s (awaited c) = true).
  { destruct (bind_insert awaited _ _ _ c Hi) as (rest & Hp & _). unfold waits in Hb. rewrite Hp in Hb.
    apply rest_settled; [done|]. rewrite Permutation_app_comm in Hb. by eapply backed_drop. }
  assert (Hpend : pending c = []).
  { unfold pending. destruct (decide (reader_streams (c_reader c) = [])) as [->|Hr].
    - destruct (decide (c_tasks c = [])) as [->|Ht]; [done|].
      destruct (tasks_progress parse short_name rt s c Hset Ht) as (l & s' & c' & ev & Hl & Hs & _).
      by destruct (Hno l s' c' ev).
    - destruct (reader_progress parse short_name rt s c Hset Hr) as (l & s' & c' & ev & Hl & Hs & _).
      by destruct (Hno l s' c' ev). }
  split; [done|]. split.
  - intros Hw. destruct (decide (c_resp c = [])) as [Hn|Hn]; [done|].
    destruct (writer_progress parse short_name rt s c Hw Hn) as (c' & Hs & _). by destruct (Hno (LWriter 0 true) s c' []).
  - apply app_eq_nil in Hpend as [Hr _]. destruct (c_reader c) eqn:Hrd; try done; [|by left]. right. split; [done|].
    specialize (Hno LReader). cbn [conn_step] in Hno. unfold reader_step in Hno. rewrite Hrd in Hno.
    destruct (read_frame _ _ _); [done|..]; repeat case_match; by edestruct Hno.
Qed.

End rest.

#[local] Hint Resolve get_keyspace_keeps put_keyspace_keeps put_table_keeps put_row_sync_keeps : triple.
Lemma open_backed dbs sync var host sv : backed [] (fst (open dbs sync var host sv)).
Proof.
  assert (Hk : keeps (backed []) (seed_system host sv)).
  { unfold seed_system, seed_schema, seed_virtual. walk. }
  assert (Ho : backed [] (open_storage dbs sync var)).
  { split; [|done]. apply Forall_fmap, Forall_true. intros d. apply accounted_spawn. }
  specialize (Hk _ Ho). unfold open. by destruct (seed_system _ _ _) as [s [[]|e|]].
Qed.

(** Steps in a given order. *)
Fixpoint world_labels (ls : list WorldLabel) (w : World) : option (World * list (nat * Event)) :=
  match ls with
  | [] => Some (w, [])
  | l :: ls' => '(w1, ev) ← world_step l w; '(w2, ev') ← world_labels ls' w1; Some (w2, ev ++ ev')
  end.
Lemma world_labels_run ls w w' ev : world_labels ls w = Some (w', ev) -> world_run w ev w'.
Proof.
  enough (Hgen : forall w0 ev0, world_run w0 ev0 w -> world_labels ls w = Some (w', ev) ->
    world_run w0 (ev0 ++ ev) w') by exact (Hgen w [] (wrun_nil w)).
  revert w ev. induction ls as [|l ls IH]; intros w ev w0 ev0 Hrun; cbn [world_labels].
  - intros [= <- <-]. by rewrite app_nil_r.
  - intros ([w1 ev1] & Hs & ([w2 ev2] & Hr & [= <- <-])%bind_Some)%bind_Some.
    rewrite app_assoc. eapply IH; [|exact Hr]. by eapply wrun_step.
Qed.

(** The labels worth trying: whether the server is at rest can be decided. *)
Definition candidates (stalled : list nat) (w : World) : list WorldLabel :=
  (i ← seq 0 (length (w_conns w));
   WConn i <$> (LReader
                :: (LTask <$> seq 0 (match w_conns w !! i with Some c => length (c_tasks c) | None => 0 end)) ++
                (if bool_decide (i ∈ stalled) then [] else [LWriter 0 true])))
  ++ (i ← seq 0 (dbs_len (w_store w));
      WThread i <$> [CollectFirst; CollectMore; CollectClose; CollectFlush; CommitWrite; CommitSignal]).

Lemma candidates_own stalled w l : l ∈ candidates stalled w -> own stalled l = true.
Proof.
  unfold candidates. rewrite elem_of_app, !list_elem_of_bind.
  intros [(i & Hl & _)|(i & Hl & _)]; apply list_elem_of_fmap in Hl as (x & -> & Hx); [|done].
  apply elem_of_cons in Hx as [->|[(j & -> & _)%list_elem_of_fmap|Hx]%elem_of_app]; [done|done|].
  case_bool_decide as Hi; [by apply not_elem_of_nil in Hx|]. apply list_elem_of_singleton in Hx as ->. cbn.
  by rewrite bool_decide_eq_false_2.
Qed.

Lemma candidates_enough stalled w w' : own_step stalled w w' ->
  exists l, l ∈ candidates stalled w /\ is_Some (world_step l w).
Proof.
  intros (l & ev & Hown & Hs). destruct l as [k|k|i l|i l]; [done|done|..].
  - cbn [world_step] in Hs. destruct (alive i w) eqn:Hal; [|done].
    apply bind_Some in Hs as (c & Hc & (x & Hx & _)%bind_Some).
    enough (Hen : exists l', WConn i l' ∈ candidates stalled w /\ is_Some (conn_step parse short_name rt l' (w_store w) c)).
    { destruct Hen as (l' & Hin & [[[s1 c1] ev1] He]). exists (WConn i l'). split; [done|].
      cbn [world_step]. rewrite Hal, Hc. cbn [mbind option_bind]. rewrite He. by eexists. }
    assert (Hin : forall l', l' ∈ LReader :: (LTask <$> seq 0 (length (c_tasks c))) ++
        (if bool_decide (i ∈ stalled) then [] else [LWriter 0 true]) ->
      WConn i l' ∈ candidates stalled w).
    { intros l' Hl'. apply elem_of_app. left. apply list_elem_of_bind. exists i. split.
      - apply list_elem_of_fmap. exists l'. by rewrite Hc.
      - apply elem_of_seq. pose proof (lookup_lt_Some _ _ _ Hc). lia. }
    destruct l as [b| | |j|n ok]; [done|done|..].
    + exists LReader. split; [apply Hin; by constructor|by eexists].
    + exists (LTask j). split; [|by eexists]. apply Hin. constructor. apply elem_of_app. left.
      apply list_elem_of_fmap_2, elem_of_seq.
      cbn [conn_step] in Hx. unfold task_step in Hx. apply bind_Some in Hx as (t & Ht & _).
      pose proof (lookup_lt_Some _ _ _ Ht). lia.
    + cbn in Hown. apply negb_true_iff in Hown. exists (LWriter 0 true). split.
      { apply Hin. constructor. apply elem_of_app. right. rewrite Hown. by constructor. }
      cbn [conn_step] in *. unfold writer_step in *. destruct (c_writer c); [|done].
      destruct (take_pending (c_resp c)) as [[pend rest]|]; [by eexists|done].
  - exists (WThread i l). split; [|by eexists]. apply elem_of_app. right. apply list_elem_of_bind. exists i.
    split; [apply list_elem_of_fmap_2; destruct l; set_solver|]. apply elem_of_seq. cbn [world_step] in Hs.
    apply bind_Some in Hs as (s' & (e & e' & He & _)%thread_step_inv & _).
    pose proof (lookup_lt_Some _ _ _ He). unfold dbs_len. lia.
Qed.

Lemma own_step_dec stalled w : {red (own_step stalled) w} + {nf (own_step stalled) w}.
Proof.
  destruct (List.find (fun l => bool_decide (is_Some (world_step l w))) (candidates stalled w)) as [l|] eqn:Hf.
  - left. apply List.find_some in Hf as [Hin%list_elem_of_In [[w' ev] Hl]%bool_decide_eq_true]. exists w', l, ev.
    split; [by eapply candidates_own|done].
  - right. intros [w' (l & Hin & Hen)%candidates_enough]. eapply List.find_none in Hf; [|by apply list_elem_of_In].
    by apply bool_decide_eq_false in Hf.
Qed.

Lemma rest_reachable stalled w : exists w', rtc (own_step stalled) w w' /\ nf (own_step stalled) w'.
Proof.
  induction (own_steps_end stalled w) as [w _ IH]. destruct (own_step_dec stalled w) as [[w1 Hw1]|Hnf]; [|by exists w].
  destruct (IH w1 Hw1) as (w' & Hr & Hnf). exists w'. split; [|done]. by eapply rtc_l.
Qed.

(** Every request is answered.  Start either server on any databases - whether
    or not their writes succeed - and let clients connect and send what they like,
    and let any peers stop taking bytes: from every state it can reach, whatever
    the scheduler does, the server's own steps come to an end, and they end only
    when, on every connection whose runtime is there and whose peer takes its
    bytes, every accepted request has been answered or lost to a panic, every
    response has been handed to the socket of a writer that lives, and the reader
    waits for more bytes or is done.  No combination of limits, channels and
    tickets deadlocks, and no stalled peer holds up another connection. *)
Theorem every_request_answered stalled dbs sync var host sv s0 loops ev w :
  open dbs sync var host sv = (s0, Ok ()) -> world_run (serve loops s0) ev w ->
  sn (own_step stalled) w /\ (exists w', rtc (own_step stalled) w w' /\ nf (own_step stalled) w') /\
  (nf (own_step stalled) w -> forall i c, i ∉ stalled -> alive i w = true -> w_conns w !! i = Some c ->
     at_rest c /\ accepted (events_of i ev) ≡ₚ finished (events_of i ev)).
Proof.
  intros Ho Hrun. split; [apply own_steps_end|]. split; [apply rest_reachable|]. intros Hnf i c Hst Hal Hi.
  pose proof (open_backed dbs sync var host sv) as Hs0. rewrite Ho in Hs0.
  pose proof (rest_at_rest stalled w i c Hnf Hst Hal (world_backed _ _ _ _ Hs0 Hrun) Hi) as Hrest. split; [done|].
  apply world_run_conn in Hrun as [Hcs _]. rewrite (run_pending _ _ _ _ _ (Hcs i c Hi)).
  destruct Hrest as (-> & _). by rewrite app_nil_r.
Qed.

(** One failed [accept] - a connection reset before it was accepted, too many open
    files - ends its loop: the loop accepts no connection any more, and the
    connections it accepted take no step, whatever they were waiting for.  In
    [run] that is the whole server.  The health endpoint [continue]s instead. *)
Theorem accept_error_stops_server k w : w_loops w !! k = Some true ->
  exists w', world_step (WAcceptError k) w = Some (w', []) /\ world_step (WAccept k) w' = None /\
    forall i l, w_owner w !! i = Some k -> world_step (WConn i l) w' = None.
Proof.
  intros Hk. cbn [world_step]. rewrite bool_decide_eq_true_2 by done. eexists. split; [reflexivity|].
  assert (Hf : <[k := false]> (w_loops w) !! k = Some false)
    by (apply list_lookup_insert_eq; by eapply lookup_lt_Some).
  split; [cbn; by rewrite Hf|]. intros i l Hi. unfold alive. cbn. by rewrite Hi; cbn; rewrite Hf.
Qed.

(** A panic of one request.  With tokio it ends one task; with monoio it ends the
    driver thread: its listener accepts no connection any more, and every
    connection it accepted, whoever the client, takes no further step. *)
Theorem panic_ends_thread i l w w' ev k :
  world_step (WConn i l) w = Some (w', ev) -> panics (events_of i ev) = true -> w_owner w !! i = Some k ->
  match rt with
  | Tokio => w_loops w' = w_loops w
  | Monoio => world_step (WAccept k) w' = None /\
      forall j l', w_owner w !! j = Some k -> world_step (WConn j l') w' = None
  end.
Proof.
  cbn [world_step]. destruct (alive i w) eqn:Hal; [|done].
  intros (c & Hc & ([[s' c'] ev'] & Hs & [= <- <-])%bind_Some)%bind_Some. rewrite events_of_tagged. intros Hp Hk.
  unfold loops_after. rewrite Hk, Hp. destruct rt; [done|]. cbn [w_loops w_owner w_conns w_store].
  assert (Hf : <[k := false]> (w_loops w) !! k = Some false).
  { apply list_lookup_insert_eq. apply bool_decide_eq_true in Hal. rewrite Hk in Hal. cbn in Hal.
    by eapply lookup_lt_Some. }
  split; [by rewrite Hf|]. intros j l' Hj. unfold alive. cbn. by rewrite Hj; cbn; rewrite Hf.
Qed.
End world.

(** ** A server with two connections *)

Definition demo_open := open (H := mem_kv) (H0 := bits_json) [∅; ∅] true None [] [].
Abbreviation demo_world_run rt := (world_run (H := mem_kv) (H0 := bits_json) (H1 := ascii_case)
  (H2 := no_literals) (H3 := cql_wire) demo_parse (fun _ => []) rt).
Abbreviation demo_own rt := (own_step (H := mem_kv) (H0 := bits_json) (H1 := ascii_case)
  (H2 := no_literals) (H3 := cql_wire) demo_parse (fun _ => []) rt []).

(** Both clients connect; the first asks for the options and sends a statement,
    the second asks for the options and is answered in between. *)
Definition demo_steps : list WorldLabel :=
  [WAccept 0; WAccept 0; WConn 0 (LRecv demo_input);
   WConn 1 (LRecv (Bench.frame 3 (req_code ReqOptions) [] []));
   WConn 0 LReader; WConn 1 LReader; WConn 0 LReader; WConn 1 LReader; WConn 1 LReader; WConn 0 LReader;
   WConn 0 LReader; WConn 1 (LWriter 9 true)].

Lemma demo_world rt : exists s0 w ev, demo_open = (s0, Ok ()) /\ demo_world_run rt (serve [true] s0) ev w /\
  accepted (events_of 0 ev) = [7; 9]%Z /\ finished (events_of 0 ev) = [7]%Z /\
  accepted (events_of 1 ev) = [3]%Z /\ finished (events_of 1 ev) = [3]%Z /\
  (exists c, w_conns w !! 1 = Some c) /\ alive 1 w = true.
Proof.
  assert (Ho : snd demo_open = Ok ()) by (vm_compute; reflexivity).
  assert (Hc : option_map (fun x => (accepted (events_of 0 (snd x)), finished (events_of 0 (snd x)),
      accepted (events_of 1 (snd x)), finished (events_of 1 (snd x)), length (w_conns (fst x)), alive 1 (fst x)))
    (world_labels (H0 := bits_json) (H1 := ascii_case) (H2 := no_literals) (H3 := cql_wire) demo_parse (fun _ => []) rt demo_steps
       (serve [true] (fst demo_open))) = Some ([7; 9]%Z, [7]%Z, [3]%Z, [3]%Z, 2, true)) by (destruct rt; vm_compute; reflexivity).
  destruct demo_open as [s0 r]. cbn [fst snd] in *. subst r.
  destruct (world_labels _ _ _ _ _) as [[w ev]|] eqn:Hr; [|discriminate Hc]. cbn [option_map fst snd] in Hc.
  injection Hc as H1 H2 H3 H4 H5 H6. exists s0, w, ev. split; [done|]. split; [by eapply world_labels_run|].
  do 4 (split; [done|]). split; [|done]. apply lookup_lt_is_Some_2. by rewrite H5; apply Nat.lt_succ_diag_r.
Qed.

Lemma every_request_answered_witness :
  exists s0 w ev, demo_open = (s0, Ok ()) /\ demo_world_run Tokio (serve [true] s0) ev w /\
    accepted (events_of 0 ev) = [7; 9]%Z /\ sn (demo_own Tokio) w /\
    exists w', rtc (demo_own Tokio) w w' /\ nf (demo_own Tokio) w'.
Proof.
  destruct (demo_world Tokio) as (s0 & w & ev & Ho & Hrun & Ha & _). exists s0, w, ev.
  split; [exact Ho|]. split; [exact Hrun|]. split; [exact Ha|].
  destruct (every_request_answered (H0 := bits_json) (H1 := ascii_case) (H2 := no_literals) (H3 := cql_wire) demo_parse (fun _ => []) Tokio [] [∅; ∅] true None [] [] s0 [true] ev w Ho Hrun)
    as (Hsn & Hrest & _). split; [exact Hsn|exact Hrest].
Defined.
