(* ===== verification/Restart.v ===== *)
(** * Starting, stopping and crashing a node

    Models the parts of src/src/storage.rs that decide what a node finds when it
    is started again: the whole of [Storage::open] (the marker file, the engine
    options, the databases, the WAL flush thread), the write options of metadata
    and data writes, and [Drop for Storage].  What RocksDB leaves in a directory
    when a handle is closed, or when the process dies, is the class [Durable]; what
    its documentation promises of it is [DurableLaws]. *)

From S2P Require Import Prelude RustStr Ast Schema CqlValue Keys Triple Kv Pipeline Storage Rows Catalog Acked System Query Dml.

(** [std::env::var], as a function of the name. *)
Definition Env : Type := str -> option str.
Definition is_set (env : Env) (name : string) : bool := bool_decide (is_Some (env (bs name))).

(** ** Options *)

(** [Options] and [BlockBasedOptions], as far as [Storage::open] sets them. *)
Record EngineOptions := {
  create_if_missing : bool;
  compression_lz4 : bool;
  parallelism : Z;
  max_background_jobs : Z;
  memtable_memory_budget : Z;
  write_buffer_size : Z;
  max_write_buffer_number : Z;
  min_write_buffer_number_to_merge : Z;
  allow_concurrent_memtable_write : bool;
  enable_write_thread_adaptive_yield : bool;
  enable_pipelined_write : bool;
  block_cache : Z;
  block_size : Z;
  bloom_filter_bits : Z;
  cache_index_and_filter_blocks : bool;
  pin_l0_filter_and_index_blocks_in_cache : bool;
  manual_wal_flush : bool;
}.

Definition write_sync_of (env : Env) : bool := is_set env "RHYDADB_SYNC".
Definition manual_wal (env : Env) : bool := is_set env "RHYDADB_MANUAL_WAL" && negb (write_sync_of env).

Definition engine_options (env : Env) (cpus shard_count : Z) : EngineOptions :=
  let cache_mb := env_num (env (bs "RHYDADB_CACHE_MB")) 1024 8 (2 ^ 20) in
  let memtable_mb := env_num (env (bs "RHYDADB_MEMTABLE_MB")) 128 8 4096 in
  {| create_if_missing := true;
     compression_lz4 := true;
     parallelism := swrap 32 cpus;
     max_background_jobs := Z.max 2 (Z.min 8 (cpus / Z.max shard_count 1));
     memtable_memory_budget := uwrap 64 (memtable_mb * 1024 * 1024 * 2);
     write_buffer_size := uwrap 64 (memtable_mb * 1024 * 1024);
     max_write_buffer_number := 6;
     min_write_buffer_number_to_merge := 2;
     allow_concurrent_memtable_write := true;
     enable_write_thread_adaptive_yield := true;
     enable_pipelined_write := true;
     block_cache := uwrap 64 (cache_mb * 1024 * 1024);
     block_size := 16 * 1024;
     bloom_filter_bits := 10;
     cache_index_and_filter_blocks := true;
     pin_l0_filter_and_index_blocks_in_cache := true;
     manual_wal_flush := manual_wal env |}.

(** [rocksdb::WriteOptions]. *)
Record WriteOptions := { wo_sync : bool; wo_disable_wal : bool }.
Definition default_write_opts : WriteOptions := {| wo_sync := false; wo_disable_wal := false |}.
Definition set_sync (w : WriteOptions) : WriteOptions := {| wo_sync := true; wo_disable_wal := wo_disable_wal w |}.
Definition disable_wal (w : WriteOptions) : WriteOptions := {| wo_sync := wo_sync w; wo_disable_wal := true |}.

(** The options of the committer thread ([spawn_writer]). *)
Definition committer_opts (write_sync : bool) : WriteOptions :=
  if write_sync then set_sync default_write_opts else disable_wal default_write_opts.

(** ** The file system and RocksDB *)

Class Durable `{KV} := {
  (** the files of one engine directory *)
  disk : Type;
  (** [DB::open]; [None]: the directory does not exist *)
  db_open : EngineOptions -> option disk -> res str db;
  (** the last handle is dropped *)
  db_close : db -> disk;
  (** [db_crash w d k]: the process, which made all its writes with the options
      [w], dies when the database is in state [d], and [k] is found afterwards *)
  db_crash : WriteOptions -> db -> disk -> Prop;
  (** [DB::flush_wal(true)] *)
  db_flush_wal : db -> res str db;
}.

(** Opening a sound directory gives what it holds; closing keeps everything,
    data without a WAL included (it is flushed on close); a crash keeps writes
    that went to a synced WAL; flushing the WAL changes no contents. *)
Class DurableLaws `{KVLaws} `{!Durable} := {
  disk_ok : disk -> Prop;
  disk_view : disk -> gmap bytes bytes;
  db_open_ok o k : create_if_missing o = true -> (forall x, k = Some x -> disk_ok x) ->
    exists d, db_open o k = Ok d /\ db_ok d /\ db_view d = default ∅ (disk_view <$> k);
  db_close_ok d : db_ok d -> disk_ok (db_close d) /\ disk_view (db_close d) = db_view d;
  db_crash_ok w d k : db_ok d -> wo_sync w = true -> wo_disable_wal w = false -> db_crash w d k ->
    disk_ok k /\ disk_view k = db_view d;
  db_flush_wal_ok d d' : db_ok d -> db_flush_wal d = Ok d' -> db_ok d' /\ db_view d' = db_view d;
}.

(** What the operating system answers during [Storage::open]: creating the data
    directory, writing the marker (and what can be read there after a failure),
    starting the WAL flush thread. *)
Record OsResults := {
  os_mkdir : res str ();
  os_write : res str ();
  os_left : option str;
  os_spawn : res str ();
}.
Definition os_ok : OsResults := {| os_mkdir := Ok (); os_write := Ok (); os_left := None; os_spawn := Ok () |}.

(** [recv_timeout] of the WAL flush thread. *)
Inductive RecvTimeout := Received | Timeout | Disconnected.

Section restart.
Context `{KV} `{Json} `{!Durable}.

(** Metadata writes: [put], [delete], [delete_prefix], the synchronous row writes. *)
Definition meta_write_opts (s : Storage) : WriteOptions :=
  if st_write_sync s then set_sync default_write_opts else disable_wal default_write_opts.

(** A data directory: the text of ENGINE-SHARDS, if it can be read, and the
    engine directories.  While a [Storage] is open it holds the directories of its
    engines. *)
Record Node := { nd_marker : option str; nd_engines : gmap nat disk }.
Definition fresh_node : Node := {| nd_marker := None; nd_engines := ∅ |}.
Definition set_marker (m : option str) (n : Node) : Node := {| nd_marker := m; nd_engines := nd_engines n |}.
(** The first directories are given back. *)
Definition release (n : Node) (ks : list disk) : Node :=
  {| nd_marker := nd_marker n; nd_engines := map_seq 0 ks ∪ nd_engines n |}.

(** [for i in 0..shard_count { .. DB::open(&opts, &dir)?; dbs.push(..) }]: the
    databases opened, and whether all were. *)
Fixpoint open_engines (o : EngineOptions) (dirs : gmap nat disk) (engines : list nat) : list db * res str () :=
  match engines with
  | [] => ([], Ok ())
  | i :: r =>
    match db_open o (dirs !! i) with
    | Ok d => let '(dbs, x) := open_engines o dirs r in (d :: dbs, x)
    | Err e => ([], Err e)
    | Panic => ([], Panic)
    end
  end.

(** The WAL flush thread: one round over the databases, and its loop on the
    results of [recv_timeout]; the flag says whether it is still running. *)
Definition flush_round (dbs : list db) : list db :=
  (fun d => match db_flush_wal d with Ok d' => d' | _ => d end) <$> dbs.
Fixpoint wal_loop (rs : list RecvTimeout) (dbs : list db) : list db * bool :=
  match rs with
  | [] => (dbs, true)
  | Received :: _ => (dbs, false)
  | Timeout :: r => wal_loop r (flush_round dbs)
  | Disconnected :: _ => (dbs, false)
  end.

(** The handles of the engines are dropped. *)
Definition close_dbs (s : Storage) : list disk := db_close ∘ e_db <$> st_engines s.

(** [Storage::open].  A failure drops what was built so far: the databases are
    closed, and once there is a [Storage] its [Drop] runs, on unwinding too. *)
Definition open_node (env : Env) (cpus : option Z) (os : OsResults) (host_id schema_version : bytes) (n : Node)
    : Node * res str Storage :=
  let cpus := default 4%Z cpus in
  let '(count, marker) := shard_count (nd_marker n) cpus (env (bs "RHYDADB_ENGINE_SHARDS")) in
  let created := match nd_marker n with Some _ => Ok () | None => os_mkdir os end in
  let written := match nd_marker n with Some _ => Ok () | None => os_write os end in
  match created, written with
  | Ok _, Ok _ =>
    let n1 := set_marker marker n in
    (* Vec::with_capacity(shard_count) *)
    if (2 ^ 63 <=? 8 * count)%Z then (n1, Panic) else
    let '(dbs, opened) := open_engines (engine_options env cpus count) (nd_engines n1) (seq 0 (Z.to_nat count)) in
    let spawned := if manual_wal env then os_spawn os else Ok () in
    match opened, spawned with
    | Ok _, Ok _ =>
      match open dbs (write_sync_of env) (env (bs "RHYDADB_ROW_CACHE_ENTRIES")) host_id schema_version with
      | (s, Ok _) => (n1, Ok s)
      | (s, Err e) => (release n1 (close_dbs (quiesce s)), Err e)
      | (s, Panic) => (release n1 (close_dbs (quiesce s)), Panic)
      end
    | Err e, _ | Ok _, Err e => (release n1 (db_close <$> dbs), Err e)
    | Panic, _ | Ok _, Panic => (release n1 (db_close <$> dbs), Panic)
    end
  | Ok _, Err e => (set_marker (os_left os) n, Err e)
  | Ok _, Panic => (set_marker (os_left os) n, Panic)
  | Err e, _ => (n, Err e)
  | Panic, _ => (n, Panic)
  end.

(** [Drop for Storage]: the senders are dropped, so nothing is queued any more,
    and the threads are joined: they act until no channel holds anything, in any
    order; then the databases are closed. *)
Definition shut_down (n : Node) (s : Storage) (n' : Node) : Prop :=
  exists s', rtc thread s s' /\ Forall idle (st_engines s') /\ n' = release n (close_dbs s').

(** The process dies between two steps of its threads (a write batch is atomic).
    All its writes to the databases, of data and metadata, had the same options
    ([write_opts_agree]).  The marker was written by [std::fs::write], with no
    fsync: what can be read of it afterwards, if anything, is left open. *)
Definition crash (n : Node) (s : Storage) (n' : Node) : Prop :=
  exists ks marker,
    Forall2 (fun e k => db_crash (committer_opts (st_write_sync s)) (e_db e) k) (st_engines s) ks /\
    n' = set_marker marker (release n ks).

(** The number of engines a start comes to, and the directory with its marker. *)
Definition count_found (env : Env) (cpus : option Z) (n : Node) : Z :=
  fst (shard_count (nd_marker n) (default 4%Z cpus) (env (bs "RHYDADB_ENGINE_SHARDS"))).
Definition marked (env : Env) (cpus : option Z) (n : Node) : Node :=
  set_marker (snd (shard_count (nd_marker n) (default 4%Z cpus) (env (bs "RHYDADB_ENGINE_SHARDS")))) n.

(** A start that comes to [count] engines, and to which the operating system grants
    what it asks for. *)
Definition starts_on (env : Env) (cpus : option Z) (os : OsResults) (n : Node) (count : nat) : Prop :=
  count_found env cpus n = Z.of_nat count /\ (8 * Z.of_nat count < 2 ^ 63)%Z /\
  (nd_marker n = None -> os_mkdir os = Ok () /\ os_write os = Ok ()) /\ os_spawn os = Ok ().
End restart.

(** A node that came up did so through [open]. *)
Lemma open_node_inv `{KV} `{Json} `{!Durable} env cpus os host sv n n' s :
  open_node env cpus os host sv n = (n', Ok s) ->
  exists dbs, open dbs (write_sync_of env) (env (bs "RHYDADB_ROW_CACHE_ENTRIES")) host sv = (s, Ok ()).
Proof.
  unfold open_node. intros Ho. repeat (case_match; try done).
  all: match goal with Hx : open ?dbs _ _ _ _ = (_, Ok ?u) |- _ => exists dbs; destruct u; by injection Ho as _ <- end.
Qed.

(** ** Options that are equal and numbers that fit *)

Lemma write_opts_agree `{KV} (s : Storage) : meta_write_opts s = committer_opts (st_write_sync s).
Proof. done. Qed.

(** The sizes passed to RocksDB do not overflow a 64-bit [usize], whatever the
    environment: a memtable of 8 MB to 4 GB, a level budget of twice that, a block
    cache of 8 MB to 1 TB, and 2 to 8 background jobs. *)
Theorem engine_options_fit env cpus count :
  let o := engine_options env cpus count in
  (2 ^ 23 <= write_buffer_size o <= 2 ^ 32)%Z /\
  (memtable_memory_budget o = 2 * write_buffer_size o)%Z /\
  (2 ^ 23 <= block_cache o <= 2 ^ 40)%Z /\ (2 <= max_background_jobs o <= 8)%Z.
Proof.
  cbn zeta. unfold engine_options. cbn [write_buffer_size memtable_memory_budget block_cache max_background_jobs].
  assert (Hm : (8 <= env_num (env (bs "RHYDADB_MEMTABLE_MB")) 128 8 4096 <= 4096)%Z) by (unfold env_num; lia).
  assert (Hc : (8 <= env_num (env (bs "RHYDADB_CACHE_MB")) 1024 8 (2 ^ 20) <= 2 ^ 20)%Z) by (unfold env_num; lia).
  unfold uwrap. rewrite !Z.mod_small by lia. lia.
Qed.

Section restart_lemmas.
Context `{KVLaws} `{JsonLaws} `{!Durable} `{!DurableLaws}.

(** ** The directories of a node *)

(** The marker of [n] is read as the number of engines of [s]. *)
Definition marks (n : Node) (count : nat) : Prop :=
  exists text, nd_marker n = Some text /\ default 1%Z (parse_uint 64 (trim text)) = Z.of_nat count /\
    (8 * Z.of_nat count < 2 ^ 63)%Z.
Definition serves (n : Node) (s : Storage) : Prop := marks n (dbs_len s).

(** A marker that can be read decides, whatever the environment. *)
Lemma marks_starts env cpus os n count : marks n count -> os_spawn os = Ok () ->
  starts_on env cpus os n count /\ marked env cpus n = n.
Proof.
  intros (text & Hm & Hp & Hb) Hos. unfold starts_on, count_found, marked. rewrite Hm. cbn [shard_count fst snd].
  split; [by repeat split|]. destruct n. cbn in *. by subst.
Qed.
(** A start leaves a marker for the next. *)
Lemma starts_marks env cpus os n count : starts_on env cpus os n count -> marks (marked env cpus n) count.
Proof.
  intros (Hc & Hb & _). unfold count_found, marked, marks in *. destruct (nd_marker n) as [text|]; cbn [shard_count fst snd] in *.
  - by exists text.
  - eexists. split; [done|]. rewrite Hc. split; [|done].
    assert (Hr : (1 <= Z.of_nat count <= 64)%Z) by (rewrite <-Hc; unfold env_num; lia).
    rewrite trim_show_u by lia. rewrite parse_uint_show; [done|]. apply in_u_spec. lia.
Qed.

Lemma release_marker n ks : nd_marker (release n ks) = nd_marker n.
Proof. done. Qed.
Lemma release_lookup n ks i k : ks !! i = Some k -> nd_engines (release n ks) !! i = Some k.
Proof. intros Hi. cbn. apply lookup_union_Some_l. by rewrite lookup_map_seq_0. Qed.

Lemma open_engines_ok o dirs l : create_if_missing o = true ->
  (forall i k, i ∈ l -> dirs !! i = Some k -> disk_ok k) ->
  exists dbs, open_engines o dirs l = (dbs, Ok ()) /\
    Forall2 (fun i d => db_ok d /\ db_view d = default ∅ (disk_view <$> dirs !! i)) l dbs.
Proof.
  intros Ho. induction l as [|i l IH]; intros Hd; [by exists []|]. cbn [open_engines].
  destruct (db_open_ok o (dirs !! i) Ho) as (d & -> & Hok & Hv).
  { intros k Hk. apply (Hd i k); [by left|done]. }
  destruct IH as (dbs & -> & Hf); [intros j k Hj; apply Hd; by right|].
  exists (d :: dbs). split; [done|]. by constructor.
Qed.

(** Start-up on directories that hold [ks]. *)
Lemma open_node_dbs env cpus os host sv n count :
  starts_on env cpus os n count ->
  (forall i k, nd_engines n !! i = Some k -> i < count -> disk_ok k) ->
  exists dbs, Forall2 (fun i d => db_ok d /\ db_view d = default ∅ (disk_view <$> nd_engines n !! i)) (seq 0 count) dbs /\
    forall s, open dbs (write_sync_of env) (env (bs "RHYDADB_ROW_CACHE_ENTRIES")) host sv = (s, Ok ()) ->
      open_node env cpus os host sv n = (marked env cpus n, Ok s).
Proof.
  intros (Hc & Hb & Hos & Hsp) Hd. unfold count_found in Hc.
  destruct (open_engines_ok (engine_options env (default 4%Z cpus) (Z.of_nat count)) (nd_engines n) (seq 0 count))
    as (dbs & Ho & Hf); [done| |].
  { intros i k Hi%elem_of_seq Hk. apply (Hd i k Hk). lia. }
  exists dbs. split; [done|]. intros s Hs. unfold open_node, marked.
  destruct (shard_count (nd_marker n) (default 4%Z cpus) (env (bs "RHYDADB_ENGINE_SHARDS"))) as [count' marker].
  cbn [fst snd] in *. subst count'. assert (E : (2 ^ 63 <=? 8 * Z.of_nat count)%Z = false) by lia.
  assert (Hsp' : (if manual_wal env then os_spawn os else Ok ()) = Ok ()) by (by destruct (manual_wal env)).
  destruct (nd_marker n) as [text|]; [|destruct (Hos eq_refl) as [-> ->]];
    rewrite E, Nat2Z.id; cbn [nd_engines set_marker]; by rewrite Ho, Hsp', Hs.
Qed.

(** The engines of a running node hold what the directories [ks] held, nothing
    is queued and nothing is cached. *)
Definition holds (ks : list disk) (s : Storage) : Prop :=
  Forall2 (fun k e => db_view (e_db e) = disk_view k /\ idle e) ks (st_engines s) /\
  (st_row_cache s = None \/ st_row_cache s = Some ∅).

Lemma open_storage_holds ks dbs sync var : Forall2 (fun k d => db_ok d /\ db_view d = disk_view k) ks dbs ->
  holds ks (open_storage dbs sync var).
Proof.
  intros Hf. split.
  - cbn. apply Forall2_fmap_r. eapply Forall2_impl; [exact Hf|]. cbn. by intros k d [_ ->].
  - unfold open_storage. cbn. case_match; [by left|by right].
Qed.

(** Start-up on the directories a node gave back. *)
Lemma reopen n ks c k0 env cpus os host sv :
  starts_on env cpus os n (length ks) -> Forall disk_ok ks -> ks !! 0 = Some k0 ->
  db_holds (disk_view k0) c ->
  exists s, open_node env cpus os host sv (release n ks) = (marked env cpus (release n ks), Ok s) /\
    represents s (seed_cat c) /\ (has_system c -> holds ks s).
Proof.
  intros Hm Hok Hk0 Hc.
  destruct (open_node_dbs env cpus os host sv (release n ks) (length ks)) as (dbs & Hf & Ho); [done| |].
  { intros i k Hi Hlt. destruct (lookup_lt_is_Some_2 ks i Hlt) as [k' Hk']. rewrite (release_lookup _ _ _ _ Hk') in Hi.
    injection Hi as <-. by eapply Forall_lookup_1. }
  assert (Hkd : Forall2 (fun k d => db_ok d /\ db_view d = disk_view k) ks dbs).
  { apply Forall2_same_length_lookup_2; [rewrite <-(Forall2_length _ _ _ Hf); by rewrite length_seq|].
    intros i k d Hk Hd. destruct (Forall2_lookup_r _ _ _ _ _ Hf Hd) as (j & Hj & Hokd & Hv).
    apply lookup_seq in Hj as [-> _]. rewrite (release_lookup _ _ _ _ Hk) in Hv. by split. }
  destruct (Forall2_lookup_l _ _ _ _ _ Hkd Hk0) as (d0 & Hd0 & _ & Hv0).
  assert (Hrep : represents (open_storage dbs (write_sync_of env) (env (bs "RHYDADB_ROW_CACHE_ENTRIES"))) c).
  { apply (opened_represents _ _ _ d0); [|done|by rewrite Hv0]. clear -Hkd. induction Hkd as [|k d ks dbs [Hx _]]; auto. }
  destruct (seed_refines _ c host sv Hrep) as (s & Hs & Hr). exists s. split; [by apply Ho|]. split; [done|].
  intros Hsys. destruct (seed_present _ c host sv Hrep Hsys) as (s' & Hs' & _ & He & Hrc).
  rewrite Hs in Hs'. injection Hs' as <-. destruct (open_storage_holds ks dbs (write_sync_of env)
    (env (bs "RHYDADB_ROW_CACHE_ENTRIES")) Hkd) as [Hh1 Hh2]. split; [by rewrite He|by rewrite Hrc].
Qed.

Lemma holds_len ks s : holds ks s -> dbs_len s = length ks.
Proof. intros [Hf _]. symmetry. by eapply Forall2_length. Qed.

(** [s'] has just started on [view] of the engines of [s]. *)
Definition reopened (view : Engine -> gmap bytes bytes) (s s' : Storage) : Prop :=
  dbs_len s' = dbs_len s /\ (forall ksp key, cache_lookup ksp key s' = None) /\
  forall i e, st_engines s !! i = Some e ->
    exists e', st_engines s' !! i = Some e' /\ pend_ops e' = [] /\ db_view (e_db e') = view e.

Lemma holds_reopened ks view s s' : holds ks s' -> disk_view <$> ks = view <$> st_engines s -> reopened view s s'.
Proof.
  intros Hh Hv. pose proof (f_equal length Hv) as Hl. rewrite !length_fmap in Hl.
  split; [rewrite (holds_len _ _ Hh); exact Hl|]. destruct Hh as [Hf Hc]. split.
  - intros ksp key. unfold cache_lookup. destruct (should_cache ksp); [|done]. by destruct Hc as [-> | ->].
  - intros i e He. pose proof (f_equal (fun l => l !! i) Hv) as Hi. cbn in Hi. rewrite !list_lookup_fmap, He in Hi.
    destruct (ks !! i) as [k|] eqn:Hk; [|done]. injection Hi as Hi.
    destruct (Forall2_lookup_l _ _ _ _ _ Hf Hk) as (e' & He' & Hv' & Hid). exists e'. split; [done|].
    split; [apply (idle_pending _ Hid)|by rewrite Hv'].
Qed.

(** The engine of a row, before and after. *)
Lemma reopened_row view s s' ksp tb parts : engines_ok s -> reopened view s s' ->
  exists e e', st_engines s !! row_engine ksp tb parts s = Some e /\
    st_engines s' !! row_engine ksp tb parts s' = Some e' /\ pend_ops e' = [] /\ db_view (e_db e') = view e.
Proof.
  intros Hs (Hl & _ & Hat). destruct (engine_at s (row_engine ksp tb parts s)) as (e & He & _);
    [done|by apply row_engine_lt|]. destruct (Hat _ e He) as (e' & He' & Hp).
  exists e, e'. split; [done|]. unfold row_engine in *. by rewrite Hl.
Qed.
Lemma reopened_read view s s' ksp tb parts : engines_ok s -> engines_ok s' -> reopened view s s' ->
  snd (get_row ksp tb parts s')
  = Ok (st_engines s !! row_engine ksp tb parts s ≫= fun e => view e !! row_key ksp tb parts).
Proof.
  intros Hs Hs' Hr. destruct (reopened_row view s s' ksp tb parts Hs Hr) as (e & e' & -> & He' & _ & Hv).
  destruct (get_row_spec s' ksp tb parts Hs') as (e2 & He2 & _ & ->). rewrite He' in He2. injection He2 as <-.
  destruct Hr as (_ & Hc & _). rewrite Hc, Hv. cbn. by destruct (view e !! _).
Qed.

(** ** Shutting down *)

(** What a row is worth: its engine's contents with everything queued applied. *)
Definition row_of (s : Storage) (ksp tb : str) (parts : list bytes) : option bytes :=
  st_engines s !! row_engine ksp tb parts s ≫= fun e => logical e !! row_key ksp tb parts.

Lemma thread_engines s s' : engines_ok s -> thread s s' ->
  engines_ok s' /\ logical <$> st_engines s' = logical <$> st_engines s.
Proof.
  intros Hs (i & l & Hst). apply thread_step_inv in Hst as (e & e' & He & Hp & ->).
  assert (Hok : engine_ok e) by (eapply Forall_lookup_1; [apply Hs|done]).
  split; [apply engines_ok_with; [done|by eapply engine_ok_step]|]. cbn.
  destruct (pipe_step_logical _ _ _ _ (proj1 Hok) Hp) as [Hl _]. rewrite list_fmap_insert, Hl. apply list_insert_id.
  by rewrite list_lookup_fmap, He.
Qed.
Lemma threads_engines s s' : engines_ok s -> rtc thread s s' ->
  engines_ok s' /\ logical <$> st_engines s' = logical <$> st_engines s.
Proof.
  intros Hs Hr. induction Hr as [s|s s1 s2 Ht _ IH]; [done|].
  destruct (thread_engines s s1 Hs Ht) as [Hs1 <-]. by apply IH.
Qed.

Lemma close_dbs_spec s s' : engines_ok s -> rtc thread s s' -> Forall idle (st_engines s') ->
  Forall disk_ok (close_dbs s') /\ disk_view <$> close_dbs s' = logical <$> st_engines s.
Proof.
  intros Hs Hr Hi. destruct (threads_engines s s' Hs Hr) as [[_ Hs'] <-]. unfold close_dbs. split.
  - apply Forall_fmap. eapply Forall_impl; [exact Hs'|]. intros e He. apply db_close_ok, He.
  - rewrite <-list_fmap_compose. apply list_fmap_ext. intros i e He. cbn.
    rewrite (proj2 (db_close_ok _ (proj1 (Forall_lookup_1 _ _ _ _ Hs' He)))).
    unfold logical. by rewrite (proj1 (idle_pending _ (Forall_lookup_1 _ _ _ _ Hi He))).
Qed.

(** The documents of the catalog are not among the queued operations. *)
Lemma represents_logical s c : represents s c ->
  exists e, st_engines s !! 0 = Some e /\ db_holds (logical e) c.
Proof.
  intros [Hs (e & He & Hr & Hk & Ht) _ _]. exists e. split; [done|].
  assert (Hm : forall k, starts_with k DT_PREFIX = false -> logical e !! k = db_view (e_db e) !! k).
  { intros k Hk'. apply apply_ops_untouched. eapply Forall_impl; [exact Hr|]. eauto. }
  split; intros; rewrite Hm by done; auto.
Qed.
Lemma represents_committed s c : represents s c ->
  exists e, st_engines s !! 0 = Some e /\ db_holds (db_view (e_db e)) c.
Proof. intros [_ (e & He & _ & Hd) _ _]. by exists e. Qed.

(** Start-up on directories that hold [view] of the engines of [s]. *)
Lemma reopen_node (n : Node) (s : Storage) (c : Cat) (ks : list disk) (view : Engine -> gmap bytes bytes)
    e0 env cpus os host sv :
  starts_on env cpus os n (dbs_len s) -> has_system c -> Forall disk_ok ks ->
  disk_view <$> ks = view <$> st_engines s -> st_engines s !! 0 = Some e0 -> db_holds (view e0) c ->
  let n' := marked env cpus (release n ks) in
  exists s', open_node env cpus os host sv (release n ks) = (n', Ok s') /\
    serves n' s' /\ represents s' c /\ reopened view s s'.
Proof.
  intros Hm Hsys Hok Hv He0 Hd0 n'.
  assert (Hlen : length ks = dbs_len s).
  { pose proof (f_equal length Hv) as Hl. by rewrite !length_fmap in Hl. }
  pose proof (f_equal (fun l => l !! 0) Hv) as Hk0. cbn in Hk0. rewrite !list_lookup_fmap, He0 in Hk0.
  destruct (ks !! 0) as [k0|] eqn:Hks; [|done]. injection Hk0 as Hk0.
  destruct (reopen n ks c k0 env cpus os host sv) as (s' & Ho & Hrep' & Hh);
    [by rewrite Hlen|done|done|by rewrite Hk0|].
  rewrite seed_cat_id in Hrep' by done. pose proof (holds_reopened ks view s s' (Hh Hsys) Hv) as Hre.
  exists s'. split; [done|]. split; [|by split]. unfold serves. rewrite (proj1 Hre).
  by apply (starts_marks env cpus os (release n ks)).
Qed.

(** A shutdown always comes to its end: the threads can run dry. *)
Lemma shut_down_ends n s : engines_ok s -> shut_down n s (release n (close_dbs (quiesce s))).
Proof.
  intros [_ Hs]. exists (quiesce s). split; [apply quiesce_thread|]. split; [|done].
  cbn. apply Forall_fmap. eapply Forall_impl; [exact Hs|]. intros e He. by apply drained_ok.
Qed.

(** A node that is shut down starts again. *)
Lemma shut_down_reopens n s c n' env cpus os host sv :
  serves n s -> represents s c -> has_system c -> shut_down n s n' -> os_spawn os = Ok () ->
  exists s', open_node env cpus os host sv n' = (n', Ok s') /\ serves n' s' /\ represents s' c /\
    reopened logical s s'.
Proof.
  intros Hm Hrep Hsys (s1 & Hr & Hi & ->) Hos.
  destruct (close_dbs_spec s s1 (rep_ok _ _ Hrep) Hr Hi) as [Hok Hv].
  destruct (represents_logical s c Hrep) as (e0 & He0 & Hd0).
  destruct (marks_starts env cpus os n (dbs_len s) Hm Hos) as [Hst _].
  destruct (marks_starts env cpus os (release n (close_dbs s1)) (dbs_len s) Hm Hos) as [_ Hsame].
  pose proof (reopen_node n s c (close_dbs s1) logical e0 env cpus os host sv Hst Hsys Hok Hv He0 Hd0) as Hre.
  cbv zeta in Hre. by rewrite Hsame in Hre.
Qed.

(** C11: restart.  When a running node is shut down - the pipelines finish, in any
    order - and started again, under whatever environment, it opens, serves the
    same schema from the same number of engines, and every row reads as if
    everything that was queued at the shutdown had been applied. *)
Theorem restart_keeps n s c n' env cpus os host sv :
  serves n s -> represents s c -> has_system c -> shut_down n s n' -> os_spawn os = Ok () ->
  exists s', open_node env cpus os host sv n' = (n', Ok s') /\ serves n' s' /\ represents s' c /\
    forall ks tb parts, snd (get_row ks tb parts s') = Ok (row_of s ks tb parts).
Proof.
  intros Hm Hrep Hsys Hd Hos.
  destruct (shut_down_reopens n s c n' env cpus os host sv Hm Hrep Hsys Hd Hos) as (s' & Ho & Hm' & Hrep' & Hre).
  exists s'. split; [done|]. split; [done|]. split; [done|]. intros ks tb parts.
  by apply reopened_read; [apply Hrep|apply Hrep'|].
Qed.

(** ** Crashes *)

Lemma crash_spec n s n' : st_write_sync s = true -> engines_ok s -> crash n s n' ->
  exists ks marker, n' = release (set_marker marker n) ks /\ Forall disk_ok ks /\
    disk_view <$> ks = (fun e => db_view (e_db e)) <$> st_engines s.
Proof.
  intros Hsync [_ Hs] (ks & marker & Hf & ->). exists ks, marker. split; [done|]. rewrite Hsync in Hf.
  induction Hf as [|e k es ks Hk Hf IH]; [done|]. apply Forall_cons in Hs as [He Hs]. destruct (IH Hs) as [Hok Hv].
  destruct (db_crash_ok (committer_opts true) _ _ (proj1 He) eq_refl eq_refl Hk) as [Hk1 Hk2].
  split; [by constructor|]. cbn. by rewrite Hk2, <-Hv.
Qed.

(** A node in durable mode whose process dies starts again, if the start comes to
    the number of engines it had. *)
Lemma crash_reopens n s c n' env cpus os host sv :
  represents s c -> has_system c -> st_write_sync s = true -> crash n s n' ->
  starts_on env cpus os n' (dbs_len s) ->
  exists s', open_node env cpus os host sv n' = (marked env cpus n', Ok s') /\ serves (marked env cpus n') s' /\
    represents s' c /\ reopened (fun e => db_view (e_db e)) s s'.
Proof.
  intros Hrep Hsys Hsync Hc Hst.
  destruct (crash_spec n s n' Hsync (rep_ok _ _ Hrep) Hc) as (ks & marker & -> & Hok & Hv).
  destruct (represents_committed s c Hrep) as (e0 & He0 & Hd0).
  by apply (reopen_node (set_marker marker n) s c ks (fun e => db_view (e_db e)) e0 env cpus os).
Qed.

(** ** The life of a committed row *)

Lemma has_system_evolves row c c' : evolves row c c' -> has_system c -> has_system c'.
Proof.
  intros [_ He]. unfold has_system. rewrite !Forall_cons. intros (H1' & H2' & H3' & _).
  repeat split; [apply He; [by vm_compute|done]..|apply Forall_nil_2].
Qed.

Section kept.
Context (ks tb : str) (parts : list bytes) (v : bytes).
Let row := OneRow ks tb parts.

(** On a node that has just started, a row that was committed stands. *)
Lemma reopened_stands view s s' : engines_ok s -> engines_ok s' -> reopened view s s' ->
  (forall e, st_engines s !! row_engine ks tb parts s = Some e -> view e !! row_key ks tb parts = Some v) ->
  stands row [] (Some v) (s', []).
Proof.
  intros Hs Hs' Hre Hv. split; [|apply Forall_nil_2]. split; [done|]. split.
  - intros i e' key He' Hpl ->. destruct (reopened_row view s s' ks tb parts Hs Hre) as (e1 & e2 & He1 & He2 & Hp & Hv').
    cbn [placed row] in Hpl. change (i = row_engine ks tb parts s') in Hpl. subst i. cbn [fst] in He'.
    rewrite He' in He2. injection He2 as <-. left. split; [by eapply Forall_lookup_1; [apply Hs'|]|].
    rewrite Hp, Hv'. split; [done|by apply Hv].
  - intros key _. left. apply Hre.
Qed.

(** The life of a node as the client that wrote the row sees it: pipeline threads
    and requests of others, clean restarts, and crashes in durable mode followed
    by a start that comes to the same number of engines. *)
Inductive life : Node * (Storage * list Fetched) -> Node * (Storage * list Fetched) -> Prop :=
| life_acts n x y : others row [] x y -> life (n, x) (n, y)
| life_restarts n s rs n' s' env cpus os host sv : shut_down n s n' -> os_spawn os = Ok () ->
    open_node env cpus os host sv n' = (n', Ok s') -> life (n, (s, rs)) (n', (s', []))
| life_crashes n s rs n' n'' s' env cpus os host sv : st_write_sync s = true -> crash n s n' ->
    starts_on env cpus os n' (dbs_len s) ->
    open_node env cpus os host sv n' = (n'', Ok s') -> life (n, (s, rs)) (n'', (s', [])).

Definition lives (c : Cat) (x : Node * (Storage * list Fetched)) : Prop :=
  serves (fst x) (fst (snd x)) /\ stands row [] (Some v) (snd x) /\
  exists c', represents (fst (snd x)) c' /\ has_system c' /\ evolves row c c'.

Lemma lives_life c x y : life x y -> lives c x -> lives c y.
Proof.
  intros Hl (Hm & Hst & c' & Hrep & Hsys & Hev).
  destruct Hl as [n x y Ho|n s rs n' s' env cpus os host sv Hd Hos Ho|n s rs n' n'' s' env cpus os host sv Hsync Hc Hs Ho];
    cbn [fst snd] in *.
  - destruct (stands_others _ _ _ _ _ Ho Hst) as [Hst' (Hlen & _)].
    destruct (others_represents _ _ _ _ _ Ho Hrep) as (c2 & Hrep2 & Hev2).
    split; [unfold serves; cbn; by rewrite Hlen|]. split; [done|]. exists c2. split; [done|].
    split; [by eapply has_system_evolves|by etrans].
  - destruct (shut_down_reopens n s c' n' env cpus os host sv Hm Hrep Hsys Hd Hos) as (s1 & Ho1 & Hm1 & Hr1 & Hre).
    rewrite Ho in Ho1. injection Ho1 as <-. split; [done|]. split; [|by exists c'].
    apply (reopened_stands logical s); [apply Hrep|apply Hr1|done|]. intros e He. apply rests_logical.
    by apply (safe_rests _ _ _ s _ e _ (proj1 Hst) He).
  - destruct (crash_reopens n s c' n' env cpus os host sv Hrep Hsys Hsync Hc Hs) as (s1 & Ho1 & Hm1 & Hr1 & Hre).
    rewrite Ho in Ho1. injection Ho1 as -> <-. split; [done|]. split; [|by exists c'].
    apply (reopened_stands (fun e => db_view (e_db e)) s); [apply Hrep|apply Hr1|done|]. intros e He.
    by apply (safe_rests _ _ _ s _ e _ (proj1 Hst) He).
Qed.

Lemma lives_rtc c x y : rtc life x y -> lives c x -> lives c y.
Proof. induction 1; eauto using lives_life. Qed.

(** From an acknowledged write on. *)
Lemma acked_lives n s1 rs c t s2 rs2 x : serves n s1 -> represents s1 c -> has_system c ->
  stands row [t] (Some v) (s1, rs) ->
  rtc (others row [t]) (s1, rs) (s2, rs2) -> ticket_done s2 t = true ->
  rtc life (n, (s2, rs2)) x -> lives c x.
Proof.
  intros Hm Hrep Hsys Hst Hr Hd Hl. apply (lives_rtc _ _ _ Hl).
  destruct (stands_rtc _ _ _ _ _ Hr Hst) as [Hst2 (Hlen & _)].
  destruct (others_rtc_represents _ _ _ _ _ Hr Hrep) as (c2 & Hrep2 & Hev).
  split; [unfold serves; cbn in *; by rewrite Hlen|]. split; [|exists c2; split; [done|]].
  - apply (stands_settled row [t]); [by apply settled_one|done].
  - split; [by eapply has_system_evolves|done].
Qed.
End kept.

(** What a node can recover from: a shutdown, under whatever environment the next
    start runs, and in durable mode a crash, if the start comes to the number of
    engines it had - it does when the marker survived, and when the environment
    still gives that number. *)
Definition recovers (n : Node) (s : Storage) (c : Cat) : Prop :=
  (forall n' env cpus os host sv, shut_down n s n' -> os_spawn os = Ok () ->
   exists s', open_node env cpus os host sv n' = (n', Ok s') /\ serves n' s' /\ represents s' c) /\
  (forall n' env cpus os host sv, st_write_sync s = true -> crash n s n' -> starts_on env cpus os n' (dbs_len s) ->
   exists s', open_node env cpus os host sv n' = (marked env cpus n', Ok s') /\ serves (marked env cpus n') s' /\
     represents s' c).

Lemma node_recovers n s c : serves n s -> represents s c -> has_system c -> recovers n s c.
Proof.
  intros Hm Hrep Hsys. split.
  - intros n' env cpus os host sv Hd Hos.
    destruct (shut_down_reopens n s c n' env cpus os host sv) as (s' & Ho & Hm' & Hr & _); eauto.
  - intros n' env cpus os host sv Hsync Hc Hst.
    destruct (crash_reopens n s c n' env cpus os host sv) as (s' & Ho & Hm' & Hr & _); eauto.
Qed.

(** C5: durability.  Once the ticket of [put_row] is completed, every later read of
    the row returns the written bytes: through any number of clean restarts, of
    crashes in durable mode (RHYDADB_SYNC), of steps of the pipeline threads and
    of requests of others elsewhere (as in [acked_put_read]: nobody else writes
    this row, truncates or drops its table, and no read of it carries an old version
    into the row cache), in any order, each start under an environment of its own.  The
    marker ENGINE-SHARDS is written without an fsync, so a crash may take or
    garble it; each start after a crash is assumed to come to the number of
    engines the node had ([starts_on]): the marker survived, or the environment
    still gives that number ([lost_marker_misroutes] shows what happens
    otherwise).  A start after a shutdown or such a crash succeeds and finds the
    schema as it was left. *)
Theorem acked_row_survives n s rs c ks tb parts v :
  let row := OneRow ks tb parts in
  serves n s -> represents s c -> has_system c -> no_stale row s rs ->
  exists s1 t, put_row ks tb parts v s = (s1, Ok t) /\
    forall s2 rs2 n' s' rs',
      rtc (others row [t]) (s1, rs) (s2, rs2) -> ticket_done s2 t = true ->
      rtc (life ks tb parts) (n, (s2, rs2)) (n', (s', rs')) ->
      snd (get_row ks tb parts s') = Ok (Some v) /\
      exists c', represents s' c' /\ evolves row c c' /\ recovers n' s' c'.
Proof.
  intros row Hm Hrep Hsys Hrs.
  destruct (put_row_stands s rs ks tb parts v (rep_ok _ _ Hrep) Hrs) as (s1 & t & Heq & Hst & (Hlen & _) & _).
  exists s1, t. split; [exact Heq|]. intros s2 rs2 n' s' rs' Hr Hd Hl.
  destruct (put_row_represents s c ks tb parts v Hrep) as (s1' & t' & Heq' & Hrep1).
  rewrite Heq in Heq'. injection Heq' as <- <-.
  destruct (acked_lives ks tb parts v n s1 rs c t s2 rs2 (n', (s', rs'))) as (Hm2 & Hk & c' & Hrep2 & Hsys2 & Hev);
    [unfold serves; by rewrite Hlen|done..|]. cbn [fst snd] in *.
  split; [by eapply row_read|]. exists c'. split; [done|]. split; [done|]. by apply node_recovers.
Qed.

(** ** The first start *)

Lemma on_engine_len {A} k i (f : Engine -> Engine * res str A) : keeps (fun s => dbs_len s = k) (on_engine i f).
Proof.
  intros s Hs. unfold on_engine. destruct (st_engines s !! i) as [e|]; [|done]. destruct (f e) as [e' [a|x|]];
    unfold dbs_len in *; cbn; by rewrite length_insert.
Qed.
#[local] Hint Resolve on_engine_len : triple.
#[local] Hint Extern 1 (triple _ (modify _) _ _) => apply keeps_modify; intros ? ?; repeat case_match; done : triple.
Lemma put_table_len k d : keeps (fun s => dbs_len s = k) (put_table d).
Proof. unfold put_table, put, engine_write. walk. Qed.
Lemma seed_len k host sv : keeps (fun s => dbs_len s = k) (seed_system host sv).
Proof.
  assert (Hg : forall name, keeps (fun s => dbs_len s = k) (get_keyspace name))
    by (intros; unfold get_keyspace, get, engine_get; walk).
  assert (Hk : forall d, keeps (fun s => dbs_len s = k) (put_keyspace d))
    by (intros; unfold put_keyspace, put, engine_write; walk).
  pose proof (put_table_len k) as Ht.
  assert (Hr : forall a b c d, keeps (fun s => dbs_len s = k) (put_row_sync a b c d))
    by (intros; unfold put_row_sync, on_cache, engine_write; walk).
  unfold seed_system, seed_schema, seed_virtual. walk.
Qed.

(** The first start: on an empty data directory the node comes up
    with between 1 and 64 engines, remembers their number for all later starts,
    and holds exactly the system keyspaces. *)
Theorem first_start env cpus os host sv :
  os_mkdir os = Ok () -> os_write os = Ok () -> os_spawn os = Ok () ->
  exists n s, open_node env cpus os host sv fresh_node = (n, Ok s) /\ serves n s /\
    represents s seeded_cat /\ 1 <= dbs_len s <= 64.
Proof.
  intros Hmk Hwr Hsp. destruct (shard_count None (default 4%Z cpus) (env (bs "RHYDADB_ENGINE_SHARDS")))
    as [count marker] eqn:Hc.
  assert (Hn : (1 <= count <= 64)%Z).
  { injection Hc as <- _. unfold env_num. lia. }
  assert (Hst : exists text, marker = Some text /\ parse_uint 64 (trim text) = Some count).
  { injection Hc as Hc1 <-. rewrite Hc1. eexists. split; [done|]. rewrite trim_show_u by lia. apply parse_uint_show.
    apply in_u_spec. lia. }
  destruct Hst as (text & -> & Hp).
  destruct (open_engines_ok (engine_options env (default 4%Z cpus) count) ∅ (seq 0 (Z.to_nat count)))
    as (dbs & Ho & Hf); [done|intros i k _ Hk; by rewrite lookup_empty in Hk|].
  assert (Hlen : length dbs = Z.to_nat count) by (by rewrite <-(Forall2_length _ _ _ Hf), length_seq).
  assert (Hempty : Forall (fun d => db_ok d /\ db_view d = ∅) dbs).
  { clear -Hf. induction Hf as [|i d l dbs [Hd Hv] _ IH]; constructor; [|done]. by rewrite Hv, lookup_empty. }
  destruct (seed_refines _ _ host sv (open_represents dbs (write_sync_of env) (env (bs "RHYDADB_ROW_CACHE_ENTRIES"))
    ltac:(intros ->; cbn in Hlen; lia) Hempty)) as (s & Hs & Hr).
  assert (Hl : dbs_len s = Z.to_nat count).
  { pose proof (seed_len (Z.to_nat count) host sv (open_storage dbs (write_sync_of env) (env (bs "RHYDADB_ROW_CACHE_ENTRIES")))) as Hk.
    rewrite Hs in Hk. apply Hk. unfold dbs_len. cbn. by rewrite length_fmap. }
  exists (set_marker (Some text) fresh_node), s. split; [|split; [|split; [exact Hr|lia]]].
  - unfold open_node. cbn [nd_marker fresh_node]. rewrite Hc, Hmk, Hwr.
    destruct (2 ^ 63 <=? 8 * count)%Z eqn:E; [lia|]. cbn [nd_engines set_marker fresh_node]. rewrite Ho, Hsp.
    unfold open. rewrite Hs. by destruct (manual_wal env).
  - exists text. split; [done|]. rewrite Hl, Hp. cbn. lia.
Qed.

(** ** Failures *)

Lemma open_engines_sound o dirs j m dbs r : create_if_missing o = true -> open_engines o dirs (seq j m) = (dbs, r) ->
  forall i d k, dbs !! i = Some d -> dirs !! (j + i) = Some k -> disk_ok k -> db_ok d /\ db_view d = disk_view k.
Proof.
  intros Ho. revert j dbs. induction m as [|m IH]; intros j dbs Hop i d k Hd Hk Hok; cbn in Hop; [by simplify_eq|].
  destruct (db_open o (dirs !! j)) as [d0|x|] eqn:E; [|by simplify_eq..].
  destruct (open_engines o dirs (seq (S j) m)) as [dbs' r'] eqn:E'. injection Hop as <- <-.
  destruct i as [|i]; cbn in Hd.
  - injection Hd as <-. rewrite Nat.add_0_r in Hk. destruct (db_open_ok o (dirs !! j) Ho) as (d' & Hd' & Hv).
    { rewrite Hk. by intros x [= <-]. }
    rewrite E in Hd'. injection Hd' as <-. by rewrite Hk in Hv.
  - apply (IH (S j) dbs' E' i d k Hd); [|done]. by rewrite Nat.add_succ_comm.
Qed.

(** C33: a start that fails because some engine cannot be opened does no harm: the
    error is reported, the marker stays, and every sound directory, of the
    engines opened before and of the others, still holds what it held. *)
Theorem failed_open_harmless env cpus os host sv n count x :
  marks n count ->
  snd (open_engines (engine_options env (default 4%Z cpus) (Z.of_nat count)) (nd_engines n) (seq 0 count)) = Err x ->
  exists n', open_node env cpus os host sv n = (n', Err x) /\ nd_marker n' = nd_marker n /\
    forall i k, nd_engines n !! i = Some k -> disk_ok k ->
      exists k', nd_engines n' !! i = Some k' /\ disk_ok k' /\ disk_view k' = disk_view k.
Proof.
  intros (text & Hm & Hp & Hb) Hx.
  destruct (open_engines (engine_options env (default 4%Z cpus) (Z.of_nat count)) (nd_engines n) (seq 0 count))
    as [dbs r] eqn:Ho. cbn in Hx. subst r. exists (release n (db_close <$> dbs)). split; [|split; [done|]].
  - unfold open_node. rewrite Hm. cbn [shard_count]. rewrite Hp.
    assert (set_marker (Some text) n = n) as -> by (destruct n; cbn in *; by subst).
    destruct (2 ^ 63 <=? 8 * Z.of_nat count)%Z eqn:E; [lia|]. by rewrite Nat2Z.id, Ho.
  - intros i k Hi Hok. destruct (dbs !! i) as [d|] eqn:Hd.
    + destruct (open_engines_sound (engine_options env (default 4%Z cpus) (Z.of_nat count)) _ 0 count dbs (Err x)
        eq_refl Ho i d k Hd Hi Hok) as [Hdb Hv].
      exists (db_close d). destruct (db_close_ok d Hdb) as [Hk1 Hk2]. split; [|by rewrite Hk2].
      apply release_lookup. by rewrite list_lookup_fmap, Hd.
    + exists k. split; [|done]. cbn. rewrite lookup_union_r; [done|].
      by rewrite lookup_map_seq_0, list_lookup_fmap, Hd.
Qed.

(** Seeding is not atomic, and its guard looks at the keyspace only.  In durable
    mode, when the process dies during the first start after the keyspace
    "system" was written and before its tables, every later start succeeds,
    finds the keyspace, and leaves the node without system.local - and the next
    starts with it. *)
Theorem half_seeded n dbs var n' env cpus os host sv :
  dbs <> [] -> Forall (fun d => db_ok d /\ db_view d = ∅) dbs ->
  crash n (fst (put_keyspace (no_replication "system") (open_storage dbs true var))) n' ->
  starts_on env cpus os n' (length dbs) ->
  exists s c, open_node env cpus os host sv n' = (marked env cpus n', Ok s) /\ represents s c /\ has_system c /\
    cat_tb c !! (bs "system", bs "local") = None.
Proof.
  intros Hne Hd Hc Hst. pose proof (open_represents dbs true var Hne Hd) as Hrep.
  destruct (put_keyspace_refines _ _ (no_replication "system") Hrep) as (s1 & Hp & Hrep1); [by_compute|].
  assert (Hs1 : st_write_sync s1 = true /\ dbs_len s1 = length dbs).
  { revert Hp. unfold put_keyspace, put, engine_write, on_engine, modify, lift, mbind, st_bind.
    destruct (ks_to_vec _) as [j|?|]; [|done..]. destruct (st_engines (open_storage dbs true var) !! 0) as [e|]; [|done].
    destruct (direct_write e _); [|done..]. intros [= <-]. split; [done|]. unfold dbs_len. cbn.
    by rewrite length_insert, length_fmap. }
  rewrite Hp in Hc. cbn [fst] in Hc.
  destruct (crash_spec n s1 n' (proj1 Hs1) (rep_ok _ _ Hrep1) Hc) as (ks & marker & -> & Hok & Hv).
  destruct (represents_committed s1 _ Hrep1) as (e0 & He0 & Hd0).
  pose proof (f_equal length Hv) as Hlen. rewrite !length_fmap in Hlen.
  pose proof (f_equal (fun l => l !! 0) Hv) as Hk0. cbn in Hk0. rewrite !list_lookup_fmap, He0 in Hk0.
  destruct (ks !! 0) as [k0|] eqn:Hks; [|done]. injection Hk0 as Hk0.
  change (length (st_engines s1)) with (dbs_len s1) in Hlen. rewrite (proj2 Hs1) in Hlen.
  destruct (reopen (set_marker marker n) ks (add_ks empty_cat (no_replication "system")) k0 env cpus os host sv)
    as (s & Ho & Hr & _); [by rewrite Hlen|done|done|by rewrite Hk0|].
  exists s, (seed_cat (add_ks empty_cat (no_replication "system"))). split; [done|]. split; [exact Hr|].
  split; [|by vm_compute]. unfold has_system. repeat apply Forall_cons_2; [vm_compute; eauto..|apply Forall_nil_2].
Qed.

(** ** The WAL flush thread *)

Lemma flush_round_keeps dbs : Forall db_ok dbs ->
  Forall db_ok (flush_round dbs) /\ db_view <$> flush_round dbs = db_view <$> dbs.
Proof.
  induction 1 as [|d dbs Hd Hf [IH1 IH2]]; [done|]. cbn. destruct (db_flush_wal d) as [d'|x|] eqn:E.
  - destruct (db_flush_wal_ok d d' Hd E) as [Hd' Hv]. split; [by constructor|]. by rewrite Hv, <-IH2.
  - split; [by constructor|]. by rewrite <-IH2.
  - split; [by constructor|]. by rewrite <-IH2.
Qed.

(** The WAL flush thread changes no contents, runs while its waits time out, and
    ends when the storage is dropped - and it is pointless: whenever it is
    started, neither data nor metadata writes go to a WAL. *)
Theorem wal_thread_harmless env (s : Storage) rounds dbs : Forall db_ok dbs -> manual_wal env = true ->
  st_write_sync s = write_sync_of env ->
  (exists dbs', wal_loop (replicate rounds Timeout) dbs = (dbs', true) /\
     wal_loop (replicate rounds Timeout ++ [Disconnected]) dbs = (dbs', false) /\
     db_view <$> dbs' = db_view <$> dbs) /\
  wo_disable_wal (committer_opts (st_write_sync s)) = true /\ wo_disable_wal (meta_write_opts s) = true.
Proof.
  intros Hd Hw Hs. split.
  - revert dbs Hd. induction rounds as [|r IH]; intros dbs Hd; [by exists dbs|].
    destruct (flush_round_keeps dbs Hd) as [Hd' Hv]. destruct (IH _ Hd') as (dbs' & E1 & E2 & E3).
    exists dbs'. cbn. by rewrite E1, E2, E3, Hv.
  - unfold meta_write_opts. rewrite Hs. apply andb_true_iff in Hw as [_ Hn%negb_true_iff]. by rewrite Hn.
Qed.
End restart_lemmas.

(** ** Statements across restarts *)

Section statements.
Context `{KVLaws} `{JsonLaws} `{!Durable} `{!DurableLaws} `{UnicodeCase} `{Literals}.
Context (short_name : CassandraStatement -> str).

(** C6: INSERT, crash, SELECT.  For a well-formed user table in the catalog and any
    well-typed row whose key cells are neither null nor NaN: a prepared INSERT of
    all columns is accepted with one ticket, and once the ticket is completed the
    prepared point SELECT returns exactly the inserted values as its only row,
    also on the node that runs after any number of clean restarts and, in durable
    mode, crashes, with the pipeline threads and other requests at work in between,
    under the conditions of [acked_row_survives]: nobody else writes this row,
    truncates or drops its table, no read of it carries an older version into the row cache,
    and each start after a crash comes to the number of engines the node had. *)
Theorem insert_survives n s c ks table vals :
  serves n s -> represents s c -> has_system c -> no_bang ks -> ks ∉ SYSTEM_KEYSPACES ->
  cat_tb c !! (ks, td_name table) = Some table -> table_wf table ->
  Forall2 (fun c v => cell_ok (col_type c) v = true /\ fits v = true) (td_columns table) vals ->
  (forall i c v, td_columns table !! i = Some c -> vals !! i = Some v -> is_regular c = false ->
     value_eqb v VNull = false /\ value_eqb v v = true) ->
  (Z.of_nat (length (encode_row_columns (reg_row table vals))) < 2 ^ 63)%Z ->
  exists keys, Forall2 (key_at table vals) (key_names table) keys /\
    let row := OneRow ks (td_name table) (key_parts keys) in
    forall rs, no_stale row s rs ->
    exists s1 ticket,
      execute_prepared short_name None (StInsert (insert_all ks table)) (to_raw <$> vals) s
        = (s1, Ok (Void, [ticket])) /\
      rtc thread s1 (quiesce s1) /\ ticket_done (quiesce s1) ticket = true /\
      forall s2 rs2 n' s' rs', rtc (others row [ticket]) (s1, rs) (s2, rs2) -> ticket_done s2 ticket = true ->
        rtc (life ks (td_name table) (key_parts keys)) (n, (s2, rs2)) (n', (s', rs')) ->
        (exists c', represents s' c' /\ recovers n' s' c') /\
        exists s3, execute_prepared short_name None (StSelect (select_row ks table))
            ((fun iv => to_raw (snd iv)) <$> keys) s'
          = (s3, Ok (Rows ks (td_name table) (all_cols table) [vals] None, [])).
Proof.
  intros Hm Hrep Hsys Hn Hus Htab Hwf Hv Hk Hlen.
  destruct (keys_exist table vals Hwf Hv Hk) as (keys & Hkeys). exists keys. split; [done|]. intros row rs Hrs.
  destruct (exec_insert_all short_name c ks table vals keys Hn Hus Htab Hwf Hv Hkeys None None None s rs Hrep Hrs)
    as (s1 & t & Hins & Hr1 & Hst & (Hl1 & _) & Hiss).
  exists s1, t. split; [done|]. split; [apply quiesce_thread|].
  split; [apply quiesce_done; [apply Hr1|done]|]. intros s2 rs2 n' s' rs' Hoth Hd Hlife.
  destruct (acked_lives ks (td_name table) (key_parts keys) (encode_row_columns (reg_row table vals)) n s1 rs c t s2 rs2
    (n', (s', rs'))) as (Hm' & Hkept & c' & Hrep' & Hsys' & Htab' & _);
    [unfold serves; by rewrite Hl1|done..|]. cbn [fst snd claim_ks claim_tb] in *. rewrite Htab in Htab'.
  split; [exists c'; split; [done|by apply node_recovers]|].
  apply (exec_select_read short_name c' ks table vals keys Hn Hus Htab' Hwf Hv Hkeys Hlen None None None s' Hrep').
  intros T. by apply (row_read _ _ _ [] _ (set_tables T s') rs').
Qed.
End statements.

(** ** A concrete disk *)

(** A database over files: what is in memory and what is on disk.  Writes go to
    memory; the files are those the handle was opened with. *)
Definition disk_kv : KV :=
  {| db := gmap bytes bytes * gmap bytes bytes;
     db_get d k := Ok (fst d !! k);
     db_write d ops := Ok (apply_ops (fst d) ops, snd d);
     db_iter d p := Ok <$> sorted_from p (fst d) |}.
Definition disk_kv_laws : @KVLaws disk_kv.
Proof.
  refine (@Build_KVLaws disk_kv (fun _ => True) fst _ _ _).
  - done.
  - intros d ops _. by exists (apply_ops (fst d) ops, snd d).
  - done.
Defined.
(** A directory may be corrupt ([None]).  A crash keeps what went through a synced
    WAL, and loses what had none. *)
Definition disk_durable : @Durable disk_kv :=
  @Build_Durable disk_kv (option (gmap bytes bytes))
    (fun o k => match k with
                | Some (Some m) => Ok (m, m)
                | Some None => Err (bs "Corruption: ")
                | None => if create_if_missing o then Ok (∅, ∅) else Err (bs "does not exist")
                end)
    (fun d => Some (fst d))
    (fun w d k => k = Some (if wo_sync w && negb (wo_disable_wal w) then fst d else snd d))
    (fun d => Ok d).
Definition disk_durable_laws : @DurableLaws disk_kv disk_kv_laws disk_durable.
Proof.
  refine (@Build_DurableLaws disk_kv disk_kv_laws disk_durable is_Some (default ∅) _ _ _ _).
  - intros o [k|] Ho Hk; cbn.
    + destruct (Hk k eq_refl) as [m ->]. by exists (m, m).
    + rewrite Ho. by exists (∅, ∅).
  - intros d _. split; [|done]. by exists (fst d).
  - intros w d k _ H1 H2 Hc. cbn in Hc. rewrite H1, H2 in Hc. subst. split; [|done]. by exists (fst d).
  - intros d d' _ [= <-]. done.
Defined.

#[local] Existing Instances disk_kv disk_kv_laws disk_durable disk_durable_laws bits_json bits_json_laws.

Definition no_env : Env := fun _ => None.
Definition sync_env : Env := fun x => if bool_decide (x = bs "RHYDADB_SYNC") then Some (bs "1") else None.

Lemma seeded_has_system : has_system seeded_cat.
Proof. repeat apply Forall_cons_2; [vm_compute; eauto..|apply Forall_nil_2]. Qed.

Lemma first_start_witness :
  exists n s, open_node no_env None os_ok [] [] fresh_node = (n, Ok s) /\ serves n s /\
    represents s seeded_cat /\ 1 <= dbs_len s <= 64.
Proof. apply (first_start no_env None os_ok [] []); reflexivity. Defined.

Lemma restart_keeps_witness :
  exists n s s', open_node no_env None os_ok [] [] fresh_node = (n, Ok s) /\
    open_node sync_env (Some 32%Z) os_ok [] [] (release n (close_dbs (quiesce s)))
      = (release n (close_dbs (quiesce s)), Ok s') /\ represents s' seeded_cat.
Proof.
  destruct (first_start no_env None os_ok [] []) as (n & s & Ho & Hm & Hr & _); [reflexivity..|].
  destruct (restart_keeps n s seeded_cat (release n (close_dbs (quiesce s))) sync_env (Some 32%Z) os_ok [] [] Hm Hr
    seeded_has_system (shut_down_ends n s (rep_ok _ _ Hr)) eq_refl) as (s' & Ho' & _ & Hr' & _).
  exists n, s, s'. split; [exact Ho|]. split; [exact Ho'|exact Hr'].
Defined.

Definition files_of (s : Storage) : list disk := (fun e => Some (snd (e_db e))) <$> st_engines s.
Definition memory_of (s : Storage) : list disk := (fun e => Some (fst (e_db e))) <$> st_engines s.
Lemma volatile_crash n s marker : st_write_sync s = false -> crash n s (set_marker marker (release n (files_of s))).
Proof.
  intros Hs. exists (files_of s), marker. split; [|done]. rewrite Hs. unfold files_of.
  induction (st_engines s) as [|e l IH]; [constructor|]. by constructor.
Qed.
Lemma durable_crash n s marker : st_write_sync s = true -> crash n s (set_marker marker (release n (memory_of s))).
Proof.
  intros Hs. exists (memory_of s), marker. split; [|done]. rewrite Hs. unfold memory_of.
  induction (st_engines s) as [|e l IH]; [constructor|]. by constructor.
Qed.

(** The row of the examples. *)
Definition put_demo : st Storage str WriteTicket := put_row (bs "ks") (bs "t") [bs "a"] (bs "1").
Definition get_demo : st Storage str (option bytes) := get_row (bs "ks") (bs "t") [bs "a"].
Definition demo_ks : KeyspaceDef := {| ks_name := bs "ks"; ks_replication := [] |}.

(** The node after an acknowledged write. *)
Definition after_demo (s : Storage) : Storage := quiesce (fst (put_demo s)).
Definition demo_acked (s : Storage) : bool :=
  match snd (put_demo s) with Ok t => ticket_done (after_demo s) t | _ => false end.
Definition demo_reads (o : option bytes) (s : Storage) : bool :=
  match snd (get_demo s) with Ok x => bool_decide (x = o) | _ => false end.
Lemma demo_reads_ok o s : demo_reads o s = true -> snd (get_demo s) = Ok o.
Proof. unfold demo_reads. destruct (snd (get_demo s)); [|done..]. by intros ->%bool_decide_eq_true. Qed.
Definition lacks_ks (s : Storage) : bool :=
  match snd (get_keyspace (bs "ks") s) with Ok None => true | _ => false end.
Lemma lacks_ks_ok s : lacks_ks s = true -> snd (get_keyspace (bs "ks") s) = Ok None.
Proof. unfold lacks_ks. by destruct (snd (get_keyspace (bs "ks") s)) as [[?|]|?|]. Qed.

Definition volatile_run (start : Node * res str Storage) : bool :=
  match start with
  | (n, Ok s) =>
    let s1 := fst (put_keyspace demo_ks s) in
    let s2 := after_demo s1 in
    negb (lacks_ks s2) && demo_acked s1 && demo_reads (Some (bs "1")) s2 && negb (st_write_sync s2) &&
    match open_node no_env (Some 4%Z) os_ok [] [] (release n (files_of s2)) with
    | (_, Ok s') => lacks_ks s' && demo_reads None s'
    | _ => false
    end
  | _ => false
  end.

(** Without RHYDADB_SYNC, the default, what was acknowledged can be lost when the
    process dies: schema changes as well as rows, although metadata writes are
    described as durable whatever the mode. *)
Theorem volatile_write_lost :
  exists n s, open_node no_env (Some 4%Z) os_ok [] [] fresh_node = (n, Ok s) /\
    let s1 := fst (put_keyspace demo_ks s) in
    let s2 := after_demo s1 in
    demo_acked s1 = true /\ snd (get_demo s2) = Ok (Some (bs "1")) /\ lacks_ks s2 = false /\
    exists n' s', crash n s2 n' /\ snd (open_node no_env (Some 4%Z) os_ok [] [] n') = Ok s' /\
      snd (get_demo s') = Ok None /\ snd (get_keyspace (bs "ks") s') = Ok None.
Proof.
  assert (Hrun : volatile_run (open_node no_env (Some 4%Z) os_ok [] [] fresh_node) = true)
    by (vm_compute; reflexivity).
  destruct (open_node no_env (Some 4%Z) os_ok [] [] fresh_node) as [n [s|?|]]; [|done..].
  exists n, s. split; [done|]. cbn [volatile_run] in Hrun. apply andb_true_iff in Hrun as [Hrun Hre].
  rewrite !andb_true_iff, !negb_true_iff in Hrun. destruct Hrun as [[[Hl Ha] Hr] Hs]. intros s1 s2.
  split; [done|]. split; [by apply demo_reads_ok|]. split; [done|].
  exists (release n (files_of s2)). subst s1 s2.
  destruct (open_node _ _ _ _ _ (release n _)) as [n' [s'|?|]]; [|done..].
  apply andb_true_iff in Hre as [H1 H2]. exists s'.
  split; [by apply (volatile_crash n _ (nd_marker n))|]. split; [done|].
  split; [by apply demo_reads_ok|by apply lacks_ks_ok].
Qed.

Definition rerun (n : Node) (o : option bytes) : bool :=
  match open_node sync_env (Some 16%Z) os_ok [] [] n with (_, Ok s') => demo_reads o s' | _ => false end.
Lemma rerun_ok n o : rerun n o = true ->
  exists s', snd (open_node sync_env (Some 16%Z) os_ok [] [] n) = Ok s' /\ snd (get_demo s') = Ok o.
Proof.
  unfold rerun. destruct (open_node _ _ _ _ _ n) as [n' [s'|?|]]; [|done..]. intros Hr. exists s'.
  split; [done|]. by apply demo_reads_ok.
Qed.
Definition marker_run (start : Node * res str Storage) : bool :=
  match start with
  | (n, Ok s) =>
    let s1 := after_demo s in
    let n1 := release n (memory_of s1) in
    demo_acked s && st_write_sync s1 && rerun n1 (Some (bs "1")) && rerun (set_marker None n1) None
  | _ => false
  end.

(** The rows of a node are only as safe as its marker, which is written without
    an fsync and chosen anew whenever it cannot be read.  An acknowledged row,
    written in durable mode on a machine with 4 processors, is found after a crash
    that leaves the marker and a restart with 16; after a crash that takes the
    marker with it the node comes up with 16 engines and looks for the row in the
    wrong one. *)
Theorem lost_marker_misroutes :
  exists n s, open_node sync_env (Some 4%Z) os_ok [] [] fresh_node = (n, Ok s) /\
    demo_acked s = true /\
    (exists n' s', crash n (after_demo s) n' /\ nd_marker n' = nd_marker n /\
       snd (open_node sync_env (Some 16%Z) os_ok [] [] n') = Ok s' /\ snd (get_demo s') = Ok (Some (bs "1"))) /\
    (exists n' s', crash n (after_demo s) n' /\ nd_marker n' = None /\
       snd (open_node sync_env (Some 16%Z) os_ok [] [] n') = Ok s' /\ snd (get_demo s') = Ok None).
Proof.
  assert (Hrun : marker_run (open_node sync_env (Some 4%Z) os_ok [] [] fresh_node) = true)
    by (vm_compute; reflexivity).
  destruct (open_node sync_env (Some 4%Z) os_ok [] [] fresh_node) as [n [s|?|]]; [|done..].
  cbn [marker_run] in Hrun. rewrite !andb_true_iff in Hrun. destruct Hrun as [[[Ha Hs] H1] H2].
  apply rerun_ok in H1 as (s1 & Ho1 & Hg1). apply rerun_ok in H2 as (s2 & Ho2 & Hg2).
  exists n, s. split; [done|]. split; [done|]. split.
  - exists (release n (memory_of (after_demo s))), s1. split; [by apply (durable_crash n _ (nd_marker n))|]. by split.
  - exists (set_marker None (release n (memory_of (after_demo s)))), s2. split; [by apply durable_crash|]. by split.
Qed.

(** With 4 processors and no marker a start comes to 4 engines. *)
Lemma four_engines n : starts_on sync_env (Some 4%Z) os_ok (set_marker None n) 4.
Proof. split; [reflexivity|]. split; [lia|]. by split. Qed.

(** The row is written, its write completed; the process dies and takes the marker
    with it; the next start, with as many processors, chooses the same number of
    engines, and the row is there. *)
Lemma acked_row_survives_witness :
  exists n s s1 t n' n'' s', open_node sync_env (Some 4%Z) os_ok [] [] fresh_node = (n, Ok s) /\
    put_demo s = (s1, Ok t) /\ ticket_done (quiesce s1) t = true /\
    crash n (quiesce s1) n' /\ nd_marker n' = None /\
    open_node sync_env (Some 4%Z) os_ok [] [] n' = (n'', Ok s') /\ snd (get_demo s') = Ok (Some (bs "1")).
Proof.
  destruct (first_start sync_env (Some 4%Z) os_ok [] []) as (n & s & Ho & Hm & Hr & _); [reflexivity..|].
  assert (Hb : match open_node sync_env (Some 4%Z) os_ok [] [] fresh_node with
               | (_, Ok s) => st_write_sync (after_demo s) && demo_acked s && bool_decide (dbs_len (after_demo s) = 4)
               | _ => false end = true)
    by (vm_compute; reflexivity).
  rewrite Ho, !andb_true_iff in Hb. destruct Hb as [[Hb2 Hb3] Hb4].
  destruct (acked_row_survives n s [] seeded_cat (bs "ks") (bs "t") [bs "a"] (bs "1") Hm Hr seeded_has_system
    (Forall_nil_2 _)) as (s1 & t & Hp & Hc). change (put_demo s = (s1, Ok t)) in Hp.
  unfold demo_acked, after_demo in Hb2, Hb3, Hb4. rewrite Hp in Hb2, Hb3, Hb4. cbn [fst snd] in Hb2, Hb3, Hb4.
  apply bool_decide_eq_true in Hb4.
  pose proof (thread_others (OneRow (bs "ks") (bs "t") [bs "a"]) [t] s1 (quiesce s1) [] (quiesce_thread s1)) as Hq.
  set (n' := set_marker None (release n (memory_of (quiesce s1)))).
  assert (Hcr : crash n (quiesce s1) n') by by apply durable_crash.
  assert (Hst : starts_on sync_env (Some 4%Z) os_ok n' (dbs_len (quiesce s1))).
  { rewrite Hb4. apply four_engines. }
  destruct (Hc (quiesce s1) [] n (quiesce s1) [] Hq Hb3 (rtc_refl _ _)) as (_ & c1 & _ & _ & _ & Hcrash).
  destruct (Hcrash n' sync_env (Some 4%Z) os_ok [] [] Hb2 Hcr Hst) as (s' & Ho' & _ & _).
  exists n, s, s1, t, n', (marked sync_env (Some 4%Z) n'), s'. split; [exact Ho|]. split; [exact Hp|]. split; [exact Hb3|].
  split; [exact Hcr|]. split; [reflexivity|]. split; [exact Ho'|].
  refine (proj1 (Hc (quiesce s1) [] (marked sync_env (Some 4%Z) n') s' [] Hq Hb3 (rtc_once _ _ _))).
  exact (life_crashes _ _ _ n (quiesce s1) [] n' _ s' sync_env (Some 4%Z) os_ok [] [] Hb2 Hcr Hst Ho').
Defined.

(** A table on a new node, a row, a shutdown and a restart. *)
Lemma demo_node : exists n s, serves n s /\ represents s (add_tb seeded_cat demo_table).
Proof.
  destruct (first_start no_env None os_ok [] []) as (n & s0 & _ & Hm & Hr & _); [reflexivity..|].
  destruct (put_table_refines s0 seeded_cat demo_table Hr) as (s & Hp & Hrep); [by_compute|].
  exists n, s. split; [|exact Hrep]. unfold serves.
  pose proof (put_table_len (dbs_len s0) demo_table s0 eq_refl) as Hl. rewrite Hp in Hl. by rewrite Hl.
Qed.

Lemma insert_survives_witness :
  exists n s keys s1 ticket n' s' s3,
    execute_prepared (H1 := ascii_case) (H2 := no_literals) (fun _ => []) None
      (StInsert (insert_all (bs "ks") demo_table)) (to_raw <$> demo_vals) s = (s1, Ok (Void, [ticket])) /\
    ticket_done (quiesce s1) ticket = true /\
    shut_down n (quiesce s1) n' /\ open_node no_env None os_ok [] [] n' = (n', Ok s') /\
    execute_prepared (H1 := ascii_case) (H2 := no_literals) (fun _ => []) None
       (StSelect (select_row (bs "ks") demo_table)) ((fun iv : nat * Value => to_raw (snd iv)) <$> keys) s'
       = (s3, Ok (Rows (bs "ks") (bs "t") (all_cols demo_table) [demo_vals] None, [])).
Proof.
  destruct demo_node as (n & s & Hm & Hrep).
  assert (Htab : cat_tb (add_tb seeded_cat demo_table) !! (bs "ks", td_name demo_table) = Some demo_table)
    by exact (lookup_insert_eq (M := gmap (str * str)) _ _ _).
  destruct (insert_survives (H5 := ascii_case) (H6 := no_literals) (fun _ => []) n s _ (bs "ks") demo_table demo_vals
    Hm Hrep seeded_has_system ltac:(by_compute) ltac:(by_compute) Htab demo_table_ok demo_vals_ok demo_vals_keys
    ltac:(vm_compute; reflexivity)) as (keys & Hkeys & Hall).
  destruct (Hall [] (Forall_nil_2 _)) as (s1 & ticket & Hins & Hth & Hd & Hsel).
  pose proof (thread_others (OneRow (bs "ks") (td_name demo_table) (key_parts keys)) [ticket] s1 (quiesce s1) [] Hth) as Hq.
  destruct (Hsel (quiesce s1) [] n (quiesce s1) [] Hq Hd (rtc_refl _ _)) as ((c' & Hrq & Hrec & _) & _).
  pose proof (shut_down_ends n (quiesce s1) (rep_ok _ _ Hrq)) as Hsd.
  destruct (Hrec _ no_env None os_ok [] [] Hsd eq_refl) as (s' & Ho & _ & _).
  destruct (Hsel (quiesce s1) [] _ s' [] Hq Hd
    (rtc_once _ _ (life_restarts _ _ _ n (quiesce s1) [] _ s' no_env None os_ok [] [] Hsd eq_refl Ho))) as (_ & s3 & Hs3).
  exists n, s, keys, s1, ticket, (release n (close_dbs (quiesce (quiesce s1)))), s', s3.
  split; [exact Hins|]. split; [exact Hd|]. split; [exact Hsd|]. split; [exact Ho|exact Hs3].
Defined.

(** Engine 1 of two is corrupt. *)
Definition broken_node : Node :=
  {| nd_marker := Some (bs "2"); nd_engines := {[0 := Some {[bs "k" := bs "v"]}; 1 := None]} |}.
Lemma failed_open_harmless_witness :
  exists n', open_node no_env None os_ok [] [] broken_node = (n', Err (bs "Corruption: ")) /\
    exists k', nd_engines n' !! 0 = Some k' /\ disk_view k' = {[bs "k" := bs "v"]}.
Proof.
  destruct (failed_open_harmless no_env None os_ok [] [] broken_node 2 (bs "Corruption: ")) as (n' & Ho & _ & Hk).
  - exists (bs "2"). split; [reflexivity|]. split; [reflexivity|lia].
  - reflexivity.
  - exists n'. split; [exact Ho|]. destruct (Hk 0 (Some {[bs "k" := bs "v"]})) as (k' & H1 & _ & H2); [reflexivity|by eexists|].
    by exists k'.
Defined.

(** A crash during the first start. *)
Definition seeding : Storage := fst (put_keyspace (no_replication "system") (open_storage [(∅, ∅); (∅, ∅)] true None)).
Definition two_engines : Node := {| nd_marker := Some (bs "2"); nd_engines := ∅ |}.
Lemma half_seeded_witness :
  exists s c, crash two_engines seeding (release two_engines (memory_of seeding)) /\
    open_node no_env None os_ok [] [] (release two_engines (memory_of seeding))
      = (release two_engines (memory_of seeding), Ok s) /\
    represents s c /\ cat_tb c !! (bs "system", bs "local") = None.
Proof.
  assert (Hc : crash two_engines seeding (release two_engines (memory_of seeding)))
    by (by apply (durable_crash two_engines seeding (Some (bs "2")))).
  destruct (half_seeded two_engines [(∅, ∅); (∅, ∅)] None (release two_engines (memory_of seeding)) no_env None os_ok [] [])
    as (s & c & Ho & Hr & _ & Hl).
  - done.
  - repeat apply Forall_cons_2; [by split|by split|apply Forall_nil_2].
  - exact Hc.
  - split; [reflexivity|]. split; [cbn; lia|]. by split.
  - exists s, c. split; [exact Hc|]. split; [exact Ho|]. split; [exact Hr|exact Hl].
Defined.
