(* ===== verification/Clients.v ===== *)
(** * The client programs: what they send and how they end

    Theorems about [Client]: the requests of the benchmark clients are read by the
    server as they were meant, the two clients send the same bytes, their loops
    end, their key generator is a permutation, and the storage benchmark counts
    every operation once. *)

From S2P Require Import Prelude RustStr Ast Schema CqlValue Keys Project Kv Pipeline Storage Query Wire.
From S2P Require Import Protocol Server Client Frames Session Rows Catalog.

(** ** The key generator *)

Section generator.
Local Open Scope Z_scope.

Lemma uwrap_lxor w a b : 0 <= w -> uwrap w (Z.lxor a b) = Z.lxor (uwrap w a) (uwrap w b).
Proof.
  intros Hw. unfold uwrap. rewrite <-!Z.land_ones by done. apply Z.bits_inj'. intros n Hn.
  rewrite !Z.lxor_spec, !Z.land_spec, Z.lxor_spec. by destruct (Z.testbit (Z.ones w) n), (Z.testbit a n), (Z.testbit b n).
Qed.
Lemma uwrap_u64 z : 0 <= uwrap 64 z < 2 ^ 64.
Proof. unfold uwrap. apply Z.mod_pos_bound. lia. Qed.

(** A left shift within the word, xored in, can be undone. *)
Definition left_step (k x : Z) : Z := Z.lxor x (uwrap 64 (Z.shiftl x k)).
Definition right_step (k x : Z) : Z := Z.lxor x (Z.shiftr x k).

Lemma left_step_lxor k a b : left_step k (Z.lxor a b) = Z.lxor (left_step k a) (left_step k b).
Proof.
  unfold left_step. rewrite Z.shiftl_lxor, uwrap_lxor by lia.
  rewrite !Z.lxor_assoc. f_equal. rewrite <-!Z.lxor_assoc. f_equal. apply Z.lxor_comm.
Qed.
Lemma right_step_lxor k a b : right_step k (Z.lxor a b) = Z.lxor (right_step k a) (right_step k b).
Proof.
  unfold right_step. rewrite Z.shiftr_lxor.
  rewrite !Z.lxor_assoc. f_equal. rewrite <-!Z.lxor_assoc. f_equal. apply Z.lxor_comm.
Qed.

Lemma left_step_zero k d : 0 < k -> 0 <= d < 2 ^ 64 -> left_step k d = 0 -> d = 0.
Proof.
  intros Hk Hd Hz. apply Z.lxor_eq in Hz.
  assert (Hdiv : forall m : nat, Z.of_nat m <= 64 -> (2 ^ Z.of_nat m | d)).
  { induction m as [|m IH]; intros Hm; [apply Z.divide_1_l|].
    destruct IH as [q Hq]; [lia|]. rewrite Hz. unfold uwrap. rewrite Z.shiftl_mul_pow2 by lia.
    rewrite Z.mod_eq by lia. apply Z.divide_sub_r.
    - rewrite Hq. exists (q * 2 ^ (k - 1)). rewrite Nat2Z.inj_succ, <-Z.add_1_r, (Z.pow_add_r 2 (Z.of_nat m)) by lia.
      replace (2 ^ k) with (2 ^ 1 * 2 ^ (k - 1)) by (rewrite <-Z.pow_add_r by lia; f_equal; lia). lia.
    - apply Z.divide_mul_l. exists (2 ^ (64 - Z.of_nat (S m))). rewrite <-Z.pow_add_r by lia. f_equal. lia. }
  destruct (Hdiv 64%nat ltac:(lia)) as [q Hq]. change (2 ^ Z.of_nat 64) with (2 ^ 64) in Hq. nia.
Qed.

Lemma right_step_zero k d : 0 < k -> 0 <= d -> right_step k d = 0 -> d = 0.
Proof.
  intros Hk Hd Hz. apply Z.lxor_eq in Hz. rewrite Z.shiftr_div_pow2 in Hz by lia.
  assert (2 <= 2 ^ k) by (change 2 with (2 ^ 1) at 1; apply Z.pow_le_mono_r; lia).
  assert (d = 0 \/ 0 < d) as [?|Hpos] by lia; [done|].
  pose proof (Z.div_lt d (2 ^ k) Hpos ltac:(lia)). lia.
Qed.

Lemma lxor_u64 a b : 0 <= a < 2 ^ 64 -> 0 <= b < 2 ^ 64 -> 0 <= Z.lxor a b < 2 ^ 64.
Proof.
  intros Ha Hb. assert (H0 : 0 <= Z.lxor a b) by (apply Z.lxor_nonneg; lia). split; [done|].
  assert (uwrap 64 (Z.lxor a b) = Z.lxor a b) as <-; [|apply uwrap_u64].
  rewrite uwrap_lxor by lia. unfold uwrap. by rewrite !Z.mod_small.
Qed.
Lemma left_step_u64 k x : 0 <= x < 2 ^ 64 -> 0 <= left_step k x < 2 ^ 64.
Proof. intros Hx. by apply lxor_u64, uwrap_u64. Qed.
Lemma right_step_u64 k x : 0 <= k -> 0 <= x < 2 ^ 64 -> 0 <= right_step k x < 2 ^ 64.
Proof.
  intros Hk Hx. apply lxor_u64; [done|]. rewrite Z.shiftr_div_pow2 by done.
  assert (0 < 2 ^ k) by (apply Z.pow_pos_nonneg; lia). split; [apply Z.div_pos; lia|].
  apply Z.div_lt_upper_bound; [done|]. nia.
Qed.

Lemma xorshift_steps x : Bench.xorshift x = left_step 17 (right_step 7 (left_step 13 x)).
Proof. done. Qed.

Lemma xorshift_u64 x : 0 <= x < 2 ^ 64 -> 0 <= Bench.xorshift x < 2 ^ 64.
Proof. intros Hx. rewrite xorshift_steps. apply left_step_u64, right_step_u64; [lia|]. by apply left_step_u64. Qed.

Lemma xorshift_lxor a b : Bench.xorshift (Z.lxor a b) = Z.lxor (Bench.xorshift a) (Bench.xorshift b).
Proof. by rewrite !xorshift_steps, left_step_lxor, right_step_lxor, left_step_lxor. Qed.

Lemma xorshift_zero d : 0 <= d < 2 ^ 64 -> Bench.xorshift d = 0 -> d = 0.
Proof.
  intros Hd. rewrite xorshift_steps. intros Hz.
  apply left_step_zero in Hz; [|lia|apply right_step_u64; [lia|by apply left_step_u64]].
  apply right_step_zero in Hz; [|lia|by apply left_step_u64].
  by apply left_step_zero in Hz.
Qed.

Lemma touched_zero n keys : 0 < keys -> Honest.touched n 0 keys = Ok (replicate n 1).
Proof.
  intros Hk. induction n as [|n IH]; cbn [Honest.touched replicate]; [done|].
  rewrite (proj2 (Z.eqb_neq _ _)) by lia. change (Bench.xorshift 0) with 0. by rewrite IH.
Qed.

(** The generator of the benchmarks is injective on 64-bit words, so it
    permutes them, and it never reaches zero from another seed; from zero it
    never leaves it, and a thread seeded with zero touches key 1 for ever. *)
Theorem xorshift_permutes a b n keys :
  0 <= a < 2 ^ 64 -> 0 <= b < 2 ^ 64 -> 0 < keys ->
  0 <= Bench.xorshift a < 2 ^ 64 /\
  (Bench.xorshift a = Bench.xorshift b -> a = b) /\
  (Bench.xorshift a = 0 <-> a = 0) /\
  Honest.touched n 0 keys = Ok (replicate n 1).
Proof.
  intros Ha Hb Hk. split; [by apply xorshift_u64|]. split; [|split].
  - intros He. apply Z.lxor_eq, xorshift_zero; [by apply lxor_u64|].
    by rewrite xorshift_lxor, He, Z.lxor_nilpotent.
  - split; [by apply xorshift_zero|]. by intros ->.
  - by apply touched_zero.
Qed.

(** The write phase of the storage benchmark starts thread 1 with that seed. *)
Theorem honest_thread_stuck n keys : 0 < keys ->
  Honest.touched n (Honest.write_seed 1) keys = Ok (replicate n 1).
Proof. change (Honest.write_seed 1) with 0. apply touched_zero. Qed.
End generator.

(** ** Requests *)

(** What a request of the workload asks for: the key, the statement, the values. *)
Definition request_values (w : Bench.Workload) (is_insert : bool) (k : Z) : list bytes :=
  if is_insert then [be 8 k; Bench.value w] else [be 8 k].
Definition request_id (w : Bench.Workload) (is_insert : bool) : bytes :=
  if is_insert then Bench.insert_id w else Bench.select_id w.

Lemma execute_frame_eq w is_insert out stream :
  Bench.execute_frame w is_insert out stream
  = '(w', k) ← Bench.key w;
    Ok (w', Bench.frame stream 0x0A
      (execute_body (request_id w is_insert) (client_params (request_values w is_insert k) (negb is_insert))) out).
Proof.
  unfold Bench.execute_frame, execute_body, enc_short, request_id, request_values.
  destruct (Bench.key w) as [[w' k]| |]; [|done|done]. res_simpl.
  destruct is_insert; by rewrite query_params_enc.
Qed.

Lemma frame_app stream op body out : Bench.frame stream op body out = out ++ Bench.frame stream op body [].
Proof. done. Qed.
Lemma length_frame stream op body : length (Bench.frame stream op body []) = 9 + length body.
Proof. unfold Bench.frame. rewrite !length_app, !length_be. cbn. lia. Qed.

Lemma key_range w w' k : Bench.key w = Ok (w', k) -> (0 <= Bench.keys w)%Z ->
  (1 <= k <= match Bench.mode w with Bench.Write => Bench.keys w | _ => Z.max (Bench.filled w) 1 end)%Z.
Proof.
  unfold Bench.key, Bench.rand. intros Hk Hkeys. case_match; [done|]. injection Hk as <- <-.
  match goal with |- context [(?x mod ?n)%Z] => assert (0 < n)%Z; [|pose proof (Z.mod_pos_bound x n)] end.
  - destruct (Bench.mode w); reflect_bools; lia.
  - lia.
Qed.

Section requests.
Context `{WireLaws}.

Lemma client_params_ok values skip :
  Forall long_ok values -> (Z.of_nat (length values) < 2 ^ 16)%Z -> params_ok (client_params values skip).
Proof.
  intros Hv Hl. unfold params_ok, client_params. cbn. rewrite length_fmap. split; [|done].
  by apply Forall_fmap.
Qed.

(** The server reads what the client meant.  A request the workload builds,
    found at the front of the input, is taken off it as one frame with its stream
    id; its body names the prepared statement, and its parameters are the key -
    between 1 and the number of keys - and, for an INSERT, the value. *)
Theorem client_request_read w is_insert out stream w' f cs rest fin :
  Bench.execute_frame w is_insert out stream = Ok (w', f) -> (0 <= Bench.keys w)%Z ->
  in_i 16 stream = true -> short_ok (Bench.insert_id w) -> short_ok (Bench.select_id w) ->
  (Z.of_nat (length (Bench.value w)) <= 2 ^ 25)%Z ->
  exists g k body p,
    f = out ++ g /\ read_frame cs (g ++ rest) fin = InRequest stream 0x0A body rest /\
    (1 <= k <= match Bench.mode w with Bench.Write => Bench.keys w | _ => Z.max (Bench.filled w) 1 end)%Z /\
    (exists buf, read_short_bytes body
       = Some (if is_insert then Bench.insert_id w else Bench.select_id w, buf) /\ read_params buf = Some p) /\
    qp_values p = RvValue <$> (if is_insert then [be 8 k; Bench.value w] else [be 8 k]) /\
    qp_skip_metadata p = negb is_insert.
Proof.
  intros Hf Hkeys Hst Hi Hs Hv. rewrite execute_frame_eq in Hf.
  destruct (Bench.key w) as [[w1 k]| |] eqn:Hk; [|done|done]. res_simpl.
  set (body := execute_body _ _) in Hf. injection Hf as <- <-.
  set (p := client_params (request_values w is_insert k) (negb is_insert)).
  assert (Hp : params_ok p).
  { apply client_params_ok; unfold request_values.
    - destruct is_insert; repeat constructor; unfold long_ok; rewrite ?length_be; lia.
    - by destruct is_insert. }
  assert (Hid : short_ok (request_id w is_insert)) by (by destruct is_insert).
  assert (Hlen : (Z.of_nat (length body) <= MAX_FRAME_LENGTH)%Z).
  { unfold body, execute_body, enc_short, enc_params, enc_values, short_ok, request_id, request_values,
      client_params, MAX_FRAME_LENGTH in *.
    destruct is_insert; cbn [qp_values qp_page_size qp_paging_state fmap list_fmap enc_value concat length];
      unfold enc_long; rewrite !length_app, !length_be; cbn [length]; lia. }
  exists (Bench.frame stream 0x0A body []), k, body, p. split; [done|].
  split; [by apply read_frame_client|]. split; [by eapply key_range|]. split; [|by destruct is_insert].
  exists (enc_params p). split; [|by apply read_params_spec]. by apply read_short_bytes_spec.
Qed.
End requests.

(** ** The two clients *)

(** The context of one client and the workload of the other agree. *)
Definition same_workload (c : BenchAsync.ConnCtx) (w : Bench.Workload) : Prop :=
  BenchAsync.insert_id c = Bench.insert_id w /\ BenchAsync.select_id c = Bench.select_id w /\
  BenchAsync.rng c = Bench.rng w /\ BenchAsync.value c = Bench.value w /\
  BenchAsync.mode c = Bench.mode w /\ BenchAsync.keys c = Bench.keys w /\
  BenchAsync.filled c = Bench.filled w.

(** The asynchronous client is the same client.  From corresponding states,
    [build_op] and [execute_frame] append the same bytes to the buffer - and fail
    in the same cases - and lead to corresponding states, for every mode, position
    in the batch and stream id. *)
Theorem clients_agree c w i out : same_workload c w ->
  match Bench.execute_frame w (BenchAsync.is_ins (Bench.mode w) i) out (BenchAsync.next_stream c),
        BenchAsync.build_op c i out with
  | Ok (w', f), Ok (c', f', ins) =>
    f' = f /\ ins = BenchAsync.is_ins (Bench.mode w) i /\ same_workload c' w' /\
    BenchAsync.next_stream c' = Z.land (swrap 16 (BenchAsync.next_stream c + 1)) 0x7FFF
  | Panic, Panic => True
  | _, _ => False
  end.
Proof.
  intros (Hi & Hs & Hr & Hv & Hm & Hk & Hf). unfold Bench.execute_frame, BenchAsync.build_op, Bench.key, Bench.rand.
  rewrite Hi, Hs, Hr, Hv, Hm, Hk, Hf.
  set (x := Bench.xorshift (Bench.rng w)).
  set (n := match Bench.mode w with Bench.Write => Bench.keys w | _ => Z.max (Bench.filled w) 1 end).
  destruct (n =? 0)%Z; res_simpl; [done|].
  destruct (BenchAsync.is_ins (Bench.mode w) i); (split; [|done]).
  all: unfold BenchAsync.frame, Bench.frame, Bench.query_params_with_values.
  all: cbn [foldl length]; by rewrite !length_be, <-!app_assoc.
Qed.

(** ** The loops end *)

(** A workload that writes to at least one key. *)
Definition writes (w : Bench.Workload) : Prop := Bench.mode w = Bench.Write /\ (0 < Bench.keys w)%Z.
(** An EXECUTE frame. *)
Definition is_execute (f : bytes) : Prop := exists stream body, f = Bench.frame stream 0x0A body [].

Lemma execute_frame_writes w is_insert out stream : writes w ->
  exists w' f, Bench.execute_frame w is_insert out stream = Ok (w', out ++ f) /\ is_execute f /\ writes w'.
Proof.
  intros [Hm Hk]. rewrite execute_frame_eq. unfold Bench.key, Bench.rand. rewrite Hm.
  rewrite (proj2 (Z.eqb_neq _ _)) by lia. res_simpl. eexists _, _. split; [by rewrite frame_app|].
  split; [by eexists _, _|done].
Qed.

Lemma fill_batch_spec room n w ns out : writes w ->
  exists w' ns' fs, Bench.fill_batch room n w ns out = Ok (w', ns', out ++ concat fs, n - length fs) /\
    length fs = Nat.min room n /\ Forall is_execute fs /\ writes w'.
Proof.
  revert n w ns out. induction room as [|room IH]; intros n w ns out Hw; cbn [Bench.fill_batch].
  { exists w, ns, []. by rewrite app_nil_r, Nat.sub_0_r. }
  destruct n as [|n]; [exists w, ns, []; by rewrite app_nil_r|].
  destruct (execute_frame_writes w true out ns Hw) as (w1 & f & Hf & He & Hw1). rewrite Hf. res_simpl.
  destruct (IH n w1 (Z.land (swrap 16 (ns + 1)) 0x7FFF) (out ++ f) Hw1) as (w' & ns' & fs & -> & Hl & Hfs & Hw').
  exists w', ns', (f :: fs). cbn [concat length]. rewrite app_assoc. split; [done|].
  split; [lia|]. split; [by constructor|done].
Qed.

(** The fill phase ends exactly when requests are pipelined.  With a
    pipeline depth of at least one, as many rounds as there are rows are enough
    for the loop to end, and it sends exactly one EXECUTE frame per row, at most
    [pipeline] of them per round; with a depth of zero and a row to fill, no
    number of rounds is enough. *)
Theorem fill_terminates fuel pipeline n w ns : writes w -> n <= fuel ->
  (0 < pipeline -> exists w' rounds,
     Bench.fill fuel pipeline n w ns = Ok (w', (fun r => concat r) <$> rounds) /\
     length (concat rounds) = n /\ Forall is_execute (concat rounds) /\
     Forall (fun r => length r <= pipeline) rounds) /\
  (pipeline = 0 -> 0 < n -> forall fuel', Bench.fill fuel' pipeline n w ns = Panic).
Proof.
  intros Hw Hn. split.
  - intros Hp. revert n w ns Hw Hn. induction fuel as [|fuel IH]; intros n w ns Hw Hn.
    { assert (n = 0) as -> by lia. by exists w, []. }
    destruct n as [|n]; [by exists w, []|]. cbn [Bench.fill].
    destruct (fill_batch_spec pipeline (S n) w ns [] Hw) as (w1 & ns1 & fs & -> & Hl & Hfs & Hw1). res_simpl.
    destruct (IH (S n - length fs) w1 ns1 Hw1) as (w' & rounds & -> & Hr & Hex & Hb); [lia|].
    exists w', (fs :: rounds). split; [done|]. cbn [concat]. rewrite length_app.
    split; [lia|]. split; [by apply Forall_app|]. constructor; [lia|done].
  - intros -> Hpos fuel'. revert w ns Hw. induction fuel' as [|fuel' IH]; intros w ns Hw.
    { destruct n; [lia|done]. }
    destruct n as [|n]; [lia|]. cbn [Bench.fill Bench.fill_batch]. res_simpl. by rewrite IH.
Qed.

(** ** Counting *)

Lemma write_ops_spec n tickets ops : tickets < 64 -> Honest.write_ops n tickets ops = ops + tickets + n.
Proof.
  revert tickets ops. induction n as [|n IH]; intros tickets ops Ht; cbn [Honest.write_ops].
  - destruct (tickets =? 0) eqn:E; reflect_bools; lia.
  - destruct (64 <=? S tickets) eqn:E; reflect_bools; rewrite IH by lia; lia.
Qed.
Lemma read_ops_spec n local ops : local < 1024 -> Honest.read_ops n local ops = ops + local + n.
Proof.
  revert local ops. induction n as [|n IH]; intros local ops Hl.
  { cbn. lia. }
  change (Honest.read_ops (S n) local ops)
    with (if S local mod 1024 =? 0 then Honest.read_ops n 0 (ops + 1024) else Honest.read_ops n (S local) ops).
  destruct (decide (S local = 1024)) as [He|He].
  - rewrite He, Nat.Div0.mod_same. cbn [Nat.eqb]. rewrite IH by lia. lia.
  - rewrite (Nat.mod_small (S local)) by lia. cbn [Nat.eqb]. rewrite IH by lia. lia.
Qed.

Lemma fill_batches_spec keys tickets : concat (Honest.fill_batches keys tickets) = tickets ++ keys.
Proof.
  revert tickets. induction keys as [|k keys IH]; intros tickets; cbn [Honest.fill_batches].
  - cbn. by rewrite !app_nil_r.
  - destruct (1024 <=? _); cbn [concat]; rewrite IH, <-app_assoc; done.
Qed.

(** The storage benchmark counts every operation of a thread exactly once, and
    fills each key from 1 to min(fill, keys) once, in order. *)
Theorem honest_accounting n fill keys :
  Honest.write_ops n 0 0 = n /\ Honest.read_ops n 0 0 = n /\
  concat (Honest.fill fill keys) = seqZ 1 (Z.min fill keys).
Proof.
  rewrite write_ops_spec, read_ops_spec by lia. split; [done|]. split; [done|].
  unfold Honest.fill. by rewrite fill_batches_spec.
Qed.

(** ** Concrete clients *)

Definition demo_workload : Bench.Workload :=
  {| Bench.insert_id := [Byte.x00; Byte.x01]; Bench.select_id := [Byte.x00; Byte.x02];
     Bench.rng := 0x2545F4914F6CDD1D; Bench.value := bs "v"; Bench.mode := Bench.Write; Bench.keys := 100;
     Bench.filled := 10 |}.
Definition demo_ctx : BenchAsync.ConnCtx :=
  {| BenchAsync.insert_id := [Byte.x00; Byte.x01]; BenchAsync.select_id := [Byte.x00; Byte.x02];
     BenchAsync.rng := 0x2545F4914F6CDD1D; BenchAsync.value := bs "v"; BenchAsync.mode := Bench.Write;
     BenchAsync.keys := 100; BenchAsync.filled := 10; BenchAsync.next_stream := 5 |}.

Lemma xorshift_permutes_witness :
  (0 <= Bench.xorshift 1 < 2 ^ 64)%Z /\ Bench.xorshift 1 <> 0%Z /\
  Honest.touched 3 0 10 = Ok [1; 1; 1]%Z.
Proof.
  destruct (xorshift_permutes 1 2 3 10) as (Hr & _ & Hz & Ht); [lia|lia|lia|].
  split; [exact Hr|]. split; [intros Hx; apply Hz in Hx; discriminate Hx|exact Ht].
Defined.

Lemma client_request_read_witness :
  exists w' f body, Bench.execute_frame demo_workload true [] 5 = Ok (w', f) /\
    read_frame (H3 := cql_wire) new_conn (f ++ []) true = InRequest 5 0x0A body [].
Proof.
  destruct (Bench.execute_frame demo_workload true [] 5) as [[w' f]|e|] eqn:Hf;
    [|vm_compute in Hf; discriminate Hf|vm_compute in Hf; discriminate Hf].
  destruct (client_request_read (H0 := cql_wire_laws) demo_workload true [] 5 w' f new_conn [] true Hf)
    as (g & k & body & p & Hg & Hread & _).
  - by_compute.
  - reflexivity.
  - by_compute.
  - by_compute.
  - by_compute.
  - exists w', f, body. split; [reflexivity|]. rewrite Hg. exact Hread.
Defined.

Lemma clients_agree_witness :
  match Bench.execute_frame demo_workload true [] 5, BenchAsync.build_op demo_ctx 0 [] with
  | Ok (_, f), Ok (_, f', ins) => f' = f /\ ins = true
  | _, _ => False
  end.
Proof.
  pose proof (clients_agree demo_ctx demo_workload 0 []) as Ha. cbn [BenchAsync.next_stream demo_ctx] in Ha.
  assert (Hs : same_workload demo_ctx demo_workload) by (repeat split).
  specialize (Ha Hs). change (BenchAsync.is_ins (Bench.mode demo_workload) 0) with true in Ha.
  destruct (Bench.execute_frame demo_workload true [] 5) as [[w f]|e|] eqn:E1;
    [|vm_compute in E1; discriminate E1|vm_compute in E1; discriminate E1].
  destruct (BenchAsync.build_op demo_ctx 0 []) as [[[c f'] ins]|e|]; [|destruct Ha|destruct Ha].
  destruct Ha as (Hf & Hi & _). split; [exact Hf|exact Hi].
Defined.

Lemma fill_terminates_witness :
  exists w' rounds, Bench.fill 5 2 5 demo_workload 0 = Ok (w', (fun r => concat r) <$> rounds) /\
    length (concat rounds) = 5 /\ Bench.fill 9 0 5 demo_workload 0 = Panic.
Proof.
  destruct (fill_terminates 5 2 5 demo_workload 0) as [Hend _]; [split; [reflexivity|by_compute]|lia|].
  destruct (fill_terminates 5 0 5 demo_workload 0) as [_ Hloop]; [split; [reflexivity|by_compute]|lia|].
  destruct Hend as (w' & rounds & Hf & Hl & _); [lia|]. exists w', rounds.
  split; [exact Hf|]. split; [exact Hl|]. apply Hloop; [reflexivity|lia].
Defined.

(** ** The set-up of the storage benchmark *)

Section honest_setup.
Context `{KV} `{Json}.

Definition bench_kv : TableDef :=
  {| td_keyspace := bs "bench"; td_name := bs "kv";
     td_columns := [ {| col_name := bs "id"; col_type := TBigInt; is_partition_key := true; is_clustering := false |};
                     {| col_name := bs "val"; col_type := TText; is_partition_key := false; is_clustering := false |} ];
     td_partition_keys := [bs "id"]; td_clustering_keys := [] |}.

(** [.unwrap()] on a storage result. *)
Definition st_unwrap {A} (m : st Storage str A) : st Storage str A := fun s =>
  match m s with (s', Err _) => (s', Panic) | r => r end.
(** [let _ = ..]: the result is dropped, a panic is not. *)
Definition st_ignore {A} (m : st Storage str A) : st Storage str () := fun s =>
  match m s with (s', Panic) => (s', Panic) | (s', _) => (s', Ok ()) end.

Definition honest_setup : st Storage str () :=
  ks ← st_unwrap (get_keyspace (bs "bench"));
  match ks with
  | None => st_ignore (put_keyspace {| ks_name := bs "bench"; ks_replication := [] |})
  | Some _ => mret ()
  end;;
  tb ← st_unwrap (get_table (bs "bench") (bs "kv"));
  match tb with
  | None => st_ignore (put_table bench_kv)
  | Some _ => mret ()
  end.
(** The row every key is filled with, and one write. *)
Definition honest_row : bytes := encode_row_columns [(1%Z, VText (replicate 64 Byte.x78))].
Definition honest_put (k : Z) : st Storage str WriteTicket := put_row (bs "bench") (bs "kv") [be 8 k] honest_row.
End honest_setup.

Section honest_proofs.
Context `{KVLaws} `{JsonLaws}.

(** The set-up never panics on a working database and leaves keyspace and table
    in place, keeping a table that is already there. *)
Theorem honest_setup_ready s c : represents s c ->
  exists s' c', honest_setup s = (s', Ok ()) /\ represents s' c' /\ is_Some (cat_ks c' !! bs "bench") /\
    cat_tb c' !! (bs "bench", bs "kv") = Some (default bench_kv (cat_tb c !! (bs "bench", bs "kv"))).
Proof.
  intros Hrep. assert (Hn : no_bang (bs "bench")) by by_compute. unfold honest_setup.
  destruct (get_keyspace_refines s c (bs "bench") Hrep Hn) as (s1 & Hg & Hr1).
  rewrite (st_bind_eq _ _ s s1 (cat_ks c !! bs "bench")) by (unfold st_unwrap; by rewrite Hg).
  set (mk := match cat_ks c !! bs "bench" with None => _ | Some _ => _ end).
  assert (exists s2 c2, mk s1 = (s2, Ok ()) /\ represents s2 c2 /\ is_Some (cat_ks c2 !! bs "bench") /\
    cat_tb c2 = cat_tb c) as (s2 & c2 & Hmk & Hr2 & Hks & Htb).
  { unfold mk. destruct (cat_ks c !! bs "bench") as [d|] eqn:Hd; [by exists s1, c; rewrite Hd|].
    destruct (put_keyspace_refines s1 c {| ks_name := bs "bench"; ks_replication := [] |} Hr1 Hn) as (s2 & Hp & Hr2).
    eexists s2, _. split; [unfold st_ignore; by rewrite Hp|]. split; [exact Hr2|]. split; [|done].
    cbn. rewrite lookup_insert_eq. by eexists. }
  rewrite (st_bind_eq _ _ _ _ _ Hmk).
  destruct (get_table_refines s2 c2 (bs "bench") (bs "kv") Hr2 Hn) as (s3 & Hgt & Hr3).
  rewrite (st_bind_eq _ _ s2 s3 (cat_tb c2 !! (bs "bench", bs "kv"))) by (unfold st_unwrap; by rewrite Hgt).
  rewrite Htb. destruct (cat_tb c !! (bs "bench", bs "kv")) as [d|] eqn:Hd; [exists s3, c2; by rewrite Htb, Hd|].
  destruct (put_table_refines s3 c2 bench_kv Hr3 Hn) as (s4 & Hp & Hr4).
  eexists s4, _. split; [unfold st_ignore; by rewrite Hp|]. split; [exact Hr4|]. split; [done|].
  cbn. by rewrite lookup_insert_eq.
Qed.
End honest_proofs.
