(* ===== verification/Load.v ===== *)
(** * The benchmark programs as a whole

    The [main] functions of src/src/bin/bench.rs and src/src/bin/bench_async.rs:
    the set-up of schema and rows over one connection, and the measurement, where
    one thread (task) per connection sends rounds of pipelined requests while the
    main thread sleeps, clears [running], joins them and prints a report.  The
    threads share two counters, the first error and a barrier; every interleaving
    of their steps is a run.  The measurement is modelled once, over the interface
    [LoadClient] of what a thread does on its connection, with both programs as
    instances. *)

From S2P Require Import Prelude RustStr Triple Client Clients.

(** ** The set-up *)

(** [let _ = m]: an error is dropped, a panic is not. *)
Definition ignore {S E A} (m : st S E A) : st S E unit := fun s =>
  match m s with (s', Panic) => (s', Panic) | (s', _) => (s', Ok ()) end.

Definition DROP_BENCH : str := bs "DROP KEYSPACE bench".
Definition CREATE_BENCH : str :=
  bs "CREATE KEYSPACE bench WITH replication = {'class': 'SimpleStrategy', 'replication_factor': 1}".
Definition CREATE_KV : str := bs "CREATE TABLE bench.kv (id bigint PRIMARY KEY, val text)".
Definition INSERT_KV : str := bs "INSERT INTO bench.kv (id, val) VALUES (?, ?)".
Definition SELECT_KV : str := bs "SELECT * FROM bench.kv WHERE id = ?".

(** [for _ in 0..pending]: every answer is read, and an error ends the fill. *)
Fixpoint read_filled (pending : nat) : Bench.M () :=
  match pending with
  | O => mret ()
  | S n =>
    '(op, payload) ← Bench.read_response;
    if (op =? Bench.OPCODE_ERROR)%Z then throw (bs "fill error: " ++ from_utf8_lossy payload) else read_filled n
  end.
(** [while key <= args.fill_keys], [n] rows to go: a buffer is written, then as
    many answers are read. *)
Fixpoint fill_loop (fuel pipeline n : nat) (w : Bench.Workload) (next_stream : Z) : Bench.M () :=
  match n with
  | O => mret ()
  | _ =>
    match fuel with
    | O => lift Panic
    | S f =>
      '(w', ns, out, n') ← lift (Bench.fill_batch pipeline n w next_stream []);
      Bench.write_all out;;
      read_filled (n - n');;
      fill_loop f pipeline n' w' ns
    end
  end.
(** [main] of bench.rs up to the measurement. *)
Definition bench_setup (a : Bench.Args) : Bench.M () :=
  Bench.connect;;
  ignore (Bench.roundtrip_query DROP_BENCH);;
  Bench.roundtrip_query CREATE_BENCH;;
  Bench.roundtrip_query CREATE_KV;;
  if negb (bool_decide (Bench.a_mode a = Bench.Write)) && (0 <? Bench.a_fill_keys a)%Z then
    ins_id ← Bench.prepare INSERT_KV;
    let n := Z.to_nat (Bench.a_fill_keys a) in
    fill_loop n (Z.to_nat (Bench.a_pipeline a)) n
      (Bench.fill_workload ins_id (Z.to_nat (Bench.a_value_len a)) (Bench.a_fill_keys a)) 0
  else mret ().

(** The same in bench_async.rs, whose buffers may be cut short. *)
Fixpoint async_fill_loop (fuel pipeline n : nat) (c : BenchAsync.ConnCtx) : BenchAsync.M () :=
  match n with
  | O => mret ()
  | _ =>
    match fuel with
    | O => lift Panic
    | S f =>
      '(c', out, n') ← lift (BenchAsync.fill_batch pipeline n 0 c []);
      Bench.write_all out;;
      read_filled (n - n');;
      async_fill_loop f pipeline n' c'
    end
  end.
Definition async_fill_ctx (a : Bench.Args) (ins_id : bytes) : BenchAsync.ConnCtx :=
  {| BenchAsync.insert_id := ins_id; BenchAsync.select_id := []; BenchAsync.rng := 0x9E3779B97F4A7C15;
     BenchAsync.value := replicate (Z.to_nat (Bench.a_value_len a)) Byte.x78; BenchAsync.mode := Bench.Write;
     BenchAsync.keys := Z.max (Bench.a_fill_keys a) 1; BenchAsync.filled := 0; BenchAsync.next_stream := 0 |}.
Definition async_setup (a : Bench.Args) : BenchAsync.M () :=
  BenchAsync.startup;;
  BenchAsync.roundtrip_query DROP_BENCH true;;
  BenchAsync.roundtrip_query CREATE_BENCH false;;
  BenchAsync.roundtrip_query CREATE_KV false;;
  if negb (bool_decide (Bench.a_mode a = Bench.Write)) && (0 <? Bench.a_fill_keys a)%Z then
    ins_id ← BenchAsync.prepare_stmt INSERT_KV;
    let n := Z.to_nat (Bench.a_fill_keys a) in
    async_fill_loop n (Z.to_nat (Bench.a_pipeline a)) n (async_fill_ctx a ins_id)
  else mret ().

(** ** The measurement *)

(** What a thread does on its connection: connect and prepare, build and write
    one round of requests, read one response; and the failures the report shows. *)
Class LoadClient := {
  lc_state : Type;
  lc_setup : Bench.Args -> nat -> bytes -> res str lc_state;
  lc_round : Bench.Args -> lc_state -> res str lc_state;
  lc_read : lc_state -> res str (lc_state * (Z * bytes));
  lc_shown : list str -> list str;
}.

(** A connection on which [input] will arrive. *)
Definition fresh_conn (input : bytes) : Bench.Conn :=
  {| Bench.cn_in := input; Bench.cn_out := []; Bench.next_stream := 0 |}.

Definition bench_client : LoadClient := {|
  lc_state := Bench.Conn * Bench.Workload;
  lc_setup a cid input :=
    let '(c, r) := (Bench.connect;;
                    ins_id ← Bench.prepare INSERT_KV;
                    sel_id ← Bench.prepare SELECT_KV;
                    mret (Bench.workload a (Z.of_nat cid) ins_id sel_id)) (fresh_conn input) in
    wl ← r; Ok (c, wl);
  lc_round a cw :=
    let '(c, w) := cw in
    '(w', ns, out) ← Bench.batch (Z.to_nat (Bench.a_pipeline a)) 0 (Bench.a_mode a) w (Bench.next_stream c) [];
    Ok ({| Bench.cn_in := Bench.cn_in c; Bench.cn_out := Bench.cn_out c ++ out; Bench.next_stream := ns |}, w');
  lc_read cw :=
    let '(c', r) := Bench.read_response (fst cw) in
    m ← r; Ok ((c', snd cw), m);
  lc_shown failures := failures;
|}.

(** The tasks of bench_async.rs do not send STARTUP. *)
Definition async_client : LoadClient := {|
  lc_state := Bench.Conn * BenchAsync.ConnCtx;
  lc_setup a cid input :=
    let '(c, r) := (ins_id ← BenchAsync.prepare_stmt INSERT_KV;
                    sel_id ← BenchAsync.prepare_stmt SELECT_KV;
                    mret (BenchAsync.measure_ctx a (Z.of_nat cid) ins_id sel_id)) (fresh_conn input) in
    ctx ← r; Ok (c, ctx);
  lc_round a cc :=
    let '(c, ctx) := cc in
    '(ctx', wb) ← BenchAsync.batch (Z.to_nat (Bench.a_pipeline a)) 0 ctx [];
    Ok ({| Bench.cn_in := Bench.cn_in c; Bench.cn_out := Bench.cn_out c ++ wb;
           Bench.next_stream := Bench.next_stream c |}, ctx');
  lc_read cc :=
    let '(c', r) := BenchAsync.read_response (fst cc) in
    m ← r; Ok ((c', snd cc), m);
  lc_shown failures := take 3 failures;
|}.

Section load.
Context `{LoadClient} (a : Bench.Args).

(** Requests per round. *)
Definition depth : nat := Z.to_nat (Bench.a_pipeline a).

(** Where a thread stands. *)
Inductive Thread :=
| TNew (input : str + bytes)                            (** to connect: an error, or what will arrive *)
| TReady (c : lc_state)                                 (** set up, to call [barrier.wait()] *)
| TWait (c : lc_state)                                  (** in [barrier.wait()] *)
| TTop (c : lc_state)                                   (** at [while running.load()] *)
| TRead (k : nat) (c : lc_state)                        (** [k] answers of the round to read *)
| TNote (payload : bytes) (k : nat) (c : lc_state)      (** counted an error, to lock [first_err] *)
| TDone (r : res str ()).                               (** returned, or panicked *)

Record Report := { rp_ops : Z; rp_errors : Z; rp_first : option str; rp_failures : list str }.

(** Where the main thread stands. *)
Inductive Main :=
| MSleep                                      (** [sleep(dur)] *)
| MJoin (i : nat) (errs : list str)           (** to join handle [i] *)
| MReport (r : Report)                        (** the report is printed *)
| MPanic.                                     (** [join().unwrap()] of a panicked thread *)

(** The shared state.  [ld_log], the responses read so far, and [ld_rounds], the
    rounds completed, only observe. *)
Record Load := {
  ld_running : bool;
  ld_ops : Z;
  ld_err : Z;
  ld_first : option str;
  ld_arrived : nat;
  ld_threads : list Thread;
  ld_main : Main;
  ld_log : list (Z * bytes);
  ld_rounds : nat;
}.

Definition load_init (inputs : list (str + bytes)) : Load :=
  {| ld_running := true; ld_ops := 0; ld_err := 0; ld_first := None; ld_arrived := 0;
     ld_threads := TNew <$> inputs; ld_main := MSleep; ld_log := []; ld_rounds := 0 |}.

Definition set_thread (i : nat) (t : Thread) (s : Load) : Load :=
  {| ld_running := ld_running s; ld_ops := ld_ops s; ld_err := ld_err s; ld_first := ld_first s;
     ld_arrived := ld_arrived s; ld_threads := <[i := t]> (ld_threads s); ld_main := ld_main s;
     ld_log := ld_log s; ld_rounds := ld_rounds s |}.
Definition set_main (m : Main) (s : Load) : Load :=
  {| ld_running := ld_running s; ld_ops := ld_ops s; ld_err := ld_err s; ld_first := ld_first s;
     ld_arrived := ld_arrived s; ld_threads := ld_threads s; ld_main := m;
     ld_log := ld_log s; ld_rounds := ld_rounds s |}.
(** [barrier.wait()] is entered. *)
Definition arrive (s : Load) : Load :=
  {| ld_running := ld_running s; ld_ops := ld_ops s; ld_err := ld_err s; ld_first := ld_first s;
     ld_arrived := S (ld_arrived s); ld_threads := ld_threads s; ld_main := ld_main s;
     ld_log := ld_log s; ld_rounds := ld_rounds s |}.
(** [total_ops.fetch_add(n)] at the end of a round. *)
Definition count_round (s : Load) : Load :=
  {| ld_running := ld_running s; ld_ops := uwrap 64 (ld_ops s + Bench.a_pipeline a); ld_err := ld_err s;
     ld_first := ld_first s; ld_arrived := ld_arrived s; ld_threads := ld_threads s; ld_main := ld_main s;
     ld_log := ld_log s; ld_rounds := S (ld_rounds s) |}.
(** A response was read; [total_err.fetch_add(1)] for an error. *)
Definition count_response (m : Z * bytes) (s : Load) : Load :=
  {| ld_running := ld_running s; ld_ops := ld_ops s;
     ld_err := if (fst m =? Bench.OPCODE_ERROR)%Z then uwrap 64 (ld_err s + 1) else ld_err s;
     ld_first := ld_first s; ld_arrived := ld_arrived s; ld_threads := ld_threads s; ld_main := ld_main s;
     ld_log := ld_log s ++ [m]; ld_rounds := ld_rounds s |}.
(** [if fe.is_none() { *fe = Some(..) }]. *)
Definition note_first (payload : bytes) (s : Load) : Load :=
  {| ld_running := ld_running s; ld_ops := ld_ops s; ld_err := ld_err s;
     ld_first := match ld_first s with None => Some (from_utf8_lossy payload) | fe => fe end;
     ld_arrived := ld_arrived s; ld_threads := ld_threads s; ld_main := ld_main s;
     ld_log := ld_log s; ld_rounds := ld_rounds s |}.
(** [running.store(false)]. *)
Definition stop (s : Load) : Load :=
  {| ld_running := false; ld_ops := ld_ops s; ld_err := ld_err s; ld_first := ld_first s;
     ld_arrived := ld_arrived s; ld_threads := ld_threads s; ld_main := ld_main s;
     ld_log := ld_log s; ld_rounds := ld_rounds s |}.

(** [?], and a panic of the thread. *)
Definition ended {A} (r : res str A) : Thread :=
  TDone (match r with Ok _ => Ok () | Err e => Err e | Panic => Panic end).

(** One step of thread [i], with at most one access to the shared state. *)
Definition measure_step (i : nat) (s : Load) : option Load :=
  t ← ld_threads s !! i;
  match t with
  | TNew (inl e) => Some (set_thread i (TDone (Err e)) s)
  | TNew (inr input) =>
    Some (set_thread i (match lc_setup a i input with Ok c => TReady c | r => ended r end) s)
  | TReady c => Some (set_thread i (TWait c) (arrive s))
  | TWait c => if ld_arrived s =? length (ld_threads s) then Some (set_thread i (TTop c) s) else None
  | TTop c =>
    if ld_running s then
      Some (set_thread i (match lc_round a c with Ok c' => TRead depth c' | r => ended r end) s)
    else Some (set_thread i (TDone (Ok ())) s)
  | TRead O c => Some (set_thread i (TTop c) (count_round s))
  | TRead (S k) c =>
    Some (match lc_read c with
          | Ok (c', m) =>
            set_thread i (if (fst m =? Bench.OPCODE_ERROR)%Z then TNote (snd m) k c' else TRead k c')
              (count_response m s)
          | r => set_thread i (ended r) s
          end)
  | TNote payload k c => Some (set_thread i (TRead k c) (note_first payload s))
  | TDone _ => None
  end.

(** One step of the main thread. *)
Definition main_step (s : Load) : option Load :=
  match ld_main s with
  | MSleep => Some (set_main (MJoin 0 []) (stop s))
  | MJoin i errs =>
    match ld_threads s !! i with
    | Some (TDone (Ok ())) => Some (set_main (MJoin (S i) errs) s)
    | Some (TDone (Err e)) => Some (set_main (MJoin (S i) (errs ++ [e])) s)
    | Some (TDone Panic) => Some (set_main MPanic s)
    | Some _ => None
    | None => Some (set_main (MReport {| rp_ops := ld_ops s; rp_errors := ld_err s; rp_first := ld_first s;
                                         rp_failures := lc_shown errs |}) s)
    end
  | MReport _ | MPanic => None
  end.

Inductive LoadLabel := LThread (i : nat) | LMain.
Definition load_step (l : LoadLabel) (s : Load) : option Load :=
  match l with LThread i => measure_step i s | LMain => main_step s end.
Definition step (s s' : Load) : Prop := exists l, load_step l s = Some s'.

(** How a thread moves, with its effect on the shared state. *)
Inductive move (open running : Prop) (i : nat) : Thread -> (Load -> Load) -> Thread -> Prop :=
| mv_refused e : move open running i (TNew (inl e)) id (TDone (Err e))
| mv_setup b c : lc_setup a i b = Ok c -> move open running i (TNew (inr b)) id (TReady c)
| mv_unset b r : (forall c, lc_setup a i b <> Ok c) -> r <> Ok () -> move open running i (TNew (inr b)) id (TDone r)
| mv_arrive c : move open running i (TReady c) arrive (TWait c)
| mv_pass c : open -> move open running i (TWait c) id (TTop c)
| mv_round c c' : running -> move open running i (TTop c) id (TRead depth c')
| mv_unsent c r : running -> r <> Ok () -> move open running i (TTop c) id (TDone r)
| mv_stopped c : ~ running -> move open running i (TTop c) id (TDone (Ok ()))
| mv_counted c : move open running i (TRead 0 c) count_round (TTop c)
| mv_read m k c c' : fst m <> Bench.OPCODE_ERROR -> move open running i (TRead (S k) c) (count_response m) (TRead k c')
| mv_error p k c c' :
    move open running i (TRead (S k) c) (count_response (Bench.OPCODE_ERROR, p)) (TNote p k c')
| mv_broken k c r : r <> Ok () -> move open running i (TRead (S k) c) id (TDone r)
| mv_noted p k c : move open running i (TNote p k c) (note_first p) (TRead k c).

Lemma ended_bad {A} (r : res str A) : (forall x, r <> Ok x) -> exists r', ended r = TDone r' /\ r' <> Ok ().
Proof. intros Hr. destruct r as [x|e|]; [by destruct (Hr x)|by eexists|by eexists]. Qed.

Lemma measure_step_inv i s s' : measure_step i s = Some s' ->
  exists t f t', ld_threads s !! i = Some t /\ s' = set_thread i t' (f s) /\
    move (ld_arrived s = length (ld_threads s)) (ld_running s = true) i t f t'.
Proof.
  unfold measure_step. intros (t & Ht & Hs)%bind_Some. exists t.
  destruct t as [[e|b]|c|c|c|[|k] c|p k c|r]; cbn in Hs.
  - injection Hs as <-. eexists id, _. repeat split; [done|constructor].
  - injection Hs as <-. eexists id, _. repeat split; [done|].
    destruct (lc_setup a i b) eqn:E; [by constructor|constructor; by rewrite ?E..].
  - injection Hs as <-. eexists arrive, _. repeat split; [done|constructor].
  - case_match eqn:E; [|done]. injection Hs as <-. apply Nat.eqb_eq in E. eexists id, _. repeat split; [done|by constructor].
  - destruct (ld_running s) eqn:E; injection Hs as <-; eexists id, _; (repeat split; [done|]).
    + destruct (lc_round a c); by constructor.
    + by constructor.
  - injection Hs as <-. eexists count_round, _. repeat split; [done|constructor].
  - injection Hs as <-. destruct (lc_read c) as [[c' [op p]]|e|]; [|eexists id, _; repeat split; [done|by constructor]..].
    eexists (count_response (op, p)), _. repeat split; [done|]. cbn. case_match eqn:E.
    + apply Z.eqb_eq in E as ->. constructor.
    + constructor. by apply Z.eqb_neq.
  - injection Hs as <-. eexists (note_first p), _. repeat split; [done|constructor].
  - done.
Qed.

(** Only the thread itself moves, and only the main thread changes [running]. *)
Lemma move_same open running i t f t' s : move open running i t f t' ->
  ld_threads (f s) = ld_threads s /\ ld_main (f s) = ld_main s /\ ld_running (f s) = ld_running s /\
  ld_arrived (f s) = ld_arrived s + (match t with TReady _ => 1 | _ => 0 end).
Proof. intros Hm. destruct Hm; cbn; repeat split; lia. Qed.

(** ** The main thread *)

Definition returned (t : Thread) : Prop := exists r, t = TDone r /\ r <> Panic.
Definition failure (t : Thread) : option str := match t with TDone (Err e) => Some e | _ => None end.
Definition report (s : Load) : Report :=
  {| rp_ops := ld_ops s; rp_errors := ld_err s; rp_first := ld_first s;
     rp_failures := lc_shown (omap failure (ld_threads s)) |}.

(** The handles joined so far, and what was collected from them. *)
Definition joined (s : Load) : Prop :=
  match ld_main s with
  | MSleep => ld_running s = true
  | MJoin k errs =>
    ld_running s = false /\ Forall returned (take k (ld_threads s)) /\ errs = omap failure (take k (ld_threads s))
  | MReport r => ld_running s = false /\ Forall returned (ld_threads s) /\ r = report s
  | MPanic => ld_running s = false
  end.

Lemma move_not_done open running i t f t' : move open running i t f t' -> ~ returned t.
Proof. intros Hm (r & -> & _). inversion Hm. Qed.

Lemma measure_joined i s s' : joined s -> measure_step i s = Some s' -> joined s'.
Proof.
  intros Hj (t & f & t' & Ht & -> & Hm)%measure_step_inv.
  destruct (move_same _ _ _ _ _ _ s Hm) as (Hth & Hma & Hr & _).
  unfold joined in *. cbn [set_thread ld_main ld_running ld_threads]. rewrite Hma, Hr, Hth.
  assert (Hout : forall k, Forall returned (take k (ld_threads s)) ->
    take k (<[i := t']> (ld_threads s)) = take k (ld_threads s)).
  { intros k Hk. apply take_insert_ge. destruct (decide (k <= i)) as [|Hlt]; [done|].
    destruct (move_not_done _ _ _ _ _ _ Hm). apply (Forall_lookup_1 _ _ i t Hk).
    rewrite lookup_take_lt by lia. done. }
  destruct (ld_main s) as [|k errs|r|]; [done| |..|done].
  - destruct Hj as (? & Hk & ->). by rewrite Hout.
  - destruct Hj as (_ & Hall & _). destruct (move_not_done _ _ _ _ _ _ Hm). by eapply Forall_lookup_1.
Qed.

Lemma main_joined s s' : joined s -> main_step s = Some s' -> joined s'.
Proof.
  unfold joined, main_step. intros Hj Hs. destruct (ld_main s) as [|k errs|r|]; [by injection Hs as <-| |done|done].
  destruct Hj as (Hr & Hk & ->). destruct (ld_threads s !! k) as [t|] eqn:Ht.
  - assert (Hsnoc : forall r, t = TDone r -> r <> Panic ->
      Forall returned (take (S k) (ld_threads s)) /\
      omap failure (take (S k) (ld_threads s)) = omap failure (take k (ld_threads s)) ++ omap failure [t]).
    { intros r -> Hrp. rewrite (take_S_r _ _ _ Ht), omap_app. split; [|done]. apply Forall_app. split; [done|].
      repeat constructor. by exists r. }
    destruct t as [| | | | | |[[]|e|]]; try done; injection Hs as <-; cbn.
    + destruct (Hsnoc (Ok ()) eq_refl ltac:(done)) as [? ->]. by rewrite app_nil_r.
    + by destruct (Hsnoc (Err e) eq_refl ltac:(done)) as [? ->].
    + done.
  - injection Hs as <-. cbn. apply lookup_ge_None in Ht. rewrite take_ge in Hk |- * by done. by unfold report.
Qed.

(** ** Work left *)

(** Steps a thread still takes once [running] is cleared, and those of [main]. *)
Definition turns (t : Thread) : nat :=
  match t with
  | TNew _ => 4 | TReady _ => 3 | TWait _ => 2 | TTop _ => 1 | TRead k _ => 2 * k + 2 | TNote _ k _ => 2 * k + 3
  | TDone _ => 0
  end.
Definition joins (s : Load) : nat :=
  match ld_main s with MSleep => 2 | MJoin k _ => S (length (ld_threads s) - k) | _ => 0 end.
Definition load_work (s : Load) : nat := joins s + sum_list_with turns (ld_threads s).

Lemma step_work s s' : ld_main s <> MSleep -> joined s -> step s s' -> load_work s' < load_work s.
Proof.
  intros Hm Hj [[i|] Hs]; unfold load_work, joins.
  - apply measure_step_inv in Hs as (t & f & t' & Ht & -> & Hmv). cbn [set_thread ld_main ld_threads].
    destruct (move_same _ _ _ _ _ _ s Hmv) as (-> & -> & _). rewrite length_insert.
    pose proof (sum_list_insert turns _ _ _ t' Ht) as Hsum.
    assert (Hrun : ld_running s = false) by (unfold joined in Hj; destruct (ld_main s); [done|apply Hj..|done]).
    assert (turns t' < turns t); [|lia]. destruct Hmv; cbn; (lia || by rewrite Hrun in *).
  - cbn in Hs. unfold main_step in Hs. destruct (ld_main s) as [|k errs|r|]; try done.
    destruct (ld_threads s !! k) as [t|] eqn:Ht; [|injection Hs as <-; cbn; lia].
    apply lookup_lt_Some in Ht. destruct t as [| | | | | |[[]|e|]]; try done; injection Hs as <-; cbn; lia.
Qed.

Lemma awake s s' : ld_main s <> MSleep -> step s s' -> ld_main s' <> MSleep.
Proof.
  intros Hm [[i|] Hs].
  - apply measure_step_inv in Hs as (t & f & t' & _ & -> & Hmv). cbn.
    by destruct (move_same _ _ _ _ _ _ s Hmv) as (_ & -> & _).
  - cbn in Hs. unfold main_step in Hs. destruct (ld_main s); repeat case_match; try done; by injection Hs as <-.
Qed.

(** ** The barrier *)

(** The set-up of connection [i] succeeds. *)
Definition ready (inputs : list (str + bytes)) (i : nat) : bool :=
  match inputs !! i with
  | Some (inr b) => match lc_setup a i b with Ok _ => true | _ => false end
  | _ => false
  end.
(** All connections are set up, or none is. *)
Definition uniform (inputs : list (str + bytes)) : bool :=
  forallb (ready inputs) (seq 0 (length inputs)) || forallb (negb ∘ ready inputs) (seq 0 (length inputs)).

Section barrier.
Context (inputs : list (str + bytes)).

Definition waiting (t : Thread) : nat := match t with TWait _ => 1 | _ => 0 end.
(** Everyone has reached the barrier. *)
Definition full (s : Load) : Prop := ld_arrived s = length (ld_threads s).

(** What a thread's place says of the barrier and of its set-up. *)
Definition placed (open : Prop) (i : nat) (t : Thread) : Prop :=
  match t with
  | TNew input => ~ open /\ inputs !! i = Some input
  | TReady _ => ~ open /\ ready inputs i = true
  | TWait _ => ready inputs i = true
  | TTop _ | TRead _ _ | TNote _ _ _ => open /\ ready inputs i = true
  | TDone _ => open /\ ready inputs i = true \/ ~ open /\ ready inputs i = false
  end.

Record barred (s : Load) : Prop := {
  bar_length : length (ld_threads s) = length inputs;
  bar_arrived : full s \/ ld_arrived s = sum_list_with waiting (ld_threads s);
  bar_placed i t : ld_threads s !! i = Some t -> placed (full s) i t;
}.

Lemma waiting_full s : sum_list_with waiting (ld_threads s) = length (ld_threads s) ->
  forall i t, ld_threads s !! i = Some t -> exists c, t = TWait c.
Proof.
  generalize (ld_threads s). intros l Hl. assert (Hb : forall l, sum_list_with waiting l <= length l).
  { clear. intros l. induction l as [|[] l IH]; cbn; lia. }
  induction l as [|u l IH]; intros i t Ht; [done|]. cbn in Hl. pose proof (Hb l).
  assert (Hu : waiting u <= 1) by (destruct u; cbn; lia).
  destruct i as [|i]; [injection Ht as ->; destruct t; cbn in Hl; (try lia); by eexists|].
  apply (IH ltac:(lia) i t Ht).
Qed.

Lemma init_barred : barred (load_init inputs).
Proof.
  split; cbn.
  - apply length_fmap.
  - right. clear. by induction inputs.
  - intros i t Ht. rewrite list_lookup_fmap in Ht. destruct (inputs !! i) as [inp|] eqn:E; [|done].
    injection Ht as <-. split; [|done]. intros Hf. unfold full in Hf. cbn in Hf. rewrite length_fmap in Hf.
    apply lookup_lt_Some in E. lia.
Qed.

(** A thread's own move keeps its place true. *)
Lemma move_placed open running i t f t' : placed open i t -> move open running i t f t' ->
  (forall c, t <> TReady c) -> placed open i t'.
Proof.
  intros Hp Hm Hr. destruct Hm; cbn in *; try done; try (by destruct (Hr c)); try (left; by destruct Hp).
  - right. split; [apply Hp|]. unfold ready. by rewrite (proj2 Hp).
  - split; [apply Hp|]. unfold ready. rewrite (proj2 Hp). by case_match.
  - right. split; [apply Hp|]. unfold ready. rewrite (proj2 Hp).
    destruct (lc_setup a i b) eqn:E; [by destruct (H0 a0)|done|done].
Qed.

Lemma placed_iff (P Q : Prop) i t : (P <-> Q) -> placed P i t -> placed Q i t.
Proof. intros HPQ. destruct t; cbn; tauto. Qed.

(** The last thread to arrive opens the barrier. *)
Lemma arrive_barred i c s s' : barred s -> ld_threads s !! i = Some (TReady c) ->
  ld_threads s' = <[i := TWait c]> (ld_threads s) -> ld_arrived s' = ld_arrived s + 1 -> barred s'.
Proof.
  intros [Hl Ha Hp] Ht Hth Har. destruct (Hp _ _ Ht) as [Hopen Hi].
  assert (Hsum : ld_arrived s' = sum_list_with waiting (ld_threads s')).
  { destruct Ha as [?|Ha]; [done|]. rewrite Hth, Har, Ha.
    pose proof (sum_list_insert waiting _ _ _ (TWait c) Ht) as Hs. cbn in Hs. lia. }
  assert (Hother : forall j t, j <> i -> ld_threads s' !! j = Some t -> ld_threads s !! j = Some t).
  { intros j t Hji. by rewrite Hth, list_lookup_insert_ne. }
  split; [by rewrite Hth, length_insert|by right|]. intros j t Hj.
  destruct (decide (full s')) as [Hf|Hf].
  - unfold full in Hf. rewrite Hsum in Hf. destruct (waiting_full s' Hf j t Hj) as [c' ->]. cbn.
    destruct (decide (j = i)) as [->|Hji]; [done|]. exact (Hp _ _ (Hother _ _ Hji Hj)).
  - destruct (decide (j = i)) as [->|Hji].
    + rewrite Hth, list_lookup_insert_eq in Hj by (by eapply lookup_lt_Some). by injection Hj as <-.
    + apply (placed_iff (full s)); [tauto|]. by apply Hp, Hother.
Qed.

Lemma measure_barred i s s' : barred s -> measure_step i s = Some s' -> barred s'.
Proof.
  intros Hb (t & f & t' & Ht & -> & Hm)%measure_step_inv.
  destruct (move_same _ _ _ _ _ _ s Hm) as (Hth & _ & _ & Har).
  set (s' := set_thread i t' (f s)). assert (Hth' : ld_threads s' = <[i := t']> (ld_threads s)) by (cbn; by rewrite Hth).
  change (ld_arrived s' = ld_arrived s + (match t with TReady _ => 1 | _ => 0 end)) in Har. clearbody s'. clear Hth.
  rename Hth' into Hth.
  assert ((exists c, t = TReady c) \/ (forall c, t <> TReady c)) as [[c ->]|Hr]
    by (destruct t; (try by right); left; by eexists).
  { inversion Hm; subst. by eapply arrive_barred. }
  assert (Har' : ld_arrived s' = ld_arrived s) by (rewrite Har; destruct t; try lia; by destruct (Hr c)).
  destruct Hb as [Hl Ha Hp].
  assert (Hfull : full s <-> full s') by (unfold full; by rewrite Har', Hth, length_insert).
  split; [by rewrite Hth, length_insert|..].
  - destruct Ha as [Hf|Ha]; [left; by apply Hfull|]. destruct (decide (full s)) as [Hf|Hf]; [left; by apply Hfull|].
    right. rewrite Har', Hth, Ha. pose proof (sum_list_insert waiting _ _ _ t' Ht) as Hs.
    assert (waiting t' = waiting t); [|lia]. destruct Hm; cbn; try done. by destruct (Hr c).
  - intros j u Hj. apply (placed_iff _ _ _ _ Hfull). rewrite Hth in Hj.
    destruct (decide (j = i)) as [->|Hji].
    + rewrite list_lookup_insert_eq in Hj by (by eapply lookup_lt_Some). injection Hj as <-.
      eapply move_placed; [by apply Hp|done|done].
    + rewrite list_lookup_insert_ne in Hj by done. by apply Hp.
Qed.

Lemma main_barred s s' : barred s -> main_step s = Some s' -> barred s'.
Proof.
  intros [Hl Ha Hp] Hs. assert (ld_threads s' = ld_threads s /\ ld_arrived s' = ld_arrived s) as [Ht Har].
  { unfold main_step in Hs. destruct (ld_main s); repeat case_match; try done; by injection Hs as <-. }
  split; unfold full in *; rewrite Ht, ?Har; done.
Qed.

Lemma reach_ok s : rtc step (load_init inputs) s -> barred s /\ joined s.
Proof.
  remember (load_init inputs) as s0 eqn:Hs0.
  assert (H0 : barred s0 /\ joined s0) by (subst; split; [apply init_barred|done]).
  intros Hr. clear Hs0. induction Hr as [|s1 s2 s3 [[i|] Hs] _ IH]; [done|..]; apply IH; destruct H0.
  - split; [by eapply measure_barred|by eapply measure_joined].
  - split; [by eapply main_barred|by eapply main_joined].
Qed.

Lemma ready_all : forallb (ready inputs) (seq 0 (length inputs)) = true ->
  forall i, i < length inputs -> ready inputs i = true.
Proof. intros Hf i Hi. rewrite forallb_forall in Hf. apply Hf, in_seq. lia. Qed.
Lemma ready_none : forallb (negb ∘ ready inputs) (seq 0 (length inputs)) = true ->
  forall i, i < length inputs -> ready inputs i = false.
Proof. intros Hf i Hi. rewrite forallb_forall in Hf. apply negb_true_iff, Hf, in_seq. lia. Qed.

(** A thread that cannot move is done or waits for others. *)
Lemma stuck_thread i s t : ld_threads s !! i = Some t -> measure_step i s = None ->
  (exists r, t = TDone r) \/ (exists c, t = TWait c) /\ ~ full s.
Proof.
  unfold measure_step, full. intros Ht. rewrite Ht. cbn.
  destruct t as [[]| | | |[]| |]; cbn; try done; [|case_match; done|by left; eexists].
  destruct (ld_arrived s =? _) eqn:E; [done|]. right. split; [by eexists|]. by apply Nat.eqb_neq.
Qed.

(** With all set up or none, a state in which nothing can move is final. *)
Lemma rest_finished s : uniform inputs = true -> barred s -> nf step s ->
  exists r, ld_main s = MReport r \/ ld_main s = MPanic.
Proof.
  intros Hu [Hl Ha Hp] Hnf. assert (Hstuck : forall l, load_step l s = None).
  { intros l. destruct (load_step l s) as [s'|] eqn:E; [|done]. destruct Hnf. exists s'. by exists l. }
  pose proof (Hstuck LMain) as Hmain. cbn in Hmain. unfold main_step in Hmain.
  destruct (ld_main s) as [|k errs|r|]; [done| |by exists r; left|by exists (report s); right].
  destruct (ld_threads s !! k) as [t|] eqn:Ht; [|done].
  destruct (stuck_thread k s t Ht (Hstuck (LThread k))) as [[[[]|e|] ->]|[[c ->] Hf]]; [done..|].
  pose proof (Hp _ _ Ht) as Hk. cbn in Hk. apply lookup_lt_Some in Ht as Hlt.
  assert (Hall : forall i, i < length inputs -> ready inputs i = true).
  { apply orb_true_iff in Hu as [Hu|Hu]; [by apply ready_all|].
    rewrite (ready_none Hu k) in Hk by lia. done. }
  destruct Ha as [?|Ha]; [done|].
  assert (Hw : Forall (fun t => exists c, t = TWait c) (ld_threads s)).
  { apply Forall_lookup. intros i u Hi. apply lookup_lt_Some in Hi as Hil.
    destruct (stuck_thread i s u Hi (Hstuck (LThread i))) as [[r ->]|[Hw _]]; [|done].
    destruct (Hp _ _ Hi) as [[? _]|[_ Hr]]; [done|]. rewrite Hall in Hr by lia. done. }
  destruct Hf. unfold full. rewrite Ha. clear -Hw. induction Hw as [|u l [c ->] _ IH]; cbn; lia.
Qed.

(** With some set up and some not, nobody gets past the barrier. *)
Lemma mixed_waits s : uniform inputs = false -> barred s ->
  exists i t, ld_threads s !! i = Some t /\ ~ returned t.
Proof.
  intros Hu [Hl Ha Hp]. apply orb_false_iff in Hu as [Hsome Hnone].
  assert (Hex : forall f, forallb f (seq 0 (length inputs)) = false -> exists i, i < length inputs /\ f i = false).
  { intros f Hf. apply not_true_iff_false in Hf. rewrite forallb_forall in Hf.
    destruct (decide (Exists (fun i => f i = false) (seq 0 (length inputs)))) as [He|He].
    - apply Exists_exists in He as (i & Hi & Hfi). exists i. apply elem_of_seq in Hi. split; [lia|done].
    - destruct Hf. intros i Hi. apply not_false_iff_true. intros Hfi. apply He, Exists_exists. exists i.
      split; [by apply list_elem_of_In|done]. }
  destruct (Hex _ Hsome) as (j & Hj & Hrj). destruct (Hex _ Hnone) as (i & Hi & Hri). cbn in Hri.
  apply negb_false_iff in Hri. destruct (lookup_lt_is_Some_2 (ld_threads s) i) as [t Ht]; [lia|].
  destruct (lookup_lt_is_Some_2 (ld_threads s) j) as [u Hu]; [lia|].
  assert (Hshut : ~ full s).
  { intros Hf. pose proof (Hp _ _ Hu) as Hpu. rewrite <-not_true_iff_false in Hrj.
    destruct u; cbn in Hpu; tauto. }
  exists i, t. split; [done|]. intros (r & -> & _). pose proof (Hp _ _ Ht) as Hpt. cbn in Hpt.
  rewrite <-not_true_iff_false in Hpt. tauto.
Qed.
End barrier.

(** C34: the benchmark returns exactly when its connections agree.  If every
    connection can be set up - connected, and both statements prepared - or none
    can, then once the time is over the program takes at most [load_work] more
    steps in any interleaving, and it can only rest when the main thread has
    printed its report (or panicked on a panicked thread).  If some can and some
    cannot, then in no interleaving does the main thread ever get to its report:
    the threads that were set up wait at the barrier for those that returned. *)
Theorem bench_returns_iff inputs :
  (uniform inputs = true -> forall s, rtc step (load_init inputs) s -> ld_main s <> MSleep ->
     (forall n s', nsteps step n s s' -> n <= load_work s) /\
     (forall s', rtc step s s' -> nf step s' -> exists r, ld_main s' = MReport r \/ ld_main s' = MPanic)) /\
  (uniform inputs = false -> forall s r, rtc step (load_init inputs) s -> ld_main s <> MReport r).
Proof.
  split.
  - intros Hu s Hr Hm. split.
    + intros n s' Hn. destruct (reach_ok inputs s Hr) as [_ Hj]. induction Hn as [|n s s1 s2 Hs Hn IH]; [lia|].
      pose proof (step_work _ _ Hm Hj Hs) as Hw. assert (Hr1 : rtc step (load_init inputs) s1) by (by eapply rtc_r).
      destruct (reach_ok inputs s1 Hr1) as [_ Hj1]. assert (Hm1 : ld_main s1 <> MSleep) by (by eapply awake).
      specialize (IH Hr1 Hm1 Hj1). lia.
    + intros s' Hr' Hnf. eapply rest_finished; [done| |done]. apply (reach_ok inputs). by etrans.
  - intros Hu s r Hr Hm. destruct (reach_ok inputs s Hr) as [Hb Hj].
    destruct (mixed_waits inputs s Hu Hb) as (i & t & Ht & Hn). unfold joined in Hj. rewrite Hm in Hj.
    destruct Hn. eapply Forall_lookup_1; [apply Hj|done].
Qed.

(** ** Accounting *)

Definition is_error (m : Z * bytes) : Prop := fst m = Bench.OPCODE_ERROR.
#[local] Instance is_error_dec m : Decision (is_error m).
Proof. unfold is_error. apply _. Defined.
(** The error responses among those read. *)
Definition errors (log : list (Z * bytes)) : list (Z * bytes) := filter is_error log.

(** Responses of the round in progress that were read. *)
Definition partial (t : Thread) : nat := match t with TRead k _ | TNote _ k _ => depth - k | _ => 0 end.
Definition within (t : Thread) : Prop := match t with TRead k _ | TNote _ k _ => k <= depth | _ => True end.
Definition noting (t : Thread) : Prop := exists p k c, t = TNote p k c.
(** Not cut off in the middle of a round. *)
Definition healthy (t : Thread) : Prop := forall r, t = TDone r -> r = Ok ().

Record counts (s : Load) : Prop := {
  cnt_ops : ld_ops s = uwrap 64 (Bench.a_pipeline a * Z.of_nat (ld_rounds s));
  cnt_err : ld_err s = uwrap 64 (Z.of_nat (length (errors (ld_log s))));
  cnt_within : Forall within (ld_threads s);
  cnt_log : depth * ld_rounds s + sum_list_with partial (ld_threads s) <= length (ld_log s);
  cnt_healthy : Forall healthy (ld_threads s) ->
    length (ld_log s) = depth * ld_rounds s + sum_list_with partial (ld_threads s);
}.

Lemma uwrap_add x y : uwrap 64 (uwrap 64 x + y) = uwrap 64 (x + y).
Proof. unfold uwrap. by rewrite Zplus_mod_idemp_l. Qed.

Lemma errors_snoc log m : errors (log ++ [m]) = errors log ++ (if decide (is_error m) then [m] else []).
Proof. unfold errors. rewrite filter_app. cbn. by destruct (decide (is_error m)). Qed.

(** What a move does to the counters. *)
Lemma move_counts open running i t f t' s : move open running i t f t' -> counts s -> within t ->
  ld_ops (f s) = uwrap 64 (Bench.a_pipeline a * Z.of_nat (ld_rounds (f s))) /\
  ld_err (f s) = uwrap 64 (Z.of_nat (length (errors (ld_log (f s))))) /\ within t' /\
  (depth * ld_rounds (f s) + partial t') + length (ld_log s)
    <= (depth * ld_rounds s + partial t) + length (ld_log (f s)) /\
  (healthy t' -> (depth * ld_rounds (f s) + partial t') + length (ld_log s)
    = (depth * ld_rounds s + partial t) + length (ld_log (f s))).
Proof.
  intros Hm [Ho He _ _ _] Hw.
  assert (Hbad : forall r, r <> Ok () -> healthy (TDone r) -> False) by (intros r Hr Hh; by destruct (Hr (Hh r eq_refl))).
  destruct Hm; cbn in *; rewrite ?length_app; cbn;
    (split_and!; [done || (rewrite Ho, uwrap_add; f_equal; lia)
      |try done|try done; lia|try lia|try lia; intros; exfalso; eauto]).
  - rewrite (proj2 (Z.eqb_neq _ _)), errors_snoc, decide_False, app_nil_r by done. done.
  - rewrite errors_snoc, decide_True, length_app by done. cbn. rewrite He, uwrap_add. f_equal. lia.
Qed.

Lemma measure_counts i s s' : counts s -> measure_step i s = Some s' -> counts s'.
Proof.
  intros Hc (t & f & t' & Ht & -> & Hm)%measure_step_inv.
  destruct (move_same _ _ _ _ _ _ s Hm) as (Hth & _). pose proof Hc as [_ _ Hw Hl Hh].
  destruct (move_counts _ _ _ _ _ _ s Hm Hc (Forall_lookup_1 _ _ _ _ Hw Ht)) as (Ho & He & Hw' & Hle & Heq).
  pose proof (sum_list_insert partial _ _ _ t' Ht) as Hsum. apply lookup_lt_Some in Ht as Hlt.
  split; cbn [set_thread ld_ops ld_err ld_threads ld_log ld_rounds]; rewrite ?Hth.
  - done.
  - done.
  - by apply Forall_insert.
  - lia.
  - intros Hall. assert (Ht' : healthy t').
    { apply (Forall_lookup_1 _ _ i _ Hall). by apply list_lookup_insert_eq. }
    assert (Hold : Forall healthy (ld_threads s)).
    { apply Forall_lookup. intros j u Hj. destruct (decide (j = i)) as [->|Hji].
      - rewrite Ht in Hj. injection Hj as <-. intros r ->. inversion Hm.
      - apply (Forall_lookup_1 _ _ j _ Hall). by rewrite list_lookup_insert_ne. }
    specialize (Heq Ht'). specialize (Hh Hold). lia.
Qed.

(** The first error is noted, or about to be. *)
Record noted (s : Load) : Prop := {
  nt_first : match ld_first s with
             | Some e => exists p, (Bench.OPCODE_ERROR, p) ∈ ld_log s /\ e = from_utf8_lossy p
             | None => errors (ld_log s) = [] \/ Exists noting (ld_threads s)
             end;
  nt_log p k c : TNote p k c ∈ ld_threads s -> (Bench.OPCODE_ERROR, p) ∈ ld_log s;
}.

Lemma noting_insert l i t t' : l !! i = Some t -> ~ noting t -> Exists noting l -> Exists noting (<[i := t']> l).
Proof.
  intros Ht Hn (u & Hu & Hnu)%Exists_exists. apply list_elem_of_lookup in Hu as [j Hj].
  apply Exists_exists. exists u. split; [|done]. apply list_elem_of_lookup. exists j.
  rewrite list_lookup_insert_ne; [done|]. intros ->. rewrite Ht in Hj. by injection Hj as ->.
Qed.

Lemma measure_noted i s s' : noted s -> measure_step i s = Some s' -> noted s'.
Proof.
  intros [Hf Hl] (t & f & t' & Ht & -> & Hm)%measure_step_inv.
  destruct (move_same _ _ _ _ _ _ s Hm) as (Hth & _). apply lookup_lt_Some in Ht as Hlt.
  assert (Hlog : forall m, m ∈ ld_log s -> m ∈ ld_log (f s)).
  { intros m Hin. destruct Hm; cbn; rewrite ?elem_of_app; by (done || left). }
  split; cbn [set_thread ld_first ld_log ld_threads]; rewrite ?Hth.
  - destruct (ld_first s) as [e|] eqn:E.
    { assert (ld_first (f s) = Some e) as -> by (destruct Hm; cbn; by rewrite E).
      destruct Hf as (p & Hp & ->). exists p. by split; [apply Hlog|]. }
    assert (Hkeep : ~ noting t -> errors (ld_log (f s)) = errors (ld_log s) ->
      errors (ld_log (f s)) = [] \/ Exists noting (<[i := t']> (ld_threads s))).
    { intros Hn ->. destruct Hf as [Hf|Hf]; [by left|right]. by eapply noting_insert. }
    destruct Hm; cbn in *; rewrite E; try (apply Hkeep; [by intros (? & ? & ? & [=])|done]).
    + apply Hkeep; [by intros (? & ? & ? & [=])|]. by rewrite errors_snoc, decide_False, app_nil_r.
    + right. apply Exists_exists. eexists (TNote p k c'). split; [|by eexists _, _, _].
      apply list_elem_of_lookup. exists i. by apply list_lookup_insert_eq.
    + exists p. split; [|done]. eapply Hl. by eapply list_elem_of_lookup_2.
  - intros p k c [j Hj]%list_elem_of_lookup. destruct (decide (j = i)) as [->|Hji].
    + rewrite list_lookup_insert_eq in Hj by done. injection Hj as ->. inversion Hm; subst; cbn.
      apply elem_of_app. right. by left.
    + rewrite list_lookup_insert_ne in Hj by done. eapply Hlog, Hl. by eapply list_elem_of_lookup_2.
Qed.

(** The main thread touches none of this. *)
Lemma main_step_same s s' : main_step s = Some s' ->
  ld_threads s' = ld_threads s /\ ld_ops s' = ld_ops s /\ ld_err s' = ld_err s /\ ld_first s' = ld_first s /\
  ld_log s' = ld_log s /\ ld_rounds s' = ld_rounds s.
Proof.
  intros Hs. unfold main_step in Hs. destruct (ld_main s); repeat case_match; try done; by injection Hs as <-.
Qed.

Lemma init_counts inputs : counts (load_init inputs) /\ noted (load_init inputs).
Proof.
  assert (Hall : forall P : Thread -> Prop, (forall inp, P (TNew inp)) -> Forall P (TNew <$> inputs))
    by (intros P HP; apply Forall_fmap, Forall_forall; intros inp _; apply HP).
  assert (Hsum : sum_list_with partial (TNew <$> inputs) = 0) by (clear; by induction inputs).
  split; split; cbn; rewrite ?Hsum, ?Nat.mul_0_r, ?Z.mul_0_r; try done; [|by left|].
  - by apply Hall.
  - intros p k c Hin. apply list_elem_of_fmap in Hin as (inp & [=] & _).
Qed.

Lemma reach_counts inputs s : rtc step (load_init inputs) s -> counts s /\ noted s.
Proof.
  remember (load_init inputs) as s0 eqn:Hs0. pose proof (init_counts inputs) as H0. rewrite <-Hs0 in H0.
  intros Hr. clear Hs0. induction Hr as [|s1 s2 s3 [[i|] Hs] _ IH]; [done|..]; apply IH; destruct H0 as [Hc Hn].
  - split; [by eapply measure_counts|by eapply measure_noted].
  - destruct (main_step_same _ _ Hs) as (Ht & Ho & He & Hf & Hl & Hr).
    destruct Hc, Hn. split; split; rewrite ?Ht, ?Ho, ?He, ?Hf, ?Hl, ?Hr; done.
Qed.
End load.

(** The report shows a failure when there is one. *)
Class LoadLaws `{LoadClient} : Prop := lc_shown_nil l : lc_shown l = [] -> l = [].
#[global] Instance bench_laws : LoadLaws (H := bench_client).
Proof. intros l Hl. exact Hl. Qed.
#[global] Instance async_laws : LoadLaws (H := async_client).
Proof. by intros [|e l]. Qed.

Section reports.
Context `{LoadLaws} (a : Bench.Args).

(** C35: the report is exact.  Whatever the interleaving: [ops] is the pipeline
    depth times the rounds that were completed, modulo 2^64, which is never more
    than the responses read, and exactly the responses read when no connection
    failed; [errors] is the number of ERROR responses among them; a first error
    is shown exactly when there was one, and is the text of one of them. *)
Theorem report_exact inputs s r :
  rtc (step a) (load_init inputs) s -> ld_main s = MReport r ->
  rp_ops r = uwrap 64 (Bench.a_pipeline a * Z.of_nat (ld_rounds s)) /\
  depth a * ld_rounds s <= length (ld_log s) /\
  (rp_failures r = [] -> length (ld_log s) = depth a * ld_rounds s) /\
  rp_errors r = uwrap 64 (Z.of_nat (length (errors (ld_log s)))) /\
  (rp_first r = None <-> errors (ld_log s) = []) /\
  (forall e, rp_first r = Some e -> exists p, (Bench.OPCODE_ERROR, p) ∈ ld_log s /\ e = from_utf8_lossy p).
Proof.
  intros Hr Hm. destruct (reach_ok a inputs s Hr) as [_ Hj]. destruct (reach_counts a inputs s Hr) as [Hc Hn].
  unfold joined in Hj. rewrite Hm in Hj. destruct Hj as (_ & Hall & ->).
  destruct Hc as [Ho He _ Hl Hh], Hn as [Hf _]. cbn [report rp_ops rp_errors rp_first rp_failures].
  assert (Hdone : forall t, t ∈ ld_threads s -> returned t) by (by rewrite Forall_forall in Hall).
  assert (Hsum : sum_list_with (partial a) (ld_threads s) = 0).
  { clear -Hall. induction Hall as [|t l (r & -> & _) _ IH]; cbn; [done|exact IH]. }
  split; [done|]. split; [lia|]. split; [|split; [done|split]].
  - intros Hfail%lc_shown_nil. rewrite Hh; [lia|]. apply Forall_forall. intros t Ht r ->.
    destruct (Hdone _ Ht) as (r' & [= <-] & Hp). destruct r as [[]|e|]; [done| |done].
    assert (Hin : e ∈ omap failure (ld_threads s)) by (apply list_elem_of_omap; by exists (TDone (Err e))).
    rewrite Hfail in Hin. by apply not_elem_of_nil in Hin.
  - destruct (ld_first s) as [e|].
    + split; [done|]. intros Hnil. destruct Hf as (p & Hp & _).
      assert (Hin : (Bench.OPCODE_ERROR, p) ∈ errors (ld_log s)) by (by apply list_elem_of_filter).
      rewrite Hnil in Hin. by apply not_elem_of_nil in Hin.
    + split; [|done]. intros _. destruct Hf as [Hf|Hf]; [done|]. apply Exists_exists in Hf as (t & Ht & p & k & c & ->).
      by destruct (Hdone _ Ht) as (r & [=] & _).
  - intros e Hfe. by rewrite Hfe in Hf.
Qed.
End reports.

(** ** The two programs *)

(** [main]: the set-up, then the measurement. *)
Definition bench_main (a : Bench.Args) (input : bytes) (inputs : list (str + bytes)) : res str (@Load bench_client) :=
  snd (bench_setup a (fresh_conn input));; Ok (load_init (H := bench_client) inputs).
Definition async_main (a : Bench.Args) (input : bytes) (inputs : list (str + bytes)) : res str (@Load async_client) :=
  snd (async_setup a (fresh_conn input));; Ok (load_init (H := async_client) inputs).
(** The tasks and the main task of bench_async.rs. *)
Definition async_measure_step : Bench.Args -> nat -> @Load async_client -> option (@Load async_client) :=
  measure_step (H := async_client).
Definition async_main_step : @Load async_client -> option (@Load async_client) := main_step (H := async_client).

(** ** The set-up is in lock step *)

(** A frame sent, and a frame received. *)
Definition is_request (f : bytes) : Prop := exists stream op body, f = Bench.frame stream op body [].
Definition is_response (r : bytes) : Prop := 9 <= length r /\ length r = 9 + Z.to_nat (from_be (take 4 (drop 5 r))).

(** From [c0] to [c], [k] requests were written and [k] responses read. *)
Definition exchanged (c0 : Bench.Conn) (k : nat) (c : Bench.Conn) : Prop :=
  exists fs rs, Bench.cn_out c = Bench.cn_out c0 ++ concat fs /\ Bench.cn_in c0 = concat rs ++ Bench.cn_in c /\
    length fs = k /\ length rs = k /\ Forall is_request fs /\ Forall is_response rs.
(** [fs] written but not yet answered. *)
Definition asked (c0 : Bench.Conn) (k n : nat) (c : Bench.Conn) : Prop :=
  exists fs rs, Bench.cn_out c = Bench.cn_out c0 ++ concat fs /\ Bench.cn_in c0 = concat rs ++ Bench.cn_in c /\
    length fs = k + n /\ length rs = k /\ Forall is_request fs /\ Forall is_response rs.
Definition eof (c : Bench.Conn) : Prop := Bench.cn_in c = [].

Lemma asked_0 c0 k c : asked c0 k 0 c <-> exchanged c0 k c.
Proof. unfold asked, exchanged. by setoid_rewrite Nat.add_0_r. Qed.

Lemma write_asked c0 k n gs : Forall is_request gs ->
  triple (asked c0 k n) (Bench.write_all (concat gs)) (fun _ => asked c0 k (n + length gs)) (fun _ => False).
Proof.
  intros Hg c (fs & rs & Ho & Hi & Hf & Hr & Hfs & Hrs). exists (fs ++ gs), rs. cbn.
  rewrite Ho, concat_app, <-app_assoc, length_app, Hf. split_and!; try done; [lia|]. by apply Forall_app.
Qed.

Lemma take_window {A} n k m (l : list A) : n + k <= m -> take k (drop n (take m l)) = take k (drop n l).
Proof. intros Hm. rewrite skipn_firstn_comm, take_take. f_equal. lia. Qed.

Lemma read_response_asked c0 k n :
  triple (asked c0 k (S n)) Bench.read_response (fun _ => asked c0 (S k) n) eof.
Proof.
  intros c (fs & rs & Ho & Hi & Hf & Hr & Hfs & Hrs). unfold Bench.read_response, Bench.read_exact, mbind, st_bind.
  destruct (_ <? 9) eqn:E1; [done|]. reflect_bools. cbn [Bench.cn_in Bench.cn_out].
  set (len := Z.to_nat _). destruct (_ <? len) eqn:E2; [done|]. reflect_bools. rewrite length_drop in E2.
  exists fs, (rs ++ [take (9 + len) (Bench.cn_in c)]). cbn [Bench.cn_in Bench.cn_out mret st_ret].
  rewrite concat_app, length_app, drop_drop. cbn [concat length]. rewrite app_nil_r, <-app_assoc, take_drop.
  split_and!; try done; [lia|lia|]. apply Forall_app. split; [done|]. repeat constructor.
  - rewrite length_take. lia.
  - rewrite length_take, take_window by lia. unfold len. rewrite take_window by lia.
    fold len. replace (Z.to_nat _) with len by (unfold len; by rewrite take_window by lia). lia.
Qed.

(** A request and its answer.  Where the answer does not arrive the stream is at
    its end. *)
Definition exchanges {A} (n : nat) (m : Bench.M A) : Prop :=
  forall c0 k, triple (exchanged c0 k) m (fun _ => exchanged c0 (k + n)) (fun c => exchanged c0 (k + n) c \/ eof c).

Lemma exchange {A} f (cont : Z * bytes -> Bench.M A) :
  is_request f -> (forall m c, fst (cont m c) = c) ->
  exchanges 1 (Bench.write_all f;; m ← Bench.read_response; cont m).
Proof.
  intros Hf Hcont c0 k c Hc. apply asked_0 in Hc.
  pose proof (write_asked c0 k 0 [f] ltac:(by repeat constructor) c Hc) as Hw. cbn [concat length Nat.add] in Hw.
  rewrite app_nil_r in Hw. rewrite (st_bind_eq _ _ c _ () eq_refl). cbn in Hw.
  set (c1 := {| Bench.cn_in := _ |}) in *. pose proof (read_response_asked c0 k 0 c1 Hw) as Hr.
  unfold mbind at 1, st_bind at 1. destruct (Bench.read_response c1) as [c2 [m|e|]]; [|by right|by right].
  specialize (Hcont m c2). destruct (cont m c2) as [c3 r] eqn:E. cbn in Hcont. subst c3.
  apply asked_0 in Hr. rewrite Nat.add_1_r. destruct r; by (done || left).
Qed.

(** At the end of the stream no request is answered. *)
Lemma exchange_eof {A} f (cont : Z * bytes -> Bench.M A) :
  triple eof (Bench.write_all f;; m ← Bench.read_response; cont m) (fun _ _ => False) eof.
Proof.
  intros c Hc. rewrite (st_bind_eq _ _ c _ () eq_refl). unfold eof in Hc. unfold mbind, st_bind, Bench.read_response, Bench.read_exact.
  unfold mbind, st_bind. cbn [Bench.cn_in]. by rewrite Hc.
Qed.

(** If [m] returns, it has made [n] exchanges. *)
Definition runs {A} (n : nat) (m : Bench.M A) : Prop :=
  forall c0 k, triple (exchanged c0 k) m (fun _ => exchanged c0 (k + n)) (fun _ => True).

Lemma runs_assoc {A B C} n (x : Bench.M A) (y : A -> Bench.M B) (z : B -> Bench.M C) :
  runs n ((x ≫= y) ≫= z) -> runs n (x ≫= fun v => y v ≫= z).
Proof. intros Hr c0 k c Hc. specialize (Hr c0 k c Hc). by rewrite st_bind_assoc in Hr. Qed.
Lemma exchanges_runs {A} n (m : Bench.M A) : exchanges n m -> runs n m.
Proof. intros Hm c0 k. by eapply triple_conseq; [apply Hm|..]. Qed.
Lemma runs_bind {A B} n n' (x : Bench.M A) (y : A -> Bench.M B) :
  runs n x -> (forall v, runs n' (y v)) -> runs (n + n') (x ≫= y).
Proof.
  intros Hx Hy c0 k. eapply triple_bind; [apply Hx|]. intros v.
  eapply triple_conseq; [apply (Hy v c0 (k + n))|done| |done]. intros w s. by rewrite Nat.add_assoc.
Qed.
Lemma runs_lift {A} (r : res str A) : runs 0 (lift r).
Proof. intros c0 k c Hc. rewrite Nat.add_0_r. by destruct r. Qed.
Lemma runs_ok {A B} n (v : A) (f : A -> Bench.M B) : runs n (f v) -> runs n (lift (Ok v) ≫= f).
Proof. done. Qed.
Lemma runs_ret {A} (v : A) : runs 0 (mret (M := Bench.M) v).
Proof. apply (runs_lift (Ok v)). Qed.

(** An ignored request, and one that fails at the end of the stream. *)
Lemma ignore_runs {A B} n n' (x : Bench.M A) (y : Bench.M B) :
  exchanges n x -> exchanges n' y -> triple eof y (fun _ _ => False) eof -> runs (n + n') (ignore x;; y).
Proof.
  intros Hx Hy He c0 k c Hc. specialize (Hx c0 k c Hc). unfold ignore, mbind, st_bind.
  destruct (x c) as [c1 [v|e|]]; [| |done].
  - specialize (Hy c0 (k + n) c1 Hx). destruct (y c1) as [c2 [w|e|]]; [|done..]. by rewrite Nat.add_assoc.
  - destruct Hx as [Hx|Hx].
    + specialize (Hy c0 (k + n) c1 Hx). destruct (y c1) as [c2 [w|e'|]]; [|done..]. by rewrite Nat.add_assoc.
    + specialize (He c1 Hx). by destruct (y c1) as [c2 [w|e'|]].
Qed.

(** The stream counter plays no role. *)
Lemma stream_exchanges {A} n (f : Z -> Bench.M A) : (forall s, exchanges n (f s)) -> exchanges n (Bench.take_stream ≫= f).
Proof. intros Hf c0 k c Hc. apply (Hf (Bench.next_stream c) c0 k). exact Hc. Qed.
Lemma stream_eof {A} (f : Z -> Bench.M A) :
  (forall s, triple eof (f s) (fun _ _ => False) eof) -> triple eof (Bench.take_stream ≫= f) (fun _ _ => False) eof.
Proof. intros Hf c Hc. apply (Hf (Bench.next_stream c)). exact Hc. Qed.

Lemma query_exchanges cql : exchanges 1 (Bench.roundtrip_query cql).
Proof. apply stream_exchanges. intros s. apply exchange; [by do 3 eexists|]. intros [op p] c. by case_match. Qed.
Lemma query_eof cql : triple eof (Bench.roundtrip_query cql) (fun _ _ => False) eof.
Proof. apply stream_eof. intros s. apply exchange_eof. Qed.
Lemma prepare_runs cql : runs 1 (Bench.prepare cql).
Proof.
  apply exchanges_runs, stream_exchanges. intros s. apply exchange; [by do 3 eexists|]. intros [op p] c. by case_match.
Qed.
Lemma connect_runs : runs 1 Bench.connect.
Proof.
  intros c0 k c Hc. unfold Bench.connect.
  assert (He : exchanges 1 (Bench.write_all (Bench.frame 0 0x01 (Bench.startup_body []) []);;
    '(op, _) ← Bench.read_response; if (op =? Bench.OPCODE_READY)%Z then mret () else lift Panic)).
  { apply exchange; [by do 3 eexists|]. intros [op p] c1. by case_match. }
  apply exchanges_runs in He. exact (He c0 k {| Bench.cn_in := Bench.cn_in c; Bench.cn_out := Bench.cn_out c; Bench.next_stream := 0 |} Hc).
Qed.

(** The answers to a batch. *)
Lemma read_filled_asked c0 n k : triple (asked c0 k n) (read_filled n) (fun _ => exchanged c0 (k + n)) (fun _ => True).
Proof.
  revert k. induction n as [|n IH]; intros k; cbn [read_filled].
  - intros c Hc. rewrite Nat.add_0_r. by apply asked_0.
  - eapply triple_bind; [eapply triple_conseq; [apply read_response_asked|done|done|done]|].
    intros [op p]. case_match; [done|]. rewrite <-Nat.add_succ_comm. apply IH.
Qed.
Lemma batch_runs gs : Forall is_request gs -> runs (length gs) (Bench.write_all (concat gs);; read_filled (length gs)).
Proof.
  intros Hg c0 k. eapply triple_bind.
  - eapply triple_conseq; [apply (write_asked c0 k 0 gs Hg)|intros c; apply asked_0|done|done].
  - intros u. apply read_filled_asked.
Qed.

Lemma fill_runs fuel pipeline n w ns : writes w -> runs n (fill_loop fuel pipeline n w ns).
Proof.
  revert n w ns. induction fuel as [|fuel IH]; intros n w ns Hw; (destruct n as [|n]; [apply runs_ret|]); [done|].
  cbn [fill_loop]. destruct (fill_batch_spec pipeline (S n) w ns [] Hw) as (w' & ns' & fs & -> & Hl & Hfs & Hw').
  assert (Hreq : Forall is_request fs).
  { eapply Forall_impl; [exact Hfs|]. intros f (s & b & ->). by do 3 eexists. }
  apply runs_ok. cbn [app]. replace (S n - (S n - length fs)) with (length fs) by lia. apply runs_assoc.
  replace (S n) with (length fs + (S n - length fs)) at 1 by lia. apply runs_bind; [by apply batch_runs|].
  intros u. by apply IH.
Qed.

(** The asynchronous client. *)
Definition async_writes (c : BenchAsync.ConnCtx) : Prop := BenchAsync.mode c = Bench.Write /\ (0 < BenchAsync.keys c)%Z.

Lemma async_frame stream op body out : BenchAsync.frame stream op body out = out ++ Bench.frame stream op body [].
Proof. unfold BenchAsync.frame, Bench.frame. by rewrite <-!app_assoc. Qed.
Lemma async_request stream op body : is_request (BenchAsync.frame stream op body []).
Proof. rewrite async_frame. by do 3 eexists. Qed.

Lemma async_batch_spec room n pending c out : async_writes c ->
  exists c' fs, BenchAsync.fill_batch room n pending c out = Ok (c', out ++ concat fs, n - length fs) /\
    length fs <= n /\ Forall is_request fs /\ async_writes c'.
Proof.
  revert n pending c out. induction room as [|room IH]; intros n pending c out Hc; cbn [BenchAsync.fill_batch].
  { exists c, []. rewrite app_nil_r, Nat.sub_0_r. split_and!; try done. cbn. lia. }
  destruct n as [|n]; [exists c, []; by rewrite app_nil_r|].
  assert (exists c1 f, BenchAsync.build_op c pending out = Ok (c1, out ++ f, true) /\ is_request f /\ async_writes c1)
    as (c1 & f & -> & Hf & Hc1).
  { unfold BenchAsync.build_op. rewrite (proj1 Hc), (proj2 (Z.eqb_neq _ _)) by (destruct Hc; lia). cbn [BenchAsync.is_ins].
    eexists _, _. rewrite async_frame. split; [done|]. split; [by do 3 eexists|exact Hc]. }
  res_simpl. case_match.
  - exists c1, [f]. cbn. rewrite app_nil_r, Nat.sub_0_r. split_and!; try done; [lia|by repeat constructor].
  - destruct (IH n (S pending) c1 (out ++ f) Hc1) as (c' & fs & -> & Hl & Hfs & Hc'). exists c', (f :: fs).
    cbn [concat length]. rewrite app_assoc. split_and!; try done; [lia|by constructor].
Qed.

Lemma async_fill_runs fuel pipeline n c : async_writes c -> runs n (async_fill_loop fuel pipeline n c).
Proof.
  revert n c. induction fuel as [|fuel IH]; intros n c Hc; (destruct n as [|n]; [apply runs_ret|]); [done|].
  cbn [async_fill_loop]. destruct (async_batch_spec pipeline (S n) 0 c [] Hc) as (c' & fs & -> & Hl & Hfs & Hc').
  apply runs_ok. cbn [app]. replace (S n - (S n - length fs)) with (length fs) by lia. apply runs_assoc.
  replace (S n) with (length fs + (S n - length fs)) at 1 by lia. apply runs_bind; [by apply batch_runs|].
  intros u. by apply IH.
Qed.

Lemma async_query_runs cql allow : runs 1 (BenchAsync.roundtrip_query cql allow).
Proof. apply exchanges_runs, exchange; [apply async_request|]. intros [op p] c. by case_match. Qed.
Lemma async_startup_runs : runs 1 BenchAsync.startup.
Proof. apply exchanges_runs, exchange; [apply async_request|]. intros [op p] c. by case_match. Qed.
Lemma async_prepare_runs cql : runs 1 (BenchAsync.prepare_stmt cql).
Proof.
  apply exchanges_runs, exchange; [apply async_request|]. intros [op p] c. case_match; [done|].
  unfold lift, mbind, st_bind. destruct (slice p 0 4); [|done..]. case_match; [done|]. by destruct (slice p 4 6).
Qed.

(** Rows the set-up fills. *)
Definition filled_rows (a : Bench.Args) : nat :=
  if negb (bool_decide (Bench.a_mode a = Bench.Write)) && (0 <? Bench.a_fill_keys a)%Z
  then Z.to_nat (Bench.a_fill_keys a) else 0.
(** Requests of the set-up: STARTUP, three statements, and PREPARE with one
    EXECUTE per row. *)
Definition setup_requests (a : Bench.Args) : nat :=
  4 + (if filled_rows a =? 0 then 0 else 1 + filled_rows a).

Lemma bench_setup_runs a : runs (setup_requests a) (bench_setup a).
Proof.
  unfold bench_setup, setup_requests, filled_rows. apply (runs_bind 1 (3 + _)); [apply connect_runs|]. intros _.
  apply runs_assoc, (runs_bind 2 (1 + _));
    [apply (ignore_runs 1 1); [apply query_exchanges|apply query_exchanges|apply query_eof]|].
  intros _. apply runs_bind; [apply exchanges_runs, query_exchanges|]. intros _.
  destruct (_ && _) eqn:E; [|apply runs_ret]. apply andb_true_iff in E as [_ E]. reflect_bools.
  rewrite (proj2 (Nat.eqb_neq _ _)) by lia. apply runs_bind; [apply prepare_runs|]. intros id.
  apply fill_runs. split; [done|]. cbn. lia.
Qed.
Lemma async_setup_runs a : runs (setup_requests a) (async_setup a).
Proof.
  unfold async_setup, setup_requests, filled_rows. apply (runs_bind 1 (3 + _)); [apply async_startup_runs|]. intros _.
  apply (runs_bind 1 (2 + _)); [apply async_query_runs|]. intros _.
  apply (runs_bind 1 (1 + _)); [apply async_query_runs|]. intros _. apply runs_bind; [apply async_query_runs|]. intros _.
  destruct (_ && _) eqn:E; [|apply runs_ret]. apply andb_true_iff in E as [_ E]. reflect_bools.
  rewrite (proj2 (Nat.eqb_neq _ _)) by lia. apply runs_bind; [apply async_prepare_runs|]. intros id.
  apply async_fill_runs. split; [done|]. cbn. lia.
Qed.

(** The set-up is in lock step with the server.  When the set-up of either
    benchmark returns, on whatever bytes the server sent, it has written exactly
    STARTUP, the three schema statements, and - when it fills rows - PREPARE and
    one EXECUTE per row, as whole frames, and has read exactly as many whole
    response frames: no answer is left over for a later request. *)
Theorem setup_lockstep a c c' : bench_setup a c = (c', Ok ()) \/ async_setup a c = (c', Ok ()) ->
  exchanged c (setup_requests a) c'.
Proof.
  assert (H0 : exchanged c 0 c) by (exists [], []; rewrite app_nil_r; done).
  intros [Hs|Hs]; [pose proof (bench_setup_runs a c 0 c H0) as Hr|pose proof (async_setup_runs a c 0 c H0) as Hr];
    by rewrite Hs in Hr.
Qed.

(** ** Examples *)

Section runs.
Context `{LoadClient} (a : Bench.Args).

Fixpoint load_run (ls : list LoadLabel) (s : Load) : option Load :=
  match ls with [] => Some s | l :: ls' => s' ← load_step a l s; load_run ls' s' end.
Lemma load_run_rtc ls s s' : load_run ls s = Some s' -> rtc (step a) s s'.
Proof.
  revert s. induction ls as [|l ls IH]; intros s; cbn; [by intros [= ->]|].
  intros (s1 & Hs & Hr)%bind_Some. eapply rtc_l; [by exists l|by apply IH].
Qed.
End runs.

(** One request per round; a server that answers READY, prepares both statements
    and answers the first request with an error. *)
Definition demo_args : Bench.Args :=
  {| Bench.a_addr := bs "h:1"; Bench.a_conns := 2; Bench.a_pipeline := 1; Bench.a_seconds := 1;
     Bench.a_mode := Bench.Write; Bench.a_keys := 9; Bench.a_fill_keys := 0; Bench.a_value_len := 1 |}.
Definition answer (op : Z) (body : bytes) : bytes := Bench.frame 0 op body [].
Definition prepared_answer : bytes := answer 0x08 (be 4 4 ++ be 2 1 ++ bs "i").
Definition demo_input : bytes := answer 0x02 [] ++ prepared_answer ++ prepared_answer ++ answer 0x00 (bs "no").
(** Thread 0 makes one round, the time is over, and the report is printed. *)
Definition demo_labels : list LoadLabel := replicate 7 (LThread 0) ++ [LMain; LThread 0; LMain; LMain].

Definition demo_report : option (@Load bench_client) :=
  load_run (H := bench_client) demo_args demo_labels (load_init (H := bench_client) [inr demo_input]).

(** The report that run ends with. *)
Definition demo_printed : Report :=
  {| rp_ops := 1; rp_errors := 1; rp_first := Some (bs "no"); rp_failures := [] |}.
Lemma demo_reported : option_map ld_main demo_report = Some (MReport demo_printed).
Proof. vm_compute. reflexivity. Qed.

Lemma demo_final : exists s, rtc (step (H := bench_client) demo_args) (load_init (H := bench_client) [inr demo_input]) s /\
  ld_main s = MReport demo_printed.
Proof.
  pose proof demo_reported as Hd. revert Hd. unfold demo_report.
  generalize (load_run_rtc (H := bench_client) demo_args demo_labels (load_init (H := bench_client) [inr demo_input])).
  generalize (load_run (H := bench_client) demo_args demo_labels (load_init (H := bench_client) [inr demo_input])).
  intros [s|] Hrun Hd; [|discriminate Hd]. injection Hd as Hm. exists s. split; [by apply Hrun|exact Hm].
Qed.

Lemma report_exact_witness :
  exists s : @Load bench_client, ld_main s = MReport demo_printed /\
    rp_errors demo_printed = uwrap 64 (Z.of_nat (length (errors (ld_log s)))).
Proof.
  destruct demo_final as (s & Hr & Hm). exists s. split; [exact Hm|].
  destruct (report_exact (H := bench_client) (H0 := bench_laws) demo_args [inr demo_input] s demo_printed Hr Hm)
    as (_ & _ & _ & He & _). exact He.
Defined.

(** One good connection returns; with a refused one beside it, it never does. *)
Lemma bench_returns_iff_witness :
  option_map ld_main demo_report = Some (MReport demo_printed) /\
  uniform (H := bench_client) demo_args [inr demo_input; inl (bs "refused")] = false /\
  (forall s r, rtc (step (H := bench_client) demo_args)
     (load_init (H := bench_client) [inr demo_input; inl (bs "refused")]) s -> ld_main s <> MReport r) /\
  (forall s, rtc (step (H := bench_client) demo_args) (load_init (H := bench_client) [inr demo_input]) s ->
     ld_main s <> MSleep -> forall n s', nsteps (step (H := bench_client) demo_args) n s s' -> n <= load_work s).
Proof.
  assert (Hu : uniform (H := bench_client) demo_args [inr demo_input; inl (bs "refused")] = false)
    by (vm_compute; reflexivity).
  assert (Hu1 : uniform (H := bench_client) demo_args [inr demo_input] = true) by (vm_compute; reflexivity).
  split; [exact demo_reported|]. split; [exact Hu|]. split.
  - intros s r Hr. exact (proj2 (bench_returns_iff (H := bench_client) demo_args _) Hu s r Hr).
  - intros s Hr Hm. exact (proj1 (proj1 (bench_returns_iff (H := bench_client) demo_args _) Hu1 s Hr Hm)).
Defined.

(** A server that answers the set-up of a benchmark that only writes. *)
Definition demo_schema : bytes := answer 0x02 [] ++ answer 0x00 (bs "no such keyspace") ++ answer 0x08 [] ++ answer 0x08 [].

Lemma setup_lockstep_witness :
  exists c', bench_setup demo_args (fresh_conn demo_schema) = (c', Ok ()) /\
    exchanged (fresh_conn demo_schema) 4 c' /\ Bench.cn_in c' = [].
Proof.
  eexists. assert (Hs : bench_setup demo_args (fresh_conn demo_schema) = (_, Ok ())) by (vm_compute; reflexivity).
  split; [exact Hs|]. split; [|reflexivity]. exact (setup_lockstep demo_args _ _ (or_introl Hs)).
Defined.
