(* ===== verification/Direct.v ===== *)
(** * The storage benchmark as a whole

    The worker threads of src/src/bin/bench_honest.rs on one storage, beside the
    pipeline threads of its engines.  A writing worker puts rows and settles after
    every 64; a reading worker gets rows; both add to a shared counter.  When the
    time is over is left open: a worker may leave its loop at any turn.  So are the
    latencies: any of them may be out of the range of the worker's histogram, whose
    [record(dt).unwrap()] then panics. *)

From S2P Require Import Prelude RustStr Triple Ast Schema CqlValue Keys Project Kv Pipeline Storage Rows Query.
From S2P Require Import Tickets Client Clients Catalog.

Section direct.
Context `{KV} `{Json}.
Context (keys fill : Z).

(** Where a worker stands. *)
Inductive Worker :=
| PutTop (rng : Z) (tickets : list WriteTicket)     (** writer, at [while Instant::now() < end] *)
| PutSettle (rng : Z) (tickets : list WriteTicket)  (** in [settle], with 64 tickets *)
| PutDrain (tickets : list WriteTicket)             (** in [settle], with the rest *)
| GetTop (rng : Z) (local_ops : nat)                (** reader, at [while Instant::now() < end] *)
| WorkerEnd
| WorkerPanic.

(** The storage, [ops], and the workers.  [di_put], the tickets counted, [di_got],
    the reads counted, and [di_turns], the calls made, only observe. *)
Record Direct := {
  di_store : Storage;
  di_ops : Z;
  di_workers : list Worker;
  di_put : list WriteTicket;
  di_got : nat;
  di_turns : nat;
}.

Definition write_phase (threads : nat) (s : Storage) : Direct :=
  {| di_store := s; di_ops := 0;
     di_workers := (fun tid => PutTop (Honest.write_seed (Z.of_nat tid)) []) <$> seq 0 threads;
     di_put := []; di_got := 0; di_turns := 0 |}.
Definition read_phase (threads : nat) (s : Storage) : Direct :=
  {| di_store := s; di_ops := 0;
     di_workers := (fun tid => GetTop (Honest.read_seed (Z.of_nat tid)) 0) <$> seq 0 threads;
     di_put := []; di_got := 0; di_turns := 0 |}.

(** Worker [i] is now [w]; a turn was made; operations were counted. *)
Definition set_worker (i : nat) (w : Worker) (d : Direct) : Direct :=
  {| di_store := di_store d; di_ops := di_ops d; di_workers := <[i := w]> (di_workers d);
     di_put := di_put d; di_got := di_got d; di_turns := di_turns d |}.
Definition turned (s : Storage) (d : Direct) : Direct :=
  {| di_store := s; di_ops := di_ops d; di_workers := di_workers d;
     di_put := di_put d; di_got := di_got d; di_turns := S (di_turns d) |}.
Definition on_disk (s : Storage) (d : Direct) : Direct :=
  {| di_store := s; di_ops := di_ops d; di_workers := di_workers d;
     di_put := di_put d; di_got := di_got d; di_turns := di_turns d |}.
(** [ops.fetch_add(n)]. *)
Definition count_puts (n : Z) (tickets : list WriteTicket) (d : Direct) : Direct :=
  {| di_store := di_store d; di_ops := uwrap 64 (di_ops d + n); di_workers := di_workers d;
     di_put := di_put d ++ tickets; di_got := di_got d; di_turns := di_turns d |}.
Definition count_gets (n : nat) (d : Direct) : Direct :=
  {| di_store := di_store d; di_ops := uwrap 64 (di_ops d + Z.of_nat n); di_workers := di_workers d;
     di_put := di_put d; di_got := di_got d + n; di_turns := di_turns d |}.

(** One turn of the loop of [bench_storage_write]. *)
Definition put_turn (i : nat) (rng : Z) (tickets : list WriteTicket) (d : Direct) : Direct :=
  let x := Bench.xorshift rng in
  if (keys =? 0)%Z then set_worker i WorkerPanic d else
  match honest_put (1 + x mod keys) (di_store d) with
  | (s, Ok t) =>
    let tickets := tickets ++ [t] in
    set_worker i (if 64 <=? length tickets then PutSettle x tickets else PutTop x tickets) (turned s d)
  | (s, _) => set_worker i WorkerPanic (on_disk s d)
  end.
(** One turn of the loop of [bench_storage_read]. *)
Definition get_turn (i : nat) (rng : Z) (local_ops : nat) (d : Direct) : Direct :=
  let x := Bench.xorshift rng in
  let n := Z.min keys fill in
  if (n =? 0)%Z then set_worker i WorkerPanic d else
  match get_row (bs "bench") (bs "kv") [be 8 (1 + x mod n)] (di_store d) with
  | (s, Ok _) =>
    let local_ops := S local_ops in
    if local_ops mod 1024 =? 0 then set_worker i (GetTop x 0) (count_gets 1024 (turned s d))
    else set_worker i (GetTop x local_ops) (turned s d)
  | (s, _) => set_worker i WorkerPanic (on_disk s d)
  end.

Inductive DirectLabel :=
| DGo (i : nat)                (** worker [i] goes on, its loop condition holding *)
| DLate (i : nat)              (** it goes on, with a latency the histogram refuses *)
| DOver (i : nat)              (** its time is over *)
| DThread (j : nat) (l : Label).

Definition direct_step (l : DirectLabel) (d : Direct) : option Direct :=
  match l with
  | DGo i =>
    w ← di_workers d !! i;
    match w with
    | PutTop rng tickets => Some (put_turn i rng tickets d)
    | PutSettle rng tickets =>
      if settled (di_store d) tickets
      then Some (set_worker i (PutTop rng []) (count_puts 64 tickets d)) else None
    | PutDrain tickets =>
      if settled (di_store d) tickets
      then Some (set_worker i WorkerEnd (count_puts (Z.of_nat (length tickets)) tickets d)) else None
    | GetTop rng local_ops => Some (get_turn i rng local_ops d)
    | WorkerEnd | WorkerPanic => None
    end
  | DLate i =>
    w ← di_workers d !! i;
    match w with
    | PutSettle _ tickets => if settled (di_store d) tickets then Some (set_worker i WorkerPanic d) else None
    | GetTop rng _ =>
      let k := (1 + Bench.xorshift rng mod Z.min keys fill)%Z in
      if (Z.min keys fill =? 0)%Z then Some (set_worker i WorkerPanic d)
      else Some (set_worker i WorkerPanic
                   (on_disk (fst (get_row (bs "bench") (bs "kv") [be 8 k] (di_store d))) d))
    | _ => None
    end
  | DOver i =>
    w ← di_workers d !! i;
    match w with
    | PutTop _ tickets =>
      Some (set_worker i (if bool_decide (tickets = []) then WorkerEnd else PutDrain tickets) d)
    | GetTop _ local_ops => Some (set_worker i WorkerEnd (count_gets local_ops d))
    | _ => None
    end
  | DThread j l => s ← thread_step j l (di_store d); Some (on_disk s d)
  end.
Definition dstep (d d' : Direct) : Prop := exists l, direct_step l d = Some d'.

(** ** Completed tickets stay completed *)

Definition grown (s s' : Storage) : Prop := forall i e, st_engines s !! i = Some e ->
  exists e', st_engines s' !! i = Some e' /\ e_done e ⊆ e_done e'.

Lemma grown_engines s0 s s' : st_engines s' = st_engines s -> grown s0 s -> grown s0 s'.
Proof. unfold grown. by intros ->. Qed.
Lemma grown_insert s0 s i e e' : grown s0 s -> st_engines s !! i = Some e -> e_done e ⊆ e_done e' ->
  grown s0 (set_engines (<[i := e']> (st_engines s)) s).
Proof.
  intros Hg He Hd j ej Hj. destruct (Hg j ej Hj) as (e1 & He1 & Hd1). cbn.
  destruct (decide (i = j)) as [<-|Hne].
  - rewrite list_lookup_insert_eq by (by eapply lookup_lt_Some). exists e'. split; [done|].
    rewrite He in He1. injection He1 as <-. by etrans.
  - exists e1. by rewrite list_lookup_insert_ne.
Qed.

Lemma on_engine_grown {A} s0 i (f : Engine -> Engine * res str A) :
  (forall e, e_done e ⊆ e_done (fst (f e))) -> keeps (grown s0) (on_engine i f).
Proof.
  intros Hf s Hs. unfold on_engine. destruct (st_engines s !! i) as [e|] eqn:He; [|done].
  specialize (Hf e). destruct (f e) as [e' r].
  assert (grown s0 (set_engines (<[i := e']> (st_engines s)) s)) by (by eapply grown_insert). by destruct r.
Qed.
Lemma engine_send_grown s0 i op : keeps (grown s0) (engine_send i op).
Proof.
  apply on_engine_grown. intros e. destruct (send e op) as [[e' t]|x|] eqn:Hs; cbn; [|done|done].
  by apply send_spec in Hs as (_ & _ & _ & _ & _ & _ & -> & _).
Qed.
Lemma engine_get_grown s0 i key : keeps (grown s0) (engine_get i key).
Proof. by apply on_engine_grown. Qed.
Lemma on_cache_grown s0 ks f : keeps (grown s0) (on_cache ks f).
Proof. apply keeps_modify. intros s. apply grown_engines. by case_match. Qed.
#[local] Hint Resolve engine_send_grown engine_get_grown on_cache_grown : triple.

Lemma put_row_grown s0 ks tb p v : keeps (grown s0) (put_row ks tb p v).
Proof. unfold put_row, write_data_op. walk. Qed.
Lemma get_row_grown s0 ks tb p : keeps (grown s0) (get_row ks tb p).
Proof. unfold get_row, row_fetch, row_fill. walk. Qed.
Lemma thread_grown j l s s' : thread_step j l s = Some s' -> grown s s'.
Proof.
  intros (e & He & (e' & Hp & [= <-])%bind_Some)%bind_Some.
  assert (Hg : grown s s) by (intros i e1 He1; by exists e1). eapply grown_insert; [done|done|].
  destruct (pipe_step_effect _ _ _ _ Hp) as [_ _ _ _ ->|b _ _ _ _ _ -> _|ds _ _ _ _ _ ->]; [done|done|]. set_solver.
Qed.

Lemma settled_grown s s' ts : grown s s' -> Forall (issued s) ts -> settled s ts = true -> settled s' ts = true.
Proof.
  intros Hg Hi. unfold settled. rewrite !forallb_forall. intros Hd t Ht. specialize (Hd t Ht).
  rewrite Forall_forall in Hi. specialize (Hi t (proj2 (list_elem_of_In _ _) Ht)). destruct t as [[i n]|]; [|done].
  destruct Hi as (e & He & _). cbn in *. rewrite He in Hd. apply bool_decide_eq_true in Hd.
  destruct (Hg i e He) as (e' & -> & Hsub). apply bool_decide_eq_true. set_solver.
Qed.

(** ** Counting *)

(** Calls of a worker that are not counted yet, and the tickets it holds. *)
Definition pending (w : Worker) : nat :=
  match w with
  | PutTop _ ts | PutSettle _ ts | PutDrain ts => length ts
  | GetTop _ n => n
  | WorkerEnd | WorkerPanic => 0
  end.
Definition holds (w : Worker) : list WriteTicket :=
  match w with PutTop _ ts | PutSettle _ ts | PutDrain ts => ts | _ => [] end.
Definition in_batch (w : Worker) : Prop :=
  match w with
  | PutTop _ ts => length ts < 64 | PutSettle _ ts => length ts = 64 | GetTop _ n => n < 1024 | _ => True
  end.
Definition sound (w : Worker) : Prop := w <> WorkerPanic.

Record exact (d : Direct) : Prop := {
  ex_backed : backed (di_put d ++ (di_workers d ≫= holds)) (di_store d);
  ex_settled : settled (di_store d) (di_put d) = true;
  ex_ops : di_ops d = uwrap 64 (Z.of_nat (length (di_put d) + di_got d));
  ex_batch : Forall in_batch (di_workers d);
  ex_turns : length (di_put d) + di_got d + sum_list_with pending (di_workers d) <= di_turns d;
  ex_sound : Forall sound (di_workers d) ->
    di_turns d = length (di_put d) + di_got d + sum_list_with pending (di_workers d);
}.

(** A worker moves from [w] to [w'], on a storage that may have moved on, counting
    the tickets [ps] and [g] reads and making [n] calls. *)
Lemma exact_worker i w w' ps g n d d' : exact d -> di_workers d !! i = Some w -> sound w ->
  di_workers d' = <[i := w']> (di_workers d) -> di_put d' = di_put d ++ ps -> di_got d' = di_got d + g ->
  di_turns d' = di_turns d + n -> di_ops d' = uwrap 64 (di_ops d + Z.of_nat (length ps + g)) ->
  grown (di_store d) (di_store d') ->
  (forall ts, backed (holds w ++ ts) (di_store d) -> backed (ps ++ holds w' ++ ts) (di_store d')) ->
  settled (di_store d') ps = true -> in_batch w' -> length ps + g + pending w' <= pending w + n ->
  (sound w' -> length ps + g + pending w' = pending w + n) -> exact d'.
Proof.
  intros [Hb Hs Ho Hin Hle Heq] Hw Hsnd Ew Ep Eg En Eo Hg Hback Hps Hw' Hn Hn'.
  destruct (bind_insert holds _ _ _ w' Hw) as (rest & Hp & Hp').
  pose proof (sum_list_insert pending _ _ _ w' Hw) as Hsum. apply lookup_lt_Some in Hw as Hlt.
  split; rewrite ?Ew, ?Ep, ?Eg, ?En, ?Eo, ?length_app.
  - rewrite Hp', <-app_assoc. rewrite Hp, Permutation_app_swap_app in Hb.
    specialize (Hback _ Hb). rewrite Permutation_app_swap_app, (Permutation_app_swap_app (di_put d)). exact Hback.
  - unfold settled. rewrite forallb_app. apply andb_true_iff. split; [|exact Hps].
    eapply settled_grown; [exact Hg| |exact Hs]. destruct Hb as [_ Hb]. by apply Forall_app in Hb as [Hb _].
  - rewrite Ho. unfold uwrap. rewrite Zplus_mod_idemp_l. f_equal. lia.
  - by apply Forall_insert.
  - lia.
  - intros Hall. assert (Hnew : sound w').
    { apply (Forall_lookup_1 _ _ i _ Hall). by apply list_lookup_insert_eq. }
    assert (Hold : Forall sound (di_workers d)).
    { apply Forall_lookup. intros j u Hj. destruct (decide (j = i)) as [->|Hji].
      - rewrite Hw in Hj. by injection Hj as <-.
      - apply (Forall_lookup_1 _ _ j _ Hall). by rewrite list_lookup_insert_ne. }
    specialize (Heq Hold). specialize (Hn' Hnew). lia.
Qed.

(** The same, counting nothing. *)
Lemma exact_quiet i w w' n d d' : exact d -> di_workers d !! i = Some w -> sound w ->
  di_workers d' = <[i := w']> (di_workers d) -> di_put d' = di_put d -> di_got d' = di_got d ->
  di_turns d' = di_turns d + n -> di_ops d' = di_ops d -> grown (di_store d) (di_store d') ->
  (forall ts, backed (holds w ++ ts) (di_store d) -> backed (holds w' ++ ts) (di_store d')) ->
  in_batch w' -> pending w' <= pending w + n -> (sound w' -> pending w' = pending w + n) -> exact d'.
Proof.
  intros Hd Hw Hsnd Ew Ep Eg En Eo. intros. eapply (exact_worker i w w' [] 0 n); try done.
  - by rewrite Ep, app_nil_r.
  - by rewrite Eg, Nat.add_0_r.
  - rewrite Eo, (ex_ops _ Hd). unfold uwrap. cbn. by rewrite Z.add_0_r, Zmod_mod.
Qed.

Lemma grown_refl s : grown s s.
Proof. intros i e He. by exists e. Qed.
#[local] Hint Resolve grown_refl : core.

Lemma panic_exact i w s d : exact d -> di_workers d !! i = Some w -> sound w -> grown (di_store d) s ->
  (forall ts, backed ts (di_store d) -> backed ts s) -> exact (set_worker i WorkerPanic (on_disk s d)).
Proof.
  intros Hd Hw Hsnd Hg Hb. eapply (exact_quiet i w WorkerPanic 0); try done; cbn; try lia.
  intros ts Hts. apply Hb. by eapply backed_drop.
Qed.

Lemma panic_here i w d : exact d -> di_workers d !! i = Some w -> sound w -> exact (set_worker i WorkerPanic d).
Proof. intros Hd Hw Hs. by destruct (panic_exact i w (di_store d) d Hd Hw Hs (grown_refl _) ltac:(done)). Qed.

Lemma put_turn_exact i rng ts d : exact d -> di_workers d !! i = Some (PutTop rng ts) ->
  exact (put_turn i rng ts d).
Proof.
  intros Hd Hw. unfold put_turn. pose proof (Forall_lookup_1 _ _ _ _ (ex_batch _ Hd) Hw) as Hlt. cbn in Hlt.
  destruct (keys =? 0)%Z.
  { by eapply panic_here. }
  set (k := (1 + _)%Z). pose proof (put_row_grown (di_store d) (bs "bench") (bs "kv") [be 8 k] honest_row (di_store d) (grown_refl _)) as Hg.
  assert (Hb : forall l, triple (backed l) (honest_put k) (fun t => backed (t :: l)) (backed l))
    by (intros l; apply put_row_issues).
  unfold honest_put in *. destruct (put_row _ _ _ _ (di_store d)) as [s [t|e|]] eqn:Hput.
  - assert (Hlen : length (ts ++ [t]) = S (length ts)) by (rewrite length_app; cbn; lia).
    eapply (exact_quiet i _ _ 1); [done|done|done|done|done|done|cbn; lia|done|done|..].
    + intros l Hl. specialize (Hb _ _ Hl). rewrite Hput in Hb. destruct (64 <=? _); cbn [holds];
        rewrite <-app_assoc; cbn [app]; by rewrite <-Permutation_middle.
    + destruct (64 <=? _) eqn:E; reflect_bools; cbn; lia.
    + destruct (64 <=? _); cbn; lia.
    + destruct (64 <=? _); cbn; lia.
  - eapply panic_exact; try done. intros l Hl. specialize (Hb l _ Hl). by rewrite Hput in Hb.
  - eapply panic_exact; try done. intros l Hl. specialize (Hb l _ Hl). by rewrite Hput in Hb.
Qed.

Lemma get_turn_exact i rng n d : exact d -> di_workers d !! i = Some (GetTop rng n) ->
  exact (get_turn i rng n d).
Proof.
  intros Hd Hw. unfold get_turn. pose proof (Forall_lookup_1 _ _ _ _ (ex_batch _ Hd) Hw) as Hlt. cbn in Hlt.
  destruct (Z.min keys fill =? 0)%Z.
  { by eapply panic_here. }
  set (k := (1 + _)%Z). pose proof (get_row_grown (di_store d) (bs "bench") (bs "kv") [be 8 k] (di_store d) (grown_refl _)) as Hg.
  pose proof (fun l => get_row_keeps l (bs "bench") (bs "kv") [be 8 k] (di_store d)) as Hb.
  destruct (get_row _ _ _ (di_store d)) as [s [o|e|]] eqn:Hget; [|by eapply panic_exact..].
  destruct (decide (S n = 1024)) as [En|En].
  - rewrite En, Nat.Div0.mod_same. cbn [Nat.eqb].
    eapply (exact_worker i _ _ [] 1024 1); try done; cbn; try lia. by rewrite app_nil_r.
  - rewrite Nat.mod_small by lia. cbn [Nat.eqb].
    eapply (exact_quiet i _ _ 1); try done; cbn; lia.
Qed.

Lemma step_exact l d d' : exact d -> direct_step l d = Some d' -> exact d'.
Proof.
  intros Hd Hs. destruct l as [i|i|i|j l]; cbn [direct_step] in Hs; apply bind_Some in Hs as (w & Hw & Hs).
  - pose proof (Forall_lookup_1 _ _ _ _ (ex_batch _ Hd) Hw) as Hlt.
    destruct w as [rng ts|rng ts|ts|rng n| |]; try done.
    + injection Hs as <-. by apply put_turn_exact.
    + destruct (settled (di_store d) ts) eqn:E; [|done]. injection Hs as <-. cbn in Hlt.
      eapply (exact_worker i _ _ ts 0 0); try done; cbn; try lia. by rewrite Nat.add_0_r, Hlt.
    + destruct (settled (di_store d) ts) eqn:E; [|done]. injection Hs as <-.
      eapply (exact_worker i _ _ ts 0 0); try done; cbn; try lia. by rewrite Nat.add_0_r.
    + injection Hs as <-. by apply get_turn_exact.
  - destruct w as [rng ts|rng ts|ts|rng n| |]; try done.
    + case_match; [|done]. injection Hs as <-. by eapply panic_here.
    + case_match; injection Hs as <-; [by eapply panic_here|]. set (k := (1 + _)%Z).
      pose proof (get_row_grown (di_store d) (bs "bench") (bs "kv") [be 8 k] (di_store d) (grown_refl _)) as Hg.
      pose proof (fun l => get_row_keeps l (bs "bench") (bs "kv") [be 8 k] (di_store d)) as Hb.
      destruct (get_row _ _ _ _) as [s r]. eapply panic_exact; [done|done|done|..].
      * by destruct r.
      * intros l Hl. specialize (Hb l Hl). by destruct r.
  - pose proof (Forall_lookup_1 _ _ _ _ (ex_batch _ Hd) Hw) as Hlt.
    destruct w as [rng ts|rng ts|ts|rng n| |]; try done; injection Hs as <-.
    + eapply (exact_quiet i _ _ 0); [done|done|done|done|done|done|cbn; lia|done|done|..];
        case_bool_decide as E; subst; cbn; try done; lia.
    + eapply (exact_worker i _ _ [] n 0); try done; cbn; try lia. by rewrite app_nil_r.
  - injection Hs as <-. destruct Hd as [Hb Hset Ho Hin Hle Heq]. split; cbn; try done.
    + by eapply thread_backed.
    + eapply settled_grown; [by eapply thread_grown| |done]. destruct Hb as [_ Hb]. by apply Forall_app in Hb as [Hb _].
Qed.

Lemma phase_exact d : di_put d = [] -> di_got d = 0 -> di_turns d = 0 -> di_ops d = 0%Z -> backed [] (di_store d) ->
  Forall (fun w => pending w = 0 /\ holds w = [] /\ in_batch w) (di_workers d) -> exact d.
Proof.
  intros Ep Eg Et Eo Hb Hw.
  assert (Hsum : sum_list_with pending (di_workers d) = 0).
  { induction Hw as [|w l (Hp & _) _ IH]; cbn; [done|]. lia. }
  assert (Hh : di_workers d ≫= holds = []).
  { clear -Hw. induction Hw as [|w l (_ & Hh & _) _ IH]; cbn; [done|]. by rewrite Hh. }
  split; rewrite ?Ep, ?Eg, ?Et, ?Eo, ?Hsum, ?Hh; try done.
  eapply Forall_impl; [exact Hw|]. by intros w (_ & _ & ?).
Qed.

(** C36: the storage benchmark counts exactly what it did.  In every interleaving of
    its workers with the pipeline threads of the engines, on any database: every
    write that has been counted is committed or given up by its engine - the
    ticket is completed - and stays so; the counter is the number of writes and
    reads counted, modulo 2^64, never ahead of the calls made; and when all
    workers have ended without a panic it is exactly the number of calls. *)
Theorem direct_counts threads s d : backed [] s ->
  rtc dstep (write_phase threads s) d \/ rtc dstep (read_phase threads s) d ->
  settled (di_store d) (di_put d) = true /\
  di_ops d = uwrap 64 (Z.of_nat (length (di_put d) + di_got d)) /\
  length (di_put d) + di_got d <= di_turns d /\
  (Forall (fun w => w = WorkerEnd) (di_workers d) -> di_ops d = uwrap 64 (Z.of_nat (di_turns d))).
Proof.
  intros Hb Hr. assert (He : exact d).
  { assert (Hk : forall d0, exact d0 -> rtc dstep d0 d -> exact d)
      by (intros d0 H0' Hd; induction Hd as [|d1 d2 d3 [l Hl] _ IH]; [done|]; by eapply IH, step_exact).
    destruct Hr as [Hr|Hr]; (eapply Hk; [|exact Hr]; apply phase_exact; try done; cbn; apply Forall_fmap, Forall_forall;
      intros tid _; cbn; split_and!; try done; lia). }
  destruct He as [_ Hs Ho _ Hle Heq]. split_and!; [done|done|lia|]. intros Hall. rewrite Ho, Heq.
  - do 2 f_equal. assert (sum_list_with pending (di_workers d) = 0); [|lia].
    clear -Hall. induction Hall as [|w l -> _ IH]; cbn; [done|exact IH].
  - eapply Forall_impl; [exact Hall|]. by intros w ->.
Qed.
End direct.

(** ** A latency out of range *)

(** The histograms end at 10 000 000 ns.  A batch that takes longer to settle ends
    its worker before the batch is counted: the writes are done, the counter does
    not have them, and [let _ = h.join()] drops the panic. *)
Theorem slow_batch_lost `{KV} `{Json} keys fill i rng ts d :
  di_workers d !! i = Some (PutSettle rng ts) -> settled (di_store d) ts = true ->
  exists d', direct_step keys fill (DLate i) d = Some d' /\ di_workers d' !! i = Some WorkerPanic /\
    di_ops d' = di_ops d /\ settled (di_store d') ts = true.
Proof.
  intros Hw Hs. cbn. rewrite Hw. cbn. rewrite Hs. eexists. split; [done|]. split; [|done].
  cbn. apply list_lookup_insert_eq. by eapply lookup_lt_Some.
Qed.

(** ** A run *)

Section runs.
Context `{KV} `{Json} (keys fill : Z).
Fixpoint direct_run (ls : list DirectLabel) (d : Direct) : option Direct :=
  match ls with [] => Some d | l :: ls' => d' ← direct_step keys fill l d; direct_run ls' d' end.
Lemma direct_run_rtc ls d d' : direct_run ls d = Some d' -> rtc (dstep keys fill) d d'.
Proof.
  revert d. induction ls as [|l ls IH]; intros d; cbn; [by intros [= ->]|].
  intros (d1 & Hs & Hr)%bind_Some. eapply rtc_l; [by exists l|by apply IH].
Qed.
End runs.

(** A writer that makes two turns and drains: it waits for its engine first. *)
Definition demo_direct : Direct (H := mem_kv) := write_phase (H := mem_kv) 1 empty_storage.
Definition demo_turns : list DirectLabel := [DGo 0; DGo 0; DOver 0].
Definition demo_commit (j : nat) : list DirectLabel :=
  DThread j <$> [CollectFirst; CollectMore; CollectClose; CollectFlush; CommitWrite; CommitSignal].

(** Whether the worker can go on, and what it has counted. *)
Definition blocked (d : option (Direct (H := mem_kv))) : bool :=
  match d with
  | Some d => match direct_step (H := mem_kv) 1 0 (DGo 0) d with None => true | Some _ => false end
  | None => false
  end.
Example direct_waits :
  blocked (direct_run (H := mem_kv) 1 0 demo_turns demo_direct) = true /\
  (di_ops <$> direct_run (H := mem_kv) 1 0 (demo_turns ++ demo_commit 0 ++ [DGo 0]) demo_direct) = Some 2%Z.
Proof. split; vm_compute; reflexivity. Qed.

Lemma direct_counts_witness :
  exists d, rtc (dstep (H := mem_kv) 1 0) demo_direct d /\ di_ops d = 2%Z /\
    settled (di_store d) (di_put d) = true /\ di_ops d = uwrap 64 (Z.of_nat (length (di_put d) + di_got d)).
Proof.
  pose proof (proj2 direct_waits) as Ho.
  destruct (direct_run (H := mem_kv) 1 0 (demo_turns ++ demo_commit 0 ++ [DGo 0]) demo_direct) as [d|] eqn:E; [|done].
  cbn in Ho. injection Ho as Ho. pose proof (direct_run_rtc (H := mem_kv) 1 0 _ _ _ E) as Hr.
  destruct (direct_counts (H := mem_kv) 1 0 1 empty_storage d) as (Hs & Hc & _).
  - split; [|apply Forall_nil_2]. apply Forall_fmap, Forall_true. intros x. apply accounted_spawn.
  - left. exact Hr.
  - exists d. split; [exact Hr|]. split; [exact Ho|]. split; [exact Hs|exact Hc].
Defined.
