(* ===== verification/Entry.v ===== *)
(** * The entry point and the monoio server

    Models src/src/main.rs - the configuration from the environment, the data
    directory, the choice of a server and its start - and
    src/src/server_monoio.rs.  That file repeats src/src/server.rs line by line -
    connection state, request handling, the reader loop - on monoio's sockets and
    tasks; its definitions are therefore the ones of [Server], under the names
    below.  Its own are the driver threads with their listeners and the loop that
    writes responses.  [program_answers] and [main_serves] are the theorems on the
    program as a whole. *)

From S2P Require Import Prelude RustStr Ast Schema CqlValue Keys Project Kv Pipeline Storage Query Wire.
From S2P Require Import Rows Catalog System Protocol Server Client Session Conn World Restart.

(** ** Configuration *)

Record Config := { data_dir : str; listen : str; health_listen : str }.

Definition config (env : Env) : Config :=
  {| data_dir := default (bs "data") (env (bs "RHYDADB_DATA"));
     listen := default (bs "127.0.0.1:9042") (env (bs "RHYDADB_LISTEN"));
     health_listen :=
       match env (bs "RHYDADB_HEALTH_LISTEN") with
       | Some v => v
       | None => match env (bs "RHYDADB_URING") with
                 | Some _ => bs "0.0.0.0:8080"
                 | None => bs "127.0.0.1:8080"
                 end
       end |}.

(** The server that is started; [uring]: built with the feature, on Linux. *)
Definition choose_runtime (uring : bool) (env : Env) : Runtime :=
  match env (bs "RHYDADB_URING") with
  | Some _ => if uring then Monoio else Tokio
  | None => Tokio
  end.

(** ** The monoio server *)

(** [run_blocking]: the number of drivers; [cpus] is [available_parallelism]. *)
Definition uring_threads (env : Env) (cpus : option Z) : Z :=
  default (default 4%Z cpus) (env (bs "RHYDADB_URING_THREADS") ≫= parse_uint 64).

(** The connection state and its accessors. *)
Definition monoio_prepared_stmt : Type := PreparedStmt.
Definition monoio_conn_shared : Type := ConnShared.
Definition monoio_decode_compression : Z -> option Compression := decode_compression.
Definition monoio_new : ConnShared := new_conn.
Definition monoio_compression : ConnShared -> option Compression := compression.
Definition monoio_set_keyspace : str -> ConnShared -> ConnShared := set_keyspace.
Definition monoio_is_session_use : bytes -> bool := is_session_use.
Definition monoio_MAX_FRAME_LENGTH : Z := MAX_FRAME_LENGTH.
Definition monoio_PER_CONN_INFLIGHT : nat := PER_CONN_INFLIGHT.
Definition monoio_WRITE_FLUSH_THRESHOLD : Z := WRITE_FLUSH_THRESHOLD.

(** [for chunk in &pending { write_all(chunk) .. }]: the bytes that reach the
    socket, and whether all writes succeed; [room] is how many bytes the socket
    takes before it fails, if it does. *)
Fixpoint write_chunks (room : option nat) (pending : list bytes) : bytes * bool :=
  match pending with
  | [] => ([], true)
  | chunk :: rest =>
    match room with
    | None => let '(out, ok) := write_chunks None rest in (chunk ++ out, ok)
    | Some n =>
      if length chunk <=? n then
        let '(out, ok) := write_chunks (Some (n - length chunk)) rest in (chunk ++ out, ok)
      else (take n chunk, false)
    end
  end.

Section monoio.
Context `{KV} `{Json} `{UnicodeCase} `{Literals} `{Wire}.
Context (parse : str -> option CassandraStatement) (short_name : CassandraStatement -> str).

Definition monoio_respond : Z -> Z -> option Compression -> res QueryError Response -> bool -> res QueryError bytes :=
  respond.
Definition monoio_settle_then : list WriteTicket -> Pending -> st (Storage * ConnShared) QueryError Outcome :=
  settle_then.
Definition monoio_handle_startup : bytes -> Z -> st (Storage * ConnShared) QueryError Outcome := handle_startup.
Definition monoio_handle_query : bytes -> Z -> option Compression -> st (Storage * ConnShared) QueryError Outcome :=
  handle_query parse short_name.
Definition monoio_handle_prepare : bytes -> Z -> option Compression -> st (Storage * ConnShared) QueryError Outcome :=
  handle_prepare parse short_name.
Definition monoio_handle_execute : bytes -> Z -> option Compression -> st (Storage * ConnShared) QueryError Outcome :=
  handle_execute short_name.
Definition monoio_handle_request : Z -> bytes -> Z -> st (Storage * ConnShared) QueryError Outcome :=
  handle_request parse short_name.
Definition monoio_batch_err : QueryError := batch_err.
Definition monoio_auth_err : QueryError := auth_err.
Definition monoio_read_frame : ConnShared -> bytes -> bool -> Inbound := read_frame.
Definition monoio_reader_step : Storage -> Conn -> option (Storage * Conn * list Event) :=
  reader_step parse short_name.
Definition monoio_task_step : nat -> Storage -> Conn -> option (Storage * Conn * list Event) :=
  task_step parse short_name.

(** [handle_connection] before its loops: the response channel, the writer, the
    shared state and the semaphore. *)
Definition monoio_open_conn : Conn := open_conn.

(** The accept loop of [per_core_listener]. *)
Definition monoio_world_step : WorldLabel -> World -> option (World * list (nat * Event)) :=
  world_step parse short_name Monoio.

(** One turn of the writer. *)
Definition monoio_writer_step (room : option nat) (c : Conn) : option Conn :=
  if c_writer c then
    '(pending, rest) ← take_pending (c_resp c);
    let '(out, ok) := write_chunks room pending in
    Some (if ok then set_channel rest true (c_out c ++ out) c else set_channel [] false (c_out c ++ out) c)
  else None.

End monoio.

Lemma write_chunks_spec room pending :
  write_chunks room pending
  = match room with
    | Some n => if length (concat pending) <=? n then (concat pending, true) else (take n (concat pending), false)
    | None => (concat pending, true)
    end.
Proof.
  revert room. induction pending as [|chunk rest IH]; intros room; [by destruct room|]. cbn [write_chunks concat].
  destruct room as [n|]; [|by rewrite IH]. rewrite IH, length_app.
  destruct (length chunk <=? n) eqn:E1, (length (concat rest) <=? n - length chunk) eqn:E2,
    (length chunk + length (concat rest) <=? n) eqn:E3; reflect_bools; try lia; try done.
  - by rewrite take_app_ge by lia.
  - by rewrite take_app_le by lia.
  - by rewrite take_app_le by lia.
Qed.

(** The writing loop of the monoio server is the atomic write of the
    connection model: whenever the socket gives out - or never - a turn of the
    loop, buffer by buffer, has exactly the effect of [writer_step] on the joined
    buffers: everything is written, or what the socket took and the writer ends. *)
Theorem monoio_writer_refines room c :
  monoio_writer_step room c
  = match room with
    | None => writer_step Monoio 0 true c
    | Some n =>
      match take_pending (c_resp c) with
      | Some (pending, _) => writer_step Monoio n (length (concat pending) <=? n) c
      | None => None
      end
    end.
Proof.
  unfold monoio_writer_step, writer_step. destruct (c_writer c).
  - destruct (take_pending (c_resp c)) as [[pending rest]|]; cbn [mbind option_bind]; [|by destruct room].
    rewrite write_chunks_spec. destruct room as [n|]; [|done]. by destruct (length (concat pending) <=? n).
  - destruct room; [|done]. by destruct (take_pending (c_resp c)) as [[? ?]|].
Qed.

(** Without RHYDADB_HEALTH_LISTEN the health endpoint is open to the network
    exactly when RHYDADB_URING is set, whatever server is then started. *)
Theorem health_default_address env : env (bs "RHYDADB_HEALTH_LISTEN") = None ->
  (health_listen (config env) = bs "0.0.0.0:8080" <-> is_Some (env (bs "RHYDADB_URING"))).
Proof.
  intros He. unfold config. cbn [health_listen]. rewrite He.
  destruct (env (bs "RHYDADB_URING")); split; by try (intros [? ?]).
Qed.

(** ** Starting the server *)

(** What the system answers while a driver thread sets up its listener. *)
Record SocketResults := {
  sk_parse : res str ();
  sk_new : res str ();
  sk_reuse_address : res str ();
  sk_reuse_port : res str ();
  sk_nonblocking : res str ();
  sk_bind : res str ();
  sk_listen : res str ();
  sk_from_std : res str ();
}.
Definition per_core_listener (k : SocketResults) : res str () :=
  sk_parse k;; sk_new k;; sk_reuse_address k;; sk_reuse_port k;; sk_nonblocking k;; sk_bind k;; sk_listen k;;
  sk_from_std k.

(** ... and while the server is started: building the tokio runtime and binding
    its listener; starting driver thread [tid], building its runtime and its
    listener. *)
Record NetResults := {
  net_runtime : res str ();
  net_bind : res str ();
  core_spawn : nat -> res str ();
  core_runtime : nat -> bool;
  core_socket : nat -> SocketResults;
}.

(** A driver thread comes to its accept loop; a failure is logged, or the thread
    panics, and [join] ignores it. *)
Definition core_listens (net : NetResults) (tid : nat) : bool :=
  core_runtime net tid && match per_core_listener (core_socket net tid) with Ok _ => true | _ => false end.

Fixpoint spawn_cores (net : NetResults) (tids : list nat) : res str (list bool) :=
  match tids with
  | [] => Ok []
  | tid :: r =>
    core_spawn net tid;;
    loops ← spawn_cores net r;
    Ok (core_listens net tid :: loops)
  end.

Section entry.
Context `{KV} `{Json} `{!Durable}.

(** [run_blocking]: the accept loops it starts. *)
Definition run_blocking (env : Env) (cpus : option Z) (net : NetResults) (s : Storage) : res str World :=
  loops ← spawn_cores net (seq 0 (Z.to_nat (uring_threads env cpus)));
  Ok (serve loops s).

(** No accept loop is left: [run_blocking] has joined its threads and returns. *)
Definition all_ended (w : World) : bool := forallb negb (w_loops w).

(** What [main] comes to: a running server; an error after which the storage was
    dropped; an error returned while driver threads still hold the storage, so
    that the process ends without dropping it; a panic. *)
Inductive Started :=
| Serving (n : Node) (w : World)
| Stopped (n : Node) (e : str)
| Exited (n : Node) (s : Storage) (e : str)
| Panicked (n : Node).

Definition dropped (n : Node) (s : Storage) : Node := release n (close_dbs (quiesce s)).

Definition start_server (uring : bool) (env : Env) (cpus : option Z) (net : NetResults) (n : Node) (s : Storage)
    : Started :=
  match choose_runtime uring env with
  | Monoio =>
    match run_blocking env cpus net s with
    | Ok w => Serving n w
    | Err e => Exited n s e
    | Panic => Panicked n
    end
  | Tokio =>
    match net_runtime net;; net_bind net with
    | Ok _ => Serving n (serve [true] s)
    | Err e => Stopped (dropped n s) e
    | Panic => Panicked (dropped n s)
    end
  end.

(** [main]; [dirs]: the data directories, by path. *)
Definition main (uring : bool) (env : Env) (cpus : option Z) (os : OsResults) (net : NetResults)
    (host_id schema_version : bytes) (dirs : gmap str Node) : Started :=
  let n := default fresh_node (dirs !! data_dir (config env)) in
  match open_node env cpus os host_id schema_version n with
  | (n', Ok s) => start_server uring env cpus net n' s
  | (n', Err e) => Stopped n' e
  | (n', Panic) => Panicked n'
  end.
End entry.

(** The system lets the server start: for each driver thread, and at least one. *)
Definition net_ok (uring : bool) (env : Env) (cpus : option Z) (net : NetResults) : Prop :=
  match choose_runtime uring env with
  | Tokio => net_runtime net = Ok () /\ net_bind net = Ok ()
  | Monoio => (0 < uring_threads env cpus)%Z /\ forall tid, core_spawn net tid = Ok () /\ core_listens net tid = true
  end.

Lemma spawn_cores_ok net tids : (forall tid, core_spawn net tid = Ok ()) ->
  spawn_cores net tids = Ok (core_listens net <$> tids).
Proof. intros Hs. induction tids as [|tid r IH]; [done|]. cbn [spawn_cores]. by rewrite Hs, IH. Qed.

Section program.
Context `{KV} `{Json} `{!Durable} `{UnicodeCase} `{Literals} `{Wire}.
Context (parse : str -> option CassandraStatement) (short_name : CassandraStatement -> str).

(** The server [main] comes to is one that has not accepted anything, on a
    storage that [open] returned. *)
Lemma main_world uring env cpus os net host sv dirs n w :
  main uring env cpus os net host sv dirs = Serving n w ->
  exists dbs s loops, open dbs (write_sync_of env) (env (bs "RHYDADB_ROW_CACHE_ENTRIES")) host sv = (s, Ok ()) /\
    w = serve loops s.
Proof.
  unfold main. destruct (open_node _ _ _ _ _ _) as [n1 [s|e|]] eqn:Ho; [|done..].
  destruct (open_node_inv _ _ _ _ _ _ _ _ Ho) as [dbs Hop]. unfold start_server, run_blocking. intros Hw.
  exists dbs, s. destruct (choose_runtime uring env).
  - case_match; [|done..]. injection Hw as _ <-. by exists [true].
  - destruct (spawn_cores _ _) as [loops|e|]; [|done..]. injection Hw as _ <-. by exists loops.
Qed.

(** C1: the program answers every request.  Whatever the environment, the data
    directory, the databases - whether or not their writes succeed - and the sockets:
    when [main] comes to a server, then from every state that server can reach
    with whatever clients do, and whatever the scheduler does, its own steps come
    to an end, and they end only when, on every connection whose runtime is there
    and whose peer takes the bytes it is sent, every accepted request has been
    answered or lost to a panic, every response has been handed to the socket of a
    writer that lives, and the reader waits for more bytes or is done.  Any peers
    may have stopped taking bytes ([stalled]): a write to one of them never
    returns, and holds up nobody else.  No combination of limits, channels and
    tickets deadlocks. *)
Theorem program_answers uring env cpus os net host sv dirs n w0 ev w stalled :
  main uring env cpus os net host sv dirs = Serving n w0 ->
  world_run parse short_name (choose_runtime uring env) w0 ev w ->
  let own := own_step parse short_name (choose_runtime uring env) stalled in
  sn own w /\ (exists w', rtc own w w' /\ nf own w') /\
  (nf own w -> forall i c, i ∉ stalled -> alive i w = true -> w_conns w !! i = Some c ->
     at_rest c /\ accepted (events_of i ev) ≡ₚ finished (events_of i ev)).
Proof.
  intros Hmain Hrun. destruct (main_world _ _ _ _ _ _ _ _ _ _ Hmain) as (dbs & s & loops & Ho & ->).
  by eapply every_request_answered.
Qed.
End program.

Section entry_lemmas.
Context `{KVLaws} `{JsonLaws} `{!Durable} `{!DurableLaws}.

Lemma start_server_ok uring env cpus net n s : net_ok uring env cpus net ->
  exists w, start_server uring env cpus net n s = Serving n w /\ w_store w = s /\
    w_loops w !! 0 = Some true /\ w_conns w = [].
Proof.
  unfold net_ok, start_server. destruct (choose_runtime uring env).
  - intros [-> ->]. by exists (serve [true] s).
  - intros [Ht Hc]. unfold run_blocking. rewrite spawn_cores_ok by apply Hc.
    eexists. split; [done|]. split; [done|]. split; [|done]. cbn.
    destruct (Z.to_nat (uring_threads env cpus)) as [|k] eqn:E; [lia|]. cbn. f_equal. apply Hc.
Qed.

(** C12: from one run of the program to the next.  Let the operating system grant
    the directory, the marker, the threads and the sockets that [main] asks for,
    and let the monoio server, if it is chosen, be configured with at least one
    driver thread ([net_ok]; [zero_threads_serve_nobody] is the other case).  Then
    [main], with either server, comes to a server that accepts connections: on a
    new data directory with the system keyspaces; on one left by a node with the
    schema [c] that was shut down, with the schema [c], whatever the rest of the
    environment; on one left by a crash in durable mode likewise, if the marker it
    finds (or, without one, the environment) gives the number of engines the node
    had. *)
Theorem main_serves uring env cpus os net host sv dirs :
  net_ok uring env cpus net -> os_mkdir os = Ok () -> os_write os = Ok () -> os_spawn os = Ok () ->
  (dirs !! data_dir (config env) = None ->
   exists n w, main uring env cpus os net host sv dirs = Serving n w /\ serves n (w_store w) /\
     represents (w_store w) seeded_cat /\ w_loops w !! 0 = Some true) /\
  (forall n s c n', serves n s -> represents s c -> has_system c -> dirs !! data_dir (config env) = Some n' ->
   (shut_down n s n' ->
    exists w, main uring env cpus os net host sv dirs = Serving n' w /\ serves n' (w_store w) /\
      represents (w_store w) c /\ w_loops w !! 0 = Some true) /\
   (st_write_sync s = true -> crash n s n' -> count_found env cpus n' = Z.of_nat (dbs_len s) ->
    exists w, main uring env cpus os net host sv dirs = Serving (marked env cpus n') w /\
      serves (marked env cpus n') (w_store w) /\ represents (w_store w) c /\ w_loops w !! 0 = Some true)).
Proof.
  intros Hnet Hmk Hwr Hsp. unfold main. split.
  - intros ->. destruct (first_start env cpus os host sv Hmk Hwr Hsp) as (n & s & Ho & Hm & Hr & _).
    cbn [default]. unfold id. rewrite Ho.
    destruct (start_server_ok uring env cpus net n s Hnet) as (w & Hw & <- & Hl & _). by exists n, w.
  - intros n s c n' Hm Hrep Hsys ->. cbn [default]. unfold id.
    destruct (node_recovers n s c Hm Hrep Hsys) as [Hshut Hcrash]. split.
    + intros Hd. destruct (Hshut n' env cpus os host sv Hd Hsp) as (s' & Ho & Hm' & Hr'). rewrite Ho.
      destruct (start_server_ok uring env cpus net n' s' Hnet) as (w & Hw & <- & Hl & _). by exists w.
    + intros Hsync Hc Hcount. destruct (Hcrash n' env cpus os host sv Hsync Hc) as (s' & Ho & Hm' & Hr').
      { destruct Hm as (text & _ & _ & Hb). by repeat split. }
      rewrite Ho. destruct (start_server_ok uring env cpus net (marked env cpus n') s' Hnet) as (w & Hw & <- & Hl & _).
      by exists w.
Qed.

(** RHYDADB_URING_THREADS=0 is taken as it is: no thread listens, so no connection
    is ever accepted and [run_blocking] returns at once. *)
Theorem zero_threads_serve_nobody env cpus net n s :
  is_Some (env (bs "RHYDADB_URING")) -> env (bs "RHYDADB_URING_THREADS") = Some (bs "0") ->
  exists w, start_server true env cpus net n s = Serving n w /\ w_loops w = [] /\ all_ended w = true.
Proof.
  intros [v Hu] Ht. unfold start_server, choose_runtime. rewrite Hu. unfold run_blocking, uring_threads. rewrite Ht.
  by eexists.
Qed.

(** A listen address that cannot be parsed or bound is an error of the tokio
    server; the monoio server only logs it in each of its threads, and the program
    ends as if it had been asked to. *)
Theorem bind_failure_reported_by_tokio_only env cpus net n s e :
  is_Some (env (bs "RHYDADB_URING")) -> net_runtime net = Ok () -> net_bind net = Err e ->
  (forall tid, core_spawn net tid = Ok () /\ per_core_listener (core_socket net tid) = Err e) ->
  start_server false env cpus net n s = Stopped (dropped n s) e /\
  exists w, start_server true env cpus net n s = Serving n w /\ all_ended w = true.
Proof.
  intros [v Hu] Hr Hb Hc. unfold start_server, choose_runtime. rewrite Hu. split.
  - by rewrite Hr, Hb.
  - unfold run_blocking. rewrite spawn_cores_ok by apply Hc. eexists. split; [done|]. unfold all_ended. cbn [w_loops].
    apply forallb_Forall, Forall_fmap, Forall_true. intros tid. cbn. unfold core_listens. rewrite (proj2 (Hc tid)).
    by destruct (core_runtime net tid).
Qed.
End entry_lemmas.

#[local] Existing Instances disk_kv disk_kv_laws disk_durable disk_durable_laws bits_json bits_json_laws.

Definition net_fine : NetResults :=
  {| net_runtime := Ok (); net_bind := Ok (); core_spawn _ := Ok (); core_runtime _ := true;
     core_socket _ := {| sk_parse := Ok (); sk_new := Ok (); sk_reuse_address := Ok (); sk_reuse_port := Ok ();
                         sk_nonblocking := Ok (); sk_bind := Ok (); sk_listen := Ok (); sk_from_std := Ok () |} |}.
Definition uring_env : Env := fun x => if bool_decide (x = bs "RHYDADB_URING") then Some (bs "1") else None.

Lemma net_fine_tokio : net_ok false no_env None net_fine.
Proof. split; reflexivity. Qed.
Lemma net_fine_monoio : net_ok true uring_env (Some 8%Z) net_fine.
Proof. split; [reflexivity|]. intros tid. split; reflexivity. Qed.

(** A first run with tokio, then one with monoio on what it left. *)
Lemma main_serves_witness :
  exists n w w', main false no_env None os_ok net_fine [] [] ∅ = Serving n w /\
    main true uring_env (Some 8%Z) os_ok net_fine [] [] {[bs "data" := dropped n (w_store w)]}
      = Serving (dropped n (w_store w)) w' /\
    represents (w_store w') seeded_cat /\ w_loops w' !! 0 = Some true.
Proof.
  destruct (main_serves false no_env None os_ok net_fine [] [] ∅ net_fine_tokio eq_refl eq_refl eq_refl) as [Hfirst _].
  destruct Hfirst as (n & w & Hw & Hm & Hr & _); [reflexivity|].
  destruct (main_serves true uring_env (Some 8%Z) os_ok net_fine [] [] {[bs "data" := dropped n (w_store w)]}
    net_fine_monoio eq_refl eq_refl eq_refl) as [_ Hnext].
  destruct (Hnext n (w_store w) seeded_cat (dropped n (w_store w)) Hm Hr seeded_has_system (lookup_singleton_eq _ _))
    as [Hshut _].
  destruct (Hshut (shut_down_ends n (w_store w) (rep_ok _ _ Hr))) as (w' & Hw' & _ & Hr' & Hl).
  exists n, w, w'. split; [exact Hw|]. split; [exact Hw'|]. split; [exact Hr'|exact Hl].
Defined.

(** Two clients of a first run; the second has stopped reading. *)
Lemma program_answers_witness :
  exists n w0 ev w, main false sync_env (Some 4%Z) os_ok net_fine [] [] ∅ = Serving n w0 /\
    world_run (H1 := ascii_case) (H2 := no_literals) (H3 := cql_wire) demo_parse (fun _ => []) Tokio w0 ev w /\
    accepted (events_of 0 ev) = [7; 9]%Z /\
    sn (own_step (H1 := ascii_case) (H2 := no_literals) (H3 := cql_wire) demo_parse (fun _ => []) Tokio [1]) w.
Proof.
  assert (Hc : match main false sync_env (Some 4%Z) os_ok net_fine [] [] ∅ with
               | Serving _ w0 => (fun x => accepted (events_of 0 (snd x))) <$>
                   world_labels (H1 := ascii_case) (H2 := no_literals) (H3 := cql_wire) demo_parse (fun _ => []) Tokio
                     demo_steps w0
               | _ => None end = Some [7; 9]%Z) by (vm_compute; reflexivity).
  destruct (main false sync_env (Some 4%Z) os_ok net_fine [] [] ∅) as [n w0|? ?|? ? ?|?] eqn:Hm; [|discriminate Hc..].
  destruct (world_labels _ _ _ _ _) as [[w ev]|] eqn:Hr; [|discriminate Hc]. injection Hc as Hc.
  apply world_labels_run in Hr. exists n, w0, ev, w. split; [reflexivity|]. split; [exact Hr|]. split; [exact Hc|].
  exact (proj1 (program_answers (H2 := ascii_case) (H3 := no_literals) (H4 := cql_wire) demo_parse (fun _ => [])
    false sync_env (Some 4%Z) os_ok net_fine [] [] ∅ n w0 ev w [1] Hm Hr)).
Defined.
